(* ===== verification/_CoqProject ===== *)
-Q . S2P
Prelude.v
IO.v
ContentStream.v
Monitor.v
Chan.v
Pipe.v
Future.v
FutureHandles.v
RWMutex.v
Locking.v
Socket.v
SocketSetup.v
ServerSetup.v
Network.v
SMap.v
Types.v
Variant.v
Optional.v
Registry.v
AnyStorage.v
Serialization.v
Json.v
Backend.v
Decode.v
ProtocolTypes.v
ProtocolRequests.v
ProtocolResponses.v
ProtocolEvents.v
Protocol.v
Traits.v
Nlohmann.v
JsonCpp.v
RapidJson.v
ReferenceJson.v
SerializationProps.v
Session.v
SessionThreads.v
SessionLocks.v
SessionProps.v
SessionMemory.v
Wire.v
Duplex.v
Debugger.v
HelloDebugger.v
HelloDebuggerProps.v
DecodeProps.v
Receive.v
Streams.v
Fuzz.v
NetExample.v
