(* ===== verification/Prelude.v ===== *)
(** * cppdap: verification development

    cppdap is a C++11 implementation of the Debug Adapter Protocol: a library with
    which a debug client or a debug adapter exchanges requests, responses and events
    over a byte stream. This development models the library, its examples and its fuzzer
    and proves them correct against specifications stated here. Paths below are under
    [src/].

    ** The program and its parts

    A message travels through these layers, from the user's call to the wire:

    - [Session] ([src/session.cpp], [include/dap/session.h]) gives every request a
      sequence number, remembers the handler of its response, and dispatches incoming
      messages by type and name;
    - the serializers ([include/dap/serialization.h], [include/dap/typeof.h]) turn a
      value of a DAP type into calls of an abstract [Serializer], and one of three JSON
      backends ([src/nlohmann_json_serializer.cpp], [src/jsoncpp_json_serializer.cpp],
      [src/rapid_json_serializer.cpp]) turns these into a JSON document;
    - [ContentWriter] and [ContentReader] ([src/content_stream.cpp]) frame a message
      with a [Content-Length] header;
    - [Reader] and [Writer] ([include/dap/io.h]) are the transports: pipes, files,
      spies ([src/io.cpp]), the string buffer of the tests ([src/string_buffer.h]) and
      sockets ([src/socket.cpp]), which a server accepts ([src/network.cpp]).

    The protocol's structs ([include/dap/protocol.h], [src/protocol_types.cpp],
    [src/protocol_requests.cpp], [src/protocol_response.cpp], [src/protocol_events.cpp])
    are data for the serializers; their type objects live in a registry
    ([src/typeof.cpp]). A session owns a receiving and a dispatching thread that share a
    channel ([src/chan.h]); the caller of [send] waits on a future
    ([include/dap/future.h]); sockets guard their handle with a reader/writer mutex
    ([src/rwmutex.h]). The templates of [include/dap/traits.h] choose between the overloads
    of a session's methods. [examples/hello_debugger.cpp] is an adapter built on all of
    this, [examples/simple_net_client_server.cpp] a server, [fuzz/fuzz.cpp] a fuzzer.

    ** Files

    - [Prelude]: the outcome monad, machine integers, bytes and strings, decimal
      text, C strings, the tactics and the hint database.
    - [IO]: the stream interfaces as type classes, what a stream promises to its
      clients ([ReaderContract], [WriterContract], [Loopback]), and its
      implementations [StringBuffer], [RW], [File], [ReaderSpy], [WriterSpy].
    - [ContentStream]: [ContentReader] and [ContentWriter], the specification of a
      frame on a flat byte sequence ([Frames]), and the refinement between the two.
    - [Monitor]: threads that share an object guarded by a mutex and a condition
      variable, as a step relation with spurious wake-ups and timeouts; lost wake-ups
      and linearization once for all.
    - [Chan], [Pipe], [Future]: three monitors. [Pipe] is also a transport that meets
      the contracts of [IO]. [FutureHandles]: the promise and future objects that share
      a state, with their copies and moves.
    - [RWMutex]: the reader/writer mutex and its lock objects, as a step relation of
      its own (its wait keeps the inner mutex locked). [Locking]: what a client needs of
      such a lock, as a class ([RWLock]) that [RWMutex] implements.
    - [Socket]: [Socket::Shared] over any [RWLock] as a step relation, with the system
      calls left open; the constructor and [accept]. [SocketSetup]: the whole of
      the socket code as programs over a history of system calls, from [getaddrinfo] to
      the destructor. [ServerSetup]: the server over that code and any answers of the
      operating system. [Network]: the server and its thread as a step relation.
    - [SMap]: string-keyed maps in a canonical form, so that maps can nest in values.
    - [Types]: the DAP types [ty] and their values [value], [any], [variant], struct
      descriptions, default construction.
    - [Variant]: programs over [variant]s and what a variant is to them.
    - [Optional]: the class [optional] with its flag and its value, and its operators.
    - [Registry]: the type objects and their registry, with its reference count.
    - [AnyStorage]: the class [any] ([include/dap/any.h]) over addresses, with its
      buffer, heap block, copies and moves, for any layout and allocator ([Platform]).
    - [Serialization]: [Deserializer], [Serializer] and [FieldSerializer] as type
      classes, and the code generic over them: [deserialize], [serialize],
      [deserializeFields], [serializeFields].
    - [Json]: JSON documents, the encoding of a value as a function with no storage
      and no fuel ([json_of]), the contracts of a backend, and the two theorems that
      the generic code stores and loads that encoding. A contract has the [limits] of
      its backend: the strings, names, numbers, lengths and depths it carries.
    - [Backend]: what the three backends share (loops, the class [JsonBackend] the
      session uses, the round trip once for all).
    - [Decode]: what a backend promises about documents nobody encoded
      ([DeserializerSafe], which nlohmann/json and JsonCpp keep), and that [deserialize]
      is safe on them.
    - [ProtocolTypes], [ProtocolRequests], [ProtocolResponses], [ProtocolEvents],
      [Protocol]: the 135 structs of DAP 1.65 and the facts about them.
    - [Traits]: C++ types, the templates of [traits.h] as functions on them, and the
      overloads of [registerHandler] and [send] that a handler of a given type selects.
    - [Nlohmann], [JsonCpp], [RapidJson]: the backends, each over an abstract library
      with its documented laws; they meet the contracts of [Json].
    - [ReferenceJson]: concrete libraries that obey these laws, on which the witnesses
      run.
    - [SerializationProps], [DecodeProps]: the theorems about encoding and decoding.
    - [Session], [SessionProps]: the session as functions on its state, and the
      theorems about messages. [SessionThreads]: its two threads and its destructor as a
      step relation. [SessionLocks]: its six mutexes, with the methods, the ones that
      take no lock included, as sequences of locks and accesses. [SessionMemory]: the storage of the objects it deserializes.
    - [Wire]: two sessions over two pipes, with all their threads: the layers together,
      for a client that calls and a server that answers. [Duplex]: the same for two peers
      that both send requests and events; a direction is specified once and holds for
      both by symmetry.
    - [Receive]: the receiving thread on arbitrary bytes, over the classes of what it
      needs of a transport ([ReaderTotal]) and of a JSON library ([ParsesAll]).
    - [Streams]: streams that share parts, as objects of a heap with the [FILE]s of the C
      library, and the factory functions of [src/io.cpp].
    - [Fuzz], [NetExample]: the fuzzer and the two halves of the network example.
    - [Debugger], [HelloDebugger], [HelloDebuggerProps]: the example adapter: its two
      classes as monitors, its handlers and [main] over a session, the theorems.

    ** How code is modelled

    A method is a function on the state record of its class that returns the result
    and the new state in [outcome]: [Ret], [Blocks] (it waits and nothing in the state
    can wake it), [Undefined] (a null dereference, a failed [assert], [abort]) or
    [OutOfFuel]. A [size_t], [uint32_t], [int] or [int64_t] is a [Z] with its
    wrap-around written out, but for the two counters of [RWMutex], which would wrap only
    at 2^31 locks held at a time; a [double] is its bit pattern, which the code only
    copies. A method that fills an object through a pointer takes and returns the
    object's value. A reference into a container ([NlohmannSerializer s(&slot)]) is
    read before and written back after the call that uses it, which nothing else
    observes. The iteration order of an unordered map is that of [SMap]; what is
    built from it does not depend on the order. The callbacks of the user are values
    that the session stores and calls; a call is recorded in its log, and a request
    handler is a function to the replies it makes; the handler of a sent response runs
    inside the reply ([Session.reply_with]). Code that threads run at the same
    time is a step relation whose steps are the parts between two points where another
    thread can be seen.

    Loops whose end depends on data take a fuel. The theorems say how much is enough:
    more than the unread bytes for the content reader, more than the height of the
    value for [serialize], two more than that plus the nesting of structs by value for
    [deserialize] of an encoding (4 for the protocol); for any document of depth [d],
    [2 + k + r + (r + 1) * d], where [k] is that nesting and [r] that of arrays and
    optionals in a member (2 for the protocol). A turn of the receiving thread with [n]
    unread bytes needs [receive_fuel], the same with [d = n + 2], since a document is not
    deeper than it is long; the fuzzer 20 more, for its responses. A call on a stream of
    [Streams] needs one more than the objects of the heap: an object points to older ones
    only.
    The loops of threads are steps and need none.

    ** What is proved

    - The whole: two peers that send requests and events as they like and whose threads
      run in any interleaving hear every event and get every answer, in the order things
      were sent, after a bounded number of turns ([duplex_in_order], [duplex_delivers]);
      in every interleaving of a client's calls with the threads of both sessions each
      call is answered, once and in order, with what the server's handler
      computes ([wire_calls_in_order], [wire_calls_answered]); the network example is an
      instance ([net_example_completes]).
    - Messages: a request reaches the handler registered for its name with the value
      that was sent, and the handler of that request, and no other, gets the response
      or the error the server computed ([session_rpc], [session_rpc_error]); events
      likewise ([session_event]); payloads are queued in the order of the messages
      ([session_inbox_order], [session_get_payload]); a response is delivered at most
      once ([session_response_at_most_once]); sequence numbers are fresh for 2^32
      sends ([session_seq_fresh]); every message that parses is processed, whatever it
      holds ([session_message_total]); and on any bytes at all the receiving thread
      returns or waits ([session_receive_total], [fuzz_never_crashes]).
    - The storage of a session: every object is constructed, used, destructed and deleted
      once, and what is left are the payloads not yet called ([session_memory_safe]).
    - Compile time: every documented handler and call selects the documented overload
      ([protocol_overloads], [compatible_with_spec]).
    - The threads of a session: payloads are called in order, none is lost that was put
      before the destructor began, and the destructor returns
      ([session_payloads_in_order], [session_destructor_returns]); its locks never
      deadlock, the handler maps never race, and the other members only when a method that
      takes no lock overlaps with another use ([session_locks_safe]), as [connect] or the
      destructor does with a send ([session_unlocked_races]).
    - Encoding: a backend stores exactly [json_of] of a value
      ([nlohmann_serialize_encodes]) and gives the value back ([nlohmann_roundtrip],
      [jsoncpp_roundtrip], [rapid_roundtrip]), for every struct of the protocol
      ([protocol_message_roundtrip]) but for what a struct does not serialize ([lossless]):
      that is one member, the [hex] a StackFrameFormat inherits ([protocol_hex_lost]).
      Otherwise the descriptions are complete, and they are unambiguous
      ([protocol_structs_complete], [protocol_dispatch_names]). With nlohmann/json and
      JsonCpp decoding any document returns and leaves an object of its type, up to what
      is in a variant ([decode_keeps_type], [nlohmann_lenient_decoding]).
    - Framing: the reader computes the frame specification ([content_read_refines]),
      reads back what the writer wrote ([content_roundtrip]), skips text between
      frames, does not depend on how the transport splits the stream
      ([content_chunking_irrelevant]), rejects bad headers.
    - Concurrency: the channel and the pipe are FIFO in every interleaving, futures
      give the value of their promise, none loses a wake-up ([chan_fifo], [pipe_fifo],
      [future_gives_value], [chan_take_wakes], [future_wakes_waiters]); the
      reader/writer mutex excludes and does not lose writers ([rwmutex_exclusion],
      [rwmutex_no_lost_wakeup]); a future gives the last value set through any copy of
      its promise ([handles_get_last]), and handles never dangle ([handles_safe]).
    - Streams: calls on streams built from streams end, and are undefined only when they
      reach a null stream or a dead [FILE] ([streams_safe]), as two closable files of one
      [FILE] make it ([file_closed_twice]); a pair of spies logs the transcript ([spies_log_transcript]).
    - Sockets: no call on a closed descriptor ([socket_no_use_after_close]), what
      [connect] returns and that it releases what it does not return
      ([socket_connect_resources], [socket_set_blocking]), unless a descriptor does not fit
      the set of [select] ([socket_connect_fd_set]); the server starts and stops in order
      ([server_orderly], [server_stop_returns]), [start] does what the operating system
      allows ([server_start_outcomes]) and a server releases what it acquired
      ([server_releases]).
    - Storage and types: a program over [any] objects has no undefined behaviour,
      computes what its assignments say and leaks nothing ([any_storage_refines]); one
      over [optional] objects computes what it computes over [option]
      ([optional_refines], [optional_order]), one over [variant]s what it computes over
      tagged values ([variant_refines]); type objects are one per type
      ([typeinfo_identity]), and the registry and those it owns live as long as it is
      referenced ([registry_lifetime]).
    - The example adapter: the debugger stops at the next breakpoint
      ([debugger_stops_at_next]); the response to Initialize precedes the Initialized
      event on the wire ([hello_initialize_order]); what happens before the adapter starts
      and exits ([hello_lifecycle], [hello_set_breakpoints]).
    - Errors and limits, as the code has them: untyped messages, second
      registrations, second connections; and behaviours a user should know of: a
      response without ['success'] loses its request, an event without a body is
      rejected, a failed send leaves its promise registered, a zero-length message
      breaks the framing, an overlong length wraps, a pipe waits for all bytes, an
      upgrade of a read lock and a move-assigned lock object hang, a moved [any] leaks
      ([any_move_dangles]), text that is not JSON aborts with JsonCpp
      ([jsoncpp_malformed_aborts]) and a value of the wrong shape asserts with RapidJSON
      ([rapid_wrong_shapes]), a failed bind hangs ([socket_bind_failure_blocks]), a
      socket error leaks the descriptor ([socket_error_leaks]), an error handler that
      sends deadlocks ([session_error_handler_deadlocks]), a session on a transport that
      does not wake its readers hangs when destroyed ([session_destructor_hangs]), the
      type objects of structs do not outlive static destruction
      ([struct_typeinfo_not_kept]), the receiving thread does not notice the end of a
      stream ([session_ignores_end_of_stream]), a peer that closes a pipe drops what is still
      in it ([duplex_close_drops]), a payload can be called once only
      ([session_payload_twice_undefined]), a handler in a variable does not compile
      ([register_lvalue_ill_formed]), the network example can lose its first request
      ([net_example_loses_request]).

    ** What is not modelled

    The code for Windows and macOS in the sockets; the allocators of the JSON libraries,
    and which serializer or deserializer deletes a document; the counts of [shared_ptr]s
    (a [File] that is destroyed is one that is closed); assignment of an [optional] of another type, which
    does not compile; the printing of the network example; the Go program that generates
    the protocol files, and the tests.
    The session's data ([Session]), threads ([SessionThreads]), locks ([SessionLocks]) and
    storage ([SessionMemory]) are models of the same code: in the first each operation is
    atomic, the second abstracts payloads, the third the data, and the fourth refines the
    first. In [Wire] and [Duplex] a message is read in one step, and the bytes in flight are
    assumed to fit a [size_t]. In [ServerSetup] the accepting thread takes whole turns; the
    finer interleaving is that of [Network]. [SessionLocks] has no order between the calls
    of two threads but that of the mutexes. What is left of the sources is declarations,
    includes and comments. *)
From Stdlib Require Import Ascii String ZArith Lia.
From stdpp Require Export base list strings numbers gmap.

Global Set Default Proof Using "Type".
#[global] Open Scope Z_scope.

(** ** Outcomes of an operation

    [Ret a]: the call returned [a]; [Blocks]: the call waits for another thread
    and nothing in the current state can wake it; [Undefined]: a null
    dereference, a failed [assert] or [std::abort]; [OutOfFuel]: the bound on
    the iterations of a loop was too small (never a behaviour of the code). *)
Inductive outcome (A : Type) : Type :=
| Ret (a : A)
| Blocks
| Undefined
| OutOfFuel.

Arguments Ret {A} a.
Arguments Blocks {A}.
Arguments Undefined {A}.
Arguments OutOfFuel {A}.

#[global] Instance outcome_ret : MRet outcome := fun A a => Ret a.
#[global] Instance outcome_bind : MBind outcome := fun A B f m =>
  match m with
  | Ret a => f a
  | Blocks => Blocks
  | Undefined => Undefined
  | OutOfFuel => OutOfFuel
  end.

(** Dereferencing a [std::shared_ptr] or raw pointer. *)
Definition deref {A} (p : option A) : outcome A :=
  match p with Some a => Ret a | None => Undefined end.

Lemma outcome_bind_ret_l {A B} (a : A) (f : A -> outcome B) : (Ret a ≫= f) = f a.
Proof. done. Qed.

Lemma outcome_bind_inv {A B} (m : outcome A) (f : A -> outcome B) b :
  (m ≫= f) = Ret b -> exists a, m = Ret a /\ f a = Ret b.
Proof. destruct m; naive_solver. Qed.

(** ** Machine integers: values are [Z], the wrap-around is written out *)
Definition u8 (z : Z) : Z := z mod 2 ^ 8.
Definition u32 (z : Z) : Z := z mod 2 ^ 32.
Definition u64 (z : Z) : Z := z mod 2 ^ 64.
Definition s32 (z : Z) : Z := (z + 2 ^ 31) mod 2 ^ 32 - 2 ^ 31.
Definition s64 (z : Z) : Z := (z + 2 ^ 63) mod 2 ^ 64 - 2 ^ 63.

Lemma u32_small z : 0 <= z < 2 ^ 32 -> u32 z = z.
Proof. apply Z.mod_small. Qed.

Lemma u64_small z : 0 <= z < 2 ^ 64 -> u64 z = z.
Proof. apply Z.mod_small. Qed.

Lemma u32_range z : 0 <= u32 z < 2 ^ 32.
Proof. apply Z.mod_pos_bound. lia. Qed.

Lemma u64_range z : 0 <= u64 z < 2 ^ 64.
Proof. apply Z.mod_pos_bound. lia. Qed.

Lemma s32_small z : - 2 ^ 31 <= z < 2 ^ 31 -> s32 z = z.
Proof. intros. unfold s32. rewrite Z.mod_small; lia. Qed.

Lemma s32_range z : - 2 ^ 31 <= s32 z < 2 ^ 31.
Proof. unfold s32. pose proof (Z.mod_pos_bound (z + 2 ^ 31) (2 ^ 32)). lia. Qed.

(** Two values of one 32-bit counter convert to the same [int] only if they are
    equal: the conversion of [uint32_t] to [int] loses nothing. *)
Lemma s32_inj a b : 0 <= a < 2 ^ 32 -> 0 <= b < 2 ^ 32 -> s32 a = s32 b -> a = b.
Proof.
  unfold s32. intros Ha Hb H.
  assert (Hm : (a + 2 ^ 31) mod 2 ^ 32 = (b + 2 ^ 31) mod 2 ^ 32) by lia.
  pose proof (Z.div_mod (a + 2 ^ 31) (2 ^ 32)). pose proof (Z.div_mod (b + 2 ^ 31) (2 ^ 32)).
  nia.
Qed.

(** ** Bytes and strings

    A [char] or [uint8_t] is an [ascii] (eight bits), a byte buffer a list of
    them, a [std::string] a [string]. *)
Abbreviation bytes := (list ascii).

Definition bytes_of (s : string) : bytes := list_ascii_of_string s.
Definition string_of (l : bytes) : string := string_of_list_ascii l.

#[global] Arguments bytes_of _ : simpl never.
#[global] Arguments string_of _ : simpl never.

(** [std::string::size], [std::deque::size]. *)
Definition size_of {A} (l : list A) : Z := Z.of_nat (length l).

Definition NUL : ascii := ascii_of_nat 0.
Definition CR : ascii := ascii_of_nat 13.
Definition LF : ascii := ascii_of_nat 10.
Definition TAB : ascii := ascii_of_nat 9.

Definition CRLFCRLF : string := String CR (String LF (String CR (String LF EmptyString))).

Definition code (c : ascii) : Z := Z.of_nat (nat_of_ascii c).

Lemma bytes_of_string_of l : bytes_of (string_of l) = l.
Proof. apply list_ascii_of_string_of_list_ascii. Qed.

Lemma string_of_bytes_of s : string_of (bytes_of s) = s.
Proof. apply string_of_list_ascii_of_string. Qed.

Lemma bytes_of_app s1 s2 : bytes_of (s1 +:+ s2) = bytes_of s1 ++ bytes_of s2.
Proof.
  induction s1 as [|a s1 IH]; [done|].
  change (a :: bytes_of (s1 +:+ s2) = a :: (bytes_of s1 ++ bytes_of s2)). by rewrite IH.
Qed.

Lemma length_bytes_of s : length (bytes_of s) = String.length s.
Proof. unfold bytes_of. induction s; cbn; congruence. Qed.

Lemma size_of_nonneg {A} (l : list A) : 0 <= size_of l.
Proof. unfold size_of. lia. Qed.

Lemma size_of_app {A} (l k : list A) : size_of (l ++ k) = size_of l + size_of k.
Proof. unfold size_of. rewrite length_app. lia. Qed.

Lemma size_of_cons {A} (x : A) l : size_of (x :: l) = size_of l + 1.
Proof. unfold size_of. cbn. lia. Qed.

Lemma size_of_nil {A} : size_of (@nil A) = 0.
Proof. done. Qed.

Lemma size_of_zero {A} (l : list A) : size_of l = 0 -> l = [].
Proof. destruct l; [done|]. rewrite size_of_cons. pose proof (size_of_nonneg l). lia. Qed.

(** ** [std::to_string] on a non-negative integer *)
Definition digit (d : Z) : ascii := ascii_of_nat (Z.to_nat (d + 48)).

Fixpoint digits (fuel : nat) (n : Z) (acc : bytes) : bytes :=
  match fuel with
  | O => acc
  | S fuel =>
    if n <? 10 then digit n :: acc
    else digits fuel (n / 10) (digit (n mod 10) :: acc)
  end.

(** [Z.log2 n + 1] digits are enough: every step at least halves [n]. *)
Definition to_string (n : Z) : string :=
  string_of (digits (Z.to_nat (Z.log2 n) + 1) n []).

#[global] Arguments to_string _ : simpl never.

Lemma code_range c : 0 <= code c < 256.
Proof. unfold code. pose proof (nat_ascii_bounded c). lia. Qed.

Lemma code_digit d : 0 <= d < 10 -> code (digit d) = d + 48.
Proof. intros. unfold code, digit. rewrite nat_ascii_embedding; lia. Qed.

Lemma code_inj c1 c2 : code c1 = code c2 -> c1 = c2.
Proof.
  unfold code. intros H. rewrite <-(ascii_nat_embedding c1), <-(ascii_nat_embedding c2).
  f_equal. lia.
Qed.

Definition is_digit (c : ascii) : bool := (48 <=? code c) && (code c <? 58).

Lemma is_digit_digit d : 0 <= d < 10 -> is_digit (digit d) = true.
Proof. intros. unfold is_digit. rewrite code_digit by lia. lia. Qed.

Lemma digits_app fuel n acc : digits fuel n acc = digits fuel n [] ++ acc.
Proof.
  revert n acc. induction fuel as [|fuel IH]; intros n acc; [done|]. cbn.
  destruct (n <? 10); [done|].
  rewrite IH, (IH _ [_]), <-app_assoc. done.
Qed.

Lemma digits_all_digits fuel n : 0 <= n -> Forall (fun c => is_digit c = true) (digits fuel n []).
Proof.
  revert n. induction fuel as [|fuel IH]; intros n Hn; cbn; [constructor|].
  destruct (n <? 10) eqn:E.
  - repeat constructor. apply is_digit_digit. lia.
  - rewrite digits_app. apply Forall_app. split; [apply IH, Z.div_pos; lia|].
    repeat constructor. apply is_digit_digit, Z.mod_pos_bound. lia.
Qed.

(** The value of a digit string in exact arithmetic. *)
Definition decimal (start : Z) (ds : bytes) : Z :=
  fold_left (fun v c => v * 10 + (code c - 48)) ds start.

Lemma log2_div10 n : 10 <= n -> Z.log2 (n / 10) + 1 <= Z.log2 n.
Proof.
  intros. assert (Z.log2 (n / 10) <= Z.log2 (n / 2)).
  { apply Z.log2_le_mono, Z.div_le_compat_l; lia. }
  assert (Z.log2 (n / 2) = Z.log2 n - 1); [|lia].
  change 2 with (2 ^ 1). rewrite <-Z.shiftr_div_pow2 by lia.
  rewrite Z.log2_shiftr by lia. assert (1 <= Z.log2 n); [|lia].
  apply (Z.log2_le_mono 2 n). lia.
Qed.

Lemma decimal_digits fuel n :
  0 <= n -> Z.log2 n < Z.of_nat fuel -> decimal 0 (digits fuel n []) = n.
Proof.
  revert n. induction fuel as [|fuel IH]; intros n Hn Hf.
  { pose proof (Z.log2_nonneg n). lia. }
  cbn. destruct (n <? 10) eqn:E.
  - unfold decimal. cbn. rewrite code_digit; lia.
  - rewrite digits_app. unfold decimal. rewrite fold_left_app. cbn.
    fold (decimal 0 (digits fuel (n / 10) [])).
    pose proof (log2_div10 n). pose proof (Z.mod_pos_bound n 10).
    rewrite IH, code_digit; [|lia|apply Z.div_pos; lia|lia].
    pose proof (Z.div_mod n 10). lia.
Qed.

Lemma digits_nonempty fuel n : digits (S fuel) n [] <> [].
Proof.
  cbn. destruct (n <? 10); [done|]. rewrite digits_app. by destruct (digits _ _ _).
Qed.

Lemma to_string_digits n :
  0 <= n ->
  Forall (fun c => is_digit c = true) (bytes_of (to_string n)) /\
  decimal 0 (bytes_of (to_string n)) = n.
Proof.
  intros. unfold to_string. rewrite bytes_of_string_of. split.
  - by apply digits_all_digits.
  - apply decimal_digits; [done|]. pose proof (Z.log2_nonneg n). lia.
Qed.

(** ** C strings

    [cstr l] is the string a [const char*] to the bytes [l] denotes: [strlen]
    stops at the first NUL. [snprintf cap s] is the string left in a buffer of
    [cap] bytes by [vsnprintf] when the formatted text is [s]. *)
Fixpoint cstr (l : bytes) : bytes :=
  match l with
  | [] => []
  | c :: l => if bool_decide (c = NUL) then [] else c :: cstr l
  end.

Definition snprintf (cap : Z) (s : bytes) : bytes := cstr (take (Z.to_nat (cap - 1)) s).

Lemma cstr_length l : (length (cstr l) <= length l)%nat.
Proof. induction l; cbn; [lia|]. case_bool_decide; cbn; lia. Qed.

Lemma snprintf_bound cap s : 1 <= cap -> size_of (snprintf cap s) < cap.
Proof.
  intros. unfold snprintf, size_of.
  pose proof (cstr_length (take (Z.to_nat (cap - 1)) s)). rewrite length_take in *. lia.
Qed.

Lemma cstr_id l : NUL ∉ l -> cstr l = l.
Proof.
  induction l as [|c l IH]; cbn; [done|]. rewrite not_elem_of_cons. intros [??].
  rewrite bool_decide_eq_false_2 by done. by rewrite IH.
Qed.

Lemma snprintf_id cap s : NUL ∉ s -> size_of s < cap -> snprintf cap s = s.
Proof.
  intros. unfold snprintf, size_of in *. rewrite take_ge by lia. by apply cstr_id.
Qed.

(** ** Automation *)
Create HintDb dap discriminated.
#[export] Hint Resolve size_of_nonneg u64_range u32_range s32_range code_range : dap.

(** Split the result of a monadic computation known to return. *)
Ltac inv_outcome :=
  repeat match goal with
  | H : (_ ≫= _) = Ret _ |- _ =>
      apply outcome_bind_inv in H; destruct H as (? & ? & H)
  | H : Ret _ = Ret _ |- _ => injection H as H
  end; simplify_eq/=.

(** Case on every boolean test of the goal and keep its meaning for [lia]. *)
Ltac case_tests :=
  repeat match goal with
  | |- context [if ?b then _ else _] => let E := fresh "E" in destruct b eqn:E
  end.

(** Lengths of take, drop and append, as linear facts. *)
Ltac len_solve :=
  unfold size_of in *;
  repeat match goal with
  | |- context [length (_ ++ _)] => rewrite length_app
  | |- context [length (take _ _)] => rewrite length_take
  | |- context [length (drop _ _)] => rewrite length_drop
  | H : context [length (_ ++ _)] |- _ => rewrite length_app in H
  | H : context [length (take _ _)] |- _ => rewrite length_take in H
  | H : context [length (drop _ _)] |- _ => rewrite length_drop in H
  | H : context [length (_ :: _)] |- _ => cbn [length] in H
  end; cbn [length]; lia.
