(* ===== verification/IO.v ===== *)
(** * Byte streams: the [Reader]/[Writer] interfaces and their implementations

    Models [include/dap/io.h] (the abstract classes [Closable], [Reader] and
    [Writer]), [src/string_buffer.h] and the classes [RW], [File], [ReaderSpy]
    and [WriterSpy] of [src/io.cpp]. [Pipe] is in [Pipe.v], with the threads that
    share it. The contracts the clients of a stream rely on are the classes
    [ReaderContract] and [WriterContract]; the clients' theorems are proved
    against them and the instances below discharge them. *)
From Stdlib Require Import Ascii String ZArith Lia.
From stdpp Require Import base list numbers.
From S2P Require Import Prelude.

(** ** Interfaces *)
Class Closable (C : Type) := {
  isOpen : C -> bool;
  close : C -> C
}.

(** [read r n] fills a buffer of [n] bytes and returns the bytes stored; their
    number is the [size_t] the method returns. *)
Class Reader (R : Type) := {
  reader_closable :: Closable R;
  read : R -> Z -> outcome (bytes * R)
}.

Class Writer (W : Type) := {
  writer_closable :: Closable W;
  write : W -> bytes -> outcome (bool * W)
}.

(** ** Contracts

    [rd_pending r] is the byte sequence [r] can still deliver; [rd_eof r] tells
    whether a read past it returns 0 (end of file, closed stream) or waits for a
    writer. A read returns some non-empty prefix of what is pending, of the
    implementation's choice (chunks, short reads), never more than was asked. *)
Definition delivers {R} `{Reader R} (pending : R -> bytes) (eof : R -> bool)
    (ok : R -> Prop) (r : R) (n : Z) : Prop :=
  exists bs r', read r n = Ret (bs, r') /\ 0 < size_of bs <= n /\
    pending r = bs ++ pending r' /\ eof r' = eof r /\ isOpen r' = isOpen r /\ ok r'.

Class ReaderContract (R : Type) `{Reader R} := {
  rd_ok : R -> Prop;
  rd_pending : R -> bytes;
  rd_eof : R -> bool;
  read_available r n :
    rd_ok r -> 0 < n -> rd_pending r <> [] -> n <= size_of (rd_pending r) \/ rd_eof r = true ->
    delivers rd_pending rd_eof rd_ok r n;
  read_short r n :
    rd_ok r -> 0 < n -> rd_pending r <> [] -> rd_eof r = false ->
    read r n = Blocks \/ delivers rd_pending rd_eof rd_ok r n;
  read_end r n :
    rd_ok r -> 0 < n -> rd_pending r = [] ->
    read r n = if rd_eof r then Ret ([], r) else Blocks
}.

(** [wr_ready w n]: the stream is open and accepts [n] more bytes; [wr_sent w]
    is the byte sequence accepted so far (or, for a stream that can be read back,
    the part of it that was not read yet). *)
Class WriterContract (W : Type) `{Writer W} := {
  wr_ready : W -> Z -> Prop;
  wr_sent : W -> bytes;
  write_ready w n bs :
    wr_ready w n -> 0 < size_of bs <= n ->
    exists w', write w bs = Ret (true, w') /\ wr_sent w' = wr_sent w ++ bs /\
      wr_ready w' (n - size_of bs);
  ready_open w n : wr_ready w n -> isOpen w = true
}.

(** A stream whose writer feeds its own reader. *)
Class Loopback (S : Type) `{ReaderContract S} `{!Writer S} `{!WriterContract S} := {
  loop_pending s n : wr_ready s n -> rd_pending s = wr_sent s;
  loop_ok s n : wr_ready s n -> rd_ok s
}.

(** ** [StringBuffer] ([src/string_buffer.h]) *)
Module StringBuffer.

Record t := mk {
  str : bytes;
  chunk_lengths : list Z;
  closed : bool
}.

Definition create : t := mk [] [] false.

Definition isOpen (b : t) : bool := negb b.(closed).

Definition close (b : t) : t := mk b.(str) b.(chunk_lengths) true.

(** [memcpy] and [str.begin() + len] are undefined past the end of [str]. *)
Definition read (b : t) (n : Z) : outcome (bytes * t) :=
  if b.(closed) || (n =? 0) || (size_of b.(str) =? 0) || (size_of b.(chunk_lengths) =? 0)
  then Ret ([], b)
  else
    match b.(chunk_lengths) with
    | [] => Undefined
    | chunk_length :: rest =>
      let len := Z.min n chunk_length in
      if len <=? size_of b.(str) then
        Ret (take (Z.to_nat len) b.(str),
             mk (drop (Z.to_nat len) b.(str))
                (if n <? chunk_length then (chunk_length - n) :: rest else rest)
                b.(closed))
      else Undefined
    end.

Definition write (b : t) (bs : bytes) : bool * t :=
  if b.(closed) then (false, b)
  else (true, mk (b.(str) ++ bs) (b.(chunk_lengths) ++ [size_of bs]) b.(closed)).

(** [write(const std::string&)] and [string()]. *)
Definition write_string (b : t) (s : string) : bool * t := write b (bytes_of s).

Definition contents (b : t) : string := string_of b.(str).

(** Representation invariant: the chunk lengths partition the text. *)
Definition inv (b : t) : Prop :=
  foldr Z.add 0 b.(chunk_lengths) = size_of b.(str) /\ Forall (fun c => 0 <= c) b.(chunk_lengths).

(** No zero-length write is pending (a zero-length chunk makes [read] return 0
    although text is left). *)
Definition inv_pos (b : t) : Prop :=
  foldr Z.add 0 b.(chunk_lengths) = size_of b.(str) /\ Forall (fun c => 0 < c) b.(chunk_lengths).

Lemma inv_pos_inv b : inv_pos b -> inv b.
Proof.
  intros [? Hp]. split; [done|]. eapply Forall_impl; [exact Hp|]. cbn. lia.
Qed.

Lemma foldr_add_nonneg l : Forall (fun c => 0 <= c) l -> 0 <= foldr Z.add 0 l.
Proof. induction 1; cbn; lia. Qed.

Lemma foldr_add_app l k : foldr Z.add 0 (l ++ k) = foldr Z.add 0 l + foldr Z.add 0 k.
Proof. induction l; cbn; lia. Qed.

Lemma create_inv_pos : inv_pos create.
Proof. split; [done|constructor]. Qed.

Lemma write_inv b bs : inv b -> inv (write b bs).2.
Proof.
  intros [Hs Hp]. unfold write. destruct (closed b); [done|]. split; cbn.
  - rewrite foldr_add_app, size_of_app. cbn. lia.
  - apply Forall_app. split; [done|]. repeat constructor. apply size_of_nonneg.
Qed.

(** The state after a read that takes [len] bytes of the first chunk. *)
Lemma read_chunk b n c rest :
  0 < n -> inv b -> b.(closed) = false -> size_of b.(str) <> 0 -> b.(chunk_lengths) = c :: rest ->
  Z.min n c <= size_of b.(str) /\
  read b n = Ret (take (Z.to_nat (Z.min n c)) b.(str),
                  mk (drop (Z.to_nat (Z.min n c)) b.(str))
                     (if n <? c then (c - n) :: rest else rest) false).
Proof.
  intros Hn [Hs Hp] Hc Hne Hl. rewrite Hl in Hs, Hp. cbn in Hs.
  apply Forall_cons in Hp as [? Hp]. apply foldr_add_nonneg in Hp.
  assert (Hle : Z.min n c <= size_of b.(str)) by lia. split; [done|].
  unfold read. rewrite Hc, Hl.
  assert ((n =? 0) = false) as -> by lia. assert ((size_of (str b) =? 0) = false) as -> by lia.
  rewrite size_of_cons. pose proof (size_of_nonneg rest).
  assert ((size_of rest + 1 =? 0) = false) as -> by lia. cbn.
  assert ((Z.min n c <=? size_of (str b)) = true) as -> by lia. done.
Qed.

#[global] Instance StringBuffer_Closable : Closable t := { isOpen := isOpen; close := close }.
#[global] Instance StringBuffer_Reader : Reader t := { read := read }.
#[global] Instance StringBuffer_Writer : Writer t := { write b bs := Ret (write b bs) }.

Definition pending (b : t) : bytes := if b.(closed) then [] else b.(str).

Lemma pending_chunk b :
  inv_pos b -> pending b <> [] ->
  b.(closed) = false /\ size_of b.(str) <> 0 /\ exists c rest, b.(chunk_lengths) = c :: rest /\ 0 < c.
Proof.
  unfold pending. intros [Hs Hp] Hne. destruct (closed b); [done|]. split; [done|].
  assert (size_of b.(str) <> 0) by (intros ?%size_of_zero; done). split; [done|].
  destruct b.(chunk_lengths) as [|c rest]; [cbn in Hs; lia|].
  apply Forall_cons in Hp as [? _]. eauto.
Qed.

Lemma buffer_read_delivers b n :
  inv_pos b -> 0 < n -> pending b <> [] -> delivers pending (fun _ => true) inv_pos b n.
Proof.
  intros Hi Hn Hne. destruct (pending_chunk _ Hi Hne) as (Hc & Hs & c & rest & Hl & Hcp).
  destruct (read_chunk b n c rest Hn (inv_pos_inv _ Hi) Hc Hs Hl) as [Hle Hr].
  eexists _, _. split; [exact Hr|]. split; [len_solve|].
  unfold pending. cbn. rewrite Hc. split; [by rewrite take_drop|]. split; [done|].
  split; [cbn; unfold isOpen; by rewrite Hc|].
  destruct Hi as [Hsum Hp]. rewrite Hl in Hsum, Hp. apply Forall_cons in Hp as [_ Hp].
  cbn in Hsum. split; cbn; destruct (n <? c) eqn:E; cbn; [len_solve|len_solve| |done].
  constructor; [lia|done].
Qed.

#[global] Instance StringBuffer_ReaderContract : ReaderContract t.
Proof.
  refine {| rd_ok := inv_pos; rd_pending := pending; rd_eof := fun _ => true |}.
  - intros. by apply buffer_read_delivers.
  - done.
  - intros b n Hi Hn Hp. cbn. unfold read. unfold pending in Hp.
    destruct (closed b); [done|]. rewrite Hp. cbn. by destruct (n =? 0).
Defined.

#[global] Instance StringBuffer_WriterContract : WriterContract t.
Proof.
  refine {| wr_ready := fun b _ => b.(closed) = false /\ inv_pos b; wr_sent := str |}.
  - intros b n bs [Hc [Hs Hp]] Hn. cbn. unfold write. rewrite Hc. eexists. split; [done|].
    split; [done|]. split; [done|]. split; cbn.
    + rewrite foldr_add_app, size_of_app. cbn. lia.
    + apply Forall_app. split; [done|]. repeat constructor. lia.
  - intros b n [Hc _]. cbn. unfold isOpen. by rewrite Hc.
Defined.

#[global] Instance StringBuffer_Loopback : Loopback t.
Proof.
  constructor; cbn; [|tauto]. intros b n [Hc _]. unfold pending. by rewrite Hc.
Qed.

End StringBuffer.

(** ** [RW]: a [ReaderWriter] made of a [Reader] and a [Writer] ([src/io.cpp]) *)
Module RW.
Section RW.
Context {R W : Type} `{!Reader R, !Writer W}.

Record t := mk { r : R; w : W }.

Definition isOpen (x : t) : bool := IO.isOpen x.(r) && IO.isOpen x.(w).

Definition close (x : t) : t := mk (IO.close x.(r)) (IO.close x.(w)).

Definition read (x : t) (n : Z) : outcome (bytes * t) :=
  '(bs, r') ← IO.read x.(r) n; Ret (bs, mk r' x.(w)).

Definition write (x : t) (bs : bytes) : outcome (bool * t) :=
  '(ok, w') ← IO.write x.(w) bs; Ret (ok, mk x.(r) w').

#[global] Instance RW_Closable : Closable t := { isOpen := isOpen; close := close }.
#[global] Instance RW_Reader : Reader t := { read := read }.
#[global] Instance RW_Writer : Writer t := { write := write }.

#[global] Instance RW_WriterContract `{!WriterContract W} : WriterContract t.
Proof.
  refine {| wr_ready := fun x n => IO.isOpen x.(r) = true /\ wr_ready x.(w) n; wr_sent := fun x => wr_sent x.(w) |}.
  - intros x n bs [Ho Hr] Hn. destruct (write_ready _ _ _ Hr Hn) as (w' & Hw & ? & ?).
    exists (mk x.(r) w'). cbn. unfold write. by rewrite Hw.
  - intros x n [Ho Hr]. cbn. unfold isOpen. by rewrite Ho, (ready_open _ _ Hr).
Defined.

Lemma rw_read_delivers `{!ReaderContract R} x n :
  delivers rd_pending rd_eof rd_ok x.(r) n ->
  delivers (fun x => rd_pending x.(r)) (fun x => rd_eof x.(r)) (fun x => rd_ok x.(r)) x n.
Proof.
  intros (bs & r' & Hr & ? & ? & ? & Ho & ?). exists bs, (mk r' x.(w)). cbn.
  unfold read, isOpen. rewrite Hr. cbn. by rewrite Ho.
Qed.

#[global] Instance RW_ReaderContract `{!ReaderContract R} : ReaderContract t.
Proof.
  refine {| rd_ok := fun x => rd_ok x.(r); rd_pending := fun x => rd_pending x.(r);
            rd_eof := fun x => rd_eof x.(r) |}.
  - intros. by apply rw_read_delivers, read_available.
  - intros x n Hok Hn Hp He. destruct (read_short _ _ Hok Hn Hp He) as [Hr|?].
    + left. cbn. unfold read. by rewrite Hr.
    + right. by apply rw_read_delivers.
  - intros x n Hok Hn Hp. cbn. unfold read. rewrite (read_end _ _ Hok Hn Hp).
    destruct x. cbn. by destruct (rd_eof _).
Defined.

End RW.
Arguments t : clear implicits.
End RW.

(** ** [File]: a [ReaderWriter] over a C [FILE*] ([src/io.cpp])

    The stream as the C library documents it: [f_in] is what [fgetc] still
    delivers before [EOF], [f_out] what was written, [f_room] how many more bytes
    the device accepts before [fwrite] reports a short count. Using a stream
    after [fclose] is undefined. *)
Module File.

Record FILE := mkFILE { f_in : bytes; f_out : bytes; f_room : Z; f_open : bool }.

Definition fgetc (f : FILE) : outcome (option ascii * FILE) :=
  if f.(f_open) then
    match f.(f_in) with
    | [] => Ret (None, f)
    | c :: rest => Ret (Some c, mkFILE rest f.(f_out) f.(f_room) true)
    end
  else Undefined.

Definition fwrite (f : FILE) (bs : bytes) : outcome (Z * FILE) :=
  if f.(f_open) then
    let n := Z.min (size_of bs) f.(f_room) in
    Ret (n, mkFILE f.(f_in) (f.(f_out) ++ take (Z.to_nat n) bs) (f.(f_room) - n) true)
  else Undefined.

(** Closing a [FILE] twice is undefined behaviour. *)
Definition fclose (f : FILE) : outcome FILE :=
  if f.(f_open) then Ret (mkFILE f.(f_in) f.(f_out) f.(f_room) false) else Undefined.

Record t := mk { f : FILE; closable : bool; closed : bool }.

Definition isOpen (x : t) : bool := negb x.(closed).

(** The flag is set first, then the [FILE] is closed. *)
Definition close (x : t) : outcome t :=
  if x.(closable) then
    if x.(closed) then Ret x else file ← fclose x.(f); Ret (mk file x.(closable) true)
  else Ret x.

(** [close] of a [File] whose [FILE] nothing else closes; [Streams.v] has the [File]s
    that share one. *)
Definition close_sole (x : t) : t := match close x with Ret x => x | _ => x end.

(** The [FILE] of a [File] that owns it lives until the [File] is closed. *)
Definition sole (x : t) : Prop := x.(closed) = false -> x.(f).(f_open) = true.

Lemma close_sole_spec x : sole x -> close x = Ret (close_sole x) /\ sole (close_sole x).
Proof.
  intros Hx. unfold close_sole, close. destruct (closable x); [|done]. destruct (closed x) eqn:E; [by split|].
  unfold fclose. by rewrite (Hx E).
Qed.

(** The [for] loop of [read], at index [i] with [out] stored. *)
Fixpoint read_loop (i : nat) (file : FILE) (out : bytes) : outcome (bytes * FILE) :=
  match i with
  | O => Ret (out, file)
  | S i =>
    '(c, file') ← fgetc file;
    match c with
    | None => Ret (out, file')
    | Some c => read_loop i file' (out ++ [c])
    end
  end.

Definition read (x : t) (n : Z) : outcome (bytes * t) :=
  '(bs, file') ← read_loop (Z.to_nat n) x.(f) [];
  Ret (bs, mk file' x.(closable) x.(closed)).

Definition write (x : t) (bs : bytes) : outcome (bool * t) :=
  '(n, file') ← fwrite x.(f) bs;
  Ret (n =? size_of bs, mk file' x.(closable) x.(closed)).

#[global] Instance File_Closable : Closable t := { isOpen := isOpen; close := close_sole }.
#[global] Instance File_Reader : Reader t := { read := read }.
#[global] Instance File_Writer : Writer t := { write := write }.

Lemma read_loop_spec i file out :
  file.(f_open) = true ->
  read_loop i file out =
  Ret (out ++ take i file.(f_in),
       mkFILE (drop i file.(f_in)) file.(f_out) file.(f_room) true).
Proof.
  revert file out. induction i as [|i IH]; intros [fi fo fr op] out Ho; cbn in Ho; subst.
  - cbn. by rewrite take_0, drop_0, app_nil_r.
  - cbn. destruct fi as [|c fi]; cbn; [by rewrite app_nil_r|].
    rewrite IH by done. cbn. by rewrite <-app_assoc.
Qed.

Lemma file_read_delivers x n :
  0 < n -> x.(f).(f_open) = true -> x.(f).(f_in) <> [] ->
  delivers (fun x => x.(f).(f_in)) (fun _ => true) (fun x => x.(f).(f_open) = true) x n.
Proof.
  intros Hn Ho Hne. eexists _, _. cbn. unfold read. rewrite read_loop_spec by done. cbn.
  split; [done|]. split.
  { assert (size_of x.(f).(f_in) <> 0) by (intros ?%size_of_zero; done). len_solve. }
  split; [symmetry; apply take_drop|done].
Qed.

#[global] Instance File_ReaderContract : ReaderContract t.
Proof.
  refine {| rd_ok := fun x => x.(f).(f_open) = true; rd_pending := fun x => x.(f).(f_in);
            rd_eof := fun _ => true |}.
  - intros. by apply file_read_delivers.
  - done.
  - intros [[fi fo fr op] ? ?] n Ho Hn Hp. cbn in *. subst. unfold read. cbn.
    rewrite read_loop_spec by done. cbn. by rewrite take_nil, drop_nil.
Defined.

#[global] Instance File_WriterContract : WriterContract t.
Proof.
  refine {| wr_ready := fun x n => x.(closed) = false /\ x.(f).(f_open) = true /\ n <= x.(f).(f_room);
            wr_sent := fun x => x.(f).(f_out) |}.
  - intros x n bs (Hc & Ho & Hr) Hn. cbn. unfold write, fwrite. rewrite Ho. cbn.
    rewrite Z.min_l by lia. rewrite Z.eqb_refl. eexists. split; [done|]. cbn.
    rewrite take_ge by (unfold size_of; lia). split; [done|]. split_and!; [done..|lia].
  - intros x n [Hc _]. cbn. unfold isOpen. by rewrite Hc.
Defined.

End File.

(** ** [ReaderSpy] and [WriterSpy] ([src/io.cpp]) *)
Module ReaderSpy.
Section Spy.
Context {R S : Type} `{!Reader R, !Writer S}.

Record t := mk { r : R; s : S; prefix : bytes }.

Definition isOpen (x : t) : bool := IO.isOpen x.(r).

Definition close (x : t) : t := mk (IO.close x.(r)) x.(s) x.(prefix).

Definition read (x : t) (n : Z) : outcome (bytes * t) :=
  '(bs, r') ← IO.read x.(r) n;
  if size_of bs >? 0 then
    '(_, s') ← IO.write x.(s) (x.(prefix) ++ bs);
    Ret (bs, mk r' s' x.(prefix))
  else Ret (bs, mk r' x.(s) x.(prefix)).

#[global] Instance ReaderSpy_Closable : Closable t := { isOpen := isOpen; close := close }.
#[global] Instance ReaderSpy_Reader : Reader t := { read := read }.

End Spy.
Arguments t : clear implicits.
End ReaderSpy.

Module WriterSpy.
Section Spy.
Context {W S : Type} `{!Writer W, !Writer S}.

Record t := mk { w : W; s : S; prefix : bytes }.

Definition isOpen (x : t) : bool := IO.isOpen x.(w).

Definition close (x : t) : t := mk (IO.close x.(w)) x.(s) x.(prefix).

Definition write (x : t) (bs : bytes) : outcome (bool * t) :=
  '(ok, w') ← IO.write x.(w) bs;
  if ok : bool then
    '(_, s') ← IO.write x.(s) (x.(prefix) ++ bs);
    Ret (true, mk w' s' x.(prefix))
  else Ret (false, mk w' x.(s) x.(prefix)).

#[global] Instance WriterSpy_Closable : Closable t := { isOpen := isOpen; close := close }.
#[global] Instance WriterSpy_Writer : Writer t := { write := write }.

End Spy.
Arguments t : clear implicits.
End WriterSpy.

(** ** [writef]: the formatted text goes through a 2048-byte buffer *)
Definition writef {W} `{Writer W} (w : W) (formatted : bytes) : outcome (bool * W) :=
  write w (snprintf 2048 formatted).
