(* ===== verification/ContentStream.v ===== *)
(** * Message framing: [ContentReader] and [ContentWriter]

    Models [src/content_stream.h] and [src/content_stream.cpp]: messages travel
    as [Content-Length: <n>\r\n\r\n<n bytes>]. The reader pulls bytes from any
    [Reader] through its [buf] deque; the abstract specification [Frames] parses
    the same format from one flat byte sequence, with no buffer and no chunks.
    [read_refines] relates the two for every reader that meets [ReaderContract],
    so the results are independent of how the transport splits the stream. *)
From Stdlib Require Import Ascii String ZArith Lia.
From stdpp Require Import base list numbers.
From S2P Require Import Prelude IO.

(** [OnInvalidData] of [include/dap/session.h]. *)
Inductive OnInvalidData := kIgnore | kClose.

#[global] Instance OnInvalidData_eq_dec : EqDecision OnInvalidData.
Proof. solve_decision. Defined.

(** [strchr]: the terminating NUL of the C string is part of it. *)
Definition strchr (chars : bytes) (c : ascii) : option ascii :=
  if bool_decide (c ∈ chars) || bool_decide (c = NUL) then Some c else None.

Definition content_length_colon : bytes := bytes_of "Content-Length:".
Definition crlfcrlf : bytes := bytes_of CRLFCRLF.
Definition space_tab : bytes := [" "%char; TAB].
Definition decimal_digits_chars : bytes := bytes_of "0123456789".

(** ** [ContentReader] *)
Module ContentReader.
Section ContentReader.
Context {R : Type} `{!Reader R}.

Record t := mk {
  reader : option R;
  buf : bytes;
  on_invalid_data : OnInvalidData
}.

Definition set_buf (x : t) (b : bytes) : t := mk x.(reader) b x.(on_invalid_data).
Definition set_reader (x : t) (r : R) : t := mk (Some r) x.(buf) x.(on_invalid_data).

(** The constructor from a [shared_ptr<Reader>]. *)
Definition create (r : R) (m : OnInvalidData) : t := mk (Some r) [] m.

Definition isOpen (x : t) : bool :=
  match x.(reader) with Some r => IO.isOpen r | None => false end.

Definition close (x : t) : t :=
  match x.(reader) with Some r => set_reader x (IO.close r) | None => x end.

(** The [while (bytes > 0)] loop of [buffer]. *)
Fixpoint buffer_loop (fuel : nat) (x : t) (bytes : Z) : outcome (bool * t) :=
  match fuel with
  | O => OutOfFuel
  | S fuel =>
    if bytes >? 0 then
      let numWant := Z.min 256 bytes in
      r ← deref x.(reader);
      '(chunk, r') ← IO.read r numWant;
      if size_of chunk =? 0 then Ret (false, set_reader x r')
      else buffer_loop fuel (set_reader (set_buf x (x.(buf) ++ chunk)) r')
                       (u64 (bytes - size_of chunk))
    else Ret (true, x)
  end.

Definition buffer (fuel : nat) (x : t) (bytes : Z) : outcome (bool * t) :=
  if bytes <? size_of x.(buf) then Ret (true, x)
  else buffer_loop fuel x (u64 (bytes - size_of x.(buf))).

Definition match_ (fuel : nat) (x : t) (seq : bytes) : outcome (bool * t) :=
  '(ok, x) ← buffer fuel x (size_of seq);
  if negb ok then Ret (false, x)
  else if bool_decide (take (length seq) x.(buf) = seq)
  then Ret (true, set_buf x (drop (length seq) x.(buf)))
  else Ret (false, x).

(** [matchAny]: the returned character, NUL for none. *)
Definition matchAny (fuel : nat) (x : t) (chars : bytes) : outcome (ascii * t) :=
  '(ok, x) ← buffer fuel x 1;
  if negb ok then Ret (NUL, x)
  else
    match x.(buf) with
    | [] => Undefined
    | c :: rest =>
      match strchr chars c with
      | Some p => Ret (p, set_buf x rest)
      | None => Ret (NUL, x)
      end
    end.

(** [scan]: the fuel bounds the iterations of its [while]. *)
Fixpoint scan (fuel fuel_buffer : nat) (x : t) (seq : bytes) : outcome (bool * t) :=
  match fuel with
  | O => OutOfFuel
  | S fuel =>
    '(ok, x) ← buffer fuel_buffer x (size_of seq);
    if negb ok then Ret (false, x)
    else
      '(m, x) ← match_ fuel_buffer x seq;
      if m : bool then Ret (true, x)
      else
        match x.(buf) with
        | [] => Undefined
        | _ :: rest => scan fuel fuel_buffer (set_buf x rest) seq
        end
  end.

Definition badHeader (x : t) : string * t :=
  if bool_decide (x.(on_invalid_data) = kClose) then (EmptyString, close x) else (EmptyString, x).

(** [while (matchAny(" \t")) {}] *)
Fixpoint skip_blanks (fuel fuel_buffer : nat) (x : t) : outcome (unit * t) :=
  match fuel with
  | O => OutOfFuel
  | S fuel =>
    '(c, x) ← matchAny fuel_buffer x space_tab;
    if bool_decide (c = NUL) then Ret (tt, x) else skip_blanks fuel fuel_buffer x
  end.

(** The [while (true)] loop that parses the length. *)
Fixpoint parse_length (fuel fuel_buffer : nat) (x : t) (len : Z) : outcome (Z * t) :=
  match fuel with
  | O => OutOfFuel
  | S fuel =>
    '(c, x) ← matchAny fuel_buffer x decimal_digits_chars;
    if bool_decide (c = NUL) then Ret (len, x)
    else parse_length fuel fuel_buffer x (u64 (u64 (len * 10) + (code c - code "0"%char)))
  end.

(** The body of [read] from the whitespace on, after the header prefix. *)
Definition read_body (fuel : nat) (x : t) : outcome (string * t) :=
  '(_, x) ← skip_blanks fuel fuel x;
  '(len, x) ← parse_length fuel fuel x 0;
  if len =? 0 then Ret (EmptyString, x)
  else
    '(m, x) ← match_ fuel x crlfcrlf;
    if negb m then Ret (badHeader x)
    else
      '(ok, x) ← buffer fuel x len;
      if negb ok then Ret (EmptyString, x)
      else Ret (string_of (take (Z.to_nat len) x.(buf)), set_buf x (drop (Z.to_nat len) x.(buf))).

Definition read (fuel : nat) (x : t) : outcome (string * t) :=
  if bool_decide (x.(on_invalid_data) = kClose) then
    '(m, x) ← match_ fuel x content_length_colon;
    if negb m then Ret (badHeader x) else read_body fuel x
  else
    '(m, x) ← scan fuel fuel x content_length_colon;
    if negb m then Ret (EmptyString, x) else read_body fuel x.

End ContentReader.
Arguments t : clear implicits.
End ContentReader.

(** ** [ContentWriter] *)
Module ContentWriter.
Section ContentWriter.
Context {W : Type} `{!Writer W}.

Record t := mk { writer : option W }.

Definition create (w : W) : t := mk (Some w).

Definition isOpen (x : t) : bool :=
  match x.(writer) with Some w => IO.isOpen w | None => false end.

Definition close (x : t) : t :=
  match x.(writer) with Some w => mk (Some (IO.close w)) | None => x end.

Definition header (msg : string) : bytes :=
  bytes_of "Content-Length: " ++ bytes_of (to_string (size_of (bytes_of msg))) ++ crlfcrlf.

#[global] Arguments header _ : simpl never.

Definition write (x : t) (msg : string) : outcome (bool * t) :=
  w ← deref x.(writer);
  '(ok, w) ← IO.write w (header msg);
  if ok : bool then
    '(ok, w) ← IO.write w (bytes_of msg);
    Ret (ok, mk (Some w))
  else Ret (false, mk (Some w)).

End ContentWriter.
Arguments t : clear implicits.
End ContentWriter.

(** ** Specification: frames of a flat byte sequence

    [eof] tells what happens when the sequence is too short: the transport is at
    its end ([true]) or more may come and the call waits ([false]). *)
Module Frames.
Section Frames.
Context (eof : bool).

Definition need (s : bytes) (n : Z) : outcome bool :=
  if n <=? size_of s then Ret true else if eof then Ret false else Blocks.

Definition expect (s lit : bytes) : outcome (bool * bytes) :=
  ok ← need s (size_of lit);
  if negb ok then Ret (false, s)
  else if bool_decide (take (length lit) s = lit) then Ret (true, drop (length lit) s)
  else Ret (false, s).

Definition one_of (s chars : bytes) : outcome (ascii * bytes) :=
  match s with
  | [] => if eof then Ret (NUL, []) else Blocks
  | c :: rest =>
    match strchr chars c with Some p => Ret (p, rest) | None => Ret (NUL, s) end
  end.

Fixpoint find (s lit : bytes) : outcome (bool * bytes) :=
  ok ← need s (size_of lit);
  if negb ok then Ret (false, s)
  else if bool_decide (take (length lit) s = lit) then Ret (true, drop (length lit) s)
  else match s with [] => Undefined | _ :: rest => find rest lit end.

Fixpoint blanks (s : bytes) : outcome (unit * bytes) :=
  match s with
  | [] => if eof then Ret (tt, []) else Blocks
  | c :: rest =>
    match strchr space_tab c with
    | Some p => if bool_decide (p = NUL) then Ret (tt, rest) else blanks rest
    | None => Ret (tt, s)
    end
  end.

Fixpoint number (s : bytes) (len : Z) : outcome (Z * bytes) :=
  match s with
  | [] => if eof then Ret (len, []) else Blocks
  | c :: rest =>
    match strchr decimal_digits_chars c with
    | Some p =>
      if bool_decide (p = NUL) then Ret (len, rest)
      else number rest (u64 (u64 (len * 10) + (code p - code "0"%char)))
    | None => Ret (len, s)
    end
  end.

(** What one [read] yields: the message, whether the header was rejected, and
    the bytes left. *)
Definition body (s : bytes) : outcome (string * bool * bytes) :=
  '(_, s) ← blanks s;
  '(len, s) ← number s 0;
  if len =? 0 then Ret (EmptyString, false, s)
  else
    '(m, s) ← expect s crlfcrlf;
    if negb m then Ret (EmptyString, true, s)
    else
      ok ← need s len;
      if negb ok then Ret (EmptyString, false, s)
      else Ret (string_of (take (Z.to_nat len) s), false, drop (Z.to_nat len) s).

Definition frame (mode : OnInvalidData) (s : bytes) : outcome (string * bool * bytes) :=
  if bool_decide (mode = kClose) then
    '(m, s) ← expect s content_length_colon;
    if negb m then Ret (EmptyString, true, s) else body s
  else
    '(m, s) ← find s content_length_colon;
    if negb m then Ret (EmptyString, false, s) else body s.

End Frames.
End Frames.

(** ** The reader implements the specification *)
Module Refinement.
Import ContentReader.
Section Refinement.
Context {R : Type} `{!Reader R, !ReaderContract R}.
Implicit Types x : ContentReader.t R.

(** All the bytes the reader has not consumed: its buffer, then the transport. *)
Definition stream x : bytes :=
  x.(buf) ++ match x.(reader) with Some r => rd_pending r | None => [] end.

Definition at_eof x : bool :=
  match x.(reader) with Some r => rd_eof r | None => true end.

Definition connected x : Prop := exists r, x.(reader) = Some r /\ rd_ok r.

(** What every internal step of the reader keeps. *)
Definition keeps x x' : Prop :=
  connected x' /\ x'.(on_invalid_data) = x.(on_invalid_data) /\ at_eof x' = at_eof x /\
  ContentReader.isOpen x' = ContentReader.isOpen x /\ (length (stream x') <= length (stream x))%nat.

Lemma keeps_refl x : connected x -> keeps x x.
Proof. unfold keeps. intuition lia. Qed.

Lemma keeps_trans x y z : keeps x y -> keeps y z -> keeps x z.
Proof. unfold keeps. intros (?&?&?&?&?) (?&?&?&?&?). repeat split; [done|congruence..|lia]. Qed.

Lemma keeps_connected x y : keeps x y -> connected y.
Proof. by intros [? _]. Qed.

Lemma keeps_at_eof x y : keeps x y -> at_eof y = at_eof x.
Proof. by intros (_&_&?&_). Qed.

(** A computation on reader states implements one on byte sequences. *)
Definition refines {A} x (m : outcome (A * ContentReader.t R)) (sp : outcome (A * bytes)) : Prop :=
  match sp with
  | Ret (a, s') => exists x', m = Ret (a, x') /\ stream x' = s' /\ keeps x x'
  | Blocks => m = Blocks
  | Undefined | OutOfFuel => False
  end.

Lemma refines_ret {A} x x' (a : A) s' :
  stream x' = s' -> keeps x x' -> refines x (Ret (a, x')) (Ret (a, s')).
Proof. intros. eexists. eauto. Qed.

Lemma refines_weaken {A} x x' m (sp : outcome (A * bytes)) :
  keeps x x' -> refines x' m sp -> refines x m sp.
Proof.
  unfold refines. destruct sp as [[a s']| | |]; [|done..].
  intros Hk (y & ? & ? & ?). exists y. eauto using keeps_trans.
Qed.

Lemma refines_bind {A B} x m sp (f : A * ContentReader.t R -> outcome (B * ContentReader.t R)) g :
  refines x m sp ->
  (forall a x', keeps x x' -> refines x' (f (a, x')) (g (a, stream x'))) ->
  refines x (m ≫= f) (sp ≫= g).
Proof.
  unfold refines at 1. destruct sp as [[a s']| | |]; [|by intros ->|done|done].
  intros (x' & -> & <- & Hk) Hf. eapply refines_weaken; [exact Hk|]. by apply Hf.
Qed.

Lemma keeps_set_buf x b :
  connected x -> (length b <= length x.(buf))%nat -> keeps x (set_buf x b).
Proof.
  intros Hc Hl. unfold keeps. repeat split; try done.
  unfold stream. cbn. rewrite !length_app. lia.
Qed.

(** Moving bytes from the transport to the buffer leaves the stream unchanged. *)
Lemma pull_chunk x r chunk r' :
  x.(reader) = Some r -> rd_pending r = chunk ++ rd_pending r' -> rd_eof r' = rd_eof r ->
  IO.isOpen r' = IO.isOpen r -> rd_ok r' ->
  let x' := set_reader (set_buf x (x.(buf) ++ chunk)) r' in
  stream x' = stream x /\ keeps x x'.
Proof.
  intros Hr Hp He Ho Hok x'.
  assert (Hs : stream x' = stream x).
  { unfold stream. cbn. by rewrite Hr, Hp, <-app_assoc. }
  split; [done|]. unfold keeps. rewrite Hs.
  unfold at_eof, ContentReader.isOpen. rewrite Hr. cbn. repeat split; [|done..].
  eexists. eauto.
Qed.

Definition pending x : bytes := match x.(reader) with Some r => rd_pending r | None => [] end.

(** [buffer_loop] asks for [k] bytes more than are buffered. *)
Definition loop_result x k (m : outcome (bool * ContentReader.t R)) : Prop :=
  if k <=? size_of (pending x) then
    exists x', m = Ret (true, x') /\ stream x' = stream x /\ keeps x x' /\
      size_of x.(buf) + k <= size_of x'.(buf)
  else if at_eof x then exists x', m = Ret (false, x') /\ stream x' = stream x /\ keeps x x'
  else m = Blocks.

Lemma loop_result_pull x x' k chunk m :
  stream x' = stream x -> keeps x x' -> x'.(buf) = x.(buf) ++ chunk ->
  size_of chunk <= k -> loop_result x' (k - size_of chunk) m -> loop_result x k m.
Proof.
  unfold loop_result. intros Hs Hk Hb Hc. rewrite (keeps_at_eof _ _ Hk).
  assert (size_of (pending x) = size_of chunk + size_of (pending x')).
  { apply (f_equal size_of) in Hs. unfold stream in Hs. fold (pending x') (pending x) in Hs.
    rewrite Hb, !size_of_app in Hs. lia. }
  replace (k - size_of chunk <=? size_of (pending x')) with (k <=? size_of (pending x)) by lia.
  destruct (k <=? size_of (pending x)).
  - intros (y & -> & Hy & Hk' & Hl). exists y. rewrite Hb, size_of_app in Hl.
    split; [done|]. split; [congruence|]. split; [by eapply keeps_trans|lia].
  - destruct (at_eof x); [|done]. intros (y & -> & Hy & Hk'). exists y.
    split; [done|]. split; [congruence|by eapply keeps_trans].
Qed.

Lemma buffer_loop_spec fuel x k :
  connected x -> 0 <= k < 2 ^ 64 -> (length (pending x) < fuel)%nat ->
  loop_result x k (buffer_loop fuel x k).
Proof.
  revert x k. induction fuel as [|fuel IH]; intros x k Hc Hk Hf; [lia|].
  destruct Hc as (r & Hr & Hok). assert (Hp : pending x = rd_pending r) by (unfold pending; by rewrite Hr).
  assert (He : at_eof x = rd_eof r) by (unfold at_eof; by rewrite Hr).
  cbn [buffer_loop]. destruct (k >? 0) eqn:Ek.
  2: { unfold loop_result. pose proof (size_of_nonneg (pending x)).
       assert ((k <=? size_of (pending x)) = true) as -> by lia.
       exists x. split; [done|]. split; [done|]. split; [apply keeps_refl; by eexists|lia]. }
  rewrite Hr. cbn [deref]. rewrite outcome_bind_ret_l. set (w := Z.min 256 k).
  assert (Hgo : delivers rd_pending rd_eof rd_ok r w ->
    loop_result x k ('(chunk, r') ← IO.read r w;
      if size_of chunk =? 0 then Ret (false, set_reader x r')
      else buffer_loop fuel (set_reader (set_buf x (x.(buf) ++ chunk)) r') (u64 (k - size_of chunk)))).
  { intros (bs & r' & -> & Hbs & Hpp & Heof & Ho & Hok'). cbn.
    assert ((size_of bs =? 0) = false) as -> by lia.
    destruct (pull_chunk x r bs r' Hr Hpp Heof Ho Hok') as [Hs Hkeep].
    eapply loop_result_pull; [exact Hs|exact Hkeep|done|lia|].
    rewrite u64_small by lia. apply IH; [eapply keeps_connected; eauto|lia|].
    unfold pending. cbn. rewrite Hp, Hpp, length_app in Hf. unfold size_of in Hbs. lia. }
  destruct (decide (rd_pending r = [])) as [Hnil|Hne].
  - rewrite (read_end r w Hok ltac:(lia) Hnil). unfold loop_result. rewrite Hp, Hnil, He.
    assert ((k <=? size_of (@nil ascii)) = false) as -> by (rewrite size_of_nil; lia).
    destruct (rd_eof r); [|done]. cbn. exists (set_reader x r).
    assert (set_reader x r = x) as -> by (by destruct x; cbn in *; subst).
    split; [done|]. split; [done|]. apply keeps_refl. by eexists.
  - destruct (rd_eof r) eqn:Eeof; [apply Hgo, read_available; auto; lia|].
    destruct (Z.leb_spec w (size_of (rd_pending r))).
    + apply Hgo, read_available; auto; lia.
    + destruct (read_short r w Hok ltac:(lia) Hne Eeof) as [->|?]; [|by apply Hgo].
      unfold loop_result. rewrite Hp, He.
      assert ((k <=? size_of (rd_pending r)) = false) as -> by lia. done.
Qed.

Lemma buffer_spec fuel x n :
  connected x -> 0 <= n < 2 ^ 64 -> (length (stream x) < fuel)%nat ->
  match Frames.need (at_eof x) (stream x) n with
  | Ret b => exists x', buffer fuel x n = Ret (b, x') /\ stream x' = stream x /\ keeps x x' /\
      (b = true -> n <= size_of x'.(buf))
  | Blocks => buffer fuel x n = Blocks
  | _ => False
  end.
Proof.
  intros Hc Hn Hf. unfold Frames.need, buffer.
  assert (Hs : size_of (stream x) = size_of x.(buf) + size_of (pending x)) by apply size_of_app.
  assert (Hl : (length (stream x) = length x.(buf) + length (pending x))%nat) by apply length_app.
  pose proof (size_of_nonneg (pending x)). pose proof (size_of_nonneg (buf x)).
  destruct (n <? size_of x.(buf)) eqn:E.
  - assert ((n <=? size_of (stream x)) = true) as -> by lia.
    exists x. split; [done|]. split; [done|]. split; [by apply keeps_refl|lia].
  - rewrite u64_small by lia. set (k := n - size_of x.(buf)).
    pose proof (buffer_loop_spec fuel x k Hc ltac:(lia) ltac:(lia)) as HL. unfold loop_result in HL.
    replace (n <=? size_of (stream x)) with (k <=? size_of (pending x)) by lia.
    destruct (k <=? size_of (pending x)).
    + destruct HL as (x' & -> & ? & ? & ?). exists x'.
      split; [done|]. split; [done|]. split; [done|lia].
    + destruct (at_eof x); [|done]. destruct HL as (x' & -> & ? & ?). exists x'. done.
Qed.

Lemma buf_take x n : (n <= length x.(buf))%nat -> take n x.(buf) = take n (stream x).
Proof. intros. unfold stream. by rewrite take_app_le. Qed.

Lemma buf_drop x n :
  (n <= length x.(buf))%nat -> stream (set_buf x (drop n x.(buf))) = drop n (stream x).
Proof. intros. unfold stream. cbn. by rewrite drop_app_le. Qed.

Lemma match_refines fuel x seq :
  connected x -> size_of seq < 2 ^ 64 -> (length (stream x) < fuel)%nat ->
  refines x (match_ fuel x seq) (Frames.expect (at_eof x) (stream x) seq).
Proof.
  intros Hc Hn Hf. pose proof (size_of_nonneg seq).
  pose proof (buffer_spec fuel x (size_of seq) Hc ltac:(lia) Hf) as HB.
  unfold match_, Frames.expect. destruct (Frames.need _ _ _) as [b| | |]; cbn; [|by rewrite HB|done|done].
  destruct HB as (x' & -> & Hs & Hk & Hb). cbn. destruct b; cbn; [|by exists x'].
  specialize (Hb eq_refl). unfold size_of in Hb.
  rewrite buf_take, Hs by lia. case_bool_decide; [|by exists x'].
  exists (set_buf x' (drop (length seq) (buf x'))). split; [done|]. rewrite buf_drop, Hs by lia.
  split; [done|]. eapply keeps_trans; [done|].
  apply keeps_set_buf; [by eapply keeps_connected|]. rewrite length_drop. lia.
Qed.

Lemma buffer_full fuel x n :
  0 <= n <= size_of x.(buf) -> n < 2 ^ 64 -> (0 < fuel)%nat -> buffer fuel x n = Ret (true, x).
Proof.
  intros ???. unfold buffer. destruct (n <? size_of (buf x)) eqn:E; [done|].
  replace (n - size_of (buf x)) with 0 by lia. destruct fuel; [lia|done].
Qed.

Lemma front_cases x :
  1 <= size_of x.(buf) -> exists c rest, x.(buf) = c :: rest /\ stream x = c :: stream (set_buf x rest).
Proof.
  unfold stream. destruct (buf x) as [|c rest]; [rewrite size_of_nil; lia|]. intros _.
  by exists c, rest.
Qed.

Lemma keeps_pop x c rest : connected x -> x.(buf) = c :: rest -> keeps x (set_buf x rest).
Proof. intros ? Hb. apply keeps_set_buf; [done|]. rewrite Hb. cbn. lia. Qed.

Lemma matchAny_refines fuel x chars :
  connected x -> (length (stream x) < fuel)%nat ->
  refines x (matchAny fuel x chars) (Frames.one_of (at_eof x) (stream x) chars).
Proof.
  intros Hc Hf. pose proof (buffer_spec fuel x 1 Hc ltac:(lia) Hf) as HB.
  unfold matchAny, Frames.one_of. revert HB. unfold Frames.need.
  destruct (stream x) as [|c s] eqn:Es.
  - rewrite size_of_nil. cbn. destruct (at_eof x); [|by intros ->].
    intros (x' & -> & Hs & Hk & _). exists x'. done.
  - rewrite size_of_cons. pose proof (size_of_nonneg s).
    assert ((1 <=? size_of s + 1) = true) as -> by lia. intros (x' & -> & Hs & Hk & Hb). cbn.
    destruct (front_cases x' (Hb eq_refl)) as (c' & rest & Eb & Es').
    rewrite Eb. rewrite Es' in Hs. injection Hs as -> Hs.
    destruct (strchr chars c); [|exists x'; by rewrite Es', Hs].
    exists (set_buf x' rest). split; [done|]. split; [done|].
    eapply keeps_trans; [done|]. eapply keeps_pop; [by eapply keeps_connected|done].
Qed.

Lemma skip_blanks_refines fuel fb x :
  connected x -> (length (stream x) < fuel)%nat -> (length (stream x) < fb)%nat ->
  refines x (skip_blanks fuel fb x) (Frames.blanks (at_eof x) (stream x)).
Proof.
  revert x. induction fuel as [|fuel IH]; intros x Hc Hf Hb; [lia|]. cbn [skip_blanks].
  pose proof (matchAny_refines fb x space_tab Hc Hb) as HM. revert HM.
  destruct (stream x) as [|c s] eqn:Es; cbn.
  - destruct (at_eof x); [|by intros ->]. intros (x' & -> & ? & ?). cbn. by exists x'.
  - destruct (strchr space_tab c) as [p|].
    + intros (x' & -> & Hs & Hk). cbn. case_bool_decide; [by exists x'|].
      pose proof (IH x' (keeps_connected _ _ Hk)) as IH'.
      rewrite Hs, (keeps_at_eof _ _ Hk) in IH'. cbn in *.
      eapply refines_weaken; [exact Hk|]. apply IH'; lia.
    + intros (x' & -> & Hs & Hk). cbn. by exists x'.
Qed.

Lemma parse_length_refines fuel fb x len :
  connected x -> (length (stream x) < fuel)%nat -> (length (stream x) < fb)%nat ->
  refines x (parse_length fuel fb x len) (Frames.number (at_eof x) (stream x) len).
Proof.
  revert x len. induction fuel as [|fuel IH]; intros x len Hc Hf Hb; [lia|]. cbn [parse_length].
  pose proof (matchAny_refines fb x decimal_digits_chars Hc Hb) as HM. revert HM.
  destruct (stream x) as [|c s] eqn:Es; cbn [Frames.number Frames.one_of refines].
  - destruct (at_eof x); [|by intros ->]. intros (x' & -> & ? & ?). cbn. by exists x'.
  - destruct (strchr decimal_digits_chars c) as [p|].
    + intros (x' & -> & Hs & Hk). cbn -[Z.mul]. case_bool_decide; [by exists x'|].
      set (l' := u64 _).
      pose proof (IH x' l' (keeps_connected _ _ Hk)) as IH'.
      rewrite Hs, (keeps_at_eof _ _ Hk) in IH'. cbn in *.
      eapply refines_weaken; [exact Hk|]. apply IH'; lia.
    + intros (x' & -> & Hs & Hk). cbn. by exists x'.
Qed.

Lemma scan_refines fuel fb x seq :
  connected x -> 0 < size_of seq < 2 ^ 64 ->
  (length (stream x) < fuel)%nat -> (length (stream x) < fb)%nat ->
  refines x (scan fuel fb x seq) (Frames.find (at_eof x) (stream x) seq).
Proof.
  intros Hc Hn. revert x Hc. induction fuel as [|fuel IH]; intros x Hc Hf Hb; [lia|].
  cbn [scan]. pose proof (buffer_spec fb x (size_of seq) Hc ltac:(lia) Hb) as HB.
  destruct (stream x) as [|c s] eqn:Es; cbn [Frames.find].
  { revert HB. unfold Frames.need. rewrite size_of_nil.
    assert ((size_of seq <=? 0) = false) as -> by lia. destruct (at_eof x); cbn; [|by intros ->].
    intros (x' & -> & ? & ? & _). by exists x'. }
  revert HB. destruct (Frames.need _ _ _) as [ok| | |] eqn:En; cbn; [|by intros ->|done|done].
  intros (x' & -> & Hs & Hk & Hsz). cbn. destruct ok; cbn; [|by exists x'].
  specialize (Hsz eq_refl). pose proof (keeps_connected _ _ Hk) as Hc'.
  unfold match_. rewrite (buffer_full fb x') by (done || lia). cbn. unfold size_of in Hsz.
  rewrite buf_take, Hs by lia. case_bool_decide; cbn.
  { exists (set_buf x' (drop (length seq) (buf x'))). split; [done|]. rewrite buf_drop, Hs by lia.
    split; [done|]. eapply keeps_trans; [done|]. apply keeps_set_buf; [done|]. len_solve. }
  destruct (front_cases x') as (c' & rest & Eb & Es'); [unfold size_of in *; lia|].
  rewrite Eb. rewrite Hs in Es'. injection Es' as <- Es'.
  pose proof (keeps_pop _ _ _ Hc' Eb) as Hkp. pose proof (keeps_trans _ _ _ Hk Hkp) as Hkk.
  eapply refines_weaken; [exact Hkk|]. rewrite <-(keeps_at_eof _ _ Hkk), Es'.
  apply IH; [by eapply keeps_connected| |]; rewrite <-Es'; cbn in *; lia.
Qed.

(** [read] and [badHeader]: the specification only says that the header was bad. *)
Definition finish (a : string * bool) x : string * ContentReader.t R :=
  if a.2 then badHeader x else (a.1, x).

Definition refines_read x (m : outcome (string * ContentReader.t R))
    (sp : outcome (string * bool * bytes)) : Prop :=
  match sp with
  | Ret (a, s') => exists x', m = Ret (finish a x') /\ stream x' = s' /\ keeps x x'
  | Blocks => m = Blocks
  | Undefined | OutOfFuel => False
  end.

Lemma refines_read_ret x x' a s' :
  stream x' = s' -> keeps x x' -> refines_read x (Ret (finish a x')) (Ret (a, s')).
Proof. intros. eexists. eauto. Qed.

Lemma refines_read_bind {A} x m sp (f : A * ContentReader.t R -> outcome (string * ContentReader.t R)) g :
  refines x m sp ->
  (forall a x', keeps x x' -> refines_read x' (f (a, x')) (g (a, stream x'))) ->
  refines_read x (m ≫= f) (sp ≫= g).
Proof.
  unfold refines. destruct sp as [[a s']| | |]; [|by intros ->|done|done].
  intros (x' & -> & <- & Hk) Hf. specialize (Hf a x' Hk). revert Hf. cbn. unfold refines_read.
  destruct (g (a, stream x')) as [[b s'']| | |]; [|done..].
  intros (y & ? & ? & ?). exists y. eauto using keeps_trans.
Qed.

Lemma keeps_fuel x x' fuel : keeps x x' -> (length (stream x) < fuel)%nat -> (length (stream x') < fuel)%nat.
Proof. unfold keeps. lia. Qed.

Lemma number_range eof s len len' s' :
  0 <= len < 2 ^ 64 -> Frames.number eof s len = Ret (len', s') -> 0 <= len' < 2 ^ 64.
Proof.
  revert len. induction s as [|c s IH]; intros len Hl; cbn [Frames.number].
  - by destruct eof; intros [= <- <-].
  - destruct (strchr _ _); [|by intros [= <- <-]]. case_bool_decide; [by intros [= <- <-]|].
    apply IH, u64_range.
Qed.

Lemma read_body_refines fuel x :
  connected x -> (length (stream x) < fuel)%nat ->
  refines_read x (read_body fuel x) (Frames.body (at_eof x) (stream x)).
Proof.
  intros Hc Hf. unfold read_body, Frames.body.
  eapply refines_read_bind; [by apply skip_blanks_refines|]. intros _ y Hk. cbn.
  rewrite <-(keeps_at_eof _ _ Hk). assert (Hfy := keeps_fuel _ _ _ Hk Hf).
  apply keeps_connected in Hk. clear dependent x. rename y into x, Hk into Hc, Hfy into Hf.
  pose proof (parse_length_refines fuel fuel x 0 Hc Hf Hf) as HP. unfold refines in HP.
  destruct (Frames.number (at_eof x) (stream x) 0) as [[len s']| | |] eqn:En; [|by rewrite HP|done|done].
  apply number_range in En; [|lia]. destruct HP as (y & -> & <- & Hk). cbn.
  assert (Hcy := keeps_connected _ _ Hk). assert (Hfy := keeps_fuel _ _ _ Hk Hf).
  destruct (len =? 0) eqn:E0; [exists y; done|].
  rewrite <-(keeps_at_eof _ _ Hk). cut (refines_read y
    ('(m, x) ← match_ fuel y crlfcrlf;
     if negb m then Ret (badHeader x)
     else '(ok, x) ← buffer fuel x len;
       if negb ok then Ret (EmptyString, x)
       else Ret (string_of (take (Z.to_nat len) (buf x)), set_buf x (drop (Z.to_nat len) (buf x))))
    ('(m, s) ← Frames.expect (at_eof y) (stream y) crlfcrlf;
     if negb m then Ret (EmptyString, true, s)
     else ok ← Frames.need (at_eof y) s len;
       if negb ok then Ret (EmptyString, false, s)
       else Ret (string_of (take (Z.to_nat len) s), false, drop (Z.to_nat len) s))).
  { unfold refines_read. destruct (_ ≫= _) as [[b s'']| | |]; [|done..].
    intros (z & ? & ? & ?). exists z. eauto using keeps_trans. }
  eapply refines_read_bind; [by apply match_refines|]. intros [] z Hkz; cbn.
  2: { by apply (refines_read_ret _ _ (EmptyString, true)), keeps_refl, (keeps_connected y). }
  pose proof (buffer_spec fuel z len (keeps_connected _ _ Hkz) En (keeps_fuel _ _ _ Hkz Hfy)) as HB.
  rewrite (keeps_at_eof _ _ Hkz) in HB.
  destruct (Frames.need (at_eof y) (stream z) len) as [b| | |]; cbn; [|by rewrite HB|done|done].
  destruct HB as (z' & -> & Hs & Hk' & Hb). cbn. destruct b; cbn.
  2: { by apply (refines_read_ret _ _ (EmptyString, false)). }
  specialize (Hb eq_refl). unfold size_of in Hb. rewrite buf_take, Hs by lia.
  apply (refines_read_ret _ _ (_, false)); [by rewrite buf_drop, Hs by lia|].
  eapply keeps_trans; [done|]. apply keeps_set_buf; [by eapply keeps_connected|]. len_solve.
Qed.

Lemma read_refines_frame fuel x :
  connected x -> (length (stream x) < fuel)%nat ->
  refines_read x (ContentReader.read fuel x)
    (Frames.frame (at_eof x) x.(on_invalid_data) (stream x)).
Proof.
  intros Hc Hf. unfold ContentReader.read, Frames.frame. case_bool_decide.
  - eapply refines_read_bind; [by apply match_refines|]. intros [] y Hk; cbn.
    + rewrite <-(keeps_at_eof _ _ Hk). eauto using read_body_refines, keeps_connected, keeps_fuel.
    + by apply (refines_read_ret _ _ (EmptyString, true)), keeps_refl, (keeps_connected x).
  - eapply refines_read_bind; [by apply scan_refines|]. intros [] y Hk; cbn.
    + rewrite <-(keeps_at_eof _ _ Hk). eauto using read_body_refines, keeps_connected, keeps_fuel.
    + by apply (refines_read_ret _ _ (EmptyString, false)), keeps_refl, (keeps_connected x).
Qed.

End Refinement.
End Refinement.

(** ** The frame of a message and the specification's behaviour on it *)
Definition encode (msg : string) : bytes := ContentWriter.header msg ++ bytes_of msg.

#[global] Arguments encode _ : simpl never.

Module FrameFacts.

Lemma u64_step v d : u64 (u64 (u64 v * 10) + d) = u64 (v * 10 + d).
Proof.
  unfold u64. rewrite Zplus_mod_idemp_l, <-Zplus_mod_idemp_l, Zmult_mod_idemp_l, Zplus_mod_idemp_l.
  done.
Qed.

Lemma is_digit_char c : is_digit c = true -> strchr decimal_digits_chars c = Some c /\ c <> NUL.
Proof. intros H. destruct c as [[] [] [] [] [] [] [] []]; vm_compute in H; try done; by split. Qed.

Lemma is_digit_not_blank c : is_digit c = true -> strchr space_tab c = None.
Proof. intros H. destruct c as [[] [] [] [] [] [] [] []]; vm_compute in H; try done; by vm_compute. Qed.

(** The parsed length is the decimal value modulo 2^64, whatever its size. *)
Lemma number_digits eof ds rest v :
  Forall (fun c => is_digit c = true) ds ->
  Frames.number eof (ds ++ rest) (u64 v) = Frames.number eof rest (u64 (decimal v ds)).
Proof.
  intros Hd. revert v. induction Hd as [|c ds Hc _ IH]; intros v; [done|].
  cbn [app Frames.number]. destruct (is_digit_char c Hc) as [-> Hn].
  rewrite bool_decide_eq_false_2 by done. change (code "0"%char) with 48.
  rewrite u64_step, IH. done.
Qed.

Lemma number_stop eof rest len :
  Frames.number eof (CR :: rest) len = Ret (len, CR :: rest).
Proof. cbn [Frames.number]. by replace (strchr decimal_digits_chars CR) with (@None ascii) by done. Qed.

Lemma need_app eof s k n : n <= size_of s -> Frames.need eof (s ++ k) n = Ret true.
Proof.
  intros. unfold Frames.need. rewrite size_of_app. pose proof (size_of_nonneg k).
  by assert ((n <=? size_of s + size_of k) = true) as -> by lia.
Qed.

Lemma expect_app eof lit rest : Frames.expect eof (lit ++ rest) lit = Ret (true, rest).
Proof.
  unfold Frames.expect. rewrite need_app by lia. cbn.
  rewrite take_app_length, drop_app_length, bool_decide_eq_true_2 by done. done.
Qed.

Lemma expect_mismatch eof s lit :
  size_of lit <= size_of s -> take (length lit) s <> lit -> Frames.expect eof s lit = Ret (false, s).
Proof.
  intros Hl Hno. unfold Frames.expect, Frames.need. rewrite (proj2 (Z.leb_le _ _) Hl).
  rewrite outcome_bind_ret_l. cbn [negb]. by rewrite bool_decide_eq_false_2.
Qed.

Lemma find_app eof lit rest : Frames.find eof (lit ++ rest) lit = Ret (true, rest).
Proof.
  destruct (lit ++ rest) as [|c s] eqn:E; cbn [Frames.find]; rewrite <-E, need_app by lia; cbn;
    rewrite take_app_length, drop_app_length, bool_decide_eq_true_2 by done; done.
Qed.

(** The header after its prefix: blanks, a number, the separator. *)
Lemma body_header eof ds rest :
  Forall (fun c => is_digit c = true) ds -> ds <> [] ->
  Frames.body eof (" "%char :: ds ++ crlfcrlf ++ rest) =
  (let len := u64 (decimal 0 ds) in
   if len =? 0 then Ret (EmptyString, false, crlfcrlf ++ rest)
   else ok ← Frames.need eof rest len;
     if negb ok then Ret (EmptyString, false, rest)
     else Ret (string_of (take (Z.to_nat len) rest), false, drop (Z.to_nat len) rest)).
Proof.
  intros Hd Hne. unfold Frames.body.
  assert (Frames.blanks eof (" "%char :: ds ++ crlfcrlf ++ rest) = Ret (tt, ds ++ crlfcrlf ++ rest)) as ->.
  { cbn [Frames.blanks]. replace (strchr space_tab " ") with (Some " "%char) by done.
    rewrite bool_decide_eq_false_2 by done.
    destruct ds as [|c ds]; [done|]. apply Forall_cons in Hd as [Hc _].
    cbn [app Frames.blanks]. by rewrite (is_digit_not_blank c Hc). }
  rewrite outcome_bind_ret_l. pose proof (number_digits eof ds (crlfcrlf ++ rest) 0 Hd) as HN.
  change (u64 0) with 0 in HN. rewrite HN.
  change (crlfcrlf ++ rest) with (CR :: LF :: CR :: LF :: rest) at 1.
  rewrite number_stop, outcome_bind_ret_l.
  destruct (u64 (decimal 0 ds) =? 0); [done|].
  change (CR :: LF :: CR :: LF :: rest) with (crlfcrlf ++ rest). by rewrite expect_app.
Qed.

Lemma encode_split msg rest :
  encode msg ++ rest =
  content_length_colon ++ " "%char :: bytes_of (to_string (size_of (bytes_of msg))) ++
    crlfcrlf ++ bytes_of msg ++ rest.
Proof.
  unfold encode, ContentWriter.header.
  change (bytes_of "Content-Length: ") with (content_length_colon ++ [" "%char]).
  by rewrite <-!app_assoc.
Qed.

Lemma separator_long msg rest :
  size_of content_length_colon <= size_of (crlfcrlf ++ encode msg ++ rest).
Proof.
  rewrite encode_split, !size_of_app. pose proof (size_of_nonneg crlfcrlf).
  match goal with |- context [size_of (_ :: ?k)] => pose proof (size_of_nonneg k) end.
  rewrite size_of_cons. lia.
Qed.

Lemma to_string_nonempty n : bytes_of (to_string n) <> [].
Proof.
  unfold to_string. rewrite bytes_of_string_of. rewrite Nat.add_1_r. apply digits_nonempty.
Qed.

Lemma body_encode eof msg rest :
  0 < size_of (bytes_of msg) < 2 ^ 64 ->
  Frames.body eof (" "%char :: bytes_of (to_string (size_of (bytes_of msg))) ++
    crlfcrlf ++ bytes_of msg ++ rest) = Ret (msg, false, rest).
Proof.
  intros Hm. destruct (to_string_digits (size_of (bytes_of msg))) as [Hd Hv]; [lia|].
  rewrite body_header, Hv, u64_small by (done || lia || apply to_string_nonempty). cbn zeta.
  destruct (_ =? 0) eqn:E; [lia|]. rewrite need_app by lia. cbn.
  unfold size_of. rewrite Nat2Z.id, take_app_length, drop_app_length, string_of_bytes_of. done.
Qed.

(** A frame at the head of the stream is read back exactly, in both modes. *)
Lemma frame_encode eof mode msg rest :
  0 < size_of (bytes_of msg) < 2 ^ 64 ->
  Frames.frame eof mode (encode msg ++ rest) = Ret (msg, false, rest).
Proof.
  intros Hm. rewrite encode_split. unfold Frames.frame. case_bool_decide.
  - rewrite expect_app, outcome_bind_ret_l. cbn [negb]. by apply body_encode.
  - rewrite find_app, outcome_bind_ret_l. cbn [negb]. by apply body_encode.
Qed.

(** Text that does not contain the header prefix. *)
Definition no_header (noise : bytes) : Prop :=
  forall i, take (length content_length_colon) (drop i noise) <> content_length_colon.

(** The prefix has its capital C in front only, so no occurrence straddles the
    end of the noise and the header that follows. *)
Lemma prefix_no_overlap noise rest :
  noise <> [] -> take 15 noise <> content_length_colon ->
  take 15 (noise ++ content_length_colon ++ rest) <> content_length_colon.
Proof.
  intros Hne Hno Heq. destruct (Nat.le_gt_cases 15 (length noise)) as [Hl|Hl].
  { rewrite take_app_le in Heq by done. done. }
  assert (Hc : content_length_colon !! length noise = Some "C"%char).
  { rewrite <-Heq at 1. rewrite lookup_take_lt by done. rewrite lookup_app_r, Nat.sub_diag by lia. done. }
  destruct noise as [|a noise]; [done|]. cbn in Hl, Hc.
  do 14 (destruct noise as [|? noise]; [discriminate Hc|cbn in Hl, Hc]). lia.
Qed.

Lemma find_noise eof noise rest :
  no_header noise ->
  Frames.find eof (noise ++ content_length_colon ++ rest) content_length_colon = Ret (true, rest).
Proof.
  induction noise as [|a noise IH]; intros Hno;
    [exact (find_app eof content_length_colon rest)|].
  cbn [app Frames.find]. change (a :: noise ++ content_length_colon ++ rest)
    with ((a :: noise) ++ content_length_colon ++ rest).
  rewrite app_assoc, need_app by (rewrite size_of_app; pose proof (size_of_nonneg (a :: noise)); lia).
  rewrite outcome_bind_ret_l, <-app_assoc. cbn [negb].
  rewrite bool_decide_eq_false_2 by (apply prefix_no_overlap; [done|apply (Hno 0%nat)]).
  apply IH. intros i. apply (Hno (S i)).
Qed.

Lemma frame_noise eof noise msg rest :
  no_header noise -> 0 < size_of (bytes_of msg) < 2 ^ 64 ->
  Frames.frame eof kIgnore (noise ++ encode msg ++ rest) = Ret (msg, false, rest).
Proof.
  intros Hno Hm. rewrite encode_split. unfold Frames.frame.
  rewrite bool_decide_eq_false_2 by done. rewrite find_noise by done.
  rewrite outcome_bind_ret_l. cbn [negb]. by apply body_encode.
Qed.

End FrameFacts.

(** ** Sequences of messages *)
Fixpoint write_all {W} `{!Writer W} (x : ContentWriter.t W) (msgs : list string)
    : outcome (bool * ContentWriter.t W) :=
  match msgs with
  | [] => Ret (true, x)
  | m :: msgs =>
    '(ok, x) ← ContentWriter.write x m;
    if ok : bool then write_all x msgs else Ret (false, x)
  end.

Fixpoint read_n {R} `{!Reader R} (fuel n : nat) (x : ContentReader.t R)
    : outcome (list string * ContentReader.t R) :=
  match n with
  | O => Ret ([], x)
  | S n =>
    '(m, x) ← ContentReader.read fuel x;
    '(ms, x) ← read_n fuel n x;
    Ret (m :: ms, x)
  end.

(** Messages the framing carries: not empty, and of a length [size_t] can hold. *)
Definition carried (msg : string) : Prop := 0 < size_of (bytes_of msg) < 2 ^ 64.

Definition encode_all (msgs : list string) : bytes := mjoin (encode <$> msgs).

Module MessageFacts.
Import Refinement.

Lemma encode_all_cons m msgs : encode_all (m :: msgs) = encode m ++ encode_all msgs.
Proof. done. Qed.

Lemma encode_nonempty msg : 0 < size_of (ContentWriter.header msg).
Proof.
  unfold ContentWriter.header. rewrite !size_of_app.
  pose proof (size_of_nonneg (bytes_of (to_string (size_of (bytes_of msg))))).
  pose proof (size_of_nonneg crlfcrlf).
  change (size_of (bytes_of "Content-Length: ")) with 16. lia.
Qed.

Lemma write_encode {W} `{!Writer W, !WriterContract W} (w : W) n msg :
  wr_ready w n -> carried msg -> size_of (encode msg) <= n ->
  exists w', ContentWriter.write (ContentWriter.create w) msg = Ret (true, ContentWriter.create w') /\
    wr_sent w' = wr_sent w ++ encode msg /\ wr_ready w' (n - size_of (encode msg)).
Proof.
  intros Hr [Hm _] Hn. unfold encode in *. rewrite size_of_app in *. pose proof (encode_nonempty msg).
  destruct (write_ready w n (ContentWriter.header msg) Hr ltac:(lia)) as (w1 & H1 & S1 & R1).
  destruct (write_ready w1 _ (bytes_of msg) R1 ltac:(lia)) as (w2 & H2 & S2 & R2).
  exists w2. unfold ContentWriter.write. cbn. rewrite H1. cbn. rewrite H2. cbn.
  rewrite S2, S1, <-app_assoc, Z.sub_add_distr. done.
Qed.

Lemma write_all_encode {W} `{!Writer W, !WriterContract W} msgs (w : W) n :
  wr_ready w n -> Forall carried msgs -> size_of (encode_all msgs) <= n ->
  exists w', write_all (ContentWriter.create w) msgs = Ret (true, ContentWriter.create w') /\
    wr_sent w' = wr_sent w ++ encode_all msgs /\ wr_ready w' (n - size_of (encode_all msgs)).
Proof.
  intros Hr Hc. revert w n Hr. induction Hc as [|m msgs Hm _ IH]; intros w n Hr Hn.
  { exists w. cbn. by rewrite app_nil_r, Z.sub_0_r. }
  rewrite encode_all_cons, size_of_app in *. pose proof (size_of_nonneg (encode_all msgs)).
  destruct (write_encode w n m Hr Hm ltac:(lia)) as (w1 & E1 & S1 & R1).
  cbn [write_all]. rewrite E1, outcome_bind_ret_l.
  destruct (IH w1 _ R1 ltac:(lia)) as (w2 & -> & S2 & R2). exists w2.
  rewrite S2, S1, <-app_assoc, Z.sub_add_distr. done.
Qed.

Section Reading.
Context {R : Type} `{!Reader R, !ReaderContract R}.
Implicit Types x : ContentReader.t R.

(** A run of the specification that accepts its header is a run of the reader. *)
Lemma read_frame fuel x msg rest :
  connected x -> (length (stream x) < fuel)%nat ->
  Frames.frame (at_eof x) x.(ContentReader.on_invalid_data) (stream x) = Ret (msg, false, rest) ->
  exists x', ContentReader.read fuel x = Ret (msg, x') /\ stream x' = rest /\ keeps x x'.
Proof.
  intros Hc Hf Hs. pose proof (read_refines_frame fuel x Hc Hf) as HR. by rewrite Hs in HR.
Qed.

Lemma read_n_encode msgs fuel x rest :
  connected x -> (length (stream x) < fuel)%nat -> Forall carried msgs ->
  stream x = encode_all msgs ++ rest ->
  exists x', read_n fuel (length msgs) x = Ret (msgs, x') /\ stream x' = rest /\ keeps x x'.
Proof.
  intros Hc Hf Hm. revert x Hc Hf. induction Hm as [|m msgs Hm _ IH]; intros x Hc Hf Hs.
  { exists x. split; [done|]. split; [done|]. by apply keeps_refl. }
  rewrite encode_all_cons, <-app_assoc in Hs.
  destruct (read_frame fuel x m (encode_all msgs ++ rest) Hc Hf) as (y & Hr & Hy & Hk).
  { rewrite Hs. by apply FrameFacts.frame_encode. }
  destruct (IH y (keeps_connected _ _ Hk) (keeps_fuel _ _ _ Hk Hf) Hy) as (z & Hz & ? & ?).
  exists z. cbn [read_n length]. rewrite Hr, outcome_bind_ret_l, Hz. split; [done|]. split; [done|]. by eapply keeps_trans.
Qed.

End Reading.
End MessageFacts.

(** ** Properties *)
Module ContentStreamProps.
Import Refinement MessageFacts.

Section Props.
Context {R : Type} `{!Reader R, !ReaderContract R}.

(** C7. For every transport that meets the reader contract and with more fuel
    than unread bytes, [ContentReader::read] computes what the specification
    [Frames.frame] says of the flat byte sequence: the same message, the same
    bytes left, [badHeader] exactly when the specification rejects the header,
    and it waits exactly when the specification needs bytes that did not come. *)
Theorem content_read_refines (fuel : nat) (x : ContentReader.t R) :
  connected x -> (length (stream x) < fuel)%nat ->
  match Frames.frame (at_eof x) x.(ContentReader.on_invalid_data) (stream x) with
  | Ret (msg, bad, rest) =>
      exists x', stream x' = rest /\ keeps x x' /\
        ContentReader.read fuel x = Ret (if bad : bool then ContentReader.badHeader x' else (msg, x'))
  | Blocks => ContentReader.read fuel x = Blocks
  | Undefined | OutOfFuel => False
  end.
Proof.
  intros Hc Hf. pose proof (read_refines_frame fuel x Hc Hf) as HR. unfold refines_read in HR.
  destruct (Frames.frame _ _ _) as [[[msg bad] rest]| | |]; [|done..].
  destruct HR as (x' & -> & ? & ?). exists x'. done.
Qed.

(** In the [kIgnore] mode, text between two frames that does not contain the
    header prefix is skipped: the next message is read exactly, nothing of what
    follows it is consumed, and the transport stays as open as it was. *)
Theorem content_skips_noise (fuel : nat) (x : ContentReader.t R) noise msg rest :
  connected x -> (length (stream x) < fuel)%nat ->
  x.(ContentReader.on_invalid_data) = kIgnore -> stream x = noise ++ encode msg ++ rest ->
  FrameFacts.no_header noise -> carried msg ->
  exists x', ContentReader.read fuel x = Ret (msg, x') /\ stream x' = rest /\
    ContentReader.isOpen x' = ContentReader.isOpen x.
Proof.
  intros Hc Hf Hm Hs Hno Hmsg. destruct (read_frame fuel x msg rest Hc Hf) as (y & ? & ? & Hk).
  { rewrite Hm, Hs. by apply FrameFacts.frame_noise. }
  exists y. split; [done|]. split; [done|]. apply Hk.
Qed.

(** The length of a header is its decimal value modulo 2^64: digits that
    overflow [size_t] are accepted and wrap around. If the wrapped value is not 0
    and that many bytes follow, exactly that many are returned. *)
Theorem content_length_wraps (fuel : nat) (x : ContentReader.t R) ds payload rest :
  connected x -> (length (stream x) < fuel)%nat ->
  Forall (fun c => is_digit c = true) ds -> ds <> [] ->
  stream x = content_length_colon ++ " "%char :: ds ++ crlfcrlf ++ payload ++ rest ->
  size_of payload = decimal 0 ds mod 2 ^ 64 -> payload <> [] ->
  exists x', ContentReader.read fuel x = Ret (string_of payload, x') /\ stream x' = rest.
Proof.
  intros Hc Hf Hd Hne Hs Hp Hpne.
  destruct (read_frame fuel x (string_of payload) rest Hc Hf) as (y & ? & ? & Hk); [|by exists y].
  assert (Hb : Frames.body (at_eof x) (" "%char :: ds ++ crlfcrlf ++ payload ++ rest) =
               Ret (string_of payload, false, rest)).
  { rewrite FrameFacts.body_header by done. unfold u64. rewrite <-Hp. cbn zeta.
    destruct (size_of payload =? 0) eqn:E; [by apply Z.eqb_eq, size_of_zero in E|].
    rewrite FrameFacts.need_app by lia. cbn. unfold size_of.
    by rewrite Nat2Z.id, take_app_length, drop_app_length. }
  rewrite Hs. unfold Frames.frame. case_bool_decide.
  - by rewrite FrameFacts.expect_app, outcome_bind_ret_l.
  - by rewrite FrameFacts.find_app, outcome_bind_ret_l.
Qed.

(** In the [kClose] mode, data that does not start with the header prefix
    makes [read] return the empty string and close the transport. *)
Theorem content_close_rejects (fuel : nat) (x : ContentReader.t R) :
  connected x -> (length (stream x) < fuel)%nat ->
  x.(ContentReader.on_invalid_data) = kClose ->
  size_of content_length_colon <= size_of (stream x) ->
  take (length content_length_colon) (stream x) <> content_length_colon ->
  exists x', stream x' = stream x /\ keeps x x' /\
    ContentReader.read fuel x = Ret (EmptyString, ContentReader.close x').
Proof.
  intros Hc Hf Hm Hl Hno. pose proof (read_refines_frame fuel x Hc Hf) as HR.
  rewrite Hm in HR. unfold Frames.frame in HR. rewrite bool_decide_eq_true_2 in HR by done.
  rewrite FrameFacts.expect_mismatch in HR by done.
  destruct HR as (x' & -> & Hs & Hk). exists x'. split; [done|]. split; [done|].
  unfold finish, ContentReader.badHeader. cbn. destruct Hk as (_ & Hx' & _).
  by rewrite bool_decide_eq_true_2 by congruence.
Qed.

(** A zero-length message breaks the framing: [read] returns the empty string
    but leaves the blank line that ends its header, and in the [kClose] mode the
    next [read] takes that for invalid data and closes the transport, whatever
    valid frames follow. *)
Theorem content_empty_message_desyncs (fuel : nat) (x : ContentReader.t R) msg rest :
  connected x -> (length (stream x) < fuel)%nat ->
  x.(ContentReader.on_invalid_data) = kClose ->
  stream x = encode EmptyString ++ encode msg ++ rest ->
  exists x' x'', ContentReader.read fuel x = Ret (EmptyString, x') /\
    stream x' = crlfcrlf ++ encode msg ++ rest /\
    stream x'' = stream x' /\
    ContentReader.read fuel x' = Ret (EmptyString, ContentReader.close x'').
Proof.
  intros Hc Hf Hm Hs.
  destruct (read_frame fuel x EmptyString (crlfcrlf ++ encode msg ++ rest) Hc Hf) as (y & Hy & Sy & Hk).
  { rewrite Hs, FrameFacts.encode_split, Hm. unfold Frames.frame. rewrite bool_decide_eq_true_2 by done.
    rewrite FrameFacts.expect_app, outcome_bind_ret_l. cbn [negb]. cbv beta iota.
    rewrite FrameFacts.body_header by (done || (repeat constructor)). done. }
  pose proof (read_refines_frame fuel y (keeps_connected _ _ Hk) (keeps_fuel _ _ _ Hk Hf)) as HR.
  destruct Hk as (_ & Hm' & _). rewrite Hm', Hm, Sy in HR. unfold Frames.frame in HR.
  rewrite bool_decide_eq_true_2 in HR by done.
  rewrite FrameFacts.expect_mismatch in HR; [|exact (FrameFacts.separator_long _ _)|discriminate].
  destruct HR as (z & Hz & Sz & (_ & Hm'' & _)).
  exists y, z. split; [done|]. split; [done|]. split; [congruence|].
  rewrite Hz. unfold finish, ContentReader.badHeader. cbn.
  by rewrite bool_decide_eq_true_2 by congruence.
Qed.

End Props.
(** C11. Messages written by a [ContentWriter] to a stream are read back by a
    [ContentReader] on its other end, all of them, unchanged and in order, in
    either mode, with nothing left over. *)
Theorem content_roundtrip {S : Type} `{Loopback S} (s : S) n msgs mode :
  wr_ready s n -> wr_sent s = [] -> Forall carried msgs -> size_of (encode_all msgs) <= n ->
  exists s', write_all (ContentWriter.create s) msgs = Ret (true, ContentWriter.create s') /\
    forall fuel, size_of (encode_all msgs) < Z.of_nat fuel ->
    exists x', read_n fuel (length msgs) (ContentReader.create s' mode) = Ret (msgs, x') /\ stream x' = [].
Proof.
  intros Hr Hs Hm Hn. destruct (write_all_encode msgs s n Hr Hm Hn) as (s' & -> & Hs' & Hr').
  exists s'. split; [done|]. intros fuel Hf. rewrite Hs in Hs'. cbn in Hs'.
  assert (Hst : stream (ContentReader.create s' mode) = encode_all msgs ++ []).
  { unfold stream. cbn. by rewrite (loop_pending _ _ Hr'), Hs', app_nil_r. }
  destruct (read_n_encode msgs fuel (ContentReader.create s' mode) []) as (x' & ? & ? & _); [..|by exists x'].
  - exists s'. split; [done|]. by eapply loop_ok.
  - rewrite Hst, app_nil_r. unfold size_of in Hf. lia.
  - done.
  - done.
Qed.

(** C38. The way the transport splits the stream is invisible: two readers whose
    unread bytes, mode and end-of-stream behaviour agree return the same message,
    whatever their implementations, and in the [kIgnore] mode (in which neither
    transport is closed) they are left with the same unread bytes. *)
Theorem content_chunking_irrelevant {R1 R2 : Type} `{!Reader R1, !ReaderContract R1}
    `{!Reader R2, !ReaderContract R2} (f1 f2 : nat) (x1 : ContentReader.t R1) (x2 : ContentReader.t R2) :
  connected x1 -> connected x2 -> stream x1 = stream x2 -> at_eof x1 = at_eof x2 ->
  x1.(ContentReader.on_invalid_data) = x2.(ContentReader.on_invalid_data) ->
  (length (stream x1) < f1)%nat -> (length (stream x1) < f2)%nat ->
  match ContentReader.read f1 x1, ContentReader.read f2 x2 with
  | Ret (m1, y1), Ret (m2, y2) =>
      m1 = m2 /\ (x1.(ContentReader.on_invalid_data) = kIgnore -> stream y1 = stream y2)
  | Blocks, Blocks => True
  | _, _ => False
  end.
Proof.
  intros H1 H2 Hs He Hm Hf1 Hf2. pose proof (read_refines_frame f1 x1 H1 Hf1) as HR1.
  rewrite Hs in Hf2. pose proof (read_refines_frame f2 x2 H2 Hf2) as HR2.
  rewrite Hs, He, Hm in HR1. revert HR1 HR2. unfold refines_read.
  destruct (Frames.frame _ _ _) as [[[msg bad] rest]| | |]; [|by intros -> ->|done|done].
  intros (y1 & -> & S1 & K1) (y2 & -> & S2 & K2). unfold finish. cbn.
  destruct bad; [|by split; [|congruence]]. unfold ContentReader.badHeader.
  destruct K1 as (_ & K1 & _), K2 as (_ & K2 & _).
  repeat case_bool_decide; cbn; split; congruence.
Qed.

(** *** Witnesses *)

(** A transport that received [bs] in two chunks. *)
Definition two_chunks (k : nat) (bs : bytes) : StringBuffer.t :=
  (StringBuffer.write (StringBuffer.write StringBuffer.create (take k bs)).2 (drop k bs)).2.

Definition sample (mode : OnInvalidData) (bs : bytes) : ContentReader.t StringBuffer.t :=
  ContentReader.create (two_chunks 9 bs) mode.

Lemma sample_connected mode bs : (9 < length bs)%nat -> connected (sample mode bs).
Proof.
  intros Hl. eexists. split; [done|]. split; cbn.
  - rewrite take_drop. len_solve.
  - repeat constructor; len_solve.
Qed.

Lemma sample_stream mode bs : stream (sample mode bs) = bs.
Proof. unfold stream. cbn. apply take_drop. Qed.

Definition hello : bytes := encode "hello".
Definition garbage : bytes := bytes_of "some Content garbage".

Lemma content_read_refines_witness :
  connected (sample kIgnore (garbage ++ hello)) /\
  exists x', stream x' = [] /\
    ContentReader.read 100 (sample kIgnore (garbage ++ hello)) = Ret ("hello"%string, x').
Proof.
  split; [apply sample_connected; vm_compute; lia|].
  pose proof (content_read_refines 100 (sample kIgnore (garbage ++ hello))) as H.
  destruct H as (x' & Hs & _ & Hr).
  - apply sample_connected. vm_compute. lia.
  - rewrite sample_stream. vm_compute. lia.
  - exists x'. split; [exact Hs|exact Hr].
Defined.

Lemma content_skips_noise_witness :
  exists x', ContentReader.read 100 (sample kIgnore (garbage ++ hello)) = Ret ("hello"%string, x') /\
    stream x' = [] /\
    ContentReader.isOpen x' = ContentReader.isOpen (sample kIgnore (garbage ++ hello)).
Proof.
  apply (content_skips_noise 100 (sample kIgnore (garbage ++ hello)) garbage "hello" []).
  - apply sample_connected. vm_compute. lia.
  - rewrite sample_stream. vm_compute. lia.
  - reflexivity.
  - rewrite sample_stream, app_nil_r. reflexivity.
  - intros i. do 21 (destruct i as [|i]; [discriminate|]).
    rewrite drop_ge by (vm_compute; lia). discriminate.
  - vm_compute. split; reflexivity.
Defined.

(** [2^64 + 2] announces two bytes. *)
Definition overflowing : bytes := bytes_of "18446744073709551618".

Lemma content_length_wraps_witness :
  exists x', ContentReader.read 100 (sample kClose
      (content_length_colon ++ " "%char :: overflowing ++ crlfcrlf ++ bytes_of "hi" ++ hello)) =
    Ret ("hi"%string, x') /\ stream x' = hello.
Proof.
  apply (content_length_wraps 100 (sample kClose
    (content_length_colon ++ " "%char :: overflowing ++ crlfcrlf ++ bytes_of "hi" ++ hello))
    overflowing (bytes_of "hi") hello).
  - apply sample_connected. vm_compute. lia.
  - rewrite sample_stream. vm_compute. lia.
  - repeat constructor.
  - discriminate.
  - apply sample_stream.
  - vm_compute. reflexivity.
  - discriminate.
Defined.

Lemma content_close_rejects_witness :
  exists x', stream x' = garbage ++ hello /\
    ContentReader.read 100 (sample kClose (garbage ++ hello)) = Ret (EmptyString, ContentReader.close x').
Proof.
  destruct (content_close_rejects 100 (sample kClose (garbage ++ hello))) as (x' & Hs & _ & Hr).
  - apply sample_connected. vm_compute. lia.
  - rewrite sample_stream. vm_compute. lia.
  - reflexivity.
  - rewrite sample_stream. vm_compute. discriminate.
  - rewrite sample_stream. discriminate.
  - exists x'. split; [rewrite Hs; apply sample_stream|exact Hr].
Defined.

Lemma content_empty_message_desyncs_witness :
  exists x' x'', ContentReader.read 100 (sample kClose (encode EmptyString ++ hello ++ [])) =
      Ret (EmptyString, x') /\
    stream x' = crlfcrlf ++ hello ++ [] /\ stream x'' = stream x' /\
    ContentReader.read 100 x' = Ret (EmptyString, ContentReader.close x'').
Proof.
  apply (content_empty_message_desyncs 100 (sample kClose (encode EmptyString ++ hello ++ []))).
  - apply sample_connected. vm_compute. lia.
  - rewrite sample_stream. vm_compute. lia.
  - reflexivity.
  - apply sample_stream.
Defined.

Lemma content_roundtrip_witness :
  exists s', write_all (ContentWriter.create StringBuffer.create) ["hello"; "world!"]%string =
      Ret (true, ContentWriter.create s') /\
    forall fuel, size_of (encode_all ["hello"; "world!"]%string) < Z.of_nat fuel ->
    exists x', read_n fuel 2 (ContentReader.create s' kClose) = Ret (["hello"; "world!"]%string, x') /\
      stream x' = [].
Proof.
  apply (content_roundtrip StringBuffer.create 1000 ["hello"; "world!"]%string kClose).
  - split; [reflexivity|apply StringBuffer.create_inv_pos].
  - reflexivity.
  - repeat constructor; vm_compute; split; reflexivity.
  - vm_compute. discriminate.
Defined.

(** One reader gets the bytes in two chunks, the other from a file. *)
Definition file_sample (bs : bytes) : ContentReader.t File.t :=
  ContentReader.create (File.mk (File.mkFILE bs [] 0 true) true false) kIgnore.

Lemma content_chunking_irrelevant_witness :
  match ContentReader.read 100 (sample kIgnore hello), ContentReader.read 90 (file_sample hello) with
  | Ret (m1, y1), Ret (m2, y2) => m1 = m2 /\ (kIgnore = kIgnore -> stream y1 = stream y2)
  | Blocks, Blocks => True
  | _, _ => False
  end.
Proof.
  apply (content_chunking_irrelevant 100 90 (sample kIgnore hello) (file_sample hello)).
  - apply sample_connected. vm_compute. lia.
  - eexists. split; reflexivity.
  - apply sample_stream.
  - reflexivity.
  - reflexivity.
  - rewrite sample_stream. vm_compute. lia.
  - rewrite sample_stream. vm_compute. lia.
Defined.

End ContentStreamProps.
