(* ===== verification/Monitor.v ===== *)
(** * Monitors: a mutex, a condition variable and the threads that use them

    [Chan], [Pipe] and [promise_state] share one shape: each method locks the
    object's mutex, waits on its condition variable until a predicate holds, runs
    its body and maybe calls [notify_all]. [Monitor] states that shape once: the
    step relation interleaves any number of threads at the points where the mutex
    is free (spurious wake-ups and timeouts included), [reachable_settled] is the
    absence of lost wake-ups and [run_atomic] turns an interleaved run into the
    sequence of method bodies it executed, the form the components' functional
    theorems use. *)
From Stdlib Require Import ZArith Lia.
From stdpp Require Import base list gmap relations.
From S2P Require Import Prelude.

(** [mon_ready op s] is the predicate of [cv.wait] in state [s] ([true] for an
    operation that does not wait); [mon_run op s] the body run once it holds: the
    new state, whether [notify_all] was called, and either the value returned or
    the rest of the operation, which waits again; [mon_timeout op s] the value
    returned when a timed wait expires. *)
Class Monitor (St Op Res : Type) := {
  mon_ready : Op -> St -> bool;
  mon_run : Op -> St -> St * bool * (Res + Op);
  mon_timeout : Op -> St -> option Res
}.

(** Every body that makes a waiting operation ready calls [notify_all]. *)
Class Notifies {St Op Res} (M : Monitor St Op Res) :=
  run_notifies op op' s s' n res :
    mon_ready op' s = false -> mon_run op s = (s', n, res) -> mon_ready op' s' = true -> n = true.

Section Monitor.
Context {St Op Res : Type} `{M : Monitor St Op Res}.

Inductive tstate :=
| Running (op : Op)
| Asleep (op : Op)
| Returned (r : Res).

Record config := Config { shared : St; threads : gmap nat tstate }.

Definition rouse (t : tstate) : tstate :=
  match t with Asleep op => Running op | _ => t end.

Definition wake (n : bool) (ts : gmap nat tstate) : gmap nat tstate :=
  if n then rouse <$> ts else ts.

(** A body that continues with another wait evaluates its predicate before it
    releases the mutex. *)
Definition after (s : St) (res : Res + Op) : tstate :=
  match res with
  | inl r => Returned r
  | inr op => if mon_ready op s then Running op else Asleep op
  end.

(** Labels: the bodies executed. *)
Definition event : Type := nat * Op * (Res + Op).

Inductive step : config -> list event -> config -> Prop :=
| step_call s ts t op :
    match ts !! t with None | Some (Returned _) => True | _ => False end ->
    step (Config s ts) [] (Config s (<[t := Running op]> ts))
| step_sleep s ts t op :
    ts !! t = Some (Running op) -> mon_ready op s = false ->
    step (Config s ts) [] (Config s (<[t := Asleep op]> ts))
| step_run s ts t op s' n res :
    ts !! t = Some (Running op) -> mon_ready op s = true -> mon_run op s = (s', n, res) ->
    step (Config s ts) [(t, op, res)] (Config s' (<[t := after s' res]> (wake n ts)))
| step_spurious s ts t op :
    ts !! t = Some (Asleep op) ->
    step (Config s ts) [] (Config s (<[t := Running op]> ts))
| step_timeout s ts t op r :
    ts !! t = Some (Asleep op) -> mon_timeout op s = Some r ->
    step (Config s ts) [] (Config s (<[t := Returned r]> ts)).

Inductive run : config -> list event -> config -> Prop :=
| run_nil c : run c [] c
| run_step c1 c2 c3 tr1 tr2 : run c1 tr1 c2 -> step c2 tr2 c3 -> run c1 (tr1 ++ tr2) c3.

(** A sequence of bodies, without threads. *)
Inductive atomic : St -> list event -> St -> Prop :=
| atomic_nil s : atomic s [] s
| atomic_snoc s1 s2 s3 tr t op n res :
    atomic s1 tr s2 -> mon_ready op s2 = true -> mon_run op s2 = (s3, n, res) ->
    atomic s1 (tr ++ [(t, op, res)]) s3.

Lemma run_atomic c tr c' : run c tr c' -> atomic c.(shared) tr c'.(shared).
Proof.
  induction 1 as [c|c1 c2 c3 tr1 tr2 _ IH Hs]; [constructor|].
  destruct Hs; cbn in *; rewrite ?app_nil_r; [done|done| |done|done].
  econstructor; eauto.
Qed.

(** No lost wake-up: a sleeping thread's predicate is false. *)
Definition settled (c : config) : Prop :=
  forall t op, c.(threads) !! t = Some (Asleep op) -> mon_ready op c.(shared) = false.

Lemma lookup_wake ts n t op :
  wake n ts !! t = Some (Asleep op) -> n = false /\ ts !! t = Some (Asleep op).
Proof.
  unfold wake. destruct n; [|done]. rewrite lookup_fmap.
  destruct (ts !! t) as [[]|]; cbn; congruence.
Qed.

Lemma step_settled `{!Notifies M} c tr c' : settled c -> step c tr c' -> settled c'.
Proof.
  intros Hc Hs t op. destruct Hs as [s ts t' op' Hn|s ts t' op' Hr Hf|s ts t' op' s' n res Hr Hrd Hrun
    |s ts t' op' Hr|s ts t' op' r Hr Ht]; cbn in *.
  all: destruct (decide (t' = t)) as [->|Hne]; [rewrite lookup_insert_eq|rewrite lookup_insert_ne by done];
    try (exact (Hc t op)).
  all: try congruence.
  - unfold after. destruct res; [done|]. destruct (mon_ready o s') eqn:E; congruence.
  - intros [-> Hl]%lookup_wake. specialize (Hc _ _ Hl). cbn in Hc.
    destruct (mon_ready op s') eqn:E; [|done].
    by pose proof (run_notifies _ _ _ _ _ _ Hc Hrun E).
Qed.

Lemma reachable_settled `{!Notifies M} s tr c : run (Config s ∅) tr c -> settled c.
Proof.
  remember (Config s ∅) as c0 eqn:E. induction 1 as [c|c1 c2 c3 tr1 tr2 _ IH Hs]; subst.
  - intros t op. cbn. by rewrite lookup_empty.
  - eauto using step_settled.
Qed.

(** A thread inside an operation whose predicate holds can run its body. *)
Lemma ready_runs `{!Notifies M} c t op :
  settled c -> (c.(threads) !! t = Some (Running op) \/ c.(threads) !! t = Some (Asleep op)) ->
  mon_ready op c.(shared) = true -> exists tr c', step c tr c' /\ tr <> [].
Proof.
  intros Hc [Hr|Ha] Hrd; [|by rewrite (Hc _ _ Ha) in Hrd].
  destruct c as [s ts]. cbn in *. destruct (mon_run op s) as [[s' n] res] eqn:E.
  eexists _, _. split; [by eapply step_run|done].
Qed.

(** Sequential use: an operation called when no other thread runs; the fuel bounds
    the number of its waits. *)
Fixpoint call (fuel : nat) (op : Op) (s : St) : outcome (Res * St) :=
  match fuel with
  | O => OutOfFuel
  | S fuel =>
    if mon_ready op s then
      let '(s', _, res) := mon_run op s in
      match res with inl r => Ret (r, s') | inr op' => call fuel op' s' end
    else Blocks
  end.

End Monitor.

Arguments config : clear implicits.
Arguments tstate : clear implicits.
