(* ===== verification/Chan.v ===== *)
(** * [dap::Chan]: the unbounded blocking queue of [src/chan.h]

    The session's receiving thread puts payloads on a [Chan] and its dispatching
    thread takes them. The methods are functions on the record of the fields;
    [Chan_Monitor] runs them on any number of threads. *)
From Stdlib Require Import ZArith Lia.
From stdpp Require Import base list gmap.
From S2P Require Import Prelude Monitor.

Module Chan.
Section Chan.
Context {T : Type}.

Record t := mk { closed : bool; queue : list T }.

Definition create : t := mk false [].

Definition reset (c : t) : t := mk false [].

Definition close (c : t) : t := mk true c.(queue).

(** The predicate of the wait in [take], and what follows the wait. *)
Definition take_ready (c : t) : bool := (size_of c.(queue) >? 0) || c.(closed).

Definition take (c : t) : option T * t :=
  match c.(queue) with
  | [] => (None, c)
  | v :: q => (Some v, mk c.(closed) q)
  end.

(** [put]: the new state and whether the waiting threads are notified. *)
Definition put (c : t) (v : T) : bool * t :=
  ((size_of c.(queue) =? 0) && negb c.(closed), mk c.(closed) (c.(queue) ++ [v])).

Inductive op := Reset | Close | Take | Put (v : T).

Inductive res := Done | Took (v : option T).

#[global] Instance Chan_Monitor : Monitor t op res := {
  mon_ready o c := match o with Take => take_ready c | _ => true end;
  mon_run o c :=
    match o with
    | Reset => (reset c, false, inl Done)
    | Close => (close c, true, inl Done)
    | Take => let '(v, c') := take c in (c', false, inl (Took v))
    | Put v => let '(n, c') := put c v in (c', n, inl Done)
    end;
  mon_timeout _ _ := None
}.

Lemma take_ready_spec c :
  take_ready c = match c.(queue) with [] => c.(closed) | _ => true end.
Proof.
  unfold take_ready. destruct (queue c) as [|v q]; [done|].
  rewrite size_of_cons. pose proof (size_of_nonneg q).
  by assert ((size_of q + 1 >? 0) = true) as -> by lia.
Qed.

#[global] Instance Chan_Notifies : Notifies Chan_Monitor.
Proof.
  intros o o' c c' n r Hf Hr Ht. destruct o'; try done. cbn in Hf, Ht.
  rewrite take_ready_spec in Hf, Ht. destruct c as [cl [|v q]]; cbn in *; [|done]. subst cl.
  destruct o; cbn in Hr; simplify_eq/=; done.
Qed.

(** The values put and the values taken, in the order of a run's bodies. *)
Definition puts (tr : list (@event op res)) : list T :=
  omap (fun e => match e with (_, Put v, _) => Some v | _ => None end) tr.

Definition takes (tr : list (@event op res)) : list T :=
  omap (fun e => match e with (_, Take, inl (Took (Some v))) => Some v | _ => None end) tr.

Definition no_reset (tr : list (@event op res)) : Prop :=
  Forall (fun e => match e with (_, Reset, _) => False | _ => True end) tr.

Lemma atomic_fifo c tr c' :
  atomic c tr c' -> no_reset tr -> c.(queue) ++ puts tr = takes tr ++ c'.(queue).
Proof.
  induction 1 as [c|c c2 c3 tr t o n r _ IH Hrd Hrun].
  - intros _. cbn. apply app_nil_r.
  - intros [Htr Ho]%Forall_app. specialize (IH Htr). unfold puts, takes in *.
    rewrite !omap_app, app_assoc, IH.
    destruct o; cbn in Hrun; simplify_eq/=; rewrite ?app_nil_r.
    + by inversion Ho.
    + done.
    + unfold take in Hrun. destruct (queue c2) as [|v q] eqn:E; simplify_eq/=.
      * by rewrite E, !app_nil_r.
      * by rewrite <-app_assoc.
    + by rewrite app_assoc.
Qed.

(** The channel is closed only by [close]. *)
Lemma atomic_closed c tr c' :
  atomic c tr c' -> c.(closed) = false -> c'.(closed) = true ->
  exists e, e ∈ tr /\ e.1.2 = Close.
Proof.
  induction 1 as [c|c c2 c3 tr t o n r _ IH Hrd Hrun]; intros Hc Hc'; [congruence|].
  destruct (closed c2) eqn:E2.
  - destruct IH as (e & He & ?); [done..|]. exists e. split; [|done]. apply elem_of_app. by left.
  - exists (t, o, r). split; [apply elem_of_app; right; by apply list_elem_of_singleton|].
    destruct o; cbn in Hrun; simplify_eq/=; [done| |congruence].
    unfold take in Hrun. destruct (queue c2); simplify_eq/=; congruence.
Qed.

Lemma atomic_snoc_inv (c : t) tr e c' :
  atomic c (tr ++ [e]) c' ->
  exists c2 n, atomic c tr c2 /\ mon_ready e.1.2 c2 = true /\ mon_run e.1.2 c2 = (c', n, e.2).
Proof.
  remember (tr ++ [e]) as tr' eqn:E. intros H. destruct H as [c|c c2 c3 tr2 t o n r Ha Hrd Hrun].
  - by destruct tr.
  - apply app_inj_tail in E as [-> <-]. eauto.
Qed.

End Chan.
Arguments t : clear implicits.
Arguments op : clear implicits.
Arguments res : clear implicits.
End Chan.

Module ChanProps.
Import Chan.
Section Props.
Context {T : Type}.

(** C30. First in, first out: in every interleaved run of a fresh channel in which
    [reset] is not called, the values taken so far are, in order, the first of
    the values put, and the rest is still queued. *)
Theorem chan_fifo (tr : list (@event (op T) (res T))) (c : config (Chan.t T) (op T) (res T)) :
  run (Config Chan.create ∅) tr c -> no_reset tr ->
  puts tr = takes tr ++ c.(shared).(queue).
Proof. intros Hr%run_atomic Hn. exact (atomic_fifo _ _ _ Hr Hn). Qed.

(** [take] reports the end of the channel only after [close] was called and
    every value put before was taken: closing loses nothing. *)
Theorem chan_close_drains t (tr : list (@event (op T) (res T))) (c : config (Chan.t T) (op T) (res T)) :
  run (Config Chan.create ∅) (tr ++ [(t, Take, inl (Took None))]) c -> no_reset tr ->
  puts tr = takes tr /\ exists e, e ∈ tr /\ e.1.2 = Close.
Proof.
  intros Hr%run_atomic Hn. apply atomic_snoc_inv in Hr as (c2 & n & Ha & Hrd & Hrun).
  cbn in Hrd, Hrun. rewrite take_ready_spec in Hrd. unfold take in Hrun.
  destruct (queue c2) as [|v q] eqn:E; [|done].
  split.
  - pose proof (atomic_fifo _ _ _ Ha Hn) as Hf. cbn in Hf. by rewrite E, app_nil_r in Hf.
  - by eapply atomic_closed.
Qed.

(** No lost wake-up: whenever a value is queued or the channel is closed, a
    thread inside [take] is not asleep, and its [take] can run to its end. *)
Theorem chan_take_wakes t (tr : list (@event (op T) (res T))) (c : config (Chan.t T) (op T) (res T)) :
  run (Config Chan.create ∅) tr c ->
  c.(shared).(queue) <> [] \/ c.(shared).(closed) = true ->
  c.(threads) !! t = Some (Running Take) \/ c.(threads) !! t = Some (Asleep Take) ->
  c.(threads) !! t = Some (Running Take) /\
  exists v c', step c [(t, Take, inl (Took v))] c' /\ c'.(threads) !! t = Some (Returned (Took v)).
Proof.
  intros Hr Hq Ht. assert (Hrd : mon_ready (Take : op T) c.(shared) = true).
  { cbn. rewrite take_ready_spec. destruct (queue (shared c)); [|done]. by destruct Hq. }
  assert (Hrun : c.(threads) !! t = Some (Running Take)).
  { destruct Ht as [?|Ha]; [done|]. pose proof (reachable_settled _ _ _ Hr _ _ Ha). congruence. }
  split; [done|]. destruct c as [s ts]. cbn in *. destruct (take s) as [v s'] eqn:E.
  exists v. eexists. split; [eapply step_run; [done|done|cbn; by rewrite E]|].
  cbn. apply lookup_insert_eq.
Qed.

End Props.

(** *** Witnesses: a consumer sleeps, a producer puts 7 and closes. *)
Definition trace1 : list (@event (op Z) (res Z)) := [(1%nat, Put 7, inl Done)].
Definition trace2 : list (@event (op Z) (res Z)) :=
  [(1%nat, Put 7, inl Done); (2%nat, Take, inl (Took (Some 7))); (1%nat, Close, inl Done)].

Definition config1 : config (Chan.t Z) (op Z) (res Z) :=
  Config (Chan.mk false [7]) {[ 1%nat := Returned Done; 2%nat := Running Take ]}.

Lemma run_config1 : run (Config Chan.create ∅) trace1 config1.
Proof.
  assert (H1 : step (Config (@Chan.create Z) ∅) [] (Config Chan.create {[ 2%nat := Running Take ]})).
  { exact (step_call Chan.create ∅ 2%nat Take I). }
  assert (H2 : step (Config (@Chan.create Z) {[ 2%nat := Running Take ]}) []
                    (Config Chan.create {[ 2%nat := Asleep Take ]})).
  { exact (step_sleep Chan.create {[ 2%nat := Running Take ]} 2%nat Take eq_refl eq_refl). }
  assert (H3 : step (Config (@Chan.create Z) {[ 2%nat := Asleep Take ]}) []
                    (Config Chan.create {[ 1%nat := Running (Put 7); 2%nat := Asleep Take ]})).
  { exact (step_call Chan.create {[ 2%nat := Asleep Take ]} 1%nat (Put 7) I). }
  assert (H4 : step (Config (@Chan.create Z) {[ 1%nat := Running (Put 7); 2%nat := Asleep Take ]})
                    trace1 config1).
  { exact (step_run Chan.create {[ 1%nat := Running (Put 7); 2%nat := Asleep Take ]} 1%nat (Put 7)
      (Chan.mk false [7]) true (inl Done) eq_refl eq_refl eq_refl). }
  change trace1 with (((([] ++ []) ++ []) ++ []) ++ trace1).
  repeat (eapply run_step; [|eassumption]). constructor.
Qed.

Lemma chan_fifo_witness : puts trace1 = takes trace1 ++ [7].
Proof. apply (chan_fifo trace1 config1); [exact run_config1|]. repeat constructor. Defined.

Lemma chan_take_wakes_witness :
  config1.(threads) !! 2%nat = Some (Running Take) /\
  exists v c', step config1 [(2%nat, Take, inl (Took v))] c' /\
    c'.(threads) !! 2%nat = Some (Returned (Took v)).
Proof.
  apply (chan_take_wakes 2%nat trace1 config1); [exact run_config1|left; discriminate|left; reflexivity].
Defined.

Lemma run_drained : exists c, run (Config Chan.create ∅) (trace2 ++ [(2%nat, Take, inl (Took None))]) c.
Proof.
  eexists. change (trace2 ++ _) with (trace1 ++ [(2%nat, Take, inl (Took (Some 7)))] ++ [] ++
    [(1%nat, Close, inl Done)] ++ [] ++ [(2%nat, @Take Z, inl (Took None))]).
  rewrite !app_assoc.
  eapply run_step; [eapply run_step; [eapply run_step; [eapply run_step; [eapply run_step;
    [exact run_config1|]|]|]|]|].
  - by eapply (step_run _ _ 2%nat Take).
  - by apply (step_call _ _ 1%nat Close).
  - by eapply (step_run _ _ 1%nat Close).
  - by apply (step_call _ _ 2%nat Take).
  - by eapply (step_run _ _ 2%nat Take).
Qed.

Lemma chan_close_drains_witness :
  puts trace2 = takes trace2 /\ exists e, e ∈ trace2 /\ e.1.2 = Close.
Proof.
  destruct run_drained as [c Hc]. apply (chan_close_drains 2%nat trace2 c); [exact Hc|].
  repeat constructor.
Defined.

End ChanProps.
