(* ===== verification/Pipe.v ===== *)
(** * [Pipe]: the in-memory stream of [src/io.cpp] (class [Pipe], [dap::pipe])

    A deque of bytes behind a mutex and a condition variable. [Pipe_Monitor] runs
    its methods on any number of threads; the [Reader]/[Writer] instances are its
    sequential use, in which a call that no pending write can satisfy [Blocks]. *)
From Stdlib Require Import Ascii ZArith Lia.
From stdpp Require Import base list gmap.
From S2P Require Import Prelude IO ContentStream Monitor.

Module Pipe.

Record t := mk { data : bytes; closed : bool }.

Definition create : t := mk [] false.

Definition isOpen (p : t) : bool := negb p.(closed).

Definition close (p : t) : t := mk p.(data) true.

(** The predicate of the wait in [read]. *)
Definition read_ready (p : t) : bool := p.(closed) || (size_of p.(data) >? 0).

(** The [for] loop of [read]: bytes move from [data] to [out] while fewer than
    [n] are stored. *)
Fixpoint fill (n : Z) (out data : bytes) : bytes * bytes :=
  match data with
  | [] => (out, [])
  | c :: rest => if size_of out <? n then fill n (out ++ [c]) rest else (out, data)
  end.

Definition write (p : t) (bs : bytes) : bool * bool * t :=
  if p.(closed) then (false, false, p)
  else if size_of bs =? 0 then (true, false, p)
  else (true, size_of p.(data) =? 0, mk (p.(data) ++ bs) p.(closed)).

(** [Read n out]: a call of [read] for [n] bytes that has stored [out]. *)
Inductive op := IsOpen | Close | Read (n : Z) (out : bytes) | Write (bs : bytes).

Inductive res := ROpen (b : bool) | RClosed | RRead (bs : bytes) | RWrite (ok : bool).

Definition read_step (n : Z) (out : bytes) (p : t) : t * (res + op) :=
  if p.(closed) then (p, inl (RRead out))
  else
    let '(out', data') := fill n out p.(data) in
    (mk data' p.(closed), if size_of out' =? n then inl (RRead out') else inr (Read n out')).

#[global] Instance Pipe_Monitor : Monitor t op res := {
  mon_ready o p := match o with Read _ _ => read_ready p | _ => true end;
  mon_run o p :=
    match o with
    | IsOpen => (p, false, inl (ROpen (isOpen p)))
    | Close => (close p, true, inl RClosed)
    | Read n out => let '(p', r) := read_step n out p in (p', false, r)
    | Write bs => let '(ok, notify, p') := write p bs in (p', notify, inl (RWrite ok))
    end;
  mon_timeout _ _ := None
}.

Lemma read_ready_spec p :
  read_ready p = match p.(data) with [] => p.(closed) | _ => true end.
Proof.
  unfold read_ready. destruct (data p) as [|v q]; [apply orb_false_r|].
  rewrite size_of_cons. pose proof (size_of_nonneg q).
  assert ((size_of q + 1 >? 0) = true) as -> by lia. apply orb_true_r.
Qed.

#[global] Instance Pipe_Notifies : Notifies Pipe_Monitor.
Proof.
  intros o o' p p' n r Hf Hr Ht. destruct o' as [| |m out|]; try done. cbn in Hf, Ht.
  rewrite read_ready_spec in Hf, Ht. destruct p as [[|v q] cl]; cbn in *; [|done]. subst cl.
  destruct o; cbn in Hr; simplify_eq/=; try done.
  unfold write in Hr. cbn in Hr. destruct (size_of bs =? 0); simplify_eq/=; done.
Qed.

Lemma fill_spec n out data :
  fill n out data =
  (out ++ take (Z.to_nat (n - size_of out)) data, drop (Z.to_nat (n - size_of out)) data).
Proof.
  revert out. induction data as [|c data IH]; intros out; cbn.
  { by rewrite take_nil, drop_nil, app_nil_r. }
  destruct (size_of out <? n) eqn:E.
  - rewrite IH, size_of_app, size_of_cons, size_of_nil.
    replace (Z.to_nat (n - size_of out)) with (S (Z.to_nat (n - (size_of out + (0 + 1))))) by lia.
    cbn. by rewrite <-app_assoc.
  - replace (Z.to_nat (n - size_of out)) with 0%nat by lia. by rewrite app_nil_r.
Qed.

(** ** Sequential use *)
Definition read (p : t) (n : Z) : outcome (bytes * t) :=
  '(r, p') ← call 3 (Read n []) p;
  match r with RRead bs => Ret (bs, p') | _ => Undefined end.

#[global] Arguments read _ _ : simpl never.

#[global] Instance Pipe_Closable : Closable t := { isOpen := isOpen; close := close }.
#[global] Instance Pipe_Reader : Reader t := { read := read }.
#[global] Instance Pipe_Writer : Writer t := {
  write p bs := let '(ok, _, p') := write p bs in Ret (ok, p')
}.

Definition pending (p : t) : bytes := if p.(closed) then [] else p.(data).

Lemma read_closed p n : p.(closed) = true -> read p n = Ret ([], p).
Proof.
  intros Hc. unfold read. cbn. rewrite read_ready_spec. unfold read_step. rewrite Hc.
  by destruct (data p).
Qed.

Lemma read_empty p n : p.(closed) = false -> p.(data) = [] -> read p n = Blocks.
Proof. intros Hc Hd. unfold read. cbn. by rewrite read_ready_spec, Hd, Hc. Qed.

(** On an open pipe [read] returns exactly the bytes asked for, or waits. *)
Lemma read_open p n :
  p.(closed) = false -> p.(data) <> [] -> 0 < n ->
  read p n =
  if n <=? size_of p.(data) then
    Ret (take (Z.to_nat n) p.(data), mk (drop (Z.to_nat n) p.(data)) false)
  else Blocks.
Proof.
  intros Hc Hd Hn. unfold read. cbn [call].
  assert (mon_ready (Read n []) p = true) as ->.
  { cbn. rewrite read_ready_spec. by destruct (data p). }
  cbn [mon_run Pipe_Monitor]. unfold read_step. rewrite Hc, fill_spec, size_of_nil, Z.sub_0_r.
  rewrite app_nil_l. destruct (n <=? size_of (data p)) eqn:E.
  - assert ((size_of (take (Z.to_nat n) (data p)) =? n) = true) as -> by (apply Z.eqb_eq; len_solve). done.
  - assert ((size_of (take (Z.to_nat n) (data p)) =? n) = false) as -> by (apply Z.eqb_neq; len_solve).
    rewrite drop_ge by len_solve. cbn. done.
Qed.

Lemma pipe_read_delivers p n :
  p.(closed) = false -> p.(data) <> [] -> 0 < n <= size_of p.(data) ->
  delivers pending closed (fun _ => True) p n.
Proof.
  intros Hc Hd Hn. eexists _, _. cbn. rewrite read_open by (done || lia).
  assert ((n <=? size_of (data p)) = true) as -> by lia. split; [done|]. split; [len_solve|].
  unfold pending, isOpen. cbn. rewrite Hc. split; [by rewrite take_drop|done].
Qed.

#[global] Instance Pipe_ReaderContract : ReaderContract t.
Proof.
  refine {| rd_ok := fun _ => True; rd_pending := pending; rd_eof := closed |}.
  - intros p n _ Hn Hp He. unfold pending in *. destruct (closed p) eqn:E; [done|].
    destruct He; [|done]. by apply pipe_read_delivers.
  - intros p n _ Hn Hp He. cbn in He. unfold pending in Hp. rewrite He in Hp.
    destruct (Z.leb_spec n (size_of p.(data))).
    + right. by apply pipe_read_delivers.
    + left. cbn. rewrite read_open by done. by destruct (Z.leb_spec n (size_of (data p))); [lia|].
  - intros p n _ Hn Hp. cbn. unfold pending in Hp. destruct (closed p) eqn:E.
    + by apply read_closed.
    + by apply read_empty.
Defined.

#[global] Instance Pipe_WriterContract : WriterContract t.
Proof.
  refine {| wr_ready := fun p _ => p.(closed) = false; wr_sent := data |}.
  - intros p n bs Hc Hn. cbn. unfold write. rewrite Hc.
    assert ((size_of bs =? 0) = false) as -> by lia. eexists. done.
  - intros p n Hc. cbn. unfold isOpen. by rewrite Hc.
Defined.

#[global] Instance Pipe_Loopback : Loopback t.
Proof. constructor; cbn; [|done]. intros p n Hc. unfold pending. by rewrite Hc. Qed.

(** ** The bytes a body moves *)
Definition sent (e : @event op res) : bytes :=
  match e with (_, Write bs, inl (RWrite true)) => bs | _ => [] end.

Definition received (e : @event op res) : bytes :=
  match e with
  | (_, Read _ out, inl (RRead out')) => drop (length out) out'
  | (_, Read _ out, inr (Read _ out')) => drop (length out) out'
  | _ => []
  end.

Lemma read_step_moves n out p p' r t :
  read_step n out p = (p', r) ->
  p.(data) = received (t, Read n out, r) ++ p'.(data).
Proof.
  unfold read_step. destruct (closed p); [intros [= <- <-]; cbn; by rewrite drop_all|].
  rewrite fill_spec. intros [= <- <-].
  destruct (_ =? _); cbn; by rewrite drop_app_length, take_drop.
Qed.

Lemma write_moves p bs ok n p' t :
  write p bs = (ok, n, p') -> p'.(data) = p.(data) ++ sent (t, Write bs, inl (RWrite ok)).
Proof.
  unfold write. destruct (closed p); [intros [= <- _ <-]; cbn; by rewrite app_nil_r|].
  destruct (size_of bs =? 0) eqn:E; intros [= <- _ <-]; cbn; [|done].
  apply Z.eqb_eq, size_of_zero in E as ->. by rewrite app_nil_r.
Qed.

Lemma atomic_bytes p tr p' :
  atomic p tr p' -> p.(data) ++ mjoin (sent <$> tr) = mjoin (received <$> tr) ++ p'.(data).
Proof.
  induction 1 as [p|p p2 p3 tr t o n r _ IH Hrd Hrun]; [apply app_nil_r|].
  rewrite !fmap_app, !join_app, app_assoc, IH, <-!app_assoc. f_equal.
  cbn. rewrite !app_nil_r. destruct o as [| |m out|bs]; cbn in Hrun.
  - simplify_eq/=. by rewrite app_nil_r.
  - simplify_eq/=. by rewrite app_nil_r.
  - destruct (read_step m out p2) as [p' r'] eqn:E. simplify_eq.
    rewrite (read_step_moves _ _ _ _ _ t E). cbn. by rewrite app_nil_r.
  - destruct (write p2 bs) as [[ok b] p'] eqn:E. simplify_eq.
    by rewrite (write_moves _ _ _ _ _ t E).
Qed.

End Pipe.

Module PipeProps.
Import Pipe.

(** C31. The pipe is a byte queue: in every interleaved run of readers, writers
    and [close] calls, the bytes handed to readers are, in order, the first of
    the bytes accepted from writers, and the rest is still in the deque. *)
Theorem pipe_fifo (tr : list (@event op res)) (c : config Pipe.t op res) :
  run (Config Pipe.create ∅) tr c ->
  mjoin (sent <$> tr) = mjoin (received <$> tr) ++ c.(shared).(data).
Proof. intros Hr%run_atomic. exact (atomic_bytes _ _ _ Hr). Qed.

(** On an open pipe [read] waits until all the bytes asked for are there, even
    when some are: [Reader::read] documents that it waits for one byte only. *)
Theorem pipe_read_waits_for_all (p : Pipe.t) n :
  p.(closed) = false -> 0 < size_of p.(data) < n -> IO.read p n = Blocks.
Proof.
  intros Hc Hn. cbn. rewrite read_open; [|done| |lia].
  - by destruct (Z.leb_spec n (size_of (data p))); [lia|].
  - intros Hd%(f_equal size_of). change (size_of (@nil ascii)) with 0 in Hd. lia.
Qed.

Lemma pipe_read_waits_for_all_witness :
  IO.read (Pipe.mk ["a"%char] false) 2 = Blocks.
Proof. apply (pipe_read_waits_for_all (Pipe.mk ["a"%char] false) 2); [reflexivity|vm_compute; split; reflexivity]. Defined.

Definition pipe_trace : list (@event op res) :=
  [(1%nat, Write ["a"%char; "b"%char], inl (RWrite true));
   (2%nat, Read 3 [], inr (Read 3 ["a"%char; "b"%char]))].

Lemma pipe_run : exists c, run (Config Pipe.create ∅) pipe_trace c.
Proof.
  eexists. change pipe_trace with (((([] ++ []) ++ [(1%nat, Write ["a"%char; "b"%char], inl (RWrite true))]) ++ []) ++
    [(2%nat, Read 3 [], inr (Read 3 ["a"%char; "b"%char]))] : list (@event op res)).
  eapply run_step; [eapply run_step; [eapply run_step; [eapply run_step; [apply run_nil|]|]|]|].
  - by apply (step_call _ _ 1%nat (Write ["a"%char; "b"%char])).
  - by eapply (step_run _ _ 1%nat).
  - by apply (step_call _ _ 2%nat (Read 3 [])).
  - by eapply (step_run _ _ 2%nat).
Qed.

Lemma pipe_fifo_witness :
  exists c : config Pipe.t op res, run (Config Pipe.create ∅) pipe_trace c /\
    mjoin (sent <$> pipe_trace) = mjoin (received <$> pipe_trace) ++ c.(shared).(data).
Proof.
  destruct pipe_run as [c Hc]. exists c. split; [exact Hc|]. apply (pipe_fifo pipe_trace c Hc).
Defined.

End PipeProps.
