(* ===== verification/Future.v ===== *)
(** * Promises and futures

    Models [include/dap/future.h]: [promise_state] is the object a promise and its
    futures share; [set_value], [get], [wait] and the timed waits are the operations of
    a monitor ([Monitor.v]), so that the theorems hold for every interleaving of
    threads, with spurious wake-ups and timeouts. *)
From Stdlib Require Import ZArith Lia.
From stdpp Require Import base list gmap.
From S2P Require Import Prelude Monitor.

Inductive future_status := ready | timeout.

Module Future.
Section Future.
Context {T : Type}.

(** [promise_state<T>]. *)
Record t := mk { val : T; hasVal : bool }.

Definition create (default : T) : t := mk default false.

Definition set_value (v : T) (s : t) : t := mk v true.

Definition get (s : t) : T := s.(val).

(** What a timed wait returns: the value of the predicate when the wait ends. *)
Definition status (s : t) : future_status := if s.(hasVal) then ready else timeout.

(** The two timed waits differ in how the deadline is given, which the model leaves
    open: a timed wait may expire at any point. *)
Inductive op := SetValue (v : T) | Get | Wait | WaitFor | WaitUntil.

Inductive res := Done | Got (v : T) | Waited | Status (f : future_status).

#[global] Instance Future_Monitor : Monitor t op res := {
  mon_ready o s := match o with SetValue _ => true | _ => s.(hasVal) end;
  mon_run o s :=
    match o with
    | SetValue v => (set_value v s, true, inl Done)
    | Get => (s, false, inl (Got (get s)))
    | Wait => (s, false, inl Waited)
    | WaitFor | WaitUntil => (s, false, inl (Status (status s)))
    end;
  mon_timeout o s :=
    match o with WaitFor | WaitUntil => Some (Status (status s)) | _ => None end
}.

#[global] Instance Future_Notifies : Notifies Future_Monitor.
Proof.
  intros o o' s s' n r Hf Hr Ht. destruct o; cbn in Hr; simplify_eq; [done|..]; cbn in *; congruence.
Qed.

(** The values set and the values got, in the order of a run's bodies. *)
Definition sets (tr : list (@event op res)) : list T :=
  omap (fun e => match e with (_, SetValue v, _) => Some v | _ => None end) tr.

Definition gets (tr : list (@event op res)) : list T :=
  omap (fun e => match e with (_, _, inl (Got v)) => Some v | _ => None end) tr.

Lemma sets_app tr tr' : sets (tr ++ tr') = sets tr ++ sets tr'.
Proof. apply omap_app. Qed.

Lemma gets_app tr tr' : gets (tr ++ tr') = gets tr ++ gets tr'.
Proof. apply omap_app. Qed.

(** The state after a run: the last value set, and all that was got before is among
    the values set. *)
Lemma atomic_values d tr s :
  atomic (create d) tr s ->
  s.(hasVal) = bool_decide (sets tr <> []) /\
  (sets tr <> [] -> last (sets tr) = Some s.(val)) /\
  Forall (fun v => v ∈ sets tr) (gets tr).
Proof.
  remember (create d) as s0 eqn:E0.
  induction 1 as [s|s1 s2 s3 tr t o n r _ IH Hrd Hrun]; subst; [by repeat constructor|].
  destruct (IH eq_refl) as (Hh & Hl & Hg). clear IH.
  rewrite sets_app, gets_app. destruct o; cbn in Hrun; simplify_eq/=.
  - rewrite app_nil_r. split_and!.
    + rewrite bool_decide_eq_true_2; [done|]. by destruct (sets tr).
    + intros _. by rewrite last_snoc.
    + eapply Forall_impl; [exact Hg|]. cbn. intros. apply elem_of_app. by left.
  - change (sets [_]) with (@nil T). rewrite !app_nil_r. split_and!; [done..|]. apply Forall_app. split; [done|].
    repeat constructor. rewrite Hrd in Hh. symmetry in Hh. apply bool_decide_eq_true in Hh.
    by apply last_Some_elem_of, Hl.
  - change (sets [_]) with (@nil T). by rewrite !app_nil_r.
  - change (sets [_]) with (@nil T). by rewrite !app_nil_r.
  - change (sets [_]) with (@nil T). by rewrite !app_nil_r.
Qed.
End Future.
Arguments t : clear implicits.
Arguments op : clear implicits.
Arguments res : clear implicits.
End Future.

Module FutureProps.
Import Future.
Section Props.
Context {T : Type}.

(** C32. A future gives the value of its promise: in every interleaved run in which
    [set_value] ran once, with [v], every [get] that returned gave [v]; and as long as
    [set_value] has not run, no [get] returns. *)
Theorem future_gives_value d (tr : list (@event (op T) (res T))) (c : config (Future.t T) (op T) (res T)) :
  run (Config (create d) ∅) tr c ->
  (forall v, sets tr = [v] -> Forall (fun w => w = v) (gets tr)) /\ (sets tr = [] -> gets tr = []).
Proof.
  intros Hr%run_atomic. destruct (atomic_values _ _ _ Hr) as (_ & _ & Hg). split.
  - intros v Hv. rewrite Hv in Hg. eapply Forall_impl; [exact Hg|]. cbn.
    intros w [->|[]%elem_of_nil]%elem_of_cons. done.
  - intros Hv. rewrite Hv in Hg. destruct (gets tr) as [|w l]; [done|].
    inversion_clear Hg as [|? ? []%elem_of_nil].
Qed.

(** No waiter is left behind: in every reachable state in which [set_value] has
    run, no thread sleeps in [get], [wait] or a timed wait, and a thread inside one of
    them can run to its end. *)
Theorem future_wakes_waiters d t (tr : list (@event (op T) (res T)))
    (c : config (Future.t T) (op T) (res T)) o :
  run (Config (create d) ∅) tr c -> sets tr <> [] ->
  c.(threads) !! t <> Some (Asleep o) /\
  (c.(threads) !! t = Some (Running o) -> exists tr' c', step c tr' c' /\ tr' <> []).
Proof.
  intros Hr Hs. destruct (atomic_values _ _ _ (run_atomic _ _ _ Hr)) as (Hh & _ & _).
  cbn in Hh. rewrite bool_decide_eq_true_2 in Hh by done.
  assert (Hrd : mon_ready o c.(shared) = true) by by destruct o.
  pose proof (reachable_settled _ _ _ Hr) as Hset. split.
  - intros Ha. specialize (Hset _ _ Ha). congruence.
  - intros Hrun. eapply (ready_runs c t o); [done|by left|done].
Qed.
End Props.

(** A thread waits in [get], another sets 42, the first returns. *)
Definition f_start : config (Future.t Z) (op Z) (res Z) := Config (create 0) ∅.

Definition f_trace : list (@event (op Z) (res Z)) :=
  [(2%nat, SetValue 42, inl Done); (1%nat, Get, inl (Got 42))].

Definition f_waiting : config (Future.t Z) (op Z) (res Z) :=
  Config (create 0) (<[2%nat := Running (SetValue 42)]> (<[1%nat := Asleep Get]> (<[1%nat := Running Get]> ∅))).

Definition f_set : config (Future.t Z) (op Z) (res Z) :=
  Config (mk 42 true) (<[2%nat := Returned Done]> (wake true
    (<[2%nat := Running (SetValue 42)]> (<[1%nat := Asleep Get]> (<[1%nat := Running Get]> ∅))))).

Lemma f_run_set : run f_start [(2%nat, SetValue 42, inl Done)] f_set.
Proof.
  apply (run_step f_start f_waiting f_set [] [(2%nat, SetValue 42, inl Done)]).
  - apply (run_step f_start (Config (create 0) (<[1%nat := Asleep Get]> (<[1%nat := Running Get]> ∅)))
      f_waiting [] []).
    + apply (run_step f_start (Config (create 0) (<[1%nat := Running Get]> ∅)) _ [] []).
      * apply (run_step f_start f_start _ [] []); [constructor|]. by apply step_call.
      * by apply step_sleep.
    + by apply step_call.
  - by apply (step_run (create 0) _ 2%nat (SetValue 42) (mk 42 true) true (inl Done)).
Qed.

Lemma f_run_get : exists c, run f_start f_trace c.
Proof.
  eexists. apply (run_step f_start f_set _ [(2%nat, SetValue 42, inl Done)] [(1%nat, Get, inl (Got 42))]).
  - exact f_run_set.
  - by apply (step_run (mk 42 true) _ 1%nat Get (mk 42 true) false (inl (Got 42))).
Qed.

Lemma future_gives_value_witness : exists c, run f_start f_trace c /\ Forall (fun w => w = 42) (gets f_trace).
Proof.
  destruct f_run_get as [c Hc]. exists c. split; [exact Hc|].
  exact (proj1 (future_gives_value 0 f_trace c Hc) 42 eq_refl).
Defined.

Lemma future_wakes_waiters_witness : f_set.(threads) !! 1%nat <> Some (Asleep Get).
Proof.
  apply (future_wakes_waiters 0 1%nat [(2%nat, SetValue 42, inl Done)] f_set Get f_run_set).
  discriminate.
Defined.
End FutureProps.
