(* ===== verification/FutureHandles.v ===== *)
(** * [promise] and [future] objects ([include/dap/future.h])

    [Future.v] is the state a promise and its futures share; here are the objects that
    hold it by [shared_ptr]: the copies and moves of promises, the futures got from
    them, and what a call on each does to the shared states. A variable holds [None]
    after it was moved from. The calls are those of one thread at a time: each locks the
    mutex of the state for its whole body, and the waiting is that of [Future.v]. *)
From Stdlib Require Import ZArith Lia.
From stdpp Require Import base list.
From S2P Require Import Prelude Monitor Future.

Module Handles.
Section Handles.
Context {T : Type}.

Abbreviation handle := (option nat).

(** The promises and futures of a program, and the states they point to. *)
Record t := mk { promises : list handle; futures : list handle; states : list (Future.t T) }.

Inductive op :=
| NewPromise (default : T)
| CopyPromise (i : nat)
| MovePromise (i : nat)
| NewFuture (default : T)
| MoveFuture (j : nat)
| GetFuture (i : nat)
| SetValue (i : nat) (v : T)
| Get (j : nat)
| Wait (j : nat)
| WaitFor (j : nat)
| Valid (j : nat).

Inductive res := Done | Got (v : T) | Status (s : future_status) | IsValid (b : bool).

(** A variable that was declared. *)
Definition var (l : list handle) (i : nat) : outcome handle :=
  match l !! i with Some h => Ret h | None => Undefined end.

(** [state->...]. *)
Definition state_of (h : handle) (x : t) : outcome (nat * Future.t T) :=
  l ← deref h;
  match x.(states) !! l with Some s => Ret (l, s) | None => Undefined end.

(** The default member initializer of [state]: a new state. *)
Definition promise (default : T) (x : t) : t :=
  mk (x.(promises) ++ [Some (length x.(states))]) x.(futures) (x.(states) ++ [Future.create default]).

Definition future (default : T) (x : t) : t :=
  mk x.(promises) (x.(futures) ++ [Some (length x.(states))]) (x.(states) ++ [Future.create default]).

Definition promise_copy (i : nat) (x : t) : outcome t :=
  h ← var x.(promises) i; Ret (mk (x.(promises) ++ [h]) x.(futures) x.(states)).

Definition promise_move (i : nat) (x : t) : outcome t :=
  h ← var x.(promises) i; Ret (mk (<[i := None]> x.(promises) ++ [h]) x.(futures) x.(states)).

Definition future_move (j : nat) (x : t) : outcome t :=
  h ← var x.(futures) j; Ret (mk x.(promises) (<[j := None]> x.(futures) ++ [h]) x.(states)).

Definition get_future (i : nat) (x : t) : outcome t :=
  h ← var x.(promises) i; Ret (mk x.(promises) (x.(futures) ++ [h]) x.(states)).

Definition valid (j : nat) (x : t) : outcome bool :=
  h ← var x.(futures) j; Ret (bool_decide (is_Some h)).

Definition set_value (i : nat) (v : T) (x : t) : outcome t :=
  h ← var x.(promises) i; '(l, s) ← state_of h x;
  Ret (mk x.(promises) x.(futures) (<[l := Future.set_value v s]> x.(states))).

(** [get] and [wait] wait for a value. *)
Definition get (j : nat) (x : t) : outcome T :=
  h ← var x.(futures) j; '(_, s) ← state_of h x;
  if s.(Future.hasVal) then Ret (Future.get s) else Blocks.

(** [wait_for] and [wait_until] when their time is up. *)
Definition wait_for (j : nat) (x : t) : outcome future_status :=
  h ← var x.(futures) j; '(_, s) ← state_of h x; Ret (Future.status s).

Definition exec (o : op) (x : t) : outcome (res * t) :=
  match o with
  | NewPromise d => Ret (Done, promise d x)
  | CopyPromise i => x ← promise_copy i x; Ret (Done, x)
  | MovePromise i => x ← promise_move i x; Ret (Done, x)
  | NewFuture d => Ret (Done, future d x)
  | MoveFuture j => x ← future_move j x; Ret (Done, x)
  | GetFuture i => x ← get_future i x; Ret (Done, x)
  | SetValue i v => x ← set_value i v x; Ret (Done, x)
  | Get j => v ← get j x; Ret (Got v, x)
  | Wait j => _ ← get j x; Ret (Done, x)
  | WaitFor j => s ← wait_for j x; Ret (Status s, x)
  | Valid j => b ← valid j x; Ret (IsValid b, x)
  end.

Fixpoint run (ops : list op) (x : t) : outcome (list res * t) :=
  match ops with
  | [] => Ret ([], x)
  | o :: ops => '(r, x) ← exec o x; '(rs, x) ← run ops x; Ret (r :: rs, x)
  end.

Definition start : t := mk [] [] [].

(** ** No handle dangles *)
Definition in_range (x : t) (h : handle) : Prop := forall l, h = Some l -> (l < length x.(states))%nat.
Definition ok (x : t) : Prop := Forall (in_range x) x.(promises) /\ Forall (in_range x) x.(futures).

(** The promise variable an operation uses, and the future variable. *)
Definition uses_promise (o : op) : option nat :=
  match o with CopyPromise i | MovePromise i | GetFuture i | SetValue i _ => Some i | _ => None end.
Definition uses_future (o : op) : option nat :=
  match o with MoveFuture j | Get j | Wait j | WaitFor j | Valid j => Some j | _ => None end.

(** The variables an operation reads the shared state through must not be moved from. *)
Definition dereferences (o : op) (x : t) : option handle :=
  match o with
  | SetValue i _ => x.(promises) !! i
  | Get j | Wait j | WaitFor j => x.(futures) !! j
  | _ => None
  end.

Definition declared (o : op) (x : t) : Prop :=
  (forall i, uses_promise o = Some i -> (i < length x.(promises))%nat) /\
  (forall j, uses_future o = Some j -> (j < length x.(futures))%nat).

Lemma in_range_app x h ps fs s : in_range x h -> in_range (mk ps fs (x.(states) ++ s)) h.
Proof. intros Hh l Hl. specialize (Hh l Hl). cbn. rewrite length_app. lia. Qed.

Lemma var_range x ps i h : Forall (in_range x) ps -> ps !! i = Some h -> in_range x h.
Proof. intros HF Hi. by eapply Forall_lookup_1. Qed.

(** A handle is empty or has a state. *)
Lemma state_of_cases x h : in_range x h ->
  h = None /\ state_of h x = Undefined \/ exists l s, h = Some l /\ state_of h x = Ret (l, s).
Proof.
  intros Hr. destruct h as [l|]; [right|by left]. specialize (Hr l eq_refl). unfold state_of. cbn.
  destruct (lookup_lt_is_Some_2 x.(states) l Hr) as [s ->]. by exists l, s.
Qed.

Lemma var_declared l i : (i < length l)%nat -> exists h, l !! i = Some h /\ var l i = Ret h.
Proof. intros Hi. destruct (lookup_lt_is_Some_2 l i Hi) as [h Hh]. exists h. unfold var. by rewrite Hh. Qed.

Lemma ok_allocate x s ps fs : ok x -> Forall (in_range (mk ps fs (x.(states) ++ [s]))) (x.(promises)) /\
  Forall (in_range (mk ps fs (x.(states) ++ [s]))) (x.(futures)) /\
  in_range (mk ps fs (x.(states) ++ [s])) (Some (length x.(states))).
Proof.
  intros [Hp Hf]. split_and!; [eapply Forall_impl; [done|]; intros h; apply in_range_app..|].
  intros l [= <-]. cbn. rewrite length_app. cbn. lia.
Qed.

(** The values set through promises that point to the state [l]. *)
Fixpoint written (l : nat) (ops : list op) (x : t) : list T :=
  match ops with
  | [] => []
  | o :: ops =>
    match exec o x with
    | Ret (_, x') =>
      match o with
      | SetValue i v => if bool_decide (x.(promises) !! i = Some (Some l)) then [v] else []
      | _ => []
      end ++ written l ops x'
    | _ => []
    end
  end.
End Handles.
Arguments t : clear implicits.
Arguments op : clear implicits.
Arguments res : clear implicits.
End Handles.

Module HandlesProps.
Import Handles.
Section Props.
Context {T : Type}.
Implicit Types (x : Handles.t T) (o : Handles.op T).

(** Every operation that returns keeps the handles pointing to states. *)
Lemma exec_ok x o r x' : ok x -> exec o x = Ret (r, x') -> ok x'.
Proof.
  intros [Hp Hf]. assert (Hx : ok x) by done.
  assert (Hv : forall l i h, Forall (in_range x) l -> var l i = Ret h -> in_range x h).
  { unfold var. intros l i h HF Hi. case_match eqn:E; simplify_eq. by eapply var_range. }
  destruct o as [d|i|i|d|j|i|i v|j|j|j|j]; cbn [exec]; intros He;
    unfold promise_copy, promise_move, future_move, get_future, set_value in He; inv_outcome; try done.
  - destruct (ok_allocate x (Future.create d) (x.(promises) ++ [Some (length x.(states))]) x.(futures) Hx) as (H1 & H2 & H3).
    split; [|done]. apply Forall_app. split; [done|by repeat constructor].
  - split; [|done]. apply Forall_app. split; [done|]. repeat constructor. by apply (Hv x.(promises) i).
  - split; [|done]. apply Forall_app. split; [by apply Forall_insert|]. repeat constructor. by apply (Hv x.(promises) i).
  - destruct (ok_allocate x (Future.create d) x.(promises) (x.(futures) ++ [Some (length x.(states))]) Hx) as (H1 & H2 & H3).
    split; [done|]. apply Forall_app. split; [done|by repeat constructor].
  - split; [done|]. apply Forall_app. split; [by apply Forall_insert|]. repeat constructor. by apply (Hv x.(futures) j).
  - split; [done|]. apply Forall_app. split; [done|]. repeat constructor. by apply (Hv x.(promises) i).
  - case_match. inv_outcome. split; (eapply Forall_impl; [done|]); intros h Hh l Hl; cbn; rewrite length_insert; by apply Hh.
Qed.

Lemma run_handles_ok ops x rs x' : ok x -> run ops x = Ret (rs, x') -> ok x'.
Proof.
  revert x rs. induction ops as [|o ops IH]; intros x rs Hx; cbn [run]; [by intros [= <- <-]|]. intros Hr.
  apply outcome_bind_inv in Hr as ([r x1] & He & Hr). apply outcome_bind_inv in Hr as ([rs1 x2] & Hr & [= <- <-]).
  eapply IH; [|exact Hr]. by eapply exec_ok.
Qed.

(** Promises and futures are safe to copy and move: every operation of a program
    on variables it declared keeps all handles pointing to states that exist; it is
    undefined behaviour exactly when it goes through a variable that was moved from (for
    futures, one whose [valid()] is false); and otherwise it returns or waits. *)
Theorem handles_safe x o : ok x -> declared o x ->
  (exec o x = Undefined <-> dereferences o x = Some None) /\ exec o x <> OutOfFuel /\
  (forall r x', exec o x = Ret (r, x') -> ok x').
Proof.
  intros Hx [Hdp Hdf]. apply and_assoc. split; [|by intros r x'; apply exec_ok]. destruct Hx as [Hp Hf].
  destruct o as [d|i|i|d|j|i|i v|j|j|j|j]; cbn [exec dereferences uses_promise uses_future] in *; try done;
    [destruct (var_declared _ i (Hdp i eq_refl)) as (h & Hh & Hv)|destruct (var_declared _ i (Hdp i eq_refl)) as (h & Hh & Hv)
    |destruct (var_declared _ j (Hdf j eq_refl)) as (h & Hh & Hv)|destruct (var_declared _ i (Hdp i eq_refl)) as (h & Hh & Hv)
    |destruct (var_declared _ i (Hdp i eq_refl)) as (h & Hh & Hv)|destruct (var_declared _ j (Hdf j eq_refl)) as (h & Hh & Hv)..];
    unfold promise_copy, promise_move, future_move, get_future, set_value, get, wait_for, valid; rewrite Hv, ?Hh; try done.
  all: cbn; destruct (state_of_cases x h) as [[-> ->]|(l & s & -> & ->)]; [first [exact (var_range x _ _ _ Hp Hh)|exact (var_range x _ _ _ Hf Hh)]|done|cbn].
  2,3: destruct (Future.hasVal s).
  all: by split; [split; [|intros [=]]|].
Qed.

(** The states after an operation: what was set, or what was there, or a new state. *)
Lemma exec_states x o r x' : exec o x = Ret (r, x') ->
  (exists i l v s, o = SetValue i v /\ x.(promises) !! i = Some (Some l) /\ x.(states) !! l = Some s /\
    x'.(states) = <[l := Future.mk v true]> x.(states)) \/
  ((forall i v, o <> SetValue i v) /\
    (x'.(states) = x.(states) \/ exists d, x'.(states) = x.(states) ++ [Future.create d])).
Proof.
  destruct o as [d|i|i|d|j|i|i v|j|j|j|j]; cbn [exec]; intros Hx;
    unfold promise_copy, promise_move, future_move, get_future, set_value in Hx; inv_outcome.
  7: { left. unfold var, state_of in *. destruct (promises x !! i) as [h|] eqn:Ei; [|done]. simplify_eq.
    inv_outcome. destruct x2 as [l s]. destruct x1 as [l1|]; [|done]. cbn in *. simplify_eq.
    destruct (states x !! _) as [s1|] eqn:El; [|done]. simplify_eq. by exists i, l, v, s. }
  all: right; (split; [done|]); first [by left|right; by exists d].
Qed.

Lemma written_states ops x rs x' l s' : run ops x = Ret (rs, x') -> x'.(states) !! l = Some s' ->
  match last (written l ops x) with
  | Some v => s' = Future.mk v true
  | None => x.(states) !! l = Some s' \/ (length x.(states) <= l)%nat /\ s'.(Future.hasVal) = false
  end.
Proof.
  revert x rs. induction ops as [|o ops IH]; intros x rs; cbn [run written].
  { intros [= <- <-] Hl. by left. }
  intros Hx Hl. apply outcome_bind_inv in Hx as ([r x1] & He & Hx). apply outcome_bind_inv in Hx as ([rs1 x2] & Hr & [= <- <-]).
  rewrite He. specialize (IH x1 rs1 Hr Hl). rewrite last_app. destruct (last (written l ops x1)) as [v|] eqn:Ew; [done|].
  destruct (exec_states x o r x1 He) as [(i & l' & v & s & -> & Hi & Hs & Hst)|[Hno Hst]].
  - rewrite Hi, Hst in *. destruct (decide (l' = l)) as [->|Hne].
    + rewrite bool_decide_eq_true_2 by done. cbn. apply lookup_lt_Some in Hs.
      destruct IH as [IH|[Hge _]]; [|rewrite length_insert in Hge; lia].
      rewrite list_lookup_insert_eq in IH by done. by injection IH as <-.
    + rewrite bool_decide_eq_false_2 by congruence. cbn. by rewrite list_lookup_insert_ne, length_insert in IH.
  - assert (Hn : last (match o with SetValue i v => if bool_decide (promises x !! i = Some (Some l)) then [v] else [] | _ => [] end)
      = None) by (destruct o; try done; by destruct (Hno i v)).
    rewrite Hn. destruct Hst as [Hst|[d Hst]]; rewrite Hst in IH; [done|]. destruct IH as [IH|[Hge IH]].
    + apply lookup_app_Some in IH as [IH|[Hge IH]]; [by left|]. right. split; [done|].
      destruct (l - length (states x))%nat; [|done]. by injection IH as <-.
    + right. rewrite length_app in Hge. split; [lia|done].
Qed.

End Props.

(** [Session::send]: the promise is copied into the response handler, the future is got
    from the original, and the handler sets the value. *)
Definition send_ops (v : Z) : list (op Z) := [NewPromise 0; CopyPromise 0; GetFuture 0; MoveFuture 0; SetValue 1 v].


Lemma handles_safe_witness :
  exec (Get 0) (mk [Some 0%nat] [None; Some 0%nat] [Future.create 0]) = Undefined /\
  exec (Get 1) (mk [Some 0%nat] [None; Some 0%nat] [Future.create 0]) <> OutOfFuel.
Proof.
  assert (Hok : ok (mk [Some 0%nat] [None; Some 0%nat] [Future.create 0])).
  { split; [apply Forall_singleton|apply Forall_cons; split; [|apply Forall_singleton]]; intros l Hl; simplify_eq; cbn; lia. }
  split.
  - apply (handles_safe _ (Get 0) Hok); [|reflexivity]. split; [done|]. intros j [= <-]. cbn. lia.
  - apply (handles_safe _ (Get 1) Hok). split; [done|]. intros j [= <-]. cbn. lia.
Defined.
End HandlesProps.
