(* ===== verification/RWMutex.v ===== *)
(** * [RWMutex], [RLock] and [WLock] ([src/rwmutex.h])

    Readers only hold the inner mutex while they count themselves in or out;
    [lockWriter] returns with the inner mutex locked and [unlockWriter] releases
    it. The step relation interleaves any number of threads; a thread may hold
    several read locks (nested [RLock]s). The counters are [int]s in the code and
    unbounded here: [readLocks] is the number of read locks held and
    [pendingWriteLocks] that of the writers that wait ([inv]), so they would overflow
    only at 2^31 of either. *)
From Stdlib Require Import ZArith Lia.
From stdpp Require Import base list relations.
From S2P Require Import Prelude.

Module RWMutex.

(** The fields; [mutex] is the thread that keeps the inner mutex locked between
    calls (a writer between [lockWriter] and [unlockWriter]). *)
Record t := mk {
  readLocks : Z;
  pendingWriteLocks : Z;
  mutex : option nat
}.

Definition create : t := mk 0 0 None.

Definition lockReader (m : t) : t := mk (m.(readLocks) + 1) m.(pendingWriteLocks) m.(mutex).

(** The new state and whether [cv.notify_one] is called. *)
Definition unlockReader (m : t) : t * bool :=
  let m := mk (m.(readLocks) - 1) m.(pendingWriteLocks) m.(mutex) in
  (m, (m.(readLocks) =? 0) && (m.(pendingWriteLocks) >? 0)).

(** [lockWriter] up to the wait: locked ([true]) or counted as pending and
    waiting ([false]). *)
Definition lockWriter_enter (m : t) (me : nat) : t * bool :=
  if m.(readLocks) >? 0 then (mk m.(readLocks) (m.(pendingWriteLocks) + 1) m.(mutex), false)
  else (mk m.(readLocks) m.(pendingWriteLocks) (Some me), true).

(** [lockWriter] woken up: the predicate is evaluated again. *)
Definition lockWriter_wake (m : t) (me : nat) : t * bool :=
  if m.(readLocks) =? 0 then (mk m.(readLocks) (m.(pendingWriteLocks) - 1) (Some me), true)
  else (m, false).

Definition unlockWriter (m : t) : t * bool :=
  (mk m.(readLocks) m.(pendingWriteLocks) None, m.(pendingWriteLocks) >? 0).

(** ** Threads *)
Inductive phase := Out | Asleep | Awake | Writing.

Record thread := Thread { rd : nat; ph : phase }.

Record config := Config { m : t; threads : list thread }.

(** [cv.notify_one] wakes one of the sleeping threads, if there is one. *)
Inductive notified : bool -> list thread -> list thread -> Prop :=
| notified_no ts : notified false ts ts
| notified_none ts :
    (forall j th, ts !! j = Some th -> th.(ph) <> Asleep) -> notified true ts ts
| notified_one ts j r :
    ts !! j = Some (Thread r Asleep) -> notified true ts (<[j := Thread r Awake]> ts).

Inductive step : config -> config -> Prop :=
| step_lockReader m ts i r :
    ts !! i = Some (Thread r Out) -> m.(mutex) = None ->
    step (Config m ts) (Config (lockReader m) (<[i := Thread (S r) Out]> ts))
| step_unlockReader m ts i r m' n ts' :
    ts !! i = Some (Thread (S r) Out) -> m.(mutex) = None ->
    unlockReader m = (m', n) -> notified n (<[i := Thread r Out]> ts) ts' ->
    step (Config m ts) (Config m' ts')
| step_lockWriter m ts i r m' ok :
    ts !! i = Some (Thread r Out) -> m.(mutex) = None -> lockWriter_enter m i = (m', ok) ->
    step (Config m ts) (Config m' (<[i := Thread r (if ok then Writing else Asleep)]> ts))
| step_woken m ts i r m' ok :
    ts !! i = Some (Thread r Awake) -> m.(mutex) = None -> lockWriter_wake m i = (m', ok) ->
    step (Config m ts) (Config m' (<[i := Thread r (if ok then Writing else Asleep)]> ts))
| step_spurious m ts i r :
    ts !! i = Some (Thread r Asleep) ->
    step (Config m ts) (Config m (<[i := Thread r Awake]> ts))
| step_unlockWriter m ts i r m' n ts' :
    ts !! i = Some (Thread r Writing) -> unlockWriter m = (m', n) ->
    notified n (<[i := Thread r Out]> ts) ts' ->
    step (Config m ts) (Config m' ts').

Definition initial (n : nat) : config := Config create (replicate n (Thread 0 Out)).

(** ** The invariant *)
Definition total (f : thread -> Z) (ts : list thread) : Z := foldr (fun th acc => f th + acc) 0 ts.

Definition held (th : thread) : Z := Z.of_nat th.(rd).

Definition waiting (th : thread) : Z :=
  match th.(ph) with Asleep | Awake => 1 | _ => 0 end.

Lemma total_cons f x ts : total f (x :: ts) = f x + total f ts.
Proof. done. Qed.

#[global] Arguments total _ _ : simpl never.

Lemma total_insert f ts i th th' :
  ts !! i = Some th -> total f (<[i := th']> ts) = total f ts - f th + f th'.
Proof.
  revert i. induction ts as [|x ts IH]; intros [|i] Hl; [done|done| |];
    cbn in Hl.
  - simplify_eq. change (<[0%nat := th']> (th :: ts)) with (th' :: ts). rewrite !total_cons. lia.
  - change (<[S i := th']> (x :: ts)) with (x :: <[i := th']> ts).
    rewrite !total_cons, (IH _ Hl). lia.
Qed.

Lemma total_nonneg f ts : (forall x, 0 <= f x) -> 0 <= total f ts.
Proof.
  intros Hf. induction ts as [|x ts IH]; [done|]. rewrite total_cons. specialize (Hf x). lia.
Qed.

Lemma total_ge f ts i th :
  (forall x, 0 <= f x) -> ts !! i = Some th -> f th <= total f ts.
Proof.
  intros Hf. revert i. induction ts as [|x ts IH]; intros [|i] Hl; [done|done| |];
    cbn in Hl; rewrite total_cons.
  - simplify_eq. pose proof (total_nonneg f ts Hf). lia.
  - specialize (IH _ Hl). specialize (Hf x). lia.
Qed.

Record inv (c : config) : Prop := Inv {
  inv_readers : c.(m).(readLocks) = total held c.(threads);
  inv_pending : c.(m).(pendingWriteLocks) = total waiting c.(threads);
  inv_owner i : c.(m).(mutex) = Some i <-> exists r, c.(threads) !! i = Some (Thread r Writing);
  inv_excl : c.(m).(mutex) <> None -> c.(m).(readLocks) = 0;
  inv_wake j r : c.(threads) !! j = Some (Thread r Asleep) ->
    0 < c.(m).(readLocks) \/ c.(m).(mutex) <> None \/
    exists k r', c.(threads) !! k = Some (Thread r' Awake)
}.

Lemma held_nonneg th : 0 <= held th.
Proof. unfold held. lia. Qed.

Lemma waiting_nonneg th : 0 <= waiting th.
Proof. unfold waiting. destruct (ph th); lia. Qed.

(** What a notification keeps: only sleepers change, and they wake up. *)
Lemma notified_total n ts ts' (f : thread -> Z) :
  notified n ts ts' -> (forall r, f (Thread r Awake) = f (Thread r Asleep)) ->
  total f ts' = total f ts.
Proof.
  intros [ |ts0 _|ts0 j r Hj] Hf; [done|done|]. rewrite (total_insert _ _ _ _ _ Hj), Hf. lia.
Qed.

Lemma notified_lookup n ts ts' i th' :
  notified n ts ts' -> ts' !! i = Some th' ->
  exists th, ts !! i = Some th /\ th.(rd) = th'.(rd) /\
    (th = th' \/ th.(ph) = Asleep /\ th'.(ph) = Awake).
Proof.
  intros [ |ts0 _|ts0 j r Hj]; [by eauto..|].
  destruct (decide (j = i)) as [->|Hne].
  - rewrite list_lookup_insert_eq by (by eapply lookup_lt_Some). intros [= <-].
    exists (Thread r Asleep). eauto.
  - rewrite list_lookup_insert_ne by done. eauto.
Qed.

Lemma notified_keeps n ts ts' i r p :
  notified n ts ts' -> p <> Asleep -> ts !! i = Some (Thread r p) -> ts' !! i = Some (Thread r p).
Proof.
  intros [ |ts0 _|ts0 j r' Hj] Hp Hi; [done|done|].
  rewrite list_lookup_insert_ne; [done|]. intros ->. congruence.
Qed.

Lemma notified_awake ts ts' j r :
  notified true ts ts' -> ts' !! j = Some (Thread r Asleep) ->
  exists k r', ts' !! k = Some (Thread r' Awake).
Proof.
  inversion 1 as [|ts0 Hno|ts0 k r' Hk]; subst; intros Hj.
  - by destruct (Hno _ _ Hj).
  - exists k, r'. apply list_lookup_insert_eq. by eapply lookup_lt_Some.
Qed.

Lemma inv_initial n : inv (initial n).
Proof.
  assert (Hl : forall i th, replicate n (Thread 0 Out) !! i = Some th -> th = Thread 0 Out).
  { by intros i th [-> _]%lookup_replicate. }
  assert (Ht : forall f, f (Thread 0 Out) = 0 -> total f (replicate n (Thread 0 Out)) = 0).
  { intros f Hf. clear Hl. induction n; [done|]. cbn [replicate]. rewrite total_cons. lia. }
  split; cbn.
  - symmetry. by apply Ht.
  - symmetry. by apply Ht.
  - intros i. split; [done|]. intros (r & Hi%Hl). done.
  - done.
  - intros j r Hj%Hl. done.
Qed.

Lemma lookup_insert_cases (ts : list thread) i j th th' :
  is_Some (ts !! i) -> <[i := th]> ts !! j = Some th' ->
  (i = j /\ th' = th) \/ (i <> j /\ ts !! j = Some th').
Proof.
  intros [x Hi]. destruct (decide (i = j)) as [->|Hne].
  - rewrite list_lookup_insert_eq by (by eapply lookup_lt_Some). intros [= <-]. by left.
  - rewrite list_lookup_insert_ne by done. by right.
Qed.

Lemma insert_self (ts : list thread) i th : is_Some (ts !! i) -> <[i := th]> ts !! i = Some th.
Proof. intros [x Hi]. apply list_lookup_insert_eq. by eapply lookup_lt_Some. Qed.

(** Ownership after thread [i] changes to a phase that is not [Writing]. *)
Lemma owner_insert (ts : list thread) i th th' k :
  ts !! i = Some th -> th.(ph) <> Writing -> th'.(ph) <> Writing ->
  (exists r, <[i := th']> ts !! k = Some (Thread r Writing)) <->
  (exists r, ts !! k = Some (Thread r Writing)).
Proof.
  intros Hi Hp Hp'. split; intros [r Hk].
  - apply lookup_insert_cases in Hk as [[<- <-]|[_ ?]]; [done|by eauto|by eauto].
  - exists r. rewrite list_lookup_insert_ne; [done|]. intros ->. rewrite Hi in Hk. by simplify_eq.
Qed.

Lemma owner_notified n ts ts' k :
  notified n ts ts' ->
  (exists r, ts' !! k = Some (Thread r Writing)) <-> (exists r, ts !! k = Some (Thread r Writing)).
Proof.
  intros Hn. split; intros [r Hk].
  - destruct (notified_lookup _ _ _ _ _ Hn Hk) as (th & Hth & _ & [->|[_ ?]]); [eauto|done].
  - exists r. by eapply notified_keeps.
Qed.

Lemma inv_lockReader mu ts i r :
  ts !! i = Some (Thread r Out) -> mu.(mutex) = None -> inv (Config mu ts) ->
  inv (Config (lockReader mu) (<[i := Thread (S r) Out]> ts)).
Proof.
  intros Hi Hm [Hr Hp Ho He Hw]. cbn in *. split; cbn.
  - rewrite (total_insert _ _ _ _ _ Hi), Hr. unfold held. cbn. lia.
  - rewrite (total_insert _ _ _ _ _ Hi), Hp. unfold waiting. cbn. lia.
  - intros k. rewrite Ho. symmetry. by eapply owner_insert.
  - by rewrite Hm.
  - intros j rj Hj. left. pose proof (total_nonneg held ts held_nonneg). lia.
Qed.

Lemma inv_unlockReader mu ts i r ts' :
  ts !! i = Some (Thread (S r) Out) -> mu.(mutex) = None -> inv (Config mu ts) ->
  notified (unlockReader mu).2 (<[i := Thread r Out]> ts) ts' ->
  inv (Config (unlockReader mu).1 ts').
Proof.
  intros Hi Hm [Hr Hp Ho He Hw] Hn. cbn -[unlockReader] in *.
  assert (Hrd : (unlockReader mu).1.(readLocks) = total held ts').
  { rewrite (notified_total _ _ _ held Hn) by done. rewrite (total_insert _ _ _ _ _ Hi). cbn.
    rewrite Hr. unfold held. cbn. lia. }
  assert (Hpd : (unlockReader mu).1.(pendingWriteLocks) = total waiting ts').
  { rewrite (notified_total _ _ _ waiting Hn) by done. rewrite (total_insert _ _ _ _ _ Hi). cbn.
    rewrite Hp. unfold waiting. cbn. lia. }
  split; cbn -[unlockReader]; [done|done| | |].
  - intros k. cbn. rewrite Ho, (owner_notified _ _ _ _ Hn). symmetry. by eapply owner_insert.
  - cbn. by rewrite Hm.
  - intros j rj Hj. pose proof (total_nonneg held ts' held_nonneg).
    destruct (decide ((unlockReader mu).1.(readLocks) = 0)) as [H0|]; [|left; lia]. right. right.
    pose proof (total_ge waiting _ _ _ waiting_nonneg Hj) as Hge. unfold waiting in Hge at 1. cbn in Hge.
    cbn in Hn, H0, Hpd. rewrite (proj2 (Z.eqb_eq _ _) H0) in Hn.
    assert ((pendingWriteLocks mu >? 0) = true) as Hgt by lia. rewrite Hgt in Hn.
    by eapply notified_awake.
Qed.

(** A thread that sleeps (again) because readers hold the lock. *)
Lemma inv_sleep mu mu' ts i r p :
  ts !! i = Some (Thread r p) -> p <> Writing -> inv (Config mu ts) ->
  mu'.(readLocks) = mu.(readLocks) -> mu'.(mutex) = mu.(mutex) -> 0 < mu.(readLocks) ->
  mu'.(pendingWriteLocks) = mu.(pendingWriteLocks) - waiting (Thread r p) + 1 ->
  inv (Config mu' (<[i := Thread r Asleep]> ts)).
Proof.
  intros Hi Hp [Hr Hpd Ho He Hw] Er Em Hpos Ep. cbn in *. split; cbn.
  - rewrite (total_insert _ _ _ _ _ Hi), Er, Hr. unfold held. cbn. lia.
  - rewrite (total_insert _ _ _ _ _ Hi), Ep, Hpd.
    change (waiting (Thread r Asleep)) with 1. lia.
  - intros k. rewrite Em, Ho. symmetry. by eapply owner_insert.
  - rewrite Em, Er. done.
  - intros. left. lia.
Qed.

(** A thread that takes the inner mutex and keeps it. *)
Lemma inv_acquire mu mu' ts i r p :
  ts !! i = Some (Thread r p) -> p <> Writing -> mu.(mutex) = None -> inv (Config mu ts) ->
  mu'.(readLocks) = mu.(readLocks) -> mu'.(mutex) = Some i -> mu.(readLocks) = 0 ->
  mu'.(pendingWriteLocks) = mu.(pendingWriteLocks) - waiting (Thread r p) ->
  inv (Config mu' (<[i := Thread r Writing]> ts)).
Proof.
  intros Hi Hp Hm [Hr Hpd Ho He Hw] Er Em H0 Ep. cbn in *. split; cbn.
  - rewrite (total_insert _ _ _ _ _ Hi), Er, Hr. unfold held. cbn. lia.
  - rewrite (total_insert _ _ _ _ _ Hi), Ep, Hpd.
    change (waiting (Thread r Writing)) with 0. lia.
  - intros k. rewrite Em. split.
    + intros [= <-]. exists r. by apply insert_self.
    + intros [r' Hk]. apply lookup_insert_cases in Hk as [[-> _]|[_ Hk]]; [done| |by eauto].
      assert (mutex mu = Some k) by (apply Ho; eauto). congruence.
  - lia.
  - rewrite Em. intros. right. by left.
Qed.

Lemma inv_unlockWriter mu ts i r ts' :
  ts !! i = Some (Thread r Writing) -> inv (Config mu ts) ->
  notified (unlockWriter mu).2 (<[i := Thread r Out]> ts) ts' ->
  inv (Config (unlockWriter mu).1 ts').
Proof.
  intros Hi [Hr Hp Ho He Hw] Hn. cbn in *.
  assert (Hrd : mu.(readLocks) = total held ts').
  { rewrite (notified_total _ _ _ held Hn) by done. rewrite (total_insert _ _ _ _ _ Hi), Hr.
    unfold held. cbn. lia. }
  assert (Hpd : mu.(pendingWriteLocks) = total waiting ts').
  { rewrite (notified_total _ _ _ waiting Hn) by done. rewrite (total_insert _ _ _ _ _ Hi), Hp.
    unfold waiting. cbn. lia. }
  split; cbn; [done|done| |done|].
  - intros k. split; [done|]. intros Hk. exfalso. rewrite (owner_notified _ _ _ _ Hn) in Hk.
    destruct Hk as [r' Hk]. apply lookup_insert_cases in Hk as [[_ ?]|[Hne Hk]]; [done| |by eauto].
    assert (mutex mu = Some k) by (apply Ho; eauto). assert (mutex mu = Some i) by (apply Ho; eauto).
    congruence.
  - intros j rj Hj. right. right.
    pose proof (total_ge waiting _ _ _ waiting_nonneg Hj) as Hge. unfold waiting in Hge at 1. cbn in Hge.
    assert ((pendingWriteLocks mu >? 0) = true) as Hgt by lia. rewrite Hgt in Hn.
    by eapply notified_awake.
Qed.

Lemma inv_step c c' : inv c -> step c c' -> inv c'.
Proof.
  intros Hc Hs. destruct Hs as [mu ts i r Hi Hm|mu ts i r mu' n ts' Hi Hm Hu Hn|mu ts i r mu' ok Hi Hm Hl
    |mu ts i r mu' ok Hi Hm Hl|mu ts i r Hi|mu ts i r mu' n ts' Hi Hu Hn].
  - by apply inv_lockReader.
  - pose proof (inv_unlockReader mu ts i r ts' Hi Hm Hc) as H. rewrite Hu in H. by apply H.
  - unfold lockWriter_enter in Hl. destruct (readLocks mu >? 0) eqn:E; simplify_eq/=.
    + eapply inv_sleep; eauto; cbn; lia.
    + eapply inv_acquire; eauto; cbn; [|lia].
      destruct Hc as [Hr _ _ _ _]. cbn in Hr. pose proof (total_nonneg held ts held_nonneg). lia.
  - unfold lockWriter_wake in Hl. destruct (readLocks mu =? 0) eqn:E; simplify_eq/=.
    + eapply inv_acquire; eauto; cbn; lia.
    + eapply inv_sleep; eauto; cbn; [|lia].
      destruct Hc as [Hr _ _ _ _]. cbn in Hr. pose proof (total_nonneg held ts held_nonneg). lia.
  - destruct Hc as [Hr Hp Ho He Hw]. cbn in *. split; cbn; [..|done|].
    + rewrite (total_insert _ _ _ _ _ Hi), Hr. unfold held. cbn. lia.
    + rewrite (total_insert _ _ _ _ _ Hi), Hp. unfold waiting. cbn. lia.
    + intros k. rewrite Ho. symmetry. by eapply owner_insert.
    + intros. right. right. exists i, r. apply insert_self. eauto.
  - pose proof (inv_unlockWriter mu ts i r ts' Hi Hc) as H. rewrite Hu in H. by apply H.
Qed.

Lemma inv_reachable n c : rtc step (initial n) c -> inv c.
Proof.
  apply (rtc_ind_r (fun c => inv c)); [apply inv_initial|]. intros ?????. by eapply inv_step.
Qed.

End RWMutex.

(** ** The RAII helpers [RLock] and [WLock]

    An object is the pointer [m] it holds; the mutexes live in a store. The
    functions run on one thread, so [lockWriter] is its path without readers. *)
Module RLock.

Definition t := option nat.

Definition on (st : list RWMutex.t) (i : nat) (f : RWMutex.t -> RWMutex.t) : list RWMutex.t :=
  alter f i st.

(** [RLock(RWMutex& mutex)] *)
Definition construct (st : list RWMutex.t) (mutex : nat) : t * list RWMutex.t :=
  (Some mutex, on st mutex RWMutex.lockReader).

(** [~RLock()] *)
Definition destruct_ (st : list RWMutex.t) (l : t) : list RWMutex.t :=
  match l with
  | Some i => on st i (fun mu => (RWMutex.unlockReader mu).1)
  | None => st
  end.

(** [RLock(RLock&& other)]: the new object and [other] afterwards. *)
Definition move_construct (other : t) : t * t := (other, None).

(** [operator=(RLock&& other)]: [*this] and [other] afterwards. *)
Definition move_assign (this other : t) : t * t := (other, None).

End RLock.

Module WLock.

Definition t := option nat.

(** [WLock(WLock&& other)] and [operator=(WLock&& other)]. *)
Definition move_construct (other : t) : t * t := (other, None).

Definition move_assign (this other : t) : t * t := (other, None).

(** [WLock(RWMutex& mutex)] by thread [me]: [None] while readers hold the lock. *)
Definition construct (mu : RWMutex.t) (mutex me : nat) : option (t * RWMutex.t) :=
  let '(mu', ok) := RWMutex.lockWriter_enter mu me in
  if ok then Some (Some mutex, mu') else None.

(** [~WLock()] *)
Definition destruct_ (mu : RWMutex.t) (l : t) : RWMutex.t :=
  match l with Some _ => (RWMutex.unlockWriter mu).1 | None => mu end.

End WLock.

Module RWMutexProps.
Import RWMutex.

(** C29. Mutual exclusion: in every reachable state, while a thread is between
    [lockWriter] and [unlockWriter], no thread holds a read lock and no other
    thread holds the write lock. *)
Theorem rwmutex_exclusion n c i ri :
  rtc step (initial n) c -> c.(threads) !! i = Some (Thread ri Writing) ->
  (forall j th, c.(threads) !! j = Some th -> th.(rd) = 0%nat) /\
  (forall j rj, c.(threads) !! j = Some (Thread rj Writing) -> j = i).
Proof.
  intros [Hr Hp Ho He Hw]%inv_reachable Hi.
  assert (Hm : mutex (m c) = Some i) by (apply Ho; eauto). split.
  - intros j th Hj. pose proof (total_ge held _ _ _ held_nonneg Hj). unfold held at 1 in H.
    rewrite <-Hr, He in H by congruence. lia.
  - intros j rj Hj. assert (mutex (m c) = Some j) by (apply Ho; eauto). congruence.
Qed.

(** C37. No lost wake-up: in every reachable state in which no reader holds the
    lock and no writer owns it, a writer that sleeps in [lockWriter] is not alone:
    some waiting thread was woken and can take the lock now. *)
Theorem rwmutex_no_lost_wakeup n c j rj :
  rtc step (initial n) c -> c.(m).(readLocks) = 0 -> c.(m).(mutex) = None ->
  c.(threads) !! j = Some (Thread rj Asleep) ->
  exists k rk c', c.(threads) !! k = Some (Thread rk Awake) /\ step c c' /\
    c'.(threads) !! k = Some (Thread rk Writing).
Proof.
  intros [Hr Hp Ho He Hw]%inv_reachable H0 Hm Hj.
  destruct (Hw _ _ Hj) as [?|[?|(k & rk & Hk)]]; [lia|done|]. destruct c as [mu ts]. cbn in *.
  exists k, rk. eexists. split; [done|]. split.
  - eapply (step_woken mu ts k rk _ true); [done|done|]. unfold lockWriter_wake. by rewrite H0.
  - cbn. apply insert_self. eauto.
Qed.

(** A thread that waits for the write lock while it holds a read lock. *)
Definition upgrading (c : config) (i : nat) : Prop :=
  exists r p, c.(threads) !! i = Some (Thread (S r) p) /\ (p = Asleep \/ p = Awake).

Lemma upgrading_step c c' i : inv c -> upgrading c i -> step c c' -> upgrading c' i.
Proof.
  intros Hinv (r & p & Hi & Hp) Hs.
  assert (Hkeep : forall k th x, threads c !! k = Some th -> th.(ph) = Out \/ th.(ph) = Writing ->
    <[k := x]> (threads c) !! i = Some (Thread (S r) p)).
  { intros k th x Hk Hph. rewrite list_lookup_insert_ne; [done|].
    intros ->. rewrite Hi in Hk. simplify_eq. cbn in Hph. destruct Hp, Hph; congruence. }
  assert (Hn : forall n ts ts', notified n ts ts' -> ts !! i = Some (Thread (S r) p) ->
    exists r p, ts' !! i = Some (Thread (S r) p) /\ (p = Asleep \/ p = Awake)).
  { intros n ts ts' Hn Hl. destruct Hn as [ |ts0 _|ts0 j rj Hj]; [by eauto..|].
    destruct (decide (j = i)) as [->|Hne].
    - rewrite Hl in Hj. simplify_eq. eexists _, Awake. split; [apply insert_self; eauto|by right].
    - eexists _, p. by rewrite list_lookup_insert_ne. }
  destruct Hs as [mu ts k rk Hk Hm|mu ts k rk mu' n ts' Hk Hm Hu Hno|mu ts k rk mu' ok Hk Hm Hl
    |mu ts k rk mu' ok Hk Hm Hl|mu ts k rk Hk|mu ts k rk mu' n ts' Hk Hu Hno]; unfold upgrading; cbn in *.
  - exists r, p. split; [|done]. eapply Hkeep; eauto.
  - eapply Hn; [done|]. eapply Hkeep; eauto.
  - exists r, p. split; [|done]. eapply Hkeep; eauto.
  - destruct (decide (k = i)) as [->|Hne]; [|exists r, p; by rewrite list_lookup_insert_ne].
    rewrite Hi in Hk. simplify_eq. exists r, Asleep. split; [|by left].
    assert (0 < readLocks mu).
    { destruct Hinv as [Hr _ _ _ _]. cbn in Hr.
      pose proof (total_ge held _ _ _ held_nonneg Hi). change (held (Thread (S r) Awake)) with (Z.of_nat (S r)) in H. lia. }
    unfold lockWriter_wake in Hl. destruct (readLocks mu =? 0) eqn:E; [lia|]. simplify_eq.
    apply insert_self. eauto.
  - destruct (decide (k = i)) as [->|Hne]; [|exists r, p; by rewrite list_lookup_insert_ne].
    rewrite Hi in Hk. simplify_eq. exists r, Awake. split; [apply insert_self; eauto|by right].
  - eapply Hn; [done|]. eapply Hkeep; eauto.
Qed.

(** Upgrading deadlocks: a thread that calls [lockWriter] while it holds a
    read lock of the same [RWMutex] never gets the write lock, whatever the other
    threads do. *)
Theorem rwmutex_upgrade_deadlocks n c c' i :
  rtc step (initial n) c -> upgrading c i -> rtc step c c' ->
  upgrading c' i /\ forall r, c'.(threads) !! i <> Some (Thread r Writing).
Proof.
  intros Hr Hu Hs. assert (H : inv c' /\ upgrading c' i).
  { revert Hs. apply (rtc_ind_r (fun c' => inv c' /\ upgrading c' i)).
    - split; [by eapply inv_reachable|done].
    - intros y z _ Hst [Hi Hup]. split; [by eapply inv_step|by eapply upgrading_step]. }
  destruct H as [_ Hup]. split; [done|]. destruct Hup as (r & p & Hi & Hp). intros r' Hw.
  rewrite Hi in Hw. simplify_eq. by destruct Hp.
Qed.

(** Move assignment of [RLock] drops the lock it overwrites: after
    [a = std::move(b)] with both objects locking, destroying both releases [b]'s
    mutex only, and the reader count of [a]'s mutex stays one too high. *)
Theorem rlock_move_assign_leaks (st : list RWMutex.t) (x y : nat) mx my :
  x <> y -> st !! x = Some mx -> st !! y = Some my ->
  let '(a, st1) := RLock.construct st x in
  let '(b, st2) := RLock.construct st1 y in
  let '(a, b) := RLock.move_assign a b in
  let st3 := RLock.destruct_ (RLock.destruct_ st2 a) b in
  readLocks <$> st3 !! x = Some (readLocks mx + 1) /\ readLocks <$> st3 !! y = Some (readLocks my).
Proof.
  intros Hne Hx Hy. cbv beta iota zeta delta [RLock.construct RLock.move_assign RLock.destruct_ RLock.on].
  split.
  - rewrite !list_lookup_alter_ne by done. rewrite list_lookup_alter_eq, Hx. done.
  - rewrite !list_lookup_alter_eq, list_lookup_alter_ne, Hy by done. cbn. f_equal. lia.
Qed.

(** *** Witnesses *)
Definition reading1 : config := Config (mk 1 0 None) [Thread 1 Out; Thread 0 Out].
Definition upgrading1 : config := Config (mk 1 1 None) [Thread 1 Asleep; Thread 0 Out].
Definition writing1 : config := Config (mk 0 0 (Some 0%nat)) [Thread 0 Writing; Thread 0 Out].

Lemma reach_reading1 : rtc step (initial 2) reading1.
Proof. apply rtc_once. exact (step_lockReader create (initial 2).(threads) 0%nat 0%nat eq_refl eq_refl). Qed.

Lemma rwmutex_exclusion_witness :
  (forall j th, writing1.(threads) !! j = Some th -> th.(rd) = 0%nat) /\
  (forall j rj, writing1.(threads) !! j = Some (Thread rj Writing) -> j = 0%nat).
Proof.
  apply (rwmutex_exclusion 2 writing1 0 0); [|reflexivity].
  apply rtc_once. exact (step_lockWriter create (initial 2).(threads) 0%nat 0%nat _ true eq_refl eq_refl eq_refl).
Defined.

Definition two_waiting : config := Config (mk 1 2 None) [Thread 1 Out; Thread 0 Asleep; Thread 0 Asleep].
Definition one_woken : config := Config (mk 0 2 None) [Thread 0 Out; Thread 0 Awake; Thread 0 Asleep].

Lemma reach_one_woken : rtc step (initial 3) one_woken.
Proof.
  eapply rtc_l; [exact (step_lockReader create (initial 3).(threads) 0%nat 0%nat eq_refl eq_refl)|].
  eapply rtc_l; [exact (step_lockWriter (mk 1 0 None) [Thread 1 Out; Thread 0 Out; Thread 0 Out] 1%nat 0%nat _ false eq_refl eq_refl eq_refl)|].
  eapply rtc_l; [exact (step_lockWriter (mk 1 1 None) [Thread 1 Out; Thread 0 Asleep; Thread 0 Out] 2%nat 0%nat _ false eq_refl eq_refl eq_refl)|].
  apply rtc_once. refine (step_unlockReader (mk 1 2 None) two_waiting.(threads) 0%nat 0%nat _ true _ eq_refl eq_refl eq_refl _).
  exact (notified_one [Thread 0 Out; Thread 0 Asleep; Thread 0 Asleep] 1%nat 0%nat eq_refl).
Qed.

Lemma rwmutex_no_lost_wakeup_witness :
  exists k rk c', one_woken.(threads) !! k = Some (Thread rk Awake) /\ step one_woken c' /\
    c'.(threads) !! k = Some (Thread rk Writing).
Proof.
  apply (rwmutex_no_lost_wakeup 3 one_woken 2 0); [exact reach_one_woken|reflexivity..].
Defined.

Lemma rwmutex_upgrade_deadlocks_witness :
  upgrading upgrading1 0 /\ forall r, upgrading1.(threads) !! 0%nat <> Some (Thread r Writing).
Proof.
  apply (rwmutex_upgrade_deadlocks 2 upgrading1 upgrading1 0).
  - eapply rtc_r; [exact reach_reading1|].
    exact (step_lockWriter (mk 1 0 None) reading1.(threads) 0%nat 1%nat _ false eq_refl eq_refl eq_refl).
  - exists 0%nat, Asleep. split; [reflexivity|left; reflexivity].
  - apply rtc_refl.
Defined.

Lemma rlock_move_assign_leaks_witness :
  let '(a, st1) := RLock.construct [create; create] 0 in
  let '(b, st2) := RLock.construct st1 1 in
  let '(a, b) := RLock.move_assign a b in
  let st3 := RLock.destruct_ (RLock.destruct_ st2 a) b in
  readLocks <$> st3 !! 0%nat = Some 1 /\ readLocks <$> st3 !! 1%nat = Some 0.
Proof.
  apply (rlock_move_assign_leaks [create; create] 0 1 create create);
    [discriminate|reflexivity|reflexivity].
Defined.

End RWMutexProps.
