(* ===== verification/Locking.v ===== *)
(** * What a readers-writer lock promises to its clients

    [RWLock]: threads get and drop read locks and the write lock; while one thread
    has the write lock no thread has a read lock and no other the write lock. The
    clients ([Socket.v]) are verified against this interface; [RWMutex] provides it. *)
From Stdlib Require Import ZArith Lia.
From stdpp Require Import base list relations.
From S2P Require Import Prelude RWMutex.

(** [AskWrite]: a step of a thread in [lockWriter] that does not get the lock yet. *)
Inductive lock_event := GetRead | DropRead | AskWrite | GetWrite | DropWrite.

Definition reads_after (e : lock_event) (n : nat) : nat :=
  match e with GetRead => S n | DropRead => pred n | _ => n end.

Definition writes_after (e : lock_event) (b : bool) : bool :=
  match e with GetWrite => true | DropWrite => false | _ => b end.

(** [rwl_step i e k k']: the lock goes from [k] to [k'] by a step of thread [i]. *)
Class RWLock (K : Type) := {
  rwl_ok : K -> Prop;
  rwl_reads : K -> nat -> nat;
  rwl_writes : K -> nat -> bool;
  rwl_step : nat -> lock_event -> K -> K -> Prop;
  rwl_step_ok i e k k' : rwl_ok k -> rwl_step i e k k' -> rwl_ok k';
  rwl_step_reads i e k k' j : rwl_step i e k k' ->
    rwl_reads k' j = if decide (i = j) then reads_after e (rwl_reads k j) else rwl_reads k j;
  rwl_step_writes i e k k' j : rwl_step i e k k' ->
    rwl_writes k' j = if decide (i = j) then writes_after e (rwl_writes k j) else rwl_writes k j;
  rwl_exclusive k i : rwl_ok k -> rwl_writes k i = true ->
    forall j, rwl_reads k j = 0%nat /\ (j <> i -> rwl_writes k j = false)
}.

(** ** [RWMutex] is such a lock *)
Module RWMutexLock.
Import RWMutex.

Definition reads (c : config) (i : nat) : nat :=
  match c.(threads) !! i with Some th => th.(rd) | None => 0%nat end.

Definition writes (c : config) (i : nat) : bool :=
  match c.(threads) !! i with Some (Thread _ Writing) => true | _ => false end.

(** What a step does to the thread that takes it. *)
Inductive event_of : lock_event -> thread -> thread -> Prop :=
| event_get_read r : event_of GetRead (Thread r Out) (Thread (S r) Out)
| event_drop_read r : event_of DropRead (Thread (S r) Out) (Thread r Out)
| event_ask r p p' : p <> Writing -> p' <> Writing -> event_of AskWrite (Thread r p) (Thread r p')
| event_get_write r p : p <> Writing -> event_of GetWrite (Thread r p) (Thread r Writing)
| event_drop_write r : event_of DropWrite (Thread r Writing) (Thread r Out).

(** A step of the mutex that is one of thread [i]. *)
Definition step_of (i : nat) (e : lock_event) (c c' : config) : Prop :=
  step c c' /\
  (exists th th', c.(threads) !! i = Some th /\ c'.(threads) !! i = Some th' /\ event_of e th th') /\
  (forall j, j <> i -> reads c' j = reads c j /\ writes c' j = writes c j).

Lemma reads_insert_ne mu mu' ts i j th :
  j <> i -> reads (Config mu' (<[i := th]> ts)) j = reads (Config mu ts) j /\
            writes (Config mu' (<[i := th]> ts)) j = writes (Config mu ts) j.
Proof. intros Hne. unfold reads, writes. cbn. by rewrite list_lookup_insert_ne. Qed.

(** Waking a sleeper changes neither what it reads nor what it writes. *)
Lemma notified_frame n ts ts' mu j :
  notified n ts ts' -> reads (Config mu ts') j = reads (Config mu ts) j /\
                       writes (Config mu ts') j = writes (Config mu ts) j.
Proof.
  intros [ |ts0 _|ts0 k r Hk]; [done..|]. unfold reads, writes. cbn.
  destruct (decide (k = j)) as [->|Hne]; [|by rewrite list_lookup_insert_ne].
  rewrite list_lookup_insert_eq by (by eapply lookup_lt_Some). by rewrite Hk.
Qed.

(** Every step of the mutex is a step of one of its threads. *)
Lemma step_of_some c c' : step c c' -> exists i e, step_of i e c c'.
Proof.
  intros Hs. pose proof Hs as Hs'. unfold step_of.
  destruct Hs' as [mu ts i r Hi Hm|mu ts i r mu' n ts' Hi Hm Hu Hn|mu ts i r mu' ok Hi Hm Hl
    |mu ts i r mu' ok Hi Hm Hl|mu ts i r Hi|mu ts i r mu' n ts' Hi Hu Hn].
  all: pose proof (mk_is_Some _ _ Hi) as Hsome; exists i.
  - exists GetRead. split; [done|]. split; [|intros; by apply reads_insert_ne].
    do 2 eexists. split_and!; [done|cbn; by apply insert_self|constructor].
  - exists DropRead. split; [done|]. split.
    + do 2 eexists. split_and!; [done|cbn; apply (notified_keeps _ _ _ i r Out Hn); [done|by apply insert_self]|constructor].
    + intros j Hj. destruct (notified_frame _ _ _ mu' j Hn) as [-> ->]. by apply reads_insert_ne.
  - exists (if ok then GetWrite else AskWrite). split; [done|]. split; [|intros; by apply reads_insert_ne].
    do 2 eexists. split_and!; [done|cbn; by apply insert_self|]. by destruct ok; constructor.
  - exists (if ok then GetWrite else AskWrite). split; [done|]. split; [|intros; by apply reads_insert_ne].
    do 2 eexists. split_and!; [done|cbn; by apply insert_self|]. by destruct ok; constructor.
  - exists AskWrite. split; [done|]. split; [|intros; by apply reads_insert_ne].
    do 2 eexists. split_and!; [done|cbn; by apply insert_self|]. by constructor.
  - exists DropWrite. split; [done|]. split.
    + do 2 eexists. split_and!; [done|cbn; apply (notified_keeps _ _ _ i r Out Hn); [done|by apply insert_self]|constructor].
    + intros j Hj. destruct (notified_frame _ _ _ mu' j Hn) as [-> ->]. by apply reads_insert_ne.
Qed.

Lemma mutex_exclusive c i :
  inv c -> writes c i = true -> forall j, reads c j = 0%nat /\ (j <> i -> writes c j = false).
Proof.
  intros Hc Hi j. unfold writes in Hi. destruct (threads c !! i) as [[r []]|] eqn:Ei; try done.
  assert (Ho : c.(m).(mutex) = Some i) by (apply (inv_owner c Hc); eauto).
  assert (Hz : c.(m).(readLocks) = 0) by (apply (inv_excl c Hc); by rewrite Ho). split.
  - unfold reads. destruct (threads c !! j) as [th|] eqn:Ej; [|done].
    rewrite (inv_readers c Hc) in Hz. pose proof (total_ge held _ _ _ held_nonneg Ej). unfold held in *. lia.
  - intros Hne. unfold writes. destruct (threads c !! j) as [[r' []]|] eqn:Ej; try done.
    assert (c.(m).(mutex) = Some j) by (apply (inv_owner c Hc); eauto). congruence.
Qed.

#[global] Instance RWMutex_RWLock : RWLock config.
Proof.
  refine {| rwl_ok := inv; rwl_reads := reads; rwl_writes := writes; rwl_step := step_of |}.
  - intros i e c c' Hc [Hs _]. by eapply inv_step.
  - intros i e c c' j (_ & (th & th' & Hi & Hi' & He) & Hf). case_decide as E; [subst j|by apply Hf].
    unfold reads. rewrite Hi, Hi'. by destruct He.
  - intros i e c c' j (_ & (th & th' & Hi & Hi' & He) & Hf). case_decide as E; [subst j|by apply Hf].
    unfold writes. rewrite Hi, Hi'. by destruct He as [| |r p p' Hp Hp'|r p Hp|]; cbn; try destruct p; try destruct p'.
  - apply mutex_exclusive.
Defined.
End RWMutexLock.
