(* ===== verification/Socket.v ===== *)
(** * Sockets ([src/socket.cpp])

    [Socket::Shared] is a socket descriptor that several threads read, write, accept
    on and close, guarded by an [RWMutex]: the system calls run under a read lock,
    the descriptor is dropped under the write lock. The model is the code for Linux;
    the operating system is left open (a call may return any value), the lock is any
    [RWLock]. The methods are given in the parts between their system calls and locks
    ([begin], [resume], [exclusive]); [step] interleaves the threads. *)
From Stdlib Require Import ZArith Lia.
From stdpp Require Import base list relations.
From S2P Require Import Prelude RWMutex Locking.

Definition InvalidSocket : Z := -1.

(** [errored(s)]: of the [int] that [SO_ERROR] is, one byte is read. *)
Definition errored (s : Z) (so_error : Z) : bool :=
  if s =? InvalidSocket then true else negb (u8 so_error =? 0).

Module Shared.

(** The methods, with the number of bytes asked for, and [Socket::accept], which
    runs under [lock]. *)
Inductive op := IsOpen | Close | Read (bytes : Z) | Write (bytes : Z) | SetOptions | Accept.

Inductive option_name := SO_REUSEADDR | SO_LINGER | TCP_NODELAY.

(** The system calls on the descriptor. *)
Inductive syscall :=
| Getsockopt | Shutdown | Recv (len : Z) | Send (len : Z) | Setsockopt (o : option_name) | AcceptCall.

Inductive result := Bool (b : bool) | Size (n : Z) | Void | Accepted (fd : option Z).

(** What a thread does next while it holds the read lock: make a call, return, or
    drop the lock and take the write lock. *)
Inductive next := Call (c : syscall) | Done (r : result) | Upgrade.

(** *** The methods, in their parts

    [_begin]: the code up to the first call; [_resume]: the code after a call that
    returned [ret] (for [Getsockopt], the value of [SO_ERROR]); [_exclusive]: the
    section under the write lock, with the descriptor it passes to [::close], the new
    value of [s] and the result. *)
Definition isOpen_begin (s : Z) : next := if negb (s =? InvalidSocket) then Call Getsockopt else Upgrade.

Definition isOpen_resume (s ret : Z) : next := if negb (errored s ret) then Done (Bool true) else Upgrade.

Definition isOpen_exclusive (s : Z) : option Z * Z * result := (None, InvalidSocket, Bool false).

Definition close_begin (s : Z) : next := if negb (s =? InvalidSocket) then Call Shutdown else Upgrade.

Definition close_exclusive (s : Z) : option Z * Z * result :=
  if negb (s =? InvalidSocket) then (Some s, InvalidSocket, Void) else (None, s, Void).

Definition read_begin (bytes s : Z) : next :=
  if s =? InvalidSocket then Done (Size 0) else Call (Recv (s32 bytes)).

Definition read_resume (ret : Z) : next := Done (Size (if ret <? 0 then 0 else ret)).

Definition write_begin (bytes s : Z) : next :=
  if s =? InvalidSocket then Done (Bool false)
  else if bytes =? 0 then Done (Bool true)
  else Call (Send (s32 bytes)).

Definition write_resume (ret : Z) : next := Done (Bool (ret >? 0)).

Definition setOptions_begin (s : Z) : next :=
  if s =? InvalidSocket then Done Void else Call (Setsockopt SO_REUSEADDR).

Definition setOptions_resume (o : option_name) : next :=
  match o with
  | SO_REUSEADDR => Call (Setsockopt SO_LINGER)
  | SO_LINGER => Call (Setsockopt TCP_NODELAY)
  | TCP_NODELAY => Done Void
  end.

Definition accept_begin (s : Z) : next :=
  if negb (s =? InvalidSocket) then Call Getsockopt else Done (Accepted None).

Definition accept_errored (s ret : Z) : next :=
  if negb (errored s ret) then Call AcceptCall else Done (Accepted None).

Definition accept_resume (ret : Z) : next := Done (Accepted (if ret =? InvalidSocket then None else Some ret)).

(** The methods by name. *)
Definition begin (o : op) (s : Z) : next :=
  match o with
  | IsOpen => isOpen_begin s
  | Close => close_begin s
  | Read bytes => read_begin bytes s
  | Write bytes => write_begin bytes s
  | SetOptions => setOptions_begin s
  | Accept => accept_begin s
  end.

Definition resume (o : op) (s : Z) (c : syscall) (ret : Z) : next :=
  match o, c with
  | IsOpen, Getsockopt => isOpen_resume s ret
  | Close, Shutdown => Upgrade
  | Read _, Recv _ => read_resume ret
  | Write _, Send _ => write_resume ret
  | SetOptions, Setsockopt o => setOptions_resume o
  | Accept, Getsockopt => accept_errored s ret
  | Accept, AcceptCall => accept_resume ret
  | _, _ => Done Void
  end.

Definition exclusive (o : op) (s : Z) : option Z * Z * result :=
  match o with
  | Close => close_exclusive s
  | _ => isOpen_exclusive s
  end.

(** ** Threads *)
Inductive pc :=
| Idle
| Entering (o : op)
| Locked (o : op)
| Held (o : op) (n : next)
| InCall (o : op) (c : syscall) (fd : Z)
| Waiting (o : op)
| Exclusive (o : op)
| Leaving (o : op) (r : result)
| Returned (o : op) (r : result).

Section Machine.
Context {K : Type} `{RWLock K}.

(** [closed]: the descriptors that were passed to [::close]. *)
Record config := Config { lock : K; s : Z; closed : list Z; pcs : list pc }.

Definition set_pc (i : nat) (p : pc) (c : config) : config :=
  Config c.(lock) c.(s) c.(closed) (<[i := p]> c.(pcs)).

Definition set_lock (k : K) (c : config) : config := Config k c.(s) c.(closed) c.(pcs).

Inductive step (i : nat) (c : config) : config -> Prop :=
| step_enter o p : c.(pcs) !! i = Some p -> (p = Idle \/ exists o' r, p = Returned o' r) ->
    step i c (set_pc i (Entering o) c)
| step_lock o k : c.(pcs) !! i = Some (Entering o) -> rwl_step i GetRead c.(lock) k ->
    step i c (set_pc i (Locked o) (set_lock k c))
| step_begin o : c.(pcs) !! i = Some (Locked o) -> step i c (set_pc i (Held o (begin o c.(s))) c)
| step_call o x : c.(pcs) !! i = Some (Held o (Call x)) -> step i c (set_pc i (InCall o x c.(s)) c)
| step_return o x fd ret : c.(pcs) !! i = Some (InCall o x fd) ->
    step i c (set_pc i (Held o (resume o c.(s) x ret)) c)
| step_unlock o r k : c.(pcs) !! i = Some (Held o (Done r)) -> rwl_step i DropRead c.(lock) k ->
    step i c (set_pc i (Returned o r) (set_lock k c))
| step_upgrade o k : c.(pcs) !! i = Some (Held o Upgrade) -> rwl_step i DropRead c.(lock) k ->
    step i c (set_pc i (Waiting o) (set_lock k c))
| step_wait o k : c.(pcs) !! i = Some (Waiting o) -> rwl_step i AskWrite c.(lock) k ->
    step i c (set_lock k c)
| step_wlock o k : c.(pcs) !! i = Some (Waiting o) -> rwl_step i GetWrite c.(lock) k ->
    step i c (set_pc i (Exclusive o) (set_lock k c))
| step_exclusive o fd s' r : c.(pcs) !! i = Some (Exclusive o) -> exclusive o c.(s) = (fd, s', r) ->
    step i c (Config c.(lock) s' (c.(closed) ++ option_list fd) (<[i := Leaving o r]> c.(pcs)))
| step_wunlock o r k : c.(pcs) !! i = Some (Leaving o r) -> rwl_step i DropWrite c.(lock) k ->
    step i c (set_pc i (Returned o r) (set_lock k c)).

Definition steps : config -> config -> Prop := rtc (fun c c' => exists i, step i c c').

(** A new socket, no thread in a method. *)
Definition initial (k : K) (fd : Z) (n : nat) : config := Config k fd [] (replicate n Idle).

(** ** The invariant *)

(** The locks a thread has at a point of its code. *)
Definition pc_reads (p : pc) : nat := match p with Locked _ | Held _ _ | InCall _ _ _ => 1%nat | _ => 0%nat end.
Definition pc_writes (p : pc) : bool := match p with Exclusive _ | Leaving _ _ => true | _ => false end.

(** What a thread knows of [s] there; [close()] returns only past its exclusive
    section. *)
Definition pc_socket (s : Z) (p : pc) : Prop :=
  match p with
  | Held o (Call x) => s <> InvalidSocket /\ (o = Close -> x = Shutdown)
  | Held o (Done _) => o <> Close
  | InCall o x fd => fd = s /\ s <> InvalidSocket /\ (o = Close -> x = Shutdown)
  | Leaving o _ | Returned o _ => o = Close -> s = InvalidSocket
  | _ => True
  end.

Record inv (fd : Z) (c : config) : Prop := {
  inv_lock : rwl_ok c.(lock);
  inv_reads i p : c.(pcs) !! i = Some p -> rwl_reads c.(lock) i = pc_reads p;
  inv_writes i p : c.(pcs) !! i = Some p -> rwl_writes c.(lock) i = pc_writes p;
  inv_socket i p : c.(pcs) !! i = Some p -> pc_socket c.(s) p;
  inv_fd : c.(s) = fd /\ c.(closed) = [] \/ c.(s) = InvalidSocket /\ (c.(closed) = [] \/ c.(closed) = [fd])
}.

(** Thread [i] moves to another point of its code with one step of the lock. *)
Lemma inv_locked fd c i p p' e k :
  inv fd c -> c.(pcs) !! i = Some p -> rwl_step i e c.(lock) k ->
  reads_after e (pc_reads p) = pc_reads p' -> writes_after e (pc_writes p) = pc_writes p' ->
  pc_socket c.(s) p' -> inv fd (set_pc i p' (set_lock k c)).
Proof.
  intros [Hk Hr Hw Hs Hf] Hi He Er Ew Hp'. split; cbn.
  - by eapply rwl_step_ok.
  - intros j q Hj. rewrite (rwl_step_reads _ _ _ _ j He). apply list_lookup_insert_Some in Hj as [(-> & <- & _)|[Hne Hj]].
    + rewrite decide_True by done. by rewrite (Hr _ _ Hi).
    + rewrite decide_False by done. by apply Hr.
  - intros j q Hj. rewrite (rwl_step_writes _ _ _ _ j He). apply list_lookup_insert_Some in Hj as [(-> & <- & _)|[Hne Hj]].
    + rewrite decide_True by done. by rewrite (Hw _ _ Hi).
    + rewrite decide_False by done. by apply Hw.
  - intros j q Hj. apply list_lookup_insert_Some in Hj as [(-> & <- & _)|[Hne Hj]]; [done|by eapply Hs].
  - done.
Qed.

(** Thread [i] moves without a step of the lock. *)
Lemma inv_move fd c i p p' :
  inv fd c -> c.(pcs) !! i = Some p -> pc_reads p = pc_reads p' -> pc_writes p = pc_writes p' ->
  pc_socket c.(s) p' -> inv fd (set_pc i p' c).
Proof.
  intros [Hk Hr Hw Hs Hf] Hi Er Ew Hp'. split; cbn; [done|..|done].
  all: intros j q Hj; apply list_lookup_insert_Some in Hj as [(-> & <- & _)|[Hne Hj]]; [|by eauto].
  - rewrite <-Er. by apply Hr.
  - rewrite <-Ew. by apply Hw.
  - done.
Qed.

(** While a thread is in its exclusive section no other is in a call. *)
Lemma inv_alone fd c i o :
  inv fd c -> c.(pcs) !! i = Some (Exclusive o) ->
  forall j q, j <> i -> c.(pcs) !! j = Some q -> pc_reads q = 0%nat /\ pc_writes q = false.
Proof.
  intros Hc Hi j q Hne Hj. pose proof (inv_writes _ _ Hc _ _ Hi) as Hw.
  destruct (rwl_exclusive _ _ (inv_lock _ _ Hc) Hw j) as [H1 H2].
  rewrite <-(inv_reads _ _ Hc _ _ Hj), <-(inv_writes _ _ Hc _ _ Hj). auto.
Qed.

Lemma socket_inv_exclusive fd c i o cl s' r :
  inv fd c -> c.(pcs) !! i = Some (Exclusive o) -> exclusive o c.(s) = (cl, s', r) ->
  inv fd (Config c.(lock) s' (c.(closed) ++ option_list cl) (<[i := Leaving o r]> c.(pcs))).
Proof.
  intros Hc Hi Hx. pose proof (inv_alone fd c i o Hc Hi) as Halone. destruct Hc as [Hk Hr Hw Hs Hf].
  assert (Hs' : s' = InvalidSocket).
  { unfold exclusive, close_exclusive, isOpen_exclusive in Hx. destruct o; simplify_eq; try done. destruct (negb _) eqn:E; simplify_eq; [done|]. lia. }
  split; cbn; [done|..].
  - intros j q Hj. apply list_lookup_insert_Some in Hj as [(-> & <- & _)|[Hne Hj]]; [|by eauto]. by rewrite (Hr _ _ Hi).
  - intros j q Hj. apply list_lookup_insert_Some in Hj as [(-> & <- & _)|[Hne Hj]]; [|by eauto]. by rewrite (Hw _ _ Hi).
  - intros j q Hj. apply list_lookup_insert_Some in Hj as [(-> & <- & _)|[Hne Hj]]; [by intros _|].
    destruct (Halone j q) as [Hr0 Hw0]; [done..|]. destruct q; cbn in *; done.
  - right. split; [done|]. unfold exclusive, close_exclusive, isOpen_exclusive in Hx. destruct Hf as [[He ->]|[He Hl]].
    + destruct o; simplify_eq; cbn; auto. destruct (negb _); simplify_eq; cbn; auto.
    + rewrite He in Hx. by destruct o; cbn in Hx; simplify_eq; cbn; rewrite app_nil_r.
Qed.

Lemma begin_socket o s : pc_socket s (Held o (begin o s)).
Proof.
  unfold begin, isOpen_begin, close_begin, read_begin, write_begin, setOptions_begin, accept_begin.
  destruct o; destruct (s =? InvalidSocket) eqn:E; cbn; try done; try (split; [lia|done]).
  destruct (bytes =? 0); cbn; [done|]. split; [lia|done].
Qed.

Lemma resume_socket o s x ret :
  s <> InvalidSocket -> (o = Close -> x = Shutdown) -> pc_socket s (Held o (resume o s x ret)).
Proof.
  intros Hs Hx. destruct o; try (rewrite Hx by done; cbn); try done; destruct x as [| | | |[]|]; cbn; try done;
    unfold isOpen_resume, accept_errored; by destruct (negb _).
Qed.

Lemma socket_inv_step fd i c c' : inv fd c -> step i c c' -> inv fd c'.
Proof.
  intros Hc Hs. destruct Hs as [o p Hi Hp|o k Hi He|o Hi|o x Hi|o x fd' ret Hi|o r k Hi He|o k Hi He|o k Hi He
    |o k Hi He|o cl s' r Hi Hx|o r k Hi He].
  - eapply inv_move; [done|exact Hi|..]; try done; by destruct Hp as [->|(? & ? & ->)].
  - by eapply inv_locked.
  - eapply inv_move; [done|exact Hi|done|done|]. apply begin_socket.
  - eapply inv_move; [done|exact Hi|done|done|]. cbn. split; [done|]. exact (inv_socket _ _ Hc _ _ Hi).
  - eapply inv_move; [done|exact Hi|done|done|]. destruct (inv_socket _ _ Hc _ _ Hi) as (_ & ? & ?).
    by apply resume_socket.
  - eapply inv_locked; [done|exact Hi|exact He|done|done|].
    intros ->. by destruct (inv_socket _ _ Hc _ _ Hi).
  - by eapply inv_locked.
  - replace (set_lock k c) with (set_pc i (Waiting o) (set_lock k c)); [by eapply inv_locked|].
    unfold set_pc. cbn. by rewrite list_insert_id.
  - by eapply inv_locked.
  - by eapply socket_inv_exclusive.
  - eapply inv_locked; [done|exact Hi|exact He|done|done|]. exact (inv_socket _ _ Hc _ _ Hi).
Qed.

Definition unlocked (k : K) : Prop := rwl_ok k /\ forall i, rwl_reads k i = 0%nat /\ rwl_writes k i = false.

Lemma socket_inv_initial k fd n : unlocked k -> inv fd (initial k fd n).
Proof.
  intros [Hk Hi]. assert (Hl : forall i p, replicate n Idle !! i = Some p -> p = Idle) by by intros i p [-> _]%lookup_replicate.
  split; cbn; [done|..|by left]; intros i p Hp; rewrite (Hl i p Hp); try done; apply Hi.
Qed.

Lemma socket_inv_steps fd c c' : inv fd c -> steps c c' -> inv fd c'.
Proof.
  intros Hc Hs. revert Hc. induction Hs as [c|c c1 c' [i Hi] _ IH]; [done|]. intros Hc. apply IH. by eapply socket_inv_step.
Qed.

(** Once the descriptor is dropped nothing closes it any more. *)
Lemma dropped_stays c c' : c.(s) = InvalidSocket -> steps c c' -> c'.(s) = InvalidSocket /\ c'.(closed) = c.(closed).
Proof.
  intros Hs Hr. revert Hs. induction Hr as [c|c c1 c' [i Hi] _ IH]; intros Hs; [done|].
  assert (H1 : c1.(s) = InvalidSocket /\ c1.(closed) = c.(closed)).
  { destruct Hi as [| | | | | | | | |o cl s' r Hi Hx|]; try done. cbn. unfold exclusive, close_exclusive, isOpen_exclusive in Hx. rewrite Hs in Hx.
    by destruct o; cbn in Hx; simplify_eq; cbn; rewrite app_nil_r. }
  destruct H1 as [H1 H2]. destruct (IH H1) as [? ?]. split; congruence.
Qed.
End Machine.
Arguments config : clear implicits.
End Shared.

(** ** [Socket] *)
Module Socket.

(** [Shared::close()] by a thread that is alone with the mutex: [Blocks] when the write
    lock cannot be had. *)
Definition close_alone (mu : RWMutex.t) (me : nat) : outcome RWMutex.t :=
  let mu := RWMutex.lockReader mu in
  let '(mu, _) := RWMutex.unlockReader mu in
  let '(mu, ok) := RWMutex.lockWriter_enter mu me in
  if ok then Ret (RWMutex.unlockWriter mu).1 else Blocks.

(** [Socket::Socket(address, port)] once [Shared::create] has made the shared state:
    what [bind] and [listen] return; the mutex of the state it keeps. [shared.reset()]
    runs the destructor, which closes. *)
Definition construct (bind listen : Z) (me : nat) : outcome (option RWMutex.t) :=
  let mu := RWMutex.lockReader RWMutex.create in
  if negb (bind =? 0) then mu ← close_alone mu me; Ret None
  else if negb (listen =? 0) then mu ← close_alone mu me; Ret None
  else Ret (Some (RWMutex.unlockReader mu).1).

(** The [timeval] for [select]: 32-bit arithmetic. *)
Definition timeval_of (timeoutMillis : Z) : Z * Z :=
  let microseconds := u32 (timeoutMillis * 1000) in
  let tv_sec := microseconds / 1000000 in
  (tv_sec, u32 (microseconds - u32 (tv_sec * 1000000))).
End Socket.

Module SocketProps.
Import Shared.

(** C23. A descriptor is never used after it is closed, and closed at most once: in
    every interleaving of threads that call [isOpen], [close], [read], [write],
    [setOptions] and [accept] on one socket, a thread inside a system call uses the
    descriptor the socket was made with, which has not been passed to [::close]; and
    once a [close()] has returned the socket stays invalid. *)
Theorem socket_no_use_after_close {K : Type} {HK : RWLock K} (k : K) fd n c :
  unlocked k -> steps (initial k fd n) c ->
  (forall i o x fd', c.(pcs) !! i = Some (InCall o x fd') -> fd' = fd /\ c.(closed) = []) /\
  (c.(closed) = [] \/ c.(closed) = [fd]) /\
  (forall i r, c.(pcs) !! i = Some (Returned Close r) -> c.(s) = InvalidSocket).
Proof.
  intros Hk Hs. pose proof (socket_inv_steps fd _ _ (socket_inv_initial k fd n Hk) Hs) as Hc. split_and!.
  - intros i o x fd' Hi. destruct (inv_socket _ _ Hc _ _ Hi) as (-> & Hv & _). by destruct (inv_fd _ _ Hc) as [[-> ->]|[? _]].
  - destruct (inv_fd _ _ Hc) as [[_ ->]|[_ ?]]; auto.
  - intros i r Hi. by apply (inv_socket _ _ Hc _ _ Hi).
Qed.

(** One thread alone with an [RWMutex]. *)
Lemma alone_step e mu th mu' th' :
  RWMutex.step (RWMutex.Config mu [th]) (RWMutex.Config mu' [th']) -> RWMutexLock.event_of e th th' ->
  rwl_step 0 e (RWMutex.Config mu [th]) (RWMutex.Config mu' [th']).
Proof.
  intros Hs He. split; [done|]. split; [by exists th, th'|]. intros [|j] Hj; [done|]. done.
Qed.

Lemma alone_read : rwl_step 0 GetRead (RWMutex.initial 1)
  (RWMutex.Config (RWMutex.mk 1 0 None) [RWMutex.Thread 1 RWMutex.Out]).
Proof.
  apply alone_step; [|constructor]. exact (RWMutex.step_lockReader RWMutex.create [RWMutex.Thread 0 RWMutex.Out] 0 0 eq_refl eq_refl).
Qed.

Lemma alone_unread : rwl_step 0 DropRead
  (RWMutex.Config (RWMutex.mk 1 0 None) [RWMutex.Thread 1 RWMutex.Out]) (RWMutex.initial 1).
Proof.
  apply alone_step; [|constructor].
  eapply (RWMutex.step_unlockReader (RWMutex.mk 1 0 None) [RWMutex.Thread 1 RWMutex.Out] 0 0); try done. constructor.
Qed.

Lemma alone_write : rwl_step 0 GetWrite (RWMutex.initial 1)
  (RWMutex.Config (RWMutex.mk 0 0 (Some 0%nat)) [RWMutex.Thread 0 RWMutex.Writing]).
Proof.
  apply alone_step; [|by constructor].
  exact (RWMutex.step_lockWriter RWMutex.create [RWMutex.Thread 0 RWMutex.Out] 0 0 _ true eq_refl eq_refl eq_refl).
Qed.

Lemma alone_unwrite : rwl_step 0 DropWrite
  (RWMutex.Config (RWMutex.mk 0 0 (Some 0%nat)) [RWMutex.Thread 0 RWMutex.Writing]) (RWMutex.initial 1).
Proof.
  apply alone_step; [|constructor].
  eapply (RWMutex.step_unlockWriter (RWMutex.mk 0 0 (Some 0%nat)) [RWMutex.Thread 0 RWMutex.Writing] 0 0); try done.
  constructor.
Qed.

Lemma initial_unlocked n : unlocked (RWMutex.initial n).
Proof.
  split; [apply RWMutex.inv_initial|]. intros i. cbn. unfold RWMutexLock.reads, RWMutexLock.writes. cbn.
  destruct (replicate n _ !! i) as [th|] eqn:E; [|done]. by apply lookup_replicate in E as [-> _].
Qed.

Ltac socket_step := eapply rtc_l; [exists 0%nat|].

(** [isOpen()] on a socket with a pending error drops the descriptor without closing
    it: a thread that calls it gets [false], the socket is invalid, and whatever is
    called afterwards the descriptor is never passed to [::close]. *)
Theorem socket_error_leaks fd so_error :
  fd <> InvalidSocket -> u8 so_error <> 0 ->
  exists c, steps (initial (RWMutex.initial 1) fd 1) c /\ c.(pcs) = [Returned IsOpen (Bool false)] /\
    c.(s) = InvalidSocket /\ forall c', steps c c' -> c'.(s) = InvalidSocket /\ c'.(closed) = [].
Proof.
  intros Hfd He. exists (Config (RWMutex.initial 1) InvalidSocket [] [Returned IsOpen (Bool false)]).
  split_and!; [|done|done|intros c' Hc'; by eapply dropped_stays in Hc'].
  assert (Hn : (fd =? InvalidSocket) = false) by lia.
  socket_step; [by apply (step_enter 0 _ IsOpen Idle); [|left]|].
  socket_step; [eapply (step_lock 0 _ IsOpen); [reflexivity|exact alone_read]|].
  socket_step; [by apply (step_begin 0 _ IsOpen)|]. cbn. unfold isOpen_begin. rewrite Hn. cbn.
  socket_step; [by apply (step_call 0 _ IsOpen Getsockopt)|].
  socket_step; [by apply (step_return 0 _ IsOpen Getsockopt fd so_error)|]. cbn.
  unfold isOpen_resume, errored. rewrite Hn.
  rewrite (proj2 (Z.eqb_neq _ _) He). cbn.
  socket_step; [eapply (step_upgrade 0 _ IsOpen); [reflexivity|exact alone_unread]|].
  socket_step; [eapply (step_wlock 0 _ IsOpen); [reflexivity|exact alone_write]|].
  socket_step; [by apply (step_exclusive 0 _ IsOpen None InvalidSocket (Bool false))|].
  socket_step; [eapply (step_wunlock 0 _ IsOpen (Bool false)); [reflexivity|exact alone_unwrite]|].
  apply rtc_refl.
Qed.

(** When [bind] or [listen] fails the constructor of [Socket] waits for ever: the
    shared state is destroyed inside a read-locked section, and its destructor asks
    for the write lock of the same mutex. *)
Theorem socket_bind_failure_blocks bind listen me :
  (Socket.construct bind listen me = Blocks <-> bind <> 0 \/ listen <> 0) /\
  (bind = 0 -> listen = 0 -> Socket.construct bind listen me = Ret (Some RWMutex.create)).
Proof.
  unfold Socket.construct. destruct (bind =? 0) eqn:Eb; cbn; [destruct (listen =? 0) eqn:El; cbn|].
  - split; [split; [done|lia]|done].
  - split; [split; [intros _; right; lia|done]|lia].
  - split; [split; [intros _; left; lia|done]|lia].
Qed.

(** The timeout of [connect]: up to 2^32 / 1000 milliseconds (71 minutes) [select]
    waits as long as was asked for; above, the product wraps. *)
Theorem socket_timeout timeoutMillis sec usec :
  0 <= timeoutMillis < 2 ^ 32 -> Socket.timeval_of timeoutMillis = (sec, usec) ->
  0 <= usec < 1000000 /\ sec * 1000000 + usec = (timeoutMillis * 1000) mod 2 ^ 32 /\
  (timeoutMillis * 1000 < 2 ^ 32 -> sec * 1000000 + usec = timeoutMillis * 1000).
Proof.
  intros Ht He. unfold Socket.timeval_of in He. injection He as <- <-.
  set (m := u32 (timeoutMillis * 1000)). pose proof (u32_range (timeoutMillis * 1000)) as Hm. fold m in Hm.
  pose proof (Z.div_mod m 1000000 ltac:(lia)) as Hd. pose proof (Z.mod_pos_bound m 1000000 ltac:(lia)) as Hb.
  pose proof (Z.div_pos m 1000000 ltac:(lia) ltac:(lia)) as Hp.
  rewrite (u32_small (m / 1000000 * 1000000)) by lia. rewrite u32_small by lia.
  split_and!; [lia|lia|unfold m, u32; lia|]. intros Hs. unfold m in *. rewrite u32_small in * by lia. lia.
Qed.

Lemma socket_no_use_after_close_witness :
  (forall i o x fd', (initial (RWMutex.initial 2) 7 2).(pcs) !! i = Some (InCall o x fd') -> fd' = 7 /\
    (initial (RWMutex.initial 2) 7 2).(closed) = []) /\
  (exists c, steps (initial (RWMutex.initial 1) 7 1) c /\ c.(pcs) = [InCall IsOpen Getsockopt 7] /\ c.(closed) = []).
Proof.
  split.
  - apply (socket_no_use_after_close (RWMutex.initial 2) 7 2 _ (initial_unlocked 2)). apply rtc_refl.
  - assert (Hs : steps (initial (RWMutex.initial 1) 7 1)
      (Config (RWMutex.Config (RWMutex.mk 1 0 None) [RWMutex.Thread 1 RWMutex.Out]) 7 [] [InCall IsOpen Getsockopt 7])).
    { socket_step; [by apply (step_enter 0 _ IsOpen Idle); [|left]|].
      socket_step; [eapply (step_lock 0 _ IsOpen); [reflexivity|exact alone_read]|].
      socket_step; [by apply (step_begin 0 _ IsOpen)|].
      socket_step; [by apply (step_call 0 _ IsOpen Getsockopt)|]. apply rtc_refl. }
    eexists. split; [exact Hs|]. split; [reflexivity|].
    destruct (socket_no_use_after_close (RWMutex.initial 1) 7 1 _ (initial_unlocked 1) Hs) as (Hc & _).
    exact (proj2 (Hc 0%nat IsOpen Getsockopt 7 eq_refl)).
Defined.

Lemma socket_error_leaks_witness :
  exists c, steps (initial (RWMutex.initial 1) 7 1) c /\ c.(s) = InvalidSocket /\ c.(closed) = [].
Proof.
  destruct (socket_error_leaks 7 104) as (c & Hs & _ & Hi & Hc); [discriminate..|].
  exists c. split; [exact Hs|]. apply Hc. apply rtc_refl.
Defined.

Lemma socket_bind_failure_blocks_witness :
  Socket.construct 98 0 0 = Blocks /\ Socket.construct 0 0 0 = Ret (Some RWMutex.create).
Proof.
  split.
  - apply (socket_bind_failure_blocks 98 0 0). left. discriminate.
  - apply (socket_bind_failure_blocks 0 0 0); reflexivity.
Defined.

Lemma socket_timeout_witness : 0 <= 500000 < 1000000 /\ 1 * 1000000 + 500000 = 1500 * 1000.
Proof.
  destruct (socket_timeout 1500 1 500000) as (Hu & _ & Hs); [split; discriminate || reflexivity|reflexivity|].
  split; [exact Hu|]. apply Hs. reflexivity.
Defined.
End SocketProps.
