(* ===== verification/SocketSetup.v ===== *)
(** * Making, connecting and destroying sockets ([src/socket.cpp])

    The functions of [socket.cpp] around the descriptor that [Socket.v] shares between
    threads: [Shared::create], the destructor, [setOptions], [setBlocking], and the
    methods of [Socket]. A program is a function of the calls made so far ([history]):
    the operating system is any [answer] to the next call. The code is that for Linux,
    where [init] and [term] are empty. *)
From Stdlib Require Import ZArith Lia.
From stdpp Require Import base list.
From S2P Require Import Prelude RWMutex Locking Socket.

(** ** Calls *)
Inductive call :=
| Getaddrinfo
| Freeaddrinfo (info : Z)
| NewSocket (info : Z)
| SetOption (s : Z) (o : Shared.option_name)
| GetError (s : Z)
| Bind (s info : Z)
| Listen (s backlog : Z)
| AcceptOn (s : Z)
| Connect (s info : Z)
| Select (nfds : Z) (tv : Z * Z)
| GetFlags (s : Z)
| SetFlags (s flags : Z)
| ShutdownSocket (s : Z)
| CloseSocket (s : Z).

Definition history : Type := list call.

(** [O_NONBLOCK]. *)
Definition O_NONBLOCK : Z := 2048.

(** [FD_SET(s, &fdset)] writes past the set, or before it, for other descriptors. *)
Definition FD_SETSIZE : Z := 1024.

Definition FD_SET (s : Z) : outcome unit :=
  if (0 <=? s) && (s <? FD_SETSIZE) then Ret tt else Undefined.

(** The members of a [Shared]; [info] is 0 for [nullptr]. *)
Record shared := MkShared { info : Z; s : Z }.

Module SocketSetup.
Section Setup.
Context (answer : history -> call -> Z).

Definition M (A : Type) : Type := history -> outcome (A * history).

#[local] Instance M_ret : MRet M := fun A a h => Ret (a, h).
#[local] Instance M_bind : MBind M := fun A B f m h => '(a, h) ← m h; f a h.

Definition sys (c : call) : M Z := fun h => Ret (answer h c, h ++ [c]).
Definition lift {A} (m : outcome A) : M A := fun h => a ← m; Ret (a, h).

(** [setBlocking]. *)
Definition setBlocking (s : Z) (blocking : bool) : M bool :=
  arg ← sys (GetFlags s);
  if arg <? 0 then mret false
  else
    let arg := if blocking then Z.land arg (Z.lnot O_NONBLOCK) else Z.lor arg O_NONBLOCK in
    r ← sys (SetFlags s arg);
    mret (r >=? 0).

(** [errored]: the answer to [GetError] is the value of [SO_ERROR]. *)
Definition errored_ (s : Z) : M bool :=
  if s =? InvalidSocket then mret true
  else e ← sys (GetError s); mret (errored s e).

Definition setOptions (s : Z) : M unit :=
  if s =? InvalidSocket then mret tt
  else
    _ ← sys (SetOption s Shared.SO_REUSEADDR);
    _ ← sys (SetOption s Shared.SO_LINGER);
    _ ← sys (SetOption s Shared.TCP_NODELAY);
    mret tt.

(** [Shared::create]: the answer to [Getaddrinfo] is what it stores in [info]. *)
Definition create : M (option shared) :=
  info ← sys Getaddrinfo;
  if negb (info =? 0) then
    socket ← sys (NewSocket info);
    _ ← setOptions socket;
    mret (Some (MkShared info socket))
  else mret None.

(** [Shared::isOpen] and [Shared::close]. *)
Definition shared_isOpen (x : shared) : M (bool * shared) :=
  e ← errored_ x.(s);
  if negb (e : bool) then mret (true, x) else mret (false, MkShared x.(info) InvalidSocket).

Definition shared_close (x : shared) : M shared :=
  if negb (x.(s) =? InvalidSocket) then
    _ ← sys (ShutdownSocket x.(s));
    _ ← sys (CloseSocket x.(s));
    mret (MkShared x.(info) InvalidSocket)
  else mret x.

(** [~Shared]. *)
Definition destroy (x : shared) : M unit :=
  _ ← (if negb (x.(info) =? 0) then _ ← sys (Freeaddrinfo x.(info)); mret tt else mret tt);
  _ ← shared_close x;
  mret tt.

(** [shared.reset()] while [lock] holds the read lock: the destructor waits for the write
    lock of the same mutex. *)
Definition destroy_locked (x : shared) : M unit :=
  _ ← (if negb (x.(info) =? 0) then _ ← sys (Freeaddrinfo x.(info)); mret tt else mret tt);
  _ ← (if negb (x.(s) =? InvalidSocket) then _ ← sys (ShutdownSocket x.(s)); mret tt else mret tt);
  _ ← lift (Socket.close_alone (RWMutex.lockReader RWMutex.create) 0);
  mret tt.

(** ** [Socket] *)

(** [Socket::Socket(address, port)]. *)
Definition construct : M (option shared) :=
  x ← create;
  match x with
  | None => mret None
  | Some x =>
    b ← sys (Bind x.(s) x.(info));
    if negb (b =? 0) then _ ← destroy_locked x; mret None
    else
      l ← sys (Listen x.(s) 0);
      if negb (l =? 0) then _ ← destroy_locked x; mret None
      else mret (Some x)
  end.

Definition accept (x : option shared) : M (option shared) :=
  match x with
  | None => mret None
  | Some x =>
    e ← errored_ x.(s);
    if negb (x.(s) =? InvalidSocket) && negb (e : bool) then
      accepted ← sys (AcceptOn x.(s));
      if negb (accepted =? InvalidSocket) then
        _ ← setOptions accepted; mret (Some (MkShared 0 accepted))
      else mret None
    else mret None
  end.

Definition isOpen (x : option shared) : M (bool * option shared) :=
  match x with
  | None => mret (false, None)
  | Some x => '(b, x) ← shared_isOpen x; mret (b, Some x)
  end.

Definition close (x : option shared) : M (option shared) :=
  match x with
  | None => mret None
  | Some x => x ← shared_close x; mret (Some x)
  end.

(** The function [connect] passes to [lock]: whether [out] is set. *)
Definition attempt (timeoutMillis : Z) (x : shared) : M bool :=
  if x.(s) =? InvalidSocket then mret false
  else if timeoutMillis =? 0 then
    c ← sys (Connect x.(s) x.(info)); mret (c =? 0)
  else
    nb ← setBlocking x.(s) false;
    if negb (nb : bool) then mret false
    else
      res ← sys (Connect x.(s) x.(info));
      if res =? 0 then setBlocking x.(s) true
      else
        _ ← lift (FD_SET x.(s));
        res ← sys (Select (s32 (x.(s) + 1)) (Socket.timeval_of timeoutMillis));
        if negb (res >? 0) then mret false
        else
          e ← errored_ x.(s);
          if e : bool then mret false else setBlocking x.(s) true.

(** [Socket::connect]: the state returned; the references that are dropped run the
    destructor. *)
Definition connect (timeoutMillis : Z) : M (option shared) :=
  x ← create;
  match x with
  | None => mret None
  | Some x =>
    out ← attempt timeoutMillis x;
    if negb (out : bool) then _ ← destroy x; mret None
    else
      '(b, x) ← shared_isOpen x;
      if b : bool then mret (Some x) else _ ← destroy x; mret None
  end.
End Setup.
End SocketSetup.

(** ** What the calls acquire and release *)
Module SocketSetupFacts.
Import SocketSetup.

Definition freed (h : history) : list Z := omap (fun c => match c with Freeaddrinfo i => Some i | _ => None end) h.
Definition closed (h : history) : list Z := omap (fun c => match c with CloseSocket fd => Some fd | _ => None end) h.

Lemma freed_app h k : freed (h ++ k) = freed h ++ freed k.
Proof. apply omap_app. Qed.
Lemma closed_app h k : closed (h ++ k) = closed h ++ closed k.
Proof. apply omap_app. Qed.

(** Calls that release nothing. *)
Definition quiet (k : history) : Prop := freed k = [] /\ closed k = [].

Lemma quiet_app h k : quiet h -> quiet k -> quiet (h ++ k).
Proof. intros [Hf Hc] [Hf' Hc']. split; [by rewrite freed_app, Hf|by rewrite closed_app, Hc]. Qed.

Section Facts.
Context (answer : history -> call -> Z).

(** A computation makes the calls [k], which release nothing, with the result [P]. *)
Definition acts {A} (m : M A) (h : history) (P : A -> history -> Prop) : Prop :=
  exists a k, m h = Ret (a, h ++ k) /\ quiet k /\ P a k.

Lemma acts_ret {A} (a : A) h (P : A -> history -> Prop) : P a [] -> acts (fun h => Ret (a, h)) h P.
Proof. intros HP. exists a, []. by rewrite app_nil_r. Qed.

Lemma acts_sys c h (P : Z -> history -> Prop) : quiet [c] -> P (answer h c) [c] -> acts (sys answer c) h P.
Proof. intros Hq HP. by exists (answer h c), [c]. Qed.

Lemma acts_bind {A B} (m : M A) (f : A -> M B) h P Q :
  acts m h P -> (forall a k, quiet k -> P a k -> acts (f a) (h ++ k) (fun b k' => Q b (k ++ k'))) ->
  acts (M_bind _ _ f m) h Q.
Proof.
  intros (a & k & Hm & Hk & HP) Hf. destruct (Hf a k Hk HP) as (b & k' & Hb & Hk' & HQ).
  exists b, (k ++ k'). unfold M_bind. rewrite Hm, outcome_bind_ret_l, Hb, app_assoc. split_and!; [done|by apply quiet_app|done].
Qed.

Lemma acts_impl {A} (m : M A) h (P Q : A -> history -> Prop) :
  (forall a k, quiet k -> P a k -> Q a k) -> acts m h P -> acts m h Q.
Proof. intros HPQ (a & k & Hm & Hk & HP). exists a, k. auto. Qed.

(** One bit of the flags. *)
Definition set_mode (flags : Z) (blocking : bool) : Z :=
  if blocking then Z.land flags (Z.lnot O_NONBLOCK) else Z.lor flags O_NONBLOCK.

Lemma set_mode_bits flags blocking i : 0 <= i ->
  Z.testbit (set_mode flags blocking) i = if i =? 11 then negb blocking else Z.testbit flags i.
Proof.
  intros Hi. assert (Hb : Z.testbit O_NONBLOCK i = (i =? 11)).
  { change O_NONBLOCK with (2 ^ 11). rewrite Z.pow2_bits_eqb by lia. apply Z.eqb_sym. }
  unfold set_mode. destruct blocking.
  - rewrite Z.land_spec, Z.lnot_spec, Hb by lia. destruct (i =? 11); cbn; [by rewrite andb_false_r|by rewrite andb_true_r].
  - rewrite Z.lor_spec, Hb. destruct (i =? 11); cbn; [by rewrite orb_true_r|by rewrite orb_false_r].
Qed.

(** The mode of a descriptor: a new one is blocking, and [F_SETFL] changes the mode when
    it succeeds. *)
Fixpoint nonblocking (fd : Z) (nb : bool) (h k : history) : bool :=
  match k with
  | [] => nb
  | c :: k =>
    let nb := match c with
      | NewSocket _ => if answer h c =? fd then false else nb
      | SetFlags s flags => if (s =? fd) && (answer h c >=? 0) then Z.testbit flags 11 else nb
      | _ => nb
      end in
    nonblocking fd nb (h ++ [c]) k
  end.

Lemma nonblocking_app fd nb h k k' :
  nonblocking fd nb h (k ++ k') = nonblocking fd (nonblocking fd nb h k) (h ++ k) k'.
Proof.
  revert h nb. induction k as [|c k IH]; intros h nb; cbn [nonblocking app]; [by rewrite app_nil_r|].
  rewrite IH. by rewrite <-app_assoc.
Qed.

(** Either that, or undefined behaviour, with [U] known. *)
Definition acts_or {A} (U : Prop) (m : M A) (h : history) (P : A -> history -> Prop) : Prop :=
  acts m h P \/ m h = Undefined /\ U.

Lemma acts_or_bind {A B} U (m : M A) (f : A -> M B) h P Q :
  acts m h P -> (forall a k, quiet k -> P a k -> acts_or U (f a) (h ++ k) (fun b k' => Q b (k ++ k'))) ->
  acts_or U (M_bind _ _ f m) h Q.
Proof.
  intros (a & k & Hm & Hk & HP) Hf. destruct (Hf a k Hk HP) as [Ha|[Hu HU]]; [left|right].
  - destruct Ha as (b & k' & Hb & Hk' & HQ). exists b, (k ++ k'). unfold M_bind.
    rewrite Hm, outcome_bind_ret_l, Hb, app_assoc. split_and!; [done|by apply quiet_app|done].
  - split; [|done]. unfold M_bind. by rewrite Hm, outcome_bind_ret_l.
Qed.

Lemma setBlocking_acts s b h : acts (setBlocking answer s b) h (fun ok k =>
  ok = true -> forall nb, nonblocking s nb h k = negb b).
Proof.
  unfold setBlocking. eapply acts_bind; [apply (acts_sys (GetFlags s) h (fun a k => k = [GetFlags s])); done|].
  intros arg k _ ->. destruct (arg <? 0); [by apply acts_ret|].
  eapply acts_bind; [apply (acts_sys _ _ (fun a k => k = [SetFlags s (set_mode arg b)] /\
    a = answer (h ++ [GetFlags s]) (SetFlags s (set_mode arg b)))); done|].
  intros r k _ [-> ->]. apply acts_ret. intros Hr nb. cbn [app nonblocking]. by rewrite Hr, Z.eqb_refl, set_mode_bits.
Qed.

Lemma errored_acts s h : acts (errored_ answer s) h (fun e k =>
  if s =? InvalidSocket then e = true /\ k = []
  else e = errored s (answer h (GetError s)) /\ k = [GetError s]).
Proof.
  unfold errored_. destruct (s =? InvalidSocket) eqn:E; [by apply acts_ret|].
  eapply acts_bind; [apply (acts_sys (GetError s) h (fun a k => a = answer h (GetError s) /\ k = [GetError s])); done|].
  intros e k _ [-> ->]. by apply acts_ret.
Qed.

Lemma setOptions_acts s h : acts (setOptions answer s) h (fun _ k => forall fd nb h, nonblocking fd nb h k = nb).
Proof.
  unfold setOptions. destruct (s =? InvalidSocket); [by apply acts_ret|].
  do 3 (eapply acts_bind; [by apply (acts_sys _ _ (fun _ k => forall fd nb h, nonblocking fd nb h k = nb))|];
    intros ? ? _ ?). apply acts_ret. intros. rewrite !nonblocking_app. cbn. congruence.
Qed.

Lemma create_acts h : acts (create answer) h (fun x k =>
  match x with
  | None => answer h Getaddrinfo = 0
  | Some x => x.(info) = answer h Getaddrinfo /\ x.(info) <> 0 /\
      x.(s) = answer (h ++ [Getaddrinfo]) (NewSocket x.(info)) /\ forall nb, nonblocking x.(s) nb h k = false
  end).
Proof.
  unfold create. eapply acts_bind; [by apply (acts_sys Getaddrinfo h (fun a k => a = answer h Getaddrinfo /\ k = [Getaddrinfo]))|].
  intros i k _ [-> ->]. destruct (answer h Getaddrinfo =? 0) eqn:E; cbn [negb]; [apply acts_ret; lia|].
  set (i := answer h Getaddrinfo) in *.
  eapply acts_bind; [by apply (acts_sys _ _ (fun a k => a = answer (h ++ [Getaddrinfo]) (NewSocket i) /\ k = [NewSocket i]))|].
  intros fd k _ [-> ->]. eapply acts_bind; [apply setOptions_acts|]. intros [] k' _ Hk'. apply acts_ret.
  cbn [info s]. split_and!; [done|lia|done|]. intros nb. rewrite !nonblocking_app, Hk'. cbn.
  by rewrite Z.eqb_refl.
Qed.

(** The descriptor is connected: [::connect] returned 0 or, with a timeout, [select]
    found it writable and it had no error. *)
Definition connected (t fd i : Z) (h k : history) : Prop :=
  exists k1 k2, k = k1 ++ Connect fd i :: k2 /\
    (answer (h ++ k1) (Connect fd i) = 0 \/
     t <> 0 /\ exists k3, k2 = Select (s32 (fd + 1)) (Socket.timeval_of t) :: GetError fd :: k3 /\
       0 < answer ((h ++ k1) ++ [Connect fd i]) (Select (s32 (fd + 1)) (Socket.timeval_of t)) /\
       errored fd (answer (((h ++ k1) ++ [Connect fd i]) ++ [Select (s32 (fd + 1)) (Socket.timeval_of t)]) (GetError fd))
         = false).

Lemma connected_later t fd i h0 h k k' : connected t fd i (h0 ++ h) k -> connected t fd i h0 (h ++ k ++ k').
Proof.
  intros (k1 & k2 & -> & Hc). exists (h ++ k1), (k2 ++ k'). split; [by rewrite <-!app_assoc|].
  replace (h0 ++ h ++ k1) with ((h0 ++ h) ++ k1) by by rewrite <-app_assoc.
  destruct Hc as [Hc|(Ht & k3 & -> & Hs & He)]; [by left|right]. split; [done|]. by exists (k3 ++ k').
Qed.

(** [connect] until the answer: on success the descriptor is connected, and in the
    mode it was in, or with a timeout in blocking mode. *)
Lemma attempt_acts t x h :
  acts_or (t <> 0 /\ x.(s) <> InvalidSocket /\ ~ (0 <= x.(s) < FD_SETSIZE)) (attempt answer t x) h (fun out k =>
    out = true -> x.(s) <> InvalidSocket /\ connected t x.(s) x.(info) h k /\
      forall nb, nonblocking x.(s) nb h k = (if t =? 0 then nb else false)).
Proof.
  unfold attempt. destruct (x.(s) =? InvalidSocket) eqn:Ei; [by left; apply acts_ret|].
  assert (Hi : x.(s) <> InvalidSocket) by lia. destruct (t =? 0) eqn:Et.
  { left. eapply acts_bind; [by apply (acts_sys _ _ (fun a k => k = [Connect x.(s) x.(info)] /\
      a = answer h (Connect x.(s) x.(info))))|].
    intros c k _ [-> ->]. apply acts_ret. intros Hc. split_and!; [done| |done]. exists [], [].
    split; [done|left; rewrite app_nil_r; lia]. }
  eapply acts_or_bind; [apply setBlocking_acts|]. intros nb k1 _ _.
  destruct nb; cbn [negb]; [|by left; apply acts_ret].
  eapply acts_or_bind; [by apply (acts_sys _ _ (fun a k => k = [Connect x.(s) x.(info)] /\
    a = answer (h ++ k1) (Connect x.(s) x.(info))))|]. intros res k2 _ [-> ->].
  destruct (answer (h ++ k1) (Connect x.(s) x.(info)) =? 0) eqn:Ec.
  { left. eapply acts_impl; [|apply setBlocking_acts]. cbn beta. intros out k _ Hk Ho. split_and!; [done| |].
    - exists k1, k. split; [done|left; lia].
    - intros nb. rewrite (nonblocking_app _ _ _ k1), (nonblocking_app _ _ _ [_] k). by rewrite (Hk Ho). }
  unfold FD_SET. destruct ((0 <=? x.(s)) && (x.(s) <? FD_SETSIZE)) eqn:Ef.
  2: { right. split; [done|]. split_and!; [lia|done|]. apply andb_false_iff in Ef. lia. }
  left. eapply acts_bind; [by apply (acts_ret tt _ (fun _ k => k = []))|]. intros [] k _ ->.
  eapply acts_bind; [by apply (acts_sys _ _ (fun a k => k = [Select (s32 (x.(s) + 1)) (Socket.timeval_of t)] /\
    a = answer (((h ++ k1) ++ [Connect x.(s) x.(info)]) ++ []) (Select (s32 (x.(s) + 1)) (Socket.timeval_of t))))|].
  intros res2 k _ [-> ->]. rewrite app_nil_r. destruct (negb _) eqn:Es; [by apply acts_ret|].
  eapply acts_bind; [apply (errored_acts x.(s))|]. cbn beta. rewrite Ei. intros e k4 _ [He ->].
  destruct e; [by apply acts_ret|].
  eapply acts_impl; [|apply setBlocking_acts]. cbn beta. intros out k _ Hk Ho. split_and!; [done| |].
  - eexists k1, _. split; [done|right]. split; [lia|]. exists k. split_and!; [done|lia|done].
  - intros nb. rewrite !nonblocking_app. cbn [nonblocking]. rewrite app_nil_r. apply (Hk Ho).
Qed.
End Facts.
End SocketSetupFacts.

Module SocketSetupProps.
Import SocketSetup SocketSetupFacts.

Lemma destroy_runs answer x h : x.(info) <> 0 -> exists k,
  destroy answer x h = Ret (tt, h ++ k) /\ freed k = [x.(info)] /\
  closed k = if x.(s) =? InvalidSocket then [] else [x.(s)].
Proof.
  intros Hi. unfold destroy, shared_close. rewrite (proj2 (Z.eqb_neq _ _) Hi). cbn [negb].
  destruct (x.(s) =? InvalidSocket); cbn [negb].
  - exists [Freeaddrinfo x.(info)]. done.
  - exists [Freeaddrinfo x.(info); ShutdownSocket x.(s); CloseSocket x.(s)].
    split; [|done]. unfold mbind, M_bind. cbn. by rewrite <-!app_assoc.
Qed.

(** A descriptor that [isOpen] dropped is not closed. *)
Lemma destroy_dropped answer i h : i <> 0 ->
  destroy answer (MkShared i InvalidSocket) h = Ret (tt, h ++ [Freeaddrinfo i]).
Proof. intros Hi. unfold destroy. cbn [info s]. by rewrite (proj2 (Z.eqb_neq _ _) Hi). Qed.

Lemma isOpen_runs answer x h : x.(s) <> InvalidSocket ->
  shared_isOpen answer x h =
    Ret (if errored x.(s) (answer h (GetError x.(s))) then (false, MkShared x.(info) InvalidSocket) else (true, x),
         h ++ [GetError x.(s)]).
Proof.
  intros Hs. unfold shared_isOpen, errored_. rewrite (proj2 (Z.eqb_neq _ _) Hs). cbn.
  unfold mbind, M_bind. cbn. by destruct (errored x.(s) (answer h (GetError x.(s)))).
Qed.

(** The last calls of a [connect] that fails in its final [isOpen]. *)
Definition dropped (answer : history -> call -> Z) (h k : history) (fd i : Z) : Prop :=
  exists k', k = k' ++ [GetError fd; Freeaddrinfo i] /\ errored fd (answer (h ++ k') (GetError fd)) = true.


(** A process with a thousand open files, and a peer that does not answer at once. *)
Theorem socket_connect_fd_set :
  connect (fun _ c => match c with Getaddrinfo => 1 | NewSocket _ => 1024 | Connect _ _ => -1 | _ => 0 end) 1000 []
    = Undefined.
Proof. reflexivity. Qed.

(** [setBlocking] changes the one flag: it reads the flags and, unless that failed,
    writes them back with [O_NONBLOCK] set or cleared and every other bit as it was. *)
Theorem socket_set_blocking answer fd blocking h : exists ok k, setBlocking answer fd blocking h = Ret (ok, h ++ k) /\
  let flags := answer h (GetFlags fd) in
  (flags < 0 -> ok = false /\ k = [GetFlags fd]) /\
  (0 <= flags -> exists flags', k = [GetFlags fd; SetFlags fd flags'] /\
    (ok = true <-> 0 <= answer (h ++ [GetFlags fd]) (SetFlags fd flags')) /\
    forall i, 0 <= i -> Z.testbit flags' i = if i =? 11 then negb blocking else Z.testbit flags i).
Proof.
  unfold setBlocking, mbind, M_bind. cbn. destruct (answer h (GetFlags fd) <? 0) eqn:E.
  - exists false, [GetFlags fd]. split; [done|]. split; [done|lia].
  - exists (answer (h ++ [GetFlags fd]) (SetFlags fd (set_mode (answer h (GetFlags fd)) blocking)) >=? 0).
    exists [GetFlags fd; SetFlags fd (set_mode (answer h (GetFlags fd)) blocking)]. split.
    { unfold set_mode. by destruct blocking; cbn; rewrite <-app_assoc. }
    split; [lia|]. intros _. eexists. split; [done|]. split; [lia|]. intros i Hi. by apply set_mode_bits.
Qed.

(** The constructor of [Socket] never returns when the address is taken: destroying the
    shared state inside [lock] waits for the lock held there. *)
Theorem socket_constructor_blocks answer h x h1 :
  create answer h = Ret (Some x, h1) -> answer h1 (Bind x.(s) x.(info)) <> 0 -> construct answer h = Blocks.
Proof.
  intros Hc Hb. unfold construct, mbind, M_bind. rewrite Hc, outcome_bind_ret_l. cbn.
  rewrite (proj2 (Z.eqb_neq _ _) Hb). cbn. unfold destroy_locked, mbind, M_bind. cbn.
  destruct (info x =? 0), (s x =? InvalidSocket); done.
Qed.

Lemma socket_constructor_blocks_witness :
  construct (fun _ c => match c with Getaddrinfo => 1 | NewSocket _ => 7 | Bind _ _ => -1 | _ => 0 end) [] = Blocks.
Proof. eapply socket_constructor_blocks; [reflexivity|discriminate]. Defined.
End SocketSetupProps.
