(* ===== verification/ServerSetup.v ===== *)
(** * The server on its socket ([src/network.cpp] over [src/socket.cpp])

    [Network.v] interleaves the callers of a server with its accepting thread and leaves
    the socket open; here [Impl] runs on the socket functions of [SocketSetup.v], for any
    [answer] of the operating system. The address and the port go to [getaddrinfo],
    whose answer is arbitrary. The accepting thread takes whole turns of its loop
    between the calls of [start] and [stop]. *)
From Stdlib Require Import ZArith Lia.
From stdpp Require Import base list strings.
From S2P Require Import Prelude RWMutex Locking Socket SocketSetup.

Module ServerSetup.
#[local] Existing Instance SocketSetup.M_ret.
#[local] Existing Instance SocketSetup.M_bind.

(** [Impl]. [alive]: the thread has not left its loop; [socket]: the [unique_ptr], and in
    it the shared state of the [Socket]; [errors], [connections]: the calls of [onError]
    and of [onConnect]. *)
Record t := Impl {
  stopped : bool;
  alive : bool;
  socket : option (option shared);
  errors : list string;
  connections : list shared
}.

Definition create : t := Impl true false None [] [].

Definition set_socket (x : option shared) (v : t) : t := Impl v.(stopped) v.(alive) (Some x) v.(errors) v.(connections).
Definition set_alive (b : bool) (v : t) : t := Impl v.(stopped) b v.(socket) v.(errors) v.(connections).
Definition set_stopped (b : bool) (v : t) : t := Impl b v.(alive) v.(socket) v.(errors) v.(connections).
Definition onError (e : string) (v : t) : t := Impl v.(stopped) v.(alive) v.(socket) (v.(errors) ++ [e]) v.(connections).
Definition onConnect (rw : shared) (v : t) : t := Impl v.(stopped) v.(alive) v.(socket) v.(errors) (v.(connections) ++ [rw]).

Section Server.
Context (answer : history -> call -> Z) (fuel : nat).
Abbreviation M := SocketSetup.M.

(** [socket->f()]. *)
Definition deref (v : t) : M (option shared) := SocketSetup.lift (match v.(socket) with Some x => Ret x | None => Undefined end).

(** A turn of the loop of the thread. *)
Definition accept_turn (v : t) : M t :=
  x ← deref v;
  rw ← SocketSetup.accept answer x;
  match rw with
  | Some rw => mret (onConnect rw v)
  | None => mret (set_alive false (if negb v.(stopped) then onError "Failed to accept connection" v else v))
  end.

(** [thread.join()]. *)
Fixpoint join (n : nat) (v : t) : M t :=
  if v.(alive) then
    match n with
    | O => SocketSetup.lift OutOfFuel
    | S n => v ← accept_turn v; join n v
    end
  else mret v.

Definition stopWithLock (v : t) : M t :=
  if negb v.(stopped) then
    let v := set_stopped true v in
    x ← deref v;
    x ← SocketSetup.close answer x;
    join fuel (set_socket x v)
  else mret v.

(** The [Socket] the [unique_ptr] held is destroyed. *)
Definition release (v : t) : M unit :=
  match v.(socket) with Some (Some x) => SocketSetup.destroy answer x | _ => mret tt end.

(** The new [Socket] is made before the old one is destroyed. *)
Definition start (v : t) : M (bool * t) :=
  v ← stopWithLock v;
  x ← SocketSetup.construct answer;
  _ ← release v;
  '(o, x) ← SocketSetup.isOpen answer x;
  let v := set_socket x v in
  if negb (o : bool) then mret (false, onError "Failed to open socket" v)
  else mret (true, set_alive true (set_stopped false v)).

Definition stop (v : t) : M t := stopWithLock v.

(** [~Impl] and the destructors of the members. *)
Definition destroy (v : t) : M unit := v ← stop v; release v.

(** A user of the server, and its thread. *)
Inductive op := Start | Stop | Turn.

Definition perform (o : op) (v : t) : M t :=
  match o with
  | Start => '(_, v) ← start v; mret v
  | Stop => stop v
  | Turn => if v.(alive) then accept_turn v else mret v
  end.

(** The life of a server. *)
Fixpoint life (l : list op) (v : t) : M unit :=
  match l with
  | [] => destroy v
  | o :: l => v ← perform o v; life l v
  end.

(** ** What is acquired and released *)
Import SocketSetupFacts.

(** What the calls [k] after [h] were given. *)
Fixpoint obtained (pick : call -> Z -> option Z) (h k : history) : list Z :=
  match k with
  | [] => []
  | c :: k => option_list (pick c (answer h c)) ++ obtained pick (h ++ [c]) k
  end.

Definition infos : history -> history -> list Z :=
  obtained (fun c a => match c with Getaddrinfo => if a =? 0 then None else Some a | _ => None end).
Definition sockets : history -> history -> list Z :=
  obtained (fun c a => match c with NewSocket _ => if a =? InvalidSocket then None else Some a | _ => None end).

Lemma obtained_app pick h k k' : obtained pick h (k ++ k') = obtained pick h k ++ obtained pick (h ++ k) k'.
Proof.
  revert h. induction k as [|c k IH]; intros h; cbn; [by rewrite app_nil_r|]. by rewrite IH, <-!app_assoc.
Qed.

Lemma infos_app h k k' : infos h (k ++ k') = infos h k ++ infos (h ++ k) k'. Proof. apply obtained_app. Qed.
Lemma sockets_app h k k' : sockets h (k ++ k') = sockets h k ++ sockets (h ++ k) k'. Proof. apply obtained_app. Qed.

(** The calls [k] after [h] acquire [ai] and [fds] and release [fr] and [cl]. *)
Definition ledger (h k : history) (ai fds fr cl : list Z) : Prop :=
  infos h k = ai /\ sockets h k = fds /\ freed k = fr /\ closed k = cl.

Lemma ledger_nil h : ledger h [] [] [] [] []. Proof. done. Qed.

Lemma ledger_app h k k' ai fds fr cl ai' fds' fr' cl' :
  ledger h k ai fds fr cl -> ledger (h ++ k) k' ai' fds' fr' cl' ->
  ledger h (k ++ k') (ai ++ ai') (fds ++ fds') (fr ++ fr') (cl ++ cl').
Proof.
  intros (<- & <- & <- & <-) (<- & <- & <- & <-).
  split_and!; [apply infos_app|apply sockets_app|apply freed_app|apply closed_app].
Qed.

(** The descriptor of a state, if it has one. *)
Definition fd_of (x : shared) : list Z := if x.(s) =? InvalidSocket then [] else [x.(s)].
Definition held_info (v : t) : list Z := match v.(socket) with Some (Some x) => [x.(info)] | _ => [] end.
Definition held_fd (v : t) : list Z := match v.(socket) with Some (Some x) => fd_of x | _ => [] end.

(** [m] returns [a] after calls that acquire and release so much. *)
Definition spends {A} (m : M A) (h : history) (a : A) (ai fds fr cl : list Z) : Prop :=
  exists k, m h = Ret (a, h ++ k) /\ ledger h k ai fds fr cl.

Lemma spends_ret {A} (a : A) h : spends (mret a) h a [] [] [] [].
Proof. exists []. by rewrite app_nil_r. Qed.

Lemma spends_bind {A B} (m : M A) (f : A -> M B) h a b ai fds fr cl ai' fds' fr' cl' :
  spends m h a ai fds fr cl -> (forall h, spends (f a) h b ai' fds' fr' cl') ->
  spends (m ≫= f) h b (ai ++ ai') (fds ++ fds') (fr ++ fr') (cl ++ cl').
Proof.
  intros (k & Hm & Hl) Hf. destruct (Hf (h ++ k)) as (k' & Hk & Hl'). exists (k ++ k'). split; [|by eapply ledger_app].
  unfold mbind, SocketSetup.M_bind. by rewrite Hm, outcome_bind_ret_l, Hk, app_assoc.
Qed.

Ltac calls := unfold mbind, SocketSetup.M_bind; cbn; rewrite <-?app_assoc; done.

Lemma create_spends h : exists x, let i := match x with Some x => [x.(info)] | None => [] end in
  let fd := match x with Some x => fd_of x | None => [] end in
  spends (SocketSetup.create answer) h x i fd [] [] /\ match x with Some x => x.(info) <> 0 | None => True end.
Proof.
  unfold SocketSetup.create, mbind, SocketSetup.M_bind, spends. cbn.
  destruct (answer h Getaddrinfo =? 0) eqn:Ei; cbn.
  - exists None. split; [|done]. exists [Getaddrinfo]. split; [done|]. unfold ledger, infos, sockets. cbn. by rewrite Ei.
  - set (i := answer h Getaddrinfo) in *. set (fd := answer _ (NewSocket i)). exists (Some (MkShared i fd)). split; [|cbn; lia].
    assert (Hl : forall k, quiet k -> infos ((h ++ [Getaddrinfo]) ++ [NewSocket i]) k = [] -> sockets ((h ++ [Getaddrinfo]) ++ [NewSocket i]) k = [] ->
      ledger h (Getaddrinfo :: NewSocket i :: k) [i] (fd_of (MkShared i fd)) [] []).
    { intros k [Hf Hc] Hi Hs. split_and!; [| |exact Hf|exact Hc]; cbn; fold i; rewrite ?Ei; fold fd; rewrite ?Hi, ?Hs; [done|].
      unfold fd_of. cbn. by destruct (fd =? InvalidSocket). }
    unfold SocketSetup.setOptions, fd_of. destruct (fd =? InvalidSocket).
    + eexists. split; [|by apply (Hl [])]. calls.
    + eexists. split; [|by apply (Hl [SetOption fd Shared.SO_REUSEADDR; SetOption fd Shared.SO_LINGER; SetOption fd Shared.TCP_NODELAY])]. calls.
Qed.

(** [bind] and [listen] succeed. *)
Definition binds (h : history) (x : shared) : bool :=
  (answer h (Bind x.(s) x.(info)) =? 0) && (answer (h ++ [Bind x.(s) x.(info)]) (Listen x.(s) 0) =? 0).

Lemma construct_runs h x h' : SocketSetup.create answer h = Ret (x, h') ->
  SocketSetup.construct answer h = match x with
  | None => Ret (None, h')
  | Some x => if binds h' x then Ret (Some x, h' ++ [Bind x.(s) x.(info); Listen x.(s) 0]) else Blocks
  end.
Proof.
  intros Hc. unfold SocketSetup.construct, mbind, SocketSetup.M_bind. rewrite Hc, outcome_bind_ret_l. destruct x as [x|]; [|done].
  unfold binds. cbn. destruct (answer h' _ =? 0); cbn; [destruct (answer _ (Listen _ _) =? 0); cbn|].
  - by rewrite <-app_assoc.
  - unfold SocketSetup.destroy_locked, mbind, SocketSetup.M_bind. by destruct (info x =? 0), (s x =? InvalidSocket).
  - unfold SocketSetup.destroy_locked, mbind, SocketSetup.M_bind. by destruct (info x =? 0), (s x =? InvalidSocket).
Qed.

Lemma isOpen_spends x h : exists o, let x' := if o : bool then x else MkShared x.(info) InvalidSocket in
  spends (SocketSetup.isOpen answer (Some x)) h (o, Some x') [] [] [] [] /\
  o = negb (errored x.(s) (answer h (GetError x.(s)))).
Proof.
  unfold SocketSetup.isOpen, SocketSetup.shared_isOpen, SocketSetup.errored_, errored.
  destruct (x.(s) =? InvalidSocket) eqn:E.
  - exists false. split; [|done]. exists []. split; [|apply ledger_nil]. rewrite app_nil_r. done.
  - exists (u8 (answer h (GetError x.(s))) =? 0). split; [|by rewrite negb_involutive]. exists [GetError x.(s)]. split; [|done].
    unfold mbind, SocketSetup.M_bind. cbn. by destruct (u8 _ =? 0).
Qed.

Lemma close_spends x h :
  spends (SocketSetup.close answer (Some x)) h (Some (MkShared x.(info) InvalidSocket)) [] [] [] (fd_of x).
Proof.
  unfold SocketSetup.close, SocketSetup.shared_close, fd_of. destruct x as [i fd]. cbn. destruct (Z.eqb_spec fd InvalidSocket) as [->|Hn]; cbn.
  - exists []. split; [by rewrite app_nil_r|done].
  - exists [ShutdownSocket fd; CloseSocket fd]. split; [calls|done].
Qed.

Lemma destroy_spends x h : x.(info) <> 0 ->
  spends (SocketSetup.destroy answer x) h tt [] [] [x.(info)] (fd_of x).
Proof.
  intros Hi. unfold SocketSetup.destroy, SocketSetup.shared_close, fd_of. rewrite (proj2 (Z.eqb_neq _ _) Hi). cbn [negb].
  destruct (x.(s) =? InvalidSocket); cbn [negb].
  - exists [Freeaddrinfo x.(info)]. split; [calls|done].
  - exists [Freeaddrinfo x.(info); ShutdownSocket x.(s); CloseSocket x.(s)]. split; [calls|done].
Qed.

Lemma accept_spends x h : exists rw, spends (SocketSetup.accept answer (Some x)) h rw [] [] [] [] /\
  (x.(s) = InvalidSocket -> rw = None).
Proof.
  unfold SocketSetup.accept, SocketSetup.errored_, SocketSetup.setOptions. destruct (Z.eqb_spec x.(s) InvalidSocket) as [Hs|Hs].
  - exists None. split; [|done]. exists []. split; [by rewrite app_nil_r|done].
  - unfold spends, mbind, SocketSetup.M_bind. cbn. destruct (errored _ _); cbn; [exists None; split; [by exists [GetError x.(s)]|done]|].
    set (fd := answer _ (AcceptOn _)). destruct (fd =? InvalidSocket); cbn.
    + exists None. split; [|done]. exists [GetError x.(s); AcceptOn x.(s)]. split; [calls|done].
    + exists (Some (MkShared 0 fd)). split; [|done].
      exists [GetError x.(s); AcceptOn x.(s); SetOption fd Shared.SO_REUSEADDR; SetOption fd Shared.SO_LINGER; SetOption fd Shared.TCP_NODELAY].
      split; [calls|done].
Qed.
(** ** The invariant of a server *)
Definition listening (v : t) : Prop := exists x, v.(socket) = Some (Some x).

(** A running server has a socket; a stopped one has no thread and no descriptor. *)
Record good (v : t) : Prop := {
  g_running : v.(stopped) = false -> listening v;
  g_stopped : v.(stopped) = true -> v.(alive) = false /\ held_fd v = [];
  g_info : forall x, v.(socket) = Some (Some x) -> x.(info) <> 0
}.

Lemma create_good : good create. Proof. by split. Qed.

Lemma accept_turn_spends v x h : v.(socket) = Some (Some x) -> exists rw,
  let v' := match rw with
    | Some rw => onConnect rw v
    | None => set_alive false (if negb v.(stopped) then onError "Failed to accept connection" v else v)
    end in
  spends (accept_turn v) h v' [] [] [] [] /\ (x.(s) = InvalidSocket -> rw = None).
Proof.
  intros Hx. destruct (accept_spends x h) as (rw & (k & Ha & Hl) & Hn). exists rw. split; [|done]. exists k. split; [|done].
  unfold accept_turn, deref, mbind, SocketSetup.M_bind, SocketSetup.lift. rewrite Hx, !outcome_bind_ret_l, Ha. by destruct rw.
Qed.

(** The thread of a closed socket ends at once, and reports nothing. *)
Lemma join_closed n v i h : (0 < n)%nat -> v.(stopped) = true -> v.(socket) = Some (Some (MkShared i InvalidSocket)) ->
  spends (join n v) h (set_alive false v) [] [] [] [].
Proof.
  intros Hn Hs Hx. destruct n as [|n]; [lia|]. cbn [join]. destruct v as [st [] so er co]; cbn in *; subst.
  - destruct (accept_turn_spends (Impl true true (Some (Some (MkShared i InvalidSocket))) er co) _ h eq_refl) as (rw & Ha & Hr).
    rewrite (Hr eq_refl) in Ha. cbn in Ha.
    apply (spends_bind _ (join n) h _ _ [] [] [] [] [] [] [] [] Ha). intros h'. by destruct n; apply spends_ret.
  - apply spends_ret.
Qed.

Definition idle (v : t) : t :=
  if v.(stopped) then v
  else Impl true false (match v.(socket) with Some (Some x) => Some (Some (MkShared x.(info) InvalidSocket)) | so => so end)
         v.(errors) v.(connections).

Lemma stop_spends v h : good v -> (0 < fuel)%nat -> spends (stopWithLock v) h (idle v) [] [] [] (held_fd v).
Proof.
  intros [Hr Hs Hi] Hf. unfold stopWithLock, idle. destruct v.(stopped) eqn:E; cbn [negb].
  - destruct (Hs eq_refl) as [_ ->]. apply spends_ret.
  - destruct (Hr eq_refl) as [x Hx]. unfold held_fd. rewrite Hx. unfold deref. cbn [socket set_stopped]. rewrite Hx.
    eapply (spends_bind _ _ h (Some x) _ [] [] [] [] [] [] [] (fd_of x)); [exists []; split; [cbn; by rewrite app_nil_r|done]|].
    intros h1. rewrite <-(app_nil_r (fd_of x)). eapply (spends_bind _ _ h1 _ _ [] [] [] _ [] [] [] []); [apply close_spends|]. intros h2.
    change (Impl true false _ v.(errors) v.(connections)) with
      (set_alive false (set_socket (Some (MkShared x.(info) InvalidSocket)) (set_stopped true v))). by eapply join_closed.
Qed.

Lemma idle_good v : good v -> good (idle v) /\ (idle v).(stopped) = true /\ (idle v).(alive) = false /\ held_fd (idle v) = [] /\
  held_info (idle v) = held_info v /\ (idle v).(errors) = v.(errors) /\ (idle v).(connections) = v.(connections).
Proof.
  intros Hg. pose proof Hg as [Hr Hs Hi]. unfold idle. destruct v.(stopped) eqn:E.
  - destruct (Hs eq_refl). by split_and!.
  - destruct (Hr eq_refl) as [x Hx]. unfold held_fd, held_info. rewrite Hx. cbn. split_and!; try done.
    split; cbn; try done. intros x' [= <-]. cbn. eauto.
Qed.

Lemma release_spends v h : good v -> spends (release v) h tt [] [] (held_info v) (held_fd v).
Proof.
  intros [_ _ Hi]. unfold release, held_info, held_fd. destruct v.(socket) as [[x|]|] eqn:E; [|apply spends_ret..].
  apply destroy_spends. eauto.
Qed.

(** ** [start] *)

(** The server after [start], and its result, once the new socket is made. *)
Definition started (o : bool) (x : option shared) (v : t) : bool * t :=
  if o then (true, set_alive true (set_stopped false (set_socket x (idle v))))
  else (false, onError "Failed to open socket" (set_socket x (idle v))).

Definition opened (o : bool) (x : shared) : shared := if o then x else MkShared x.(info) InvalidSocket.

(** [h1]: where [create] is called. *)
Lemma start_runs v h : good v -> (0 < fuel)%nat ->
  exists h1 x h2, stopWithLock v h = Ret (idle v, h1) /\ SocketSetup.create answer h1 = Ret (x, h2) /\
  match x with
  | None => spends (start v) h (started false None v) [] [] (held_info v) (held_fd v)
  | Some x => x.(info) <> 0 /\ (if binds h2 x then
      exists o h3, release (idle v) (h2 ++ [Bind x.(s) x.(info); Listen x.(s) 0]) = Ret (tt, h3) /\
        o = negb (errored x.(s) (answer h3 (GetError x.(s)))) /\
        spends (start v) h (started o (Some (opened o x)) v) [x.(info)] (fd_of x) (held_info v) (held_fd v)
      else start v h = Blocks)
  end.
Proof.
  intros Hg Hf. destruct (stop_spends v h Hg Hf) as (k1 & Hstop & Hl1). destruct (idle_good v Hg) as (Hg' & _ & _ & Hfd & Hinf & _).
  destruct (create_spends (h ++ k1)) as (x & (k2 & Hc & Hl2) & Hx). exists (h ++ k1), x, ((h ++ k1) ++ k2). split_and!; [done..|].
  pose proof (construct_runs _ _ _ Hc) as Hcon. destruct x as [x|].
  2: { destruct (release_spends (idle v) ((h ++ k1) ++ k2) Hg') as (k3 & Hrel & Hl3). rewrite Hfd, Hinf in Hl3.
    exists (k1 ++ k2 ++ k3). split.
    - unfold start, mbind, SocketSetup.M_bind. rewrite Hstop. cbn. rewrite Hcon. cbn. rewrite Hrel. cbn. by rewrite !app_assoc.
    - rewrite <-(app_nil_r (held_fd v)). eapply (ledger_app _ _ _ [] [] []); [done|]. by eapply (ledger_app _ _ _ [] [] [] []). }
  split; [done|]. destruct (binds ((h ++ k1) ++ k2) x) eqn:Hb.
  2: { unfold start, mbind, SocketSetup.M_bind. rewrite Hstop. cbn. by rewrite Hcon. }
  set (kb := [Bind x.(s) x.(info); Listen x.(s) 0]) in *.
  destruct (release_spends (idle v) (((h ++ k1) ++ k2) ++ kb) Hg') as (k3 & Hrel & Hl3). rewrite Hfd, Hinf in Hl3.
  destruct (isOpen_spends x ((((h ++ k1) ++ k2) ++ kb) ++ k3)) as (o & (k4 & Ho & Hl4) & He).
  exists o, ((((h ++ k1) ++ k2) ++ kb) ++ k3). split; [done|]. split; [done|]. exists (k1 ++ k2 ++ kb ++ k3 ++ k4). split.
  - unfold start, mbind, SocketSetup.M_bind. rewrite Hstop, outcome_bind_ret_l, Hcon, outcome_bind_ret_l, Hrel, outcome_bind_ret_l, Ho, outcome_bind_ret_l.
    unfold started, opened. rewrite !app_assoc. by destruct o.
  - pose proof (ledger_app _ _ _ _ _ _ _ _ _ _ _ Hl1 (ledger_app _ _ _ _ _ _ _ _ _ _ _ Hl2 (ledger_app _ kb _ [] [] [] [] _ _ _ _ ltac:(done)
      (ledger_app _ _ _ _ _ _ _ _ _ _ _ Hl3 Hl4)))) as Hl. cbn [app] in Hl. by rewrite !app_nil_r in Hl.
Qed.

Lemma started_good o x v : good v -> match x with Some x => x.(info) <> 0 /\ (o = false -> x.(s) = InvalidSocket) | None => o = false end ->
  good (started o x v).2 /\ held_info (started o x v).2 = (if x is Some x then [x.(info)] else []) /\
  held_fd (started o x v).2 = (if x is Some x then fd_of x else []).
Proof.
  intros (_ & Hs & Ha & _)%idle_good Hx. unfold started, held_info, held_fd, fd_of. destruct x as [x|].
  - destruct Hx as [Hi Hf]. destruct o; cbn; split_and!; try done; split; cbn; try congruence; try (by eexists).
    intros _. split; [done|]. unfold held_fd, fd_of. cbn. by rewrite (Hf eq_refl).
  - subst o. cbn. split_and!; try done. split; cbn; try congruence. done.
Qed.
(** ** The books of a server *)

(** No socket ever reports an error. *)
Definition healthy : Prop := forall h fd, answer h (GetError fd) = 0.

Record accounted (h : history) (v : t) : Prop := {
  a_infos : infos [] h = freed h ++ held_info v;
  a_fds : closed h ++ held_fd v `sublist_of` sockets [] h;
  a_healthy : healthy -> closed h ++ held_fd v = sockets [] h
}.

(** The books after calls that release what [v] held and acquire what [v'] holds;
    [fds]: what [socket] gave. *)
Lemma accounted_next h k v v' fds : accounted h v ->
  ledger h k (held_info v') fds (held_info v) (held_fd v) ->
  held_fd v' `sublist_of` fds -> (healthy -> held_fd v' = fds) -> accounted (h ++ k) v'.
Proof.
  intros [Hi Hf Hh] (Ki & Kf & Kr & Kc) Hs Hs'. split.
  - rewrite infos_app, freed_app, Hi, Kr, app_nil_l, Ki. done.
  - rewrite sockets_app, closed_app, Kc, app_nil_l, Kf. by apply sublist_app.
  - intros Hy. rewrite sockets_app, closed_app, Kc, (Hh Hy), app_nil_l. by rewrite Kf, (Hs' Hy).
Qed.

(** The same when the address list stays. *)
Lemma accounted_kept h k v v' cl : accounted h v -> ledger h k [] [] [] cl -> held_info v' = held_info v ->
  held_fd v = cl ++ held_fd v' -> accounted (h ++ k) v'.
Proof.
  intros [Hi Hf Hh] (Ki & Kf & Kr & Kc) Ei Ef.
  split; rewrite ?infos_app, ?sockets_app, ?freed_app, ?closed_app, ?Kr, ?Kc, ?app_nil_r, ?Ei, ?app_nil_l, ?Ki, ?Kf, ?app_nil_r, <-?app_assoc, <-?Ef; done.
Qed.

(** An error of [bind] or [listen]. *)
Definition refused : Prop := exists h c, match c with Bind _ _ | Listen _ _ => answer h c <> 0 | _ => False end.

Lemma not_binds h x : binds h x = false -> refused.
Proof.
  unfold binds. destruct (Z.eqb_spec (answer h (Bind x.(s) x.(info))) 0) as [_|Hb]; cbn.
  - intros Hl%Z.eqb_neq. by exists (h ++ [Bind x.(s) x.(info)]), (Listen x.(s) 0).
  - intros _. by exists h, (Bind x.(s) x.(info)).
Qed.

Definition fine {A} (P : A -> history -> Prop) (r : outcome (A * history)) : Prop :=
  match r with Ret (a, h) => P a h | Blocks => refused | _ => False end.

Lemma fine_bind {A B} (m : M A) (f : A -> M B) h P Q : fine P (m h) -> (forall a h, P a h -> fine Q (f a h)) -> fine Q ((m ≫= f) h).
Proof. unfold mbind, SocketSetup.M_bind. destruct (m h) as [[a h1]| | |]; cbn; auto. Qed.

Definition kept (v : t) (h : history) : Prop := good v /\ accounted h v.

Lemma start_kept v h : (0 < fuel)%nat -> kept v h -> fine (fun r h => kept r.2 h) (start v h).
Proof.
  intros Hf [Hg Ha]. destruct (start_runs v h Hg Hf) as (h1 & x & h2 & _ & _ & Hx). destruct x as [x|].
  - destruct Hx as [Hi Hx]. destruct (binds h2 x) eqn:Hb; [|rewrite Hx; cbn; by eapply not_binds].
    destruct Hx as (o & h3 & Hrel & Ho & k & Hs & Hl). rewrite Hs. cbn [fine]. destruct (started_good o (Some (opened o x)) v Hg) as (Hg' & Hhi & Hhf).
    { split; [by destruct o|]. intros ->. done. }
    split; [done|]. eapply accounted_next; [done|rewrite Hhi| |]; [|rewrite Hhf..]; unfold opened in *.
    + by destruct o.
    + destruct o; [done|]. apply sublist_nil_l.
    + intros Hy. destruct o; [done|]. rewrite Hy in Ho. unfold errored in Ho. unfold fd_of. by destruct (s x =? InvalidSocket).
  - destruct Hx as (k & Hs & Hl). rewrite Hs. cbn [fine]. destruct (started_good false None v Hg eq_refl) as (Hg' & Hhi & Hhf).
    split; [done|]. eapply accounted_next; [done|rewrite Hhi; exact Hl|by rewrite Hhf|done].
Qed.

Lemma stop_kept v h : (0 < fuel)%nat -> kept v h -> fine (fun v h => kept v h /\ held_fd v = []) (stop v h).
Proof.
  intros Hf [Hg Ha]. destruct (stop_spends v h Hg Hf) as (k & Hs & Hl). destruct (idle_good v Hg) as (Hg' & _ & _ & Hfd & Hinf & _).
  unfold stop. rewrite Hs. cbn. split_and!; [split|..]; [done| |done]. eapply accounted_kept; [done..|]. by rewrite Hfd, app_nil_r.
Qed.

Lemma perform_kept o v h : (0 < fuel)%nat -> kept v h -> fine kept (perform o v h).
Proof.
  intros Hf Hk. destruct o; cbn [perform].
  - eapply fine_bind; [by apply start_kept|]. by intros [b v'] h'.
  - pose proof (stop_kept v h Hf Hk) as Hs. destruct (stop v h) as [[v' h']| | |]; cbn in *; tauto.
  - destruct v.(alive) eqn:E; [|done]. destruct Hk as [Hg Ha]. pose proof Hg as [Hr Hs Hi].
    destruct v.(stopped) eqn:Es; [by destruct (Hs eq_refl); congruence|]. destruct (Hr eq_refl) as [x Hx].
    destruct (accept_turn_spends v x h Hx) as (rw & (k & Ht & Hl) & _). rewrite Ht. cbn [fine]. rewrite Es. cbn [negb].
    split; [destruct rw; split; cbn; rewrite ?Es; try done|]. eapply accounted_kept; [done..| |]; by destruct rw.
Qed.

Lemma life_kept l v h : (0 < fuel)%nat -> kept v h ->
  fine (fun _ h => infos [] h = freed h /\ closed h `sublist_of` sockets [] h /\ (healthy -> closed h = sockets [] h)) (life l v h).
Proof.
  intros Hf. revert v h. induction l as [|o l IH]; intros v h Hk; cbn [life].
  - unfold destroy. eapply fine_bind; [by apply stop_kept|]. cbn. intros v' h' [[Hg [Hi Hs Hh]] Hfd].
    destruct (release_spends v' h' Hg) as (k & Hr & Ki & Kf & Kr & Kc). rewrite Hr. cbn. rewrite Hfd in *. rewrite app_nil_r in Hs, Hh.
    rewrite infos_app, sockets_app, freed_app, closed_app, Kr, Kc, Hi, !app_nil_l, Ki, Kf, !app_nil_r. done.
  - eapply fine_bind; [by apply perform_kept|]. cbn. auto.
Qed.
End Server.
End ServerSetup.

Module ServerSetupProps.
Import ServerSetup SocketSetupFacts.

(** The error of the new socket [x], bound after [h], when the old one was destroyed. *)
Definition reports (answer : history -> call -> Z) (v : t) (h : history) (x : shared) : bool :=
  match release answer (idle v) (h ++ [Bind x.(s) x.(info); Listen x.(s) 0]) with
  | Ret (_, h) => errored x.(s) (answer h (GetError x.(s)))
  | _ => false
  end.

(** C36. What [start] does, whatever the operating system answers: it first stops the
    server. It returns [true] exactly when the address resolves, [bind] and [listen]
    succeed and the new socket reports no error; then the thread runs on that socket. It
    returns [false] exactly when the address does not resolve or the socket reports an
    error, with one call of [onError], and leaves the server stopped. When [bind] or
    [listen] fails it does not return. *)
Theorem server_start_outcomes answer fuel v h : good v -> (0 < fuel)%nat ->
  exists h1 x h2, stopWithLock answer fuel v h = Ret (idle v, h1) /\ SocketSetup.create answer h1 = Ret (x, h2) /\
  match start answer fuel v h with
  | Ret (true, v', _) => exists x', x = Some x' /\ binds answer h2 x' = true /\ reports answer v h2 x' = false /\
      v' = Impl false true (Some (Some x')) v.(errors) v.(connections)
  | Ret (false, v', _) => (x = None \/ exists x', x = Some x' /\ binds answer h2 x' = true /\ reports answer v h2 x' = true) /\
      v'.(stopped) = true /\ v'.(alive) = false /\ held_fd v' = [] /\ v'.(errors) = v.(errors) ++ ["Failed to open socket"]
  | Blocks => exists x', x = Some x' /\ binds answer h2 x' = false
  | _ => False
  end.
Proof.
  intros Hg Hf. destruct (start_runs answer fuel v h Hg Hf) as (h1 & x & h2 & Hst & Hc & Hx). exists h1, x, h2. split_and!; [done..|].
  destruct (idle_good v Hg) as (_ & Hs & Ha & _ & _ & He & Hco). destruct x as [x|].
  - destruct Hx as [_ Hx]. destruct (binds answer h2 x) eqn:Hb; [|rewrite Hx; by exists x].
    destruct Hx as (o & h3 & Hrel & Ho & k & Hr & _). rewrite Hr. unfold reports. destruct o; cbn.
    + exists x. rewrite Hrel. split_and!; [done..| |]; [by destruct (errored _ _)|]. unfold set_alive, set_stopped, set_socket. cbn. by rewrite He, Hco.
    + rewrite Hs, Ha, He. split_and!; try done. right. exists x. rewrite Hrel. split_and!; [done..|]. by destruct (errored _ _).
  - destruct Hx as (k & Hr & _). rewrite Hr. cbn. rewrite Hs, Ha, He. split_and!; try done. by left.
Qed.

(** C25. A server releases what it acquires: for any sequence of [start], [stop] and
    turns of the accepting thread followed by the destructor, whatever the operating
    system answers, either the sequence waits forever and some [bind] or [listen] failed,
    or it ends and then the address lists of [getaddrinfo] were freed each exactly once,
    in the order they were obtained, and the listening descriptors closed are among
    those obtained, each once; all of them, if no socket reports an error. *)
Theorem server_releases answer fuel l : (0 < fuel)%nat ->
  match life answer fuel l create [] with
  | Ret (_, h) => infos answer [] h = freed h /\ closed h `sublist_of` sockets answer [] h /\
      (healthy answer -> closed h = sockets answer [] h)
  | Blocks => refused answer
  | _ => False
  end.
Proof.
  intros Hf. apply (life_kept answer fuel l create [] Hf). split; [apply create_good|]. by split.
Qed.

Definition friendly (h : history) (c : call) : Z :=
  match c with Getaddrinfo => 1 | NewSocket _ => 7 + Z.of_nat (length h) | AcceptOn _ => 40 | _ => 0 end.

Lemma server_start_outcomes_witness : exists v' h, start friendly 1 create [] = Ret (true, v', h) /\
  v'.(stopped) = false /\ v'.(alive) = true.
Proof.
  destruct (server_start_outcomes friendly 1 create [] create_good ltac:(lia)) as (h1 & x & h2 & _ & Hc & Hr).
  destruct (start friendly 1 create []) as [[[[] v'] h]| | |] eqn:E; try discriminate E.
  destruct Hr as (x' & _ & _ & _ & Hv). exists v', h. split; [reflexivity|]. by rewrite Hv.
Defined.

Lemma server_releases_witness : exists h,
  life friendly 1 [Start; Turn; Turn; Start; Stop; Start] create [] = Ret (tt, h) /\ closed h = sockets friendly [] h.
Proof.
  pose proof (server_releases friendly 1 [Start; Turn; Turn; Start; Stop; Start] ltac:(lia)) as Hr.
  destruct (life _ _ _ _ _) as [[[] h]| | |] eqn:E; try (vm_compute in E; discriminate E).
  exists h. split; [reflexivity|]. apply Hr. intros h' fd. reflexivity.
Defined.
End ServerSetupProps.
