(* ===== verification/Network.v ===== *)
(** * The TCP server ([src/network.cpp])

    [Impl] of [dap::net::Server]: [start] and [stop] run one at a time under a mutex;
    a thread accepts connections until [accept] fails. The machine interleaves the
    two; whether a socket can be opened and whether a connection arrives is left
    open. [flaky]: [accept] may also fail on an open socket. *)
From Stdlib Require Import ZArith Lia.
From stdpp Require Import base list strings relations.
From S2P Require Import Prelude.

Module Server.

(** The accepting thread: in [accept], past a failed [accept], or at its end. *)
Inductive accepter := Accepting | Failed | Ended.

(** The caller that holds the mutex. [next]: what follows [stopWithLock], the rest of
    [start] or the return of [stop]. *)
Inductive continuation := ThenStart | ThenReturn.

Inductive control :=
| Free
| Stopping (next : continuation)
| Closing (next : continuation)
| Joining (next : continuation)
| Opening
| Checking
| Launching
| Spawning.

(** [open]: the socket of the server is open; [thread]: the thread that was started and
    not joined; [errors]: the calls of [onError]. *)
Record t := mk {
  stopped : bool;
  open : bool;
  thread : option accepter;
  control_ : control;
  errors : list string;
  connections : nat
}.

Definition create : t := mk true false None Free [] 0.

Definition after (next : continuation) : control := match next with ThenStart => Opening | ThenReturn => Free end.

(** [stopped.exchange(true)]. *)
Definition exchange (next : continuation) (v : t) : t :=
  mk true v.(open) v.(thread) (if negb v.(stopped) then Closing next else after next) v.(errors) v.(connections).

(** [if (!socket->isOpen())] *)
Definition check (v : t) : t :=
  if negb v.(open) then
    mk v.(stopped) v.(open) v.(thread) Free (v.(errors) ++ ["Failed to open socket"]) v.(connections)
  else mk v.(stopped) v.(open) v.(thread) Launching v.(errors) v.(connections).

(** The thread after an [accept] that gave nothing. *)
Definition end_accepting (v : t) : t :=
  mk v.(stopped) v.(open) (Some Ended) v.(control_)
    (if negb v.(stopped) then v.(errors) ++ ["Failed to accept connection"] else v.(errors)) v.(connections).

Definition set_control (c : control) (v : t) : t :=
  mk v.(stopped) v.(open) v.(thread) c v.(errors) v.(connections).

Section Server.
Context (flaky : bool).

Inductive step : t -> t -> Prop :=
| step_start v : v.(control_) = Free -> step v (set_control (Stopping ThenStart) v)
| step_stop v : v.(control_) = Free -> step v (set_control (Stopping ThenReturn) v)
| step_exchange v next : v.(control_) = Stopping next -> step v (exchange next v)
| step_close v next : v.(control_) = Closing next ->
    step v (mk v.(stopped) false v.(thread) (Joining next) v.(errors) v.(connections))
| step_join v next : v.(control_) = Joining next -> v.(thread) = Some Ended ->
    step v (mk v.(stopped) v.(open) None (after next) v.(errors) v.(connections))
| step_open v b : v.(control_) = Opening ->
    step v (mk v.(stopped) b v.(thread) Checking v.(errors) v.(connections))
| step_check v : v.(control_) = Checking -> step v (check v)
| step_launch v : v.(control_) = Launching ->
    step v (mk false v.(open) v.(thread) Spawning v.(errors) v.(connections))
| step_spawn v : v.(control_) = Spawning ->
    step v (mk v.(stopped) v.(open) (Some Accepting) Free v.(errors) v.(connections))
| step_accept v : v.(thread) = Some Accepting -> v.(open) = true ->
    step v (mk v.(stopped) v.(open) v.(thread) v.(control_) v.(errors) (S v.(connections)))
| step_accept_fails v : v.(thread) = Some Accepting -> v.(open) = false \/ flaky = true ->
    step v (mk v.(stopped) v.(open) (Some Failed) v.(control_) v.(errors) v.(connections))
| step_give_up v : v.(thread) = Some Failed -> step v (end_accepting v).

(** ** The invariant

    The thread is there exactly while the server runs or is being stopped; its socket
    is closed only once [stopped] is set. *)
Definition consistent (v : t) : Prop :=
  match v.(control_) with
  | Free | Stopping _ =>
    v.(stopped) = true /\ v.(thread) = None \/ v.(stopped) = false /\ v.(open) = true /\ is_Some v.(thread)
  | Closing _ => v.(stopped) = true /\ is_Some v.(thread)
  | Joining _ => v.(stopped) = true /\ v.(open) = false /\ is_Some v.(thread)
  | Opening | Checking => v.(stopped) = true /\ v.(thread) = None
  | Launching => v.(stopped) = true /\ v.(open) = true /\ v.(thread) = None
  | Spawning => v.(stopped) = false /\ v.(open) = true /\ v.(thread) = None
  end.

Definition quiet (v : t) : Prop :=
  flaky = false ->
  (v.(thread) = Some Failed -> v.(stopped) = true) /\ "Failed to accept connection" ∉ v.(errors).

Lemma create_inv : consistent create /\ quiet create.
Proof. split; [by left|]. intros _. split; [done|]. by intros ?%elem_of_nil. Qed.

(** The accepting thread moves. *)
Lemma consistent_thread v th er n :
  consistent v -> is_Some v.(thread) -> consistent (mk v.(stopped) v.(open) (Some th) v.(control_) er n).
Proof.
  assert (Hsome : is_Some (Some th)) by done. unfold consistent. intros Hv [x Hx]. cbn.
  destruct (control_ v); destruct_and?; destruct_or?; destruct_and?; try congruence; auto.
Qed.

Lemma consistent_step v v' : consistent v -> step v v' -> consistent v'.
Proof.
  intros Hv Hs. unfold consistent in *.
  destruct Hs as [v Hc|v Hc|v next Hc|v next Hc|v next Hc Ht|v b Hc|v Hc|v Hc|v Hc|v Ht Ho|v Ht Ho|v Ht];
    try rewrite Hc in Hv; cbn -[after]; try done.
  - destruct v as [[] op th ct er co]; cbn in *.
    + destruct Hv as [[_ ->]|(? & _)]; [|done]. destruct next; cbn; auto.
    + destruct Hv as [[? _]|(_ & _ & ?)]; done.
  - destruct Hv as [? ?]. done.
  - destruct Hv as (? & ? & ?). destruct next; cbn; auto.
  - unfold check. destruct Hv as [? ?]. destruct (open v) eqn:E; cbn; [done|by left].
  - destruct Hv as (? & ? & ?). done.
  - destruct Hv as (? & ? & ?). right. by eauto.
  - apply (consistent_thread v Failed v.(errors) v.(connections)); [done|by rewrite Ht].
  - apply (consistent_thread v Ended (end_accepting v).(errors) v.(connections)); [done|by rewrite Ht].
Qed.

(** While [accept] can be called on a running server its socket is open. *)
Lemma consistent_open v : consistent v -> is_Some v.(thread) -> v.(stopped) = false -> v.(open) = true.
Proof. unfold consistent. intros Hv [x Hx] Hs. destruct (control_ v); destruct_and?; destruct_or?; destruct_and?; congruence. Qed.

Lemma quiet_step v v' : consistent v -> quiet v -> step v v' -> quiet v'.
Proof.
  intros Hv Hq Hs Hf. destruct (Hq Hf) as [Hthr Herr].
  destruct Hs as [v Hc|v Hc|v next Hc|v next Hc|v next Hc Ht|v b Hc|v Hc|v Hc|v Hc|v Ht Ho|v Ht Ho|v Ht];
    cbn; try done.
  - unfold check. destruct (open v); cbn; [done|]. split; [done|]. rewrite elem_of_app. intros [?|Hin]; [done|].
    by apply list_elem_of_singleton in Hin.
  - unfold consistent in Hv. rewrite Hc in Hv. destruct Hv as (_ & _ & Hn). by rewrite Hn.
  - destruct Ho as [Ho|Ho]; [|congruence]. split; [|done]. intros _. destruct (stopped v) eqn:Es; [done|].
    rewrite (consistent_open v Hv) in Ho; [done|by rewrite Ht|done].
  - split; [done|]. by rewrite (Hthr Ht).
Qed.

Lemma server_inv_reachable v : rtc step create v -> consistent v /\ quiet v.
Proof.
  apply (rtc_ind_r (fun v => consistent v /\ quiet v)); [apply create_inv|].
  intros x y _ Hs [Hc Hq]. split; [by eapply consistent_step|by eapply quiet_step].
Qed.
End Server.
End Server.

Module NetworkProps.
Import Server.

(** C35. Starting and stopping a server is orderly: whenever [start] is about to start
    the accepting thread the previous one has been joined, once [stop] has returned no
    thread is left, and stopping is silent: when [accept] fails only on a closed socket,
    "Failed to accept connection" is never reported. *)
Theorem server_orderly flaky v :
  rtc (step flaky) create v ->
  (v.(control_) = Spawning -> v.(thread) = None) /\
  (v.(control_) = Free -> v.(stopped) = true -> v.(thread) = None) /\
  (flaky = false -> "Failed to accept connection" ∉ v.(errors)).
Proof.
  intros [Hc Hq]%server_inv_reachable. split_and!.
  - intros E. unfold consistent in Hc. rewrite E in Hc. by destruct Hc as (_ & _ & ?).
  - intros E Hs. unfold consistent in Hc. rewrite E in Hc. destruct Hc as [[_ ?]|[? _]]; congruence.
  - intros Hf. by destruct (Hq Hf).
Qed.

(** [stop] does not wait in vain: in every reachable state in which it waits for the
    accepting thread, that thread can run to its end and [stop] returns. *)
Theorem server_stop_returns flaky v next :
  rtc (step flaky) create v -> v.(control_) = Joining next ->
  exists v', rtc (step flaky) v v' /\ v'.(control_) = after next /\ v'.(thread) = None /\ v'.(stopped) = true.
Proof.
  intros [Hc _]%server_inv_reachable E. unfold consistent in Hc. rewrite E in Hc. destruct Hc as (Hs & Ho & [th Hth]).
  assert (Hend : forall v, control_ v = Joining next -> stopped v = true -> thread v = Some Ended ->
    exists v', rtc (step flaky) v v' /\ control_ v' = after next /\ thread v' = None /\ stopped v' = true).
  { intros w Ew Hw Ht. eexists. split; [by apply rtc_once, (step_join flaky w next)|]. done. }
  assert (Hfail : forall v, control_ v = Joining next -> stopped v = true -> thread v = Some Failed ->
    exists v', rtc (step flaky) v v' /\ control_ v' = after next /\ thread v' = None /\ stopped v' = true).
  { intros w Ew Hw Ht. destruct (Hend (end_accepting w)) as (v' & Hr & Hv'); [done..|]. exists v'. split; [|done].
    by eapply rtc_l; [apply step_give_up|]. }
  destruct th; [|by apply Hfail|by apply Hend].
  destruct (Hfail (mk v.(stopped) v.(open) (Some Failed) v.(control_) v.(errors) v.(connections))) as (v' & Hr & Hv');
    [done..|]. exists v'. split; [|done]. by eapply rtc_l; [apply step_accept_fails; [|left]|].
Qed.

(** A server that is started, takes a connection and is stopped. *)
Definition stopping_server : t := mk true false (Some Accepting) (Joining ThenReturn) [] 1.

Lemma stopping_reachable : rtc (step false) create stopping_server.
Proof.
  eapply rtc_l; [by apply step_start|]. eapply rtc_l; [by apply (step_exchange _ _ ThenStart)|].
  eapply rtc_l; [by apply (step_open _ _ true)|]. eapply rtc_l; [by apply step_check|].
  eapply rtc_l; [by apply step_launch|]. eapply rtc_l; [by apply step_spawn|].
  eapply rtc_l; [by apply step_accept|]. eapply rtc_l; [by apply step_stop|].
  eapply rtc_l; [by apply (step_exchange _ _ ThenReturn)|]. eapply rtc_l; [by apply (step_close _ _ ThenReturn)|].
  apply rtc_refl.
Qed.

Lemma server_orderly_witness : "Failed to accept connection" ∉ stopping_server.(errors).
Proof. apply (server_orderly false stopping_server stopping_reachable). reflexivity. Defined.

Lemma server_stop_returns_witness :
  exists v', rtc (step false) stopping_server v' /\ v'.(control_) = Free /\ v'.(thread) = None /\ v'.(stopped) = true.
Proof. apply (server_stop_returns false stopping_server ThenReturn stopping_reachable). reflexivity. Defined.
End NetworkProps.
