(* ===== verification/SMap.v ===== *)
(** * String-keyed maps as canonical lists

    JSON objects and [dap::object] ([std::unordered_map<string, any>]) are finite
    maps from strings nested inside the values they hold. A map is a list of
    bindings kept in one fixed order of the keys, so that two maps with the same
    bindings are equal and recursion over the values stays structural. *)
From Stdlib Require Import ZArith Lia.
From stdpp Require Import base list strings countable.
From S2P Require Import Prelude.

Definition smap (A : Type) : Type := list (string * A).

(** The order of the keys: that of their codes. *)
Definition key_ltb (a b : string) : bool := Pos.ltb (encode a) (encode b).

Section SMap.
Context {A : Type}.
Implicit Types m : smap A.

Fixpoint sm_lookup (m : smap A) (k : string) : option A :=
  match m with
  | [] => None
  | (k', v) :: m => if bool_decide (k' = k) then Some v else sm_lookup m k
  end.

Fixpoint sm_insert (m : smap A) (k : string) (v : A) : smap A :=
  match m with
  | [] => [(k, v)]
  | (k', v') :: m' =>
    if bool_decide (k' = k) then (k, v) :: m'
    else if key_ltb k k' then (k, v) :: m
    else (k', v') :: sm_insert m' k v
  end.

Fixpoint sm_delete (m : smap A) (k : string) : smap A :=
  match m with
  | [] => []
  | (k', v) :: m => if bool_decide (k' = k) then m else (k', v) :: sm_delete m k
  end.

(** Every key is below the keys after it. *)
Fixpoint sm_sorted (m : smap A) : Prop :=
  match m with
  | [] => True
  | (k, _) :: m => Forall (fun kv => key_ltb k kv.1 = true) m /\ sm_sorted m
  end.

Lemma key_ltb_irrefl k : key_ltb k k = false.
Proof. apply Pos.ltb_irrefl. Qed.

Lemma key_ltb_trans a b c : key_ltb a b = true -> key_ltb b c = true -> key_ltb a c = true.
Proof. unfold key_ltb. rewrite !Pos.ltb_lt. lia. Qed.

Lemma key_ltb_total a b : a <> b -> key_ltb a b = false -> key_ltb b a = true.
Proof.
  unfold key_ltb. rewrite Pos.ltb_ge, Pos.ltb_lt. intros Hne Hle.
  assert (encode a <> encode b) by (by intros ?%(inj encode)). lia.
Qed.

Lemma sm_lookup_insert_eq m k v : sm_lookup (sm_insert m k v) k = Some v.
Proof.
  induction m as [|[k' v'] m IH]; cbn; [by rewrite bool_decide_eq_true_2|].
  case_bool_decide as E; cbn; [by rewrite bool_decide_eq_true_2|].
  destruct (key_ltb k k'); cbn; [by rewrite bool_decide_eq_true_2|].
  by rewrite bool_decide_eq_false_2.
Qed.

Lemma sm_lookup_insert_ne m k k' v : k <> k' -> sm_lookup (sm_insert m k v) k' = sm_lookup m k'.
Proof.
  intros Hne. induction m as [|[k1 v1] m IH]; cbn; [by rewrite bool_decide_eq_false_2|].
  case_bool_decide as E; subst; cbn.
  - by rewrite bool_decide_eq_false_2.
  - destruct (key_ltb k k1); cbn; [by rewrite bool_decide_eq_false_2|]. by rewrite IH.
Qed.

Lemma sm_lookup_insert m k k' v :
  sm_lookup (sm_insert m k v) k' = if bool_decide (k = k') then Some v else sm_lookup m k'.
Proof.
  case_bool_decide as E; subst; [apply sm_lookup_insert_eq|by apply sm_lookup_insert_ne].
Qed.

Lemma sm_lookup_below m k :
  Forall (fun kv => key_ltb k kv.1 = true) m -> sm_lookup m k = None.
Proof.
  induction 1 as [|[k' v] m Hk _ IH]; cbn in *; [done|]. rewrite bool_decide_eq_false_2; [done|].
  intros ->. by rewrite key_ltb_irrefl in Hk.
Qed.

Lemma sm_lookup_elem m k v : sm_lookup m k = Some v -> (k, v) ∈ m.
Proof.
  induction m as [|[k1 v1] m IH]; cbn; [done|].
  case_bool_decide; subst; [intros [= ->]; by left|]. intros. right. by apply IH.
Qed.

Lemma sm_insert_forall (P : string * A -> Prop) m k v :
  P (k, v) -> Forall P m -> Forall P (sm_insert m k v).
Proof.
  intros Hk. induction 1 as [|[k' v'] m Hk' Hm IH]; cbn; [by repeat constructor|].
  case_bool_decide; [by constructor|]. destruct (key_ltb k k'); by repeat constructor.
Qed.

Lemma sm_delete_forall (P : string * A -> Prop) m k : Forall P m -> Forall P (sm_delete m k).
Proof.
  induction 1 as [|[k' v'] m Hk' Hm IH]; cbn; [constructor|]. case_bool_decide; [done|by constructor].
Qed.

Lemma sm_insert_sorted m k v : sm_sorted m -> sm_sorted (sm_insert m k v).
Proof.
  induction m as [|[k' v'] m IH]; cbn; [by repeat constructor|]. intros [Hk Hm].
  case_bool_decide as E; subst; cbn; [done|]. destruct (key_ltb k k') eqn:El; cbn.
  - split; [|done]. constructor; [done|]. eapply Forall_impl; [exact Hk|].
    cbn. intros. by eapply key_ltb_trans.
  - split; [|auto]. apply sm_insert_forall; [|done]. cbn. by apply key_ltb_total.
Qed.

Lemma sm_delete_sorted m k : sm_sorted m -> sm_sorted (sm_delete m k).
Proof.
  induction m as [|[k' v'] m IH]; cbn; [done|]. intros [Hk Hm].
  case_bool_decide; cbn; [done|]. split; [by apply sm_delete_forall|auto].
Qed.

Lemma sm_lookup_delete m k k' :
  sm_sorted m -> sm_lookup (sm_delete m k) k' = if bool_decide (k = k') then None else sm_lookup m k'.
Proof.
  induction m as [|[k1 v1] m IH]; cbn; [by destruct (bool_decide _)|]. intros [Hk Hm].
  destruct (decide (k1 = k)) as [->|Hne].
  - rewrite bool_decide_eq_true_2 by done. case_bool_decide; subst; [by apply sm_lookup_below|done].
  - rewrite bool_decide_eq_false_2 by done. cbn. rewrite IH by done.
    repeat case_bool_decide; congruence.
Qed.

(** Maps are determined by their lookups. *)
Lemma sm_ext m1 m2 :
  sm_sorted m1 -> sm_sorted m2 -> (forall k, sm_lookup m1 k = sm_lookup m2 k) -> m1 = m2.
Proof.
  revert m2. induction m1 as [|[k1 v1] m1 IH]; intros [|[k2 v2] m2] H1 H2 He; [done|..].
  { specialize (He k2). cbn in He. by rewrite bool_decide_eq_true_2 in He. }
  { specialize (He k1). cbn in He. by rewrite bool_decide_eq_true_2 in He. }
  cbn in H1, H2. destruct H1 as [Hb1 Hs1], H2 as [Hb2 Hs2].
  assert (Hk : k1 = k2).
  { destruct (decide (k1 = k2)) as [|Hne]; [done|exfalso]. destruct (key_ltb k1 k2) eqn:E.
    - specialize (He k1). cbn in He. rewrite bool_decide_eq_true_2 in He by done.
      rewrite bool_decide_eq_false_2 in He by done. rewrite sm_lookup_below in He; [done|].
      eapply Forall_impl; [exact Hb2|]. cbn. intros. by eapply key_ltb_trans.
    - apply key_ltb_total in E; [|done]. specialize (He k2). cbn in He.
      rewrite bool_decide_eq_false_2 in He by done. rewrite bool_decide_eq_true_2 in He by done.
      rewrite sm_lookup_below in He; [done|].
      eapply Forall_impl; [exact Hb1|]. cbn. intros. by eapply key_ltb_trans. }
  subst k2. f_equal.
  - f_equal. specialize (He k1). cbn in He. rewrite bool_decide_eq_true_2 in He by done. congruence.
  - apply IH; [done..|]. intros k. destruct (decide (k1 = k)) as [->|Hne].
    + by rewrite !sm_lookup_below.
    + specialize (He k). cbn in He. by rewrite !bool_decide_eq_false_2 in He.
Qed.

Lemma sm_delete_insert m k v : sm_lookup m k = None -> sm_delete (sm_insert m k v) k = m.
Proof.
  induction m as [|[k' v'] m IH]; cbn; [by rewrite bool_decide_eq_true_2|].
  case_bool_decide as E; [done|]. intros Hm. destruct (key_ltb k k'); cbn.
  - by rewrite bool_decide_eq_true_2.
  - rewrite bool_decide_eq_false_2 by done. by rewrite IH.
Qed.

Lemma sm_insert_insert m k v w : sm_insert (sm_insert m k v) k w = sm_insert m k w.
Proof.
  induction m as [|[k' v'] m IH]; cbn; [by rewrite bool_decide_eq_true_2|].
  case_bool_decide as E; cbn; [by rewrite bool_decide_eq_true_2|]. destruct (key_ltb k k') eqn:El; cbn.
  - by rewrite bool_decide_eq_true_2.
  - rewrite bool_decide_eq_false_2 by done. by rewrite El, IH.
Qed.

Lemma sm_keys_NoDup m : sm_sorted m -> NoDup m.*1.
Proof.
  induction m as [|[k v] m IH]; cbn; [constructor|]. intros [Hk Hm]. constructor; [|auto].
  intros (kv & -> & Hin)%list_elem_of_fmap. rewrite Forall_forall in Hk. specialize (Hk _ Hin).
  by rewrite key_ltb_irrefl in Hk.
Qed.

(** Inserting a list of bindings, left to right. *)
Definition sm_insert_all (m : smap A) (l : list (string * A)) : smap A :=
  fold_left (fun m kv => sm_insert m kv.1 kv.2) l m.

Lemma sm_insert_all_sorted l m : sm_sorted m -> sm_sorted (sm_insert_all m l).
Proof.
  revert m. induction l as [|[k v] l IH]; intros m Hm; cbn; [done|]. by apply IH, sm_insert_sorted.
Qed.

Lemma sm_insert_all_forall (P : string * A -> Prop) l m :
  Forall P l -> Forall P m -> Forall P (sm_insert_all m l).
Proof.
  intros Hl. revert m. induction Hl as [|[k v] l Hk _ IH]; intros m Hm; cbn; [done|].
  by apply IH, sm_insert_forall.
Qed.

Lemma sm_insert_all_lookup l m k :
  NoDup l.*1 -> sm_lookup (sm_insert_all m l) k =
    match list_find (fun kv => kv.1 = k) l with Some (_, (_, v)) => Some v | None => sm_lookup m k end.
Proof.
  revert m. induction l as [|[k1 v1] l IH]; intros m Hnd; [done|].
  change (sm_insert_all m ((k1, v1) :: l)) with (sm_insert_all (sm_insert m k1 v1) l).
  apply NoDup_cons in Hnd as [Hni Hnd]. rewrite IH by done. cbn [list_find fst].
  case_decide as E; subst.
  - destruct (list_find _ l) as [[i [k2 v2]]|] eqn:Ef; [|apply sm_lookup_insert_eq].
    apply list_find_Some in Ef as (Hi & Hk & _). cbn in Hk. subst. exfalso. apply Hni.
    apply list_elem_of_fmap. eexists. split; [|by eapply list_elem_of_lookup_2]. done.
  - destruct (list_find _ l) as [[i [k2 v2]]|]; cbn; [done|]. by apply sm_lookup_insert_ne.
Qed.

Lemma sm_lookup_doc l k : NoDup l.*1 -> sm_lookup (sm_insert_all [] l) k = sm_lookup l k.
Proof.
  intros Hnd. rewrite sm_insert_all_lookup by done. clear Hnd.
  induction l as [|[k1 v1] l IH]; cbn; [done|]. case_decide; case_bool_decide; try done.
  all: destruct (list_find _ l) as [[i [k2 v2]]|]; cbn in *; congruence.
Qed.

(** The bindings of a canonical map, in any order, rebuild it. *)
Lemma sm_rebuild m l :
  sm_sorted m -> l ≡ₚ m -> sm_insert_all [] l = m.
Proof.
  intros Hs Hp. apply sm_ext; [by apply sm_insert_all_sorted|done|]. intros k.
  assert (Hin : forall m k v, sm_sorted m -> (k, v) ∈ m -> sm_lookup m k = Some v).
  { clear. induction m as [|[k1 v1] m IH]; intros k v; cbn; [by intros _ ?%elem_of_nil|].
    intros [Hk Hm] [[= -> ->]|Hi]%elem_of_cons; [by rewrite bool_decide_eq_true_2|].
    rewrite bool_decide_eq_false_2; [by apply IH|]. intros ->.
    rewrite Forall_forall in Hk. specialize (Hk _ Hi). cbn in Hk. by rewrite key_ltb_irrefl in Hk. }
  rewrite sm_insert_all_lookup by (rewrite Hp; by apply sm_keys_NoDup).
  destruct (list_find _ l) as [[i [k1 v1]]|] eqn:Ef.
  - apply list_find_Some in Ef as (Hi & Hk & _). cbn in Hk. subst. symmetry. apply Hin; [done|].
    rewrite <-Hp. by eapply list_elem_of_lookup_2.
  - cbn. destruct (sm_lookup m k) as [v|] eqn:E; [|done]. exfalso.
    apply sm_lookup_elem in E. rewrite <-Hp in E. apply list_find_None in Ef.
    rewrite Forall_forall in Ef. by apply (Ef _ E).
Qed.

End SMap.

(** Mapping a function over the values keeps keys and order. *)
Definition sm_map {A B} (f : A -> B) (m : smap A) : smap B := prod_map id f <$> m.

Lemma sm_map_sorted {A B} (f : A -> B) m : sm_sorted m -> sm_sorted (sm_map f m).
Proof.
  induction m as [|[k v] m IH]; cbn; [done|]. intros [Hk Hm]. split; [|auto].
  rewrite Forall_fmap. eapply Forall_impl; [exact Hk|]. by intros [].
Qed.

Lemma sm_lookup_map {A B} (f : A -> B) m k : sm_lookup (sm_map f m) k = f <$> sm_lookup m k.
Proof. induction m as [|[k' v] m IH]; cbn; [done|]. by case_bool_decide. Qed.
