(* ===== verification/Types.v ===== *)
(** * The DAP types and their values

    Models [include/dap/types.h], the value semantics of [optional.h], [any.h] and
    [variant.h] (the storage of [any] is in [AnyStorage]) and the type
    descriptors of [typeinfo.h], [typeof.h] and [src/typeof.cpp]: [ty] is the set
    of types [TypeOf<T>] describes (one [TypeInfo] object per type, so comparing
    the pointers compares the types), [value] the objects of these types. *)
From Stdlib Require Import ZArith Lia.
From stdpp Require Import base list strings.
From S2P Require Import Prelude SMap.

(** A [double], by its 64-bit pattern: the code only copies it. *)
Definition double : Type := Z.

(** ** Types *)
#[local] Unset Elimination Schemes.

Inductive ty :=
| TBoolean | TInteger | TNumber | TString | TObject | TAny | TNull
| TArray (t : ty)
| TOptional (t : ty)
| TVariant (t0 : ty) (ts : list ty)
| TStruct (name : string).

(** [TypeInfo::name()]; a struct's name comes with its typeinfo. *)
Fixpoint type_name (struct_name : string -> string) (t : ty) : string :=
  match t with
  | TBoolean => "boolean"
  | TInteger => "integer"
  | TNumber => "number"
  | TString => "string"
  | TObject => "object"
  | TAny => "any"
  | TNull => "null"
  | TArray t => "array<" +:+ type_name struct_name t +:+ ">"
  | TOptional t => "optional<" +:+ type_name struct_name t +:+ ">"
  | TVariant _ _ => "variant"
  | TStruct s => struct_name s
  end.

Fixpoint ty_eqb (a b : ty) : bool :=
  match a, b with
  | TBoolean, TBoolean | TInteger, TInteger | TNumber, TNumber | TString, TString
  | TObject, TObject | TAny, TAny | TNull, TNull => true
  | TArray a, TArray b | TOptional a, TOptional b => ty_eqb a b
  | TVariant a l, TVariant b k =>
    ty_eqb a b && (fix go (l k : list ty) : bool :=
      match l, k with
      | [], [] => true
      | x :: l, y :: k => ty_eqb x y && go l k
      | _, _ => false
      end) l k
  | TStruct s, TStruct r => bool_decide (s = r)
  | _, _ => false
  end.

Fixpoint ty_eqb_eq (a b : ty) : ty_eqb a b = true <-> a = b.
Proof.
  destruct a, b; cbn; try (split; [discriminate|congruence]); try done.
  - rewrite ty_eqb_eq. split; congruence.
  - rewrite ty_eqb_eq. split; congruence.
  - rewrite andb_true_iff, ty_eqb_eq.
    assert (H : forall l k, (fix go (l k : list ty) : bool :=
      match l, k with
      | [], [] => true
      | x :: l, y :: k => ty_eqb x y && go l k
      | _, _ => false
      end) l k = true <-> l = k).
    { fix go 1. intros [|x l] [|y k]; try (split; [discriminate|congruence]); [done|].
      rewrite andb_true_iff, ty_eqb_eq, go. split; [intros [-> ->]; done|by intros [= -> ->]]. }
    rewrite H. split; [intros [-> ->]; done|by intros [= -> ->]].
  - rewrite bool_decide_eq_true. split; congruence.
Defined.

#[global] Instance ty_eq_dec : EqDecision ty.
Proof.
  intros a b. destruct (ty_eqb a b) eqn:E.
  - left. by apply ty_eqb_eq.
  - right. intros ->. assert (ty_eqb b b = true) by by apply ty_eqb_eq. congruence.
Defined.

(** Induction on the element types of arrays and optionals. *)
Section ty_ind.
Variable P : ty -> Prop.
Hypothesis PLeaf : forall t, match t with TArray _ | TOptional _ => False | _ => True end -> P t.
Hypothesis PArray : forall t, P t -> P (TArray t).
Hypothesis POptional : forall t, P t -> P (TOptional t).

Fixpoint ty_element_ind (t : ty) : P t :=
  match t with
  | TArray t => PArray t (ty_element_ind t)
  | TOptional t => POptional t (ty_element_ind t)
  | t => PLeaf t I
  end.
End ty_ind.

(** The arrays and optionals a type nests before a struct or a basic type. *)
Fixpoint ty_rank (t : ty) : nat :=
  match t with TArray t | TOptional t => S (ty_rank t) | _ => 0%nat end.

(** ** Values

    [VAnyEmpty] is an [any] whose [value] pointer is null, [VAny t v] one that
    holds [v] of type [t]; [VVariant a] holds the [any] of a variant; the members
    of a struct are bound to their C++ names, in the order of their declaration. *)
Inductive value :=
| VBoolean (b : bool)
| VInteger (z : Z)
| VNumber (d : double)
| VString (s : string)
| VNull
| VAnyEmpty
| VAny (t : ty) (v : value)
| VObject (m : smap value)
| VArray (l : list value)
| VOptional (o : option value)
| VVariant (a : value)
| VStruct (fs : list (string * value)).

#[local] Set Elimination Schemes.

Section value_ind.
Variable P : value -> Prop.
Hypothesis PBoolean : forall b, P (VBoolean b).
Hypothesis PInteger : forall z, P (VInteger z).
Hypothesis PNumber : forall d, P (VNumber d).
Hypothesis PString : forall s, P (VString s).
Hypothesis PNull : P VNull.
Hypothesis PAnyEmpty : P VAnyEmpty.
Hypothesis PAny : forall t v, P v -> P (VAny t v).
Hypothesis PObject : forall m, Forall (fun kv => P kv.2) m -> P (VObject m).
Hypothesis PArray : forall l, Forall P l -> P (VArray l).
Hypothesis POptional : forall o, (forall v, o = Some v -> P v) -> P (VOptional o).
Hypothesis PVariant : forall a, P a -> P (VVariant a).
Hypothesis PStruct : forall fs, Forall (fun kv => P kv.2) fs -> P (VStruct fs).

Fixpoint value_nested_ind (v : value) : P v :=
  let members := fix members (l : list (string * value)) : Forall (fun kv => P kv.2) l :=
    match l with
    | [] => Forall_nil_2 _
    | kv :: l => Forall_cons_2 _ kv l (value_nested_ind kv.2) (members l)
    end in
  match v with
  | VBoolean b => PBoolean b
  | VInteger z => PInteger z
  | VNumber d => PNumber d
  | VString s => PString s
  | VNull => PNull
  | VAnyEmpty => PAnyEmpty
  | VAny t v => PAny t v (value_nested_ind v)
  | VObject m => PObject m (members m)
  | VArray l =>
      PArray l ((fix elems (l : list value) : Forall P l :=
        match l with
        | [] => Forall_nil_2 _
        | v :: l => Forall_cons_2 _ v l (value_nested_ind v) (elems l)
        end) l)
  | VOptional None => POptional None (fun v H => match H with end)
  | VOptional (Some w) =>
      POptional (Some w) (fun v H => match H in _ = o return from_option P True o with
        eq_refl => value_nested_ind w end)
  | VVariant a => PVariant a (value_nested_ind a)
  | VStruct fs => PStruct fs (members fs)
  end.
End value_ind.

(** Height of a value: a bound on the recursion of the serializer. *)
Fixpoint height (v : value) : nat :=
  let members := fix members (l : list (string * value)) : nat :=
    match l with [] => 0 | kv :: l => height kv.2 `max` members l end%nat in
  match v with
  | VAny _ v | VVariant v | VOptional (Some v) => S (height v)
  | VObject m => S (members m)
  | VStruct fs => S (members fs)
  | VArray l => S ((fix elems (l : list value) : nat :=
      match l with [] => 0 | v :: l => height v `max` elems l end%nat) l)
  | _ => 0%nat
  end.

Definition heights (l : list value) : nat := foldr (fun v h => height v `max` h)%nat 0%nat l.

Lemma height_array l : height (VArray l) = S (heights l).
Proof. cbn. f_equal. Qed.

Lemma height_object m : height (VObject m) = S (heights m.*2).
Proof. cbn. f_equal. induction m as [|[k v] m IH]; cbn; [done|]. by rewrite IH. Qed.

Lemma height_struct fs : height (VStruct fs) = S (heights fs.*2).
Proof. cbn. f_equal. induction fs as [|[k v] m IH]; cbn; [done|]. by rewrite IH. Qed.

Lemma heights_elem v l : v ∈ l -> (height v <= heights l)%nat.
Proof.
  induction l as [|x l IH]; [by intros ?%elem_of_nil|].
  intros [->|Hv]%elem_of_cons; cbn; fold (heights l); [|specialize (IH Hv)]; lia.
Qed.

(** ** [dap::boolean], [dap::integer] and [dap::number]: defaults and operators *)
Definition boolean_default : value := VBoolean false.
Definition integer_default : value := VInteger 0.
Definition number_default : value := VNumber 0.

(** [integer::operator++(int)]: the value before, and the counter after. *)
Definition integer_postincrement (z : Z) : Z * Z := (z, s64 (z + 1)).

(** ** [any]: [is<T>] and [get<T>] ([any.h]) *)
Definition any_is (a : value) (t : ty) : bool :=
  match a with
  | VAnyEmpty => bool_decide (t = TNull)
  | VAny t' _ => negb (bool_decide (t = TNull)) && bool_decide (t' = t)
  | _ => false
  end.

(** [get<T>] asserts [is<T>]. *)
Definition any_get (a : value) (t : ty) : outcome value :=
  match a with
  | VAny t' v => if bool_decide (t' = t) then Ret v else Undefined
  | _ => Undefined
  end.

(** Assignment from a [T]; from [nullptr] the [any] is reset, from an [any] it is a copy
    of that [any]. *)
Definition any_of (t : ty) (v : value) : value :=
  if bool_decide (t = TNull) then VAnyEmpty else if bool_decide (t = TAny) then v else VAny t v.

(** ** [variant] ([variant.h]) *)
Definition TypeIsIn (t : ty) (ts : list ty) : bool := existsb (ty_eqb t) ts.

Definition variant_accepts (vt t : ty) : bool :=
  match vt with TVariant t0 ts => TypeIsIn t (t0 :: ts) | _ => false end.

(** [variant(const T&)] and [operator=(const T&)] give the [any] the value. *)
Definition variant_of (t : ty) (v : value) : value := VVariant (any_of t v).

Definition variant_assign (var : value) (t : ty) (v : value) : outcome value :=
  match var with VVariant _ => Ret (variant_of t v) | _ => Undefined end.

Definition variant_is (v : value) (t : ty) : bool :=
  match v with VVariant a => any_is a t | _ => false end.

Definition variant_get (v : value) (t : ty) : outcome value :=
  match v with VVariant a => any_get a t | _ => Undefined end.

(** ** Structs

    [member]: a C++ member with its type and its default member initializer;
    [struct_info]: what [DAP_IMPLEMENT_STRUCT_TYPEINFO] (and [_EXT], with a base)
    declares: the serialized name of the type and, for each [DAP_FIELD], the
    member and the serialized name of the field. *)
Record member := Member { mem_name : string; mem_type : ty; mem_init : option value }.

Record struct_info := StructInfo {
  si_struct : string;
  si_name : string;
  si_base : option string;
  si_members : list member;
  si_fields : list (string * string)
}.

(** The member [DAP_FIELD(FIELD, NAME)] names: [DAP_TYPEOF] is its type. *)
Definition member_of (si : struct_info) (field : string) : option member :=
  match list_find (fun m => m.(mem_name) = field) si.(si_members) with
  | Some (_, m) => Some m
  | None => None
  end.

Definition schema : Type := string -> option struct_info.

(** Default construction ([TypeInfo::construct]): a struct's members in order,
    each from its initializer or its type's default. The fuel bounds the nesting
    of structs held by value. *)
Fixpoint construct (env : schema) (fuel : nat) (t : ty) : outcome value :=
  match fuel with
  | O => OutOfFuel
  | S fuel =>
    match t with
    | TBoolean => Ret boolean_default
    | TInteger => Ret integer_default
    | TNumber => Ret number_default
    | TString => Ret (VString EmptyString)
    | TObject => Ret (VObject [])
    | TAny => Ret VAnyEmpty
    | TNull => Ret VNull
    | TArray _ => Ret (VArray [])
    | TOptional _ => Ret (VOptional None)
    | TVariant t0 _ => v ← construct env fuel t0; Ret (variant_of t0 v)
    | TStruct s =>
      match env s with
      | None => Undefined
      | Some si =>
        fs ← (fix go (ms : list member) : outcome (list (string * value)) :=
          match ms with
          | [] => Ret []
          | m :: ms =>
            v ← match m.(mem_init) with
                | Some v => Ret v
                | None => construct env fuel m.(mem_type)
                end;
            vs ← go ms;
            Ret ((m.(mem_name), v) :: vs)
          end) si.(si_members);
        Ret (VStruct fs)
      end
    end
  end.

(** Reading and writing a struct member through its offset. *)
Fixpoint get_member (fs : list (string * value)) (name : string) : option value :=
  match fs with
  | [] => None
  | (n, v) :: fs => if bool_decide (n = name) then Some v else get_member fs name
  end.

Fixpoint set_member (fs : list (string * value)) (name : string) (v : value)
    : list (string * value) :=
  match fs with
  | [] => []
  | (n, w) :: fs =>
    if bool_decide (n = name) then (n, v) :: fs else (n, w) :: set_member fs name v
  end.

Lemma get_set_member_eq fs n v : is_Some (get_member fs n) -> get_member (set_member fs n v) n = Some v.
Proof.
  induction fs as [|[k w] fs IH]; cbn; [by intros []|]. case_bool_decide; cbn.
  - by rewrite bool_decide_eq_true_2.
  - rewrite bool_decide_eq_false_2 by done. done.
Qed.

Lemma get_set_member_ne fs n k v : n <> k -> get_member (set_member fs n v) k = get_member fs k.
Proof.
  intros Hne. induction fs as [|[x w] fs IH]; cbn; [done|]. case_bool_decide; subst; cbn; [|by rewrite IH].
  by rewrite bool_decide_eq_false_2.
Qed.

Lemma set_member_names fs n v : (set_member fs n v).*1 = fs.*1.
Proof. induction fs as [|[x w] fs IH]; cbn; [done|]. case_bool_decide; cbn; congruence. Qed.
