(* ===== verification/Variant.v ===== *)
(** * [dap::variant] ([include/dap/variant.h])

    A variant keeps an [any]; its members test at compile time that the type they are
    used at is one of the alternatives. The operations are in [Types.v]; here are the
    programs over the variants of one type, and the specification of a variant: a type
    and a value of it. Moves are those of the [any] ([AnyStorage.v]). *)
From Stdlib Require Import ZArith Lia.
From stdpp Require Import base list strings.
From S2P Require Import Prelude Types.

Module Variant.
Section Programs.
Context (env : schema) (fuel : nat) (t0 : ty) (ts : list ty).
Abbreviation vt := (TVariant t0 ts).

(** The operations on the variables of a list. *)
Inductive cmd :=
| NewDefault
| NewOf (t : ty) (v : value)
| NewCopy (j : nat)
| Assign (i : nat) (t : ty) (v : value)
| AssignCopy (i j : nat)
| Is (i : nat) (t : ty)
| Get (i : nat) (t : ty).

Inductive output := Nothing | Bool (b : bool) | Out (v : value).

(** The [static_assert]s of [variant] and, for [null], of [any::get]. *)
Definition compiles (c : cmd) : bool :=
  match c with
  | NewOf t _ | Assign _ t _ => variant_accepts vt t
  | Get _ t => variant_accepts vt t && negb (bool_decide (t = TNull))
  | _ => true
  end.

Definition exec (c : cmd) (vars : list value) : outcome (output * list value) :=
  match c with
  | NewDefault => v ← construct env (S fuel) vt; Ret (Nothing, vars ++ [v])
  | NewOf t v => Ret (Nothing, vars ++ [variant_of t v])
  | NewCopy j => a ← deref (vars !! j); Ret (Nothing, vars ++ [a])
  | Assign i t v => a ← deref (vars !! i); a ← variant_assign a t v; Ret (Nothing, <[i := a]> vars)
  | AssignCopy i j => _ ← deref (vars !! i); b ← deref (vars !! j); Ret (Nothing, <[i := b]> vars)
  | Is i t => a ← deref (vars !! i); Ret (Bool (variant_is a t), vars)
  | Get i t => a ← deref (vars !! i); v ← variant_get a t; Ret (Out v, vars)
  end.

(** The specification: a variable is a type and a value of it. *)
Definition spec (c : cmd) (vars : list (ty * value)) : outcome (output * list (ty * value)) :=
  match c with
  | NewDefault => v ← construct env fuel t0; Ret (Nothing, vars ++ [(t0, v)])
  | NewOf t v => Ret (Nothing, vars ++ [(t, v)])
  | NewCopy j => a ← deref (vars !! j); Ret (Nothing, vars ++ [a])
  | Assign i t v => _ ← deref (vars !! i); Ret (Nothing, <[i := (t, v)]> vars)
  | AssignCopy i j => _ ← deref (vars !! i); b ← deref (vars !! j); Ret (Nothing, <[i := b]> vars)
  | Is i t => a ← deref (vars !! i); Ret (Bool (bool_decide (a.1 = t)), vars)
  | Get i t => a ← deref (vars !! i); if bool_decide (a.1 = t) then Ret (Out a.2, vars) else Undefined
  end.

Fixpoint run {V} (step : cmd -> V -> outcome (output * V)) (cs : list cmd) (vars : V) : outcome (list output * V) :=
  match cs with
  | [] => Ret ([], vars)
  | c :: cs => '(o, vars) ← step c vars; '(os, vars) ← run step cs vars; Ret (o :: os, vars)
  end.

(** ** The refinement *)
Definition stored (a : ty * value) : value := variant_of a.1 a.2.

Definition concrete {O} (r : outcome (O * list (ty * value))) : outcome (O * list value) :=
  '(o, vars) ← r; Ret (o, map stored vars).

Definition accepted (a : ty * value) : Prop := variant_accepts vt a.1 = true.

Lemma accepts_default : variant_accepts vt t0 = true.
Proof. cbn. by rewrite (proj2 (ty_eqb_eq t0 t0) eq_refl). Qed.

Lemma stored_is a t : a.1 <> TAny -> variant_is (stored a) t = bool_decide (a.1 = t).
Proof.
  destruct a as [u v]. cbn. intros Hu. unfold any_of. rewrite (bool_decide_eq_false_2 _ Hu).
  destruct (decide (u = TNull)) as [->|Hn].
  - rewrite bool_decide_eq_true_2 by done. cbn. apply bool_decide_ext. split; congruence.
  - rewrite (bool_decide_eq_false_2 _ Hn). cbn. destruct (decide (t = TNull)) as [->|Ht].
    + by rewrite bool_decide_eq_true_2, bool_decide_eq_false_2.
    + by rewrite (bool_decide_eq_false_2 _ Ht).
Qed.

Lemma stored_get a t : a.1 <> TAny -> t <> TNull ->
  variant_get (stored a) t = if bool_decide (a.1 = t) then Ret a.2 else Undefined.
Proof.
  destruct a as [u v]. cbn. intros Hu Ht. unfold any_of. rewrite (bool_decide_eq_false_2 _ Hu).
  destruct (decide (u = TNull)) as [->|Hn].
  - rewrite bool_decide_eq_true_2, bool_decide_eq_false_2 by congruence. done.
  - by rewrite (bool_decide_eq_false_2 _ Hn).
Qed.

Context (Hany : variant_accepts vt TAny = false).

Lemma accepted_not_any a : accepted a -> a.1 <> TAny.
Proof using Hany. unfold accepted. congruence. Qed.

Lemma variant_exec_spec c vars : compiles c = true -> Forall accepted vars ->
  exec c (map stored vars) = concrete (spec c vars) /\
  forall o vars', spec c vars = Ret (o, vars') -> Forall accepted vars'.
Proof using Hany.
  assert (Hd : forall i, deref ((map stored vars) !! i) = (a ← deref (vars !! i); Ret (stored a))).
  { intros i. change (map stored vars) with (stored <$> vars). rewrite list_lookup_fmap. by destruct (vars !! i). }
  assert (Hi : forall i a, <[i := stored a]> (map stored vars) = map stored (<[i := a]> vars)) by (intros; symmetry; apply (list_fmap_insert stored)).
  intros Hc Hv. assert (Ha : forall i a, vars !! i = Some a -> accepted a) by (intros i a; by apply Forall_lookup_1).
  destruct c as [|t v|j|i t v|i j|i t|i t]; cbn -[construct variant_is variant_get stored]; rewrite ?Hd.
  - cbn [construct]. destruct (construct env fuel t0) as [v| | |]; (split; [cbn; by rewrite ?map_app|]); [|done..].
    intros o vars' [= <- <-]. apply Forall_app. split; [done|]. apply Forall_singleton, accepts_default.
  - split; [by rewrite map_app|]. intros o vars' [= <- <-]. apply Forall_app. split; [done|]. by apply Forall_singleton.
  - destruct (vars !! j) as [a|] eqn:E; [|done]. cbn. split; [by rewrite map_app|]. intros o vars' [= <- <-].
    apply Forall_app. split; [done|]. apply Forall_singleton. by eapply Ha.
  - destruct (vars !! i) as [a|] eqn:E; [|done]. cbn. split; [by rewrite <-(Hi i (t, v))|]. intros o vars' [= <- <-].
    by apply Forall_insert.
  - destruct (vars !! i) as [a|] eqn:E; [|done]. destruct (vars !! j) as [b|] eqn:E'; [|done]. cbn -[stored].
    split; [by rewrite Hi|]. intros o vars' [= <- <-]. apply Forall_insert; [done|]. by eapply Ha.
  - destruct (vars !! i) as [a|] eqn:E; [|done]. cbn -[variant_is stored].
    split; [|by intros o vars' [= <- <-]]. rewrite stored_is; [done|]. by eapply accepted_not_any, Ha.
  - destruct (vars !! i) as [a|] eqn:E; [|done]. cbn -[variant_get stored]. cbn in Hc.
    rewrite andb_true_iff, negb_true_iff, bool_decide_eq_false in Hc. destruct Hc as [_ Hn].
    rewrite stored_get; [|by eapply accepted_not_any, Ha|done]. case_bool_decide; (split; [done|]); [|done].
    by intros o vars' [= <- <-].
Qed.

Lemma variant_run_spec cs vars : forallb compiles cs = true -> Forall accepted vars ->
  run exec cs (map stored vars) = concrete (run spec cs vars) /\
  forall os vars', run spec cs vars = Ret (os, vars') -> Forall accepted vars'.
Proof using Hany.
  revert vars. induction cs as [|c cs IH]; intros vars; cbn [run forallb].
  { intros _ Hv. split; [done|]. by intros os vars' [= <- <-]. }
  rewrite andb_true_iff. intros [Hc Hcs] Hv. destruct (variant_exec_spec c vars Hc Hv) as [He Hk]. rewrite He.
  destruct (spec c vars) as [[o vars1]| | |] eqn:E; [|done..]. cbn.
  destruct (IH vars1 Hcs (Hk o vars1 eq_refl)) as [Hr Hk']. rewrite Hr.
  destruct (run spec cs vars1) as [[os vars2]| | |]; [|done..]. cbn. split; [done|].
  intros os' vars' [= <- <-]. by eapply Hk'.
Qed.
End Programs.
End Variant.

Module VariantProps.
Import Variant.

(** A variant is a type-safe union: in every program that compiles, over a variant type
    without [any] among its alternatives, each variant holds exactly the type and value
    last given to it, always of an accepted type; [is] tells which, and [get] returns the
    value at that type and asserts at every other. *)
Theorem variant_refines env fuel t0 ts cs :
  variant_accepts (TVariant t0 ts) TAny = false -> forallb (compiles t0 ts) cs = true ->
  run (exec env fuel t0 ts) cs [] = concrete (run (spec env fuel t0) cs []) /\
  forall os vars, run (spec env fuel t0) cs [] = Ret (os, vars) -> Forall (accepted t0 ts) vars.
Proof. intros Ha Hc. by apply (variant_run_spec env fuel t0 ts Ha cs []). Qed.

Lemma variant_refines_witness :
  run (exec (fun _ => None) 1 TInteger [TString]) [NewDefault; Assign 0 TString (VString "x"); Is 0 TInteger; Get 0 TString] []
    = Ret ([Nothing; Nothing; Bool false; Out (VString "x")], [VVariant (VAny TString (VString "x"))]).
Proof.
  exact (proj1 (variant_refines (fun _ => None) 1 TInteger [TString]
    [NewDefault; Assign 0 TString (VString "x"); Is 0 TInteger; Get 0 TString] eq_refl eq_refl)).
Defined.

(** A variant that accepts [any] does not keep one: an [any] given to it is copied into
    the [any] of the variant, and the variant then does not say that it holds an [any]. *)
Theorem variant_any_lost t v : t <> TAny -> variant_is (variant_of TAny (any_of t v)) TAny = false.
Proof.
  intros Ht. unfold variant_of, any_of. rewrite (bool_decide_eq_false_2 _ Ht), (bool_decide_eq_false_2 (TAny = TNull)),
    (bool_decide_eq_true_2 (TAny = TAny)) by done. case_bool_decide; cbn;
    [|rewrite andb_false_iff; right]; by apply bool_decide_eq_false_2.
Qed.

Lemma variant_any_lost_witness : variant_is (variant_of TAny (VAny TInteger (VInteger 3))) TAny = false.
Proof. exact (variant_any_lost TInteger (VInteger 3) ltac:(discriminate)). Defined.
End VariantProps.
