(* ===== verification/Optional.v ===== *)
(** * [dap::optional] ([include/dap/optional.h])

    The class keeps a [T] that is always constructed and a flag, so an unset optional
    still holds a value: the one it was constructed with, or what was assigned or
    copied to it before. Its specification is [option]: [optional_refines] shows that
    no sequence of operations can observe the difference, and [optional_order] that
    the six comparison operators are those of one total order in which the unset
    optional is least. *)
From Stdlib Require Import ZArith Lia.
From stdpp Require Import base list.
From S2P Require Import Prelude.

(** What the class uses of [T]: [T{}], and what a move leaves in its source. *)
Class Contained (T : Type) := { val_init : T; moved_from : T -> T }.

(** [T]'s comparison operators. *)
Class Comparisons (T : Type) := {
  t_eq : T -> T -> bool;
  t_lt : T -> T -> bool;
  t_le : T -> T -> bool;
  t_gt : T -> T -> bool;
  t_ge : T -> T -> bool
}.

Module Optional.

Record optional (T : Type) := mk { val : T; set : bool }.
Arguments mk {T} val set.
Arguments val {T} _.
Arguments set {T} _.

Section Optional.
Context {T : Type} `{Contained T}.

(** ** Construction. A move gives the new object and what it leaves of the source. *)
Definition default_construct : optional T := mk val_init false.

Definition copy_construct (other : optional T) : optional T := mk other.(val) other.(set).

Definition move_construct (other : optional T) : optional T * optional T :=
  (mk other.(val) other.(set), mk (moved_from other.(val)) other.(set)).

Definition of_value (value : T) : optional T := mk value true.

(** ** Observers *)
Definition has_value (o : optional T) : bool := o.(set).

(** [value()] asserts that there is one. *)
Definition value (o : optional T) : outcome T := if o.(set) then Ret o.(val) else Undefined.

Definition value_or (o : optional T) (defaultValue : T) : T :=
  if negb (has_value o) then defaultValue else o.(val).

(** [operator*] and [operator->], read from and written through. *)
Definition deref_read (o : optional T) : outcome T := if o.(set) then Ret o.(val) else Undefined.

Definition deref_write (o : optional T) (v : T) : outcome (optional T) :=
  if o.(set) then Ret (mk v o.(set)) else Undefined.

(** ** Assignment *)
Definition copy_assign (o other : optional T) : optional T := mk other.(val) other.(set).

Definition move_assign (o other : optional T) : optional T * optional T :=
  (mk other.(val) other.(set), mk (moved_from other.(val)) other.(set)).

Definition assign_value (o : optional T) (value : T) : optional T := mk value true.
End Optional.

(** The constructor from an [optional<U>], with the cast from [U] to [T]. *)
Definition convert {T U : Type} `{Contained T} `{Contained U} (cast : U -> T) (other : optional U)
    : outcome (optional T) :=
  if has_value other then v ← value other; Ret (mk (cast v) true) else Ret (mk val_init false).

(** ** Comparisons *)
Section Compare.
Context {T U : Type} `{Contained T} `{Contained U}.

Definition operator_eq (eq : T -> U -> bool) (lhs : optional T) (rhs : optional U) : outcome bool :=
  if negb (has_value lhs) && negb (has_value rhs) then Ret true
  else if negb (has_value lhs) || negb (has_value rhs) then Ret false
  else l ← value lhs; r ← value rhs; Ret (eq l r).

Definition operator_ne (eq : T -> U -> bool) (lhs : optional T) (rhs : optional U) : outcome bool :=
  b ← operator_eq eq lhs rhs; Ret (negb b).

Definition operator_lt (lt : T -> U -> bool) (lhs : optional T) (rhs : optional U) : outcome bool :=
  if negb (has_value rhs) then Ret false
  else if negb (has_value lhs) then Ret true
  else l ← value lhs; r ← value rhs; Ret (lt l r).

Definition operator_le (le : T -> U -> bool) (lhs : optional T) (rhs : optional U) : outcome bool :=
  if negb (has_value lhs) then Ret true
  else if negb (has_value rhs) then Ret false
  else l ← value lhs; r ← value rhs; Ret (le l r).

Definition operator_gt (gt : T -> U -> bool) (lhs : optional T) (rhs : optional U) : outcome bool :=
  if negb (has_value lhs) then Ret false
  else if negb (has_value rhs) then Ret true
  else l ← value lhs; r ← value rhs; Ret (gt l r).

Definition operator_ge (ge : T -> U -> bool) (lhs : optional T) (rhs : optional U) : outcome bool :=
  if negb (has_value rhs) then Ret true
  else if negb (has_value lhs) then Ret false
  else l ← value lhs; r ← value rhs; Ret (ge l r).
End Compare.

(** ** The specification

    What an optional is to its users. *)
Definition contents {T} (o : optional T) : option T := if o.(set) then Some o.(val) else None.

Inductive comparison := CEq | CNe | CLt | CLe | CGt | CGe.

(** [None] is below every value. *)
Definition spec_compare {T} `{Comparisons T} (c : comparison) (a b : option T) : bool :=
  match a, b with
  | None, None => match c with CEq | CLe | CGe => true | _ => false end
  | None, Some _ => match c with CNe | CLt | CLe => true | _ => false end
  | Some _, None => match c with CNe | CGt | CGe => true | _ => false end
  | Some x, Some y =>
    match c with
    | CEq => t_eq x y | CNe => negb (t_eq x y) | CLt => t_lt x y
    | CLe => t_le x y | CGt => t_gt x y | CGe => t_ge x y
    end
  end.

Definition compare {T} `{Contained T} `{Comparisons T} (c : comparison) (a b : optional T) : outcome bool :=
  match c with
  | CEq => operator_eq t_eq a b
  | CNe => operator_ne t_eq a b
  | CLt => operator_lt t_lt a b
  | CLe => operator_le t_le a b
  | CGt => operator_gt t_gt a b
  | CGe => operator_ge t_ge a b
  end.

(** ** Programs over a list of optionals

    [cmd]: an operation on the variables of a list and what it gives its user; the
    variable an operation names exists. *)
Inductive cmd (T : Type) :=
| NewEmpty | NewOf (v : T) | NewCopy (j : nat) | NewMove (j : nat)
| AssignCopy (i j : nat) | AssignMove (i j : nat) | AssignValue (i : nat) (v : T)
| Store (i : nat) (v : T) | HasValue (i : nat) | Value (i : nat) | Deref (i : nat)
| ValueOr (i : nat) (d : T) | Compare (c : comparison) (i j : nat).

Inductive output (T : Type) := Nothing | Bool (b : bool) | Out (v : T).
Arguments NewEmpty {T}.
Arguments NewOf {T} v.
Arguments NewCopy {T} j.
Arguments NewMove {T} j.
Arguments AssignCopy {T} i j.
Arguments AssignMove {T} i j.
Arguments AssignValue {T} i v.
Arguments Store {T} i v.
Arguments HasValue {T} i.
Arguments Value {T} i.
Arguments Deref {T} i.
Arguments ValueOr {T} i d.
Arguments Compare {T} c i j.
Arguments Nothing {T}.
Arguments Bool {T} b.
Arguments Out {T} v.

Section Programs.
Context {T : Type} `{Contained T} `{Comparisons T}.

Definition exec (c : cmd T) (vars : list (optional T)) : outcome (output T * list (optional T)) :=
  match c with
  | NewEmpty => Ret (Nothing, vars ++ [default_construct])
  | NewOf v => Ret (Nothing, vars ++ [of_value v])
  | NewCopy j => o ← deref (vars !! j); Ret (Nothing, vars ++ [copy_construct o])
  | NewMove j =>
    o ← deref (vars !! j); let '(n, o) := move_construct o in Ret (Nothing, <[j := o]> vars ++ [n])
  | AssignCopy i j => a ← deref (vars !! i); b ← deref (vars !! j); Ret (Nothing, <[i := copy_assign a b]> vars)
  | AssignMove i j =>
    a ← deref (vars !! i); b ← deref (vars !! j);
    let '(n, o) := move_assign a b in Ret (Nothing, <[j := o]> (<[i := n]> vars))
  | AssignValue i v => a ← deref (vars !! i); Ret (Nothing, <[i := assign_value a v]> vars)
  | Store i v => a ← deref (vars !! i); a ← deref_write a v; Ret (Nothing, <[i := a]> vars)
  | HasValue i => a ← deref (vars !! i); Ret (Bool (has_value a), vars)
  | Value i => a ← deref (vars !! i); v ← value a; Ret (Out v, vars)
  | Deref i => a ← deref (vars !! i); v ← deref_read a; Ret (Out v, vars)
  | ValueOr i d => a ← deref (vars !! i); Ret (Out (value_or a d), vars)
  | Compare c i j => a ← deref (vars !! i); b ← deref (vars !! j); r ← compare c a b; Ret (Bool r, vars)
  end.

(** The same program over [option]. *)
Definition spec (c : cmd T) (vars : list (option T)) : outcome (output T * list (option T)) :=
  match c with
  | NewEmpty => Ret (Nothing, vars ++ [None])
  | NewOf v => Ret (Nothing, vars ++ [Some v])
  | NewCopy j => o ← deref (vars !! j); Ret (Nothing, vars ++ [o])
  | NewMove j => o ← deref (vars !! j); Ret (Nothing, <[j := moved_from <$> o]> vars ++ [o])
  | AssignCopy i j => _ ← deref (vars !! i); b ← deref (vars !! j); Ret (Nothing, <[i := b]> vars)
  | AssignMove i j =>
    _ ← deref (vars !! i); b ← deref (vars !! j); Ret (Nothing, <[j := moved_from <$> b]> (<[i := b]> vars))
  | AssignValue i v => _ ← deref (vars !! i); Ret (Nothing, <[i := Some v]> vars)
  | Store i v => a ← deref (vars !! i); _ ← deref a; Ret (Nothing, <[i := Some v]> vars)
  | HasValue i => a ← deref (vars !! i); Ret (Bool (bool_decide (is_Some a)), vars)
  | Value i | Deref i => a ← deref (vars !! i); v ← deref a; Ret (Out v, vars)
  | ValueOr i d => a ← deref (vars !! i); Ret (Out (default d a), vars)
  | Compare c i j => a ← deref (vars !! i); b ← deref (vars !! j); Ret (Bool (spec_compare c a b), vars)
  end.

Fixpoint run {V} (step : cmd T -> V -> outcome (output T * V)) (cs : list (cmd T)) (vars : V)
    : outcome (list (output T) * V) :=
  match cs with
  | [] => Ret ([], vars)
  | c :: cs => '(o, vars) ← step c vars; '(os, vars) ← run step cs vars; Ret (o :: os, vars)
  end.

Lemma compare_spec c a b : compare c a b = Ret (spec_compare c (contents a) (contents b)).
Proof. destruct a as [x []], b as [y []], c; done. Qed.

(** The variables as their users see them. *)
Definition observe {O} (r : outcome (O * list (optional T))) : outcome (O * list (option T)) :=
  '(o, vars) ← r; Ret (o, map contents vars).

Lemma observe_bind {A O} (x : outcome A) (f : A -> outcome (O * list (optional T))) :
  observe (x ≫= f) = (a ← x; observe (f a)).
Proof. by destruct x. Qed.

Lemma exec_spec c vars : observe (exec c vars) = spec c (map contents vars).
Proof.
  assert (Hl : forall i, map contents vars !! i = contents <$> vars !! i) by (intros i; apply list_lookup_fmap).
  assert (Hi : forall i (o : optional T) l, map contents (<[i := o]> l) = <[i := contents o]> (map contents l))
    by (intros; apply list_fmap_insert).
  destruct c; cbn -[compare]; rewrite ?Hl; unfold observe; cbn -[compare]; rewrite ?map_app; try done;
    try (destruct (vars !! i) as [[a []]|]); try (destruct (vars !! j) as [[b []]|]); cbn -[compare];
    rewrite ?map_app, ?Hi, ?compare_spec; done.
Qed.

Lemma run_spec cs vars : observe (run exec cs vars) = run spec cs (map contents vars).
Proof.
  revert vars. induction cs as [|c cs IH]; intros vars; [done|]. cbn [run]. rewrite <-exec_spec.
  destruct (exec c vars) as [[o vars']| | |]; try done. cbn. rewrite <-IH.
  by destruct (run exec cs vars') as [[os vars'']| | |].
Qed.

Lemma convert_spec {U} `{Contained U} (cast : U -> T) other :
  exists o, convert cast other = Ret o /\ contents o = cast <$> contents other.
Proof. destruct other as [v []]; by eexists. Qed.
End Programs.

(** [T]'s operators are those of one total order. *)
Class TotalComparisons (T : Type) `{Comparisons T} : Prop := {
  t_eq_spec x y : t_eq x y = true <-> x = y;
  t_lt_irrefl x : t_lt x x = false;
  t_lt_trans x y z : t_lt x y = true -> t_lt y z = true -> t_lt x z = true;
  t_lt_total x y : t_lt x y = true \/ x = y \/ t_lt y x = true;
  t_le_spec x y : t_le x y = negb (t_lt y x);
  t_gt_spec x y : t_gt x y = t_lt y x;
  t_ge_spec x y : t_ge x y = negb (t_lt x y)
}.
End Optional.

Module OptionalProps.
Import Optional.
Section Props.
Context {T : Type} `{Contained T} `{Comparisons T}.

(** An [optional] is an [option] to its users: for every program of
    declarations, copies, moves, assignments, accesses and comparisons, what the
    program gives its user (and whether an access asserts) is what it gives over
    [option], although an unset optional still holds a value. *)
Theorem optional_refines cs :
  observe (run exec cs []) = run spec cs [].
Proof. exact (run_spec cs []). Qed.

(** The comparison operators of [optional] never assert, and when those of [T]
    are the operators of a total order, they are the operators of a total order on
    the contents, in which an unset optional is below every value. *)
Theorem optional_order {HT : TotalComparisons T} (a b c : optional T) :
  (forall op, compare op a b = Ret (spec_compare op (contents a) (contents b))) /\
  (spec_compare CEq (contents a) (contents b) = true <-> contents a = contents b) /\
  spec_compare CLt (contents a) (contents a) = false /\
  (spec_compare CLt (contents a) (contents b) = true -> spec_compare CLt (contents b) (contents c) = true ->
    spec_compare CLt (contents a) (contents c) = true) /\
  (spec_compare CLt (contents a) (contents b) = true \/ contents a = contents b \/
    spec_compare CLt (contents b) (contents a) = true) /\
  (forall v, spec_compare CLt None (Some v) = true) /\
  spec_compare CNe (contents a) (contents b) = negb (spec_compare CEq (contents a) (contents b)) /\
  spec_compare CLe (contents a) (contents b) = negb (spec_compare CLt (contents b) (contents a)) /\
  spec_compare CGt (contents a) (contents b) = spec_compare CLt (contents b) (contents a) /\
  spec_compare CGe (contents a) (contents b) = negb (spec_compare CLt (contents a) (contents b)).
Proof.
  split; [intros op; apply compare_spec|].
  destruct (contents a) as [x|], (contents b) as [y|], (contents c) as [z|]; cbn;
    rewrite ?t_le_spec, ?t_gt_spec, ?t_ge_spec, ?t_lt_irrefl, ?t_eq_spec; split_and!; try done; try tauto;
    try (split; congruence); try apply t_lt_trans; try (destruct (t_lt_total x y) as [?|[->|?]]; tauto).
Qed.
End Props.

#[local] Instance Z_Contained : Contained Z := {| val_init := 0; moved_from z := z |}.
#[local] Instance Z_Comparisons : Comparisons Z :=
  {| t_eq := Z.eqb; t_lt := Z.ltb; t_le := Z.leb; t_gt := Z.gtb; t_ge := Z.geb |}.
#[local] Instance Z_TotalComparisons : TotalComparisons Z.
Proof. split; cbn; lia. Qed.

Lemma optional_order_witness :
  (forall op, compare op (mk 5 false) (mk 3 true) = Ret (spec_compare op None (Some 3))) /\
  compare CLt (mk 5 false) (mk 3 true) = Ret true.
Proof.
  destruct (optional_order (mk 5 false) (mk 3 true) (mk 7 true)) as (Hc & _ & _ & Ht & _).
  split; [exact Hc|]. rewrite (Hc CLt). reflexivity.
Defined.
End OptionalProps.
