(* ===== verification/Registry.v ===== *)
(** * The type registry ([src/typeof.cpp], [include/dap/typeof.h])

    [TypeInfos] is a singleton built on first use and destroyed when its reference
    count falls to zero: it starts at one, which the end of the program releases,
    [initialize()] and [terminate()] count up and down. It holds the [TypeInfo]s of
    the basic types and owns those [TypeInfo::create] makes, one for every array,
    variant and optional type, kept in a function-local static; the [TypeInfo] of a
    struct is a function-local static itself. [Types.ty] stands for the [TypeInfo*] of
    a type: [typeinfo_identity] is why that is sound. *)
From Stdlib Require Import ZArith Lia.
From stdpp Require Import base list strings.
From S2P Require Import Prelude Types.

Module Registry.

(** A [const TypeInfo*]: a member of [TypeInfos], the [n]'th object made by [create],
    or the static of a struct. *)
Inductive ptr := Basic (t : ty) | Created (n : nat) | Struct (name : string).

Inductive phase := Unconstructed | Alive | Destroyed.

(** [types]: the names of the objects [TypeInfos::types] owns; [made]: the types
    whose function-local static points to them, in the order of their creation;
    [exited]: the destructors of the statics have run. *)
Record t := mk {
  ph : phase;
  refcount : Z;
  types : list string;
  made : list ty;
  exited : bool
}.

Definition initial : t := mk Unconstructed 0 [] [] false.

Section Registry.
(** The serialized names of the structs. *)
Context (struct_name : string -> string).

(** [TypeInfos::get()]: the first call constructs the instance. *)
Definition get (r : t) : t :=
  match r.(ph) with Unconstructed => mk Alive 1 r.(types) r.(made) r.(exited) | _ => r end.

(** A use of the members of a destroyed object is undefined. *)
Definition alive (r : t) : outcome () := match r.(ph) with Destroyed => Undefined | _ => Ret () end.

Definition reference (r : t) : outcome t :=
  _ ← alive r;
  if r.(refcount) >? 0 then Ret (mk r.(ph) (u64 (r.(refcount) + 1)) r.(types) r.(made) r.(exited)) else Undefined.

(** [release()]: the destructor deletes the objects [types] owns. *)
Definition release (r : t) : outcome t :=
  _ ← alive r;
  let n := u64 (r.(refcount) - 1) in
  Ret (if n =? 0 then mk Destroyed n [] r.(made) r.(exited) else mk r.(ph) n r.(types) r.(made) r.(exited)).

Definition initialize (r : t) : outcome t := reference (get r).
Definition terminate (r : t) : outcome t := release (get r).

(** The end of the program: [~Instance()], if there is an instance, and the statics
    of the structs. *)
Definition exit (r : t) : outcome t :=
  r ← match r.(ph) with Unconstructed => Ret r | _ => release r end;
  Ret (mk r.(ph) r.(refcount) r.(types) r.(made) true).

(** [typeinfo->name()]. *)
Definition name (p : ptr) (r : t) : outcome string :=
  match p with
  | Basic u => _ ← alive r; Ret (type_name struct_name u)
  | Created n => deref (r.(types) !! n)
  | Struct s => if r.(exited) then Undefined else Ret (struct_name s)
  end.

(** [TypeInfo::create]: the new object, registered with [deleteOnExit]. *)
Definition create (u : ty) (n : string) (r : t) : outcome (ptr * t) :=
  let r := get r in
  _ ← alive r;
  Ret (Created (length r.(types)), mk r.(ph) r.(refcount) (r.(types) ++ [n]) (r.(made) ++ [u]) r.(exited)).

(** The static of a type, when its function has run before. *)
Definition static_of (u : ty) (r : t) : option ptr :=
  match list_find (eq u) r.(made) with Some (n, _) => Some (Created n) | None => None end.

(** [TypeOf<T>::type()]. *)
Fixpoint type_of (u : ty) (r : t) : outcome (ptr * t) :=
  match u with
  | TArray e =>
    match static_of u r with
    | Some p => Ret (p, r)
    | None => '(p, r) ← type_of e r; n ← name p r; create u ("array<" +:+ n +:+ ">") r
    end
  | TOptional e =>
    match static_of u r with
    | Some p => Ret (p, r)
    | None => '(p, r) ← type_of e r; n ← name p r; create u ("optional<" +:+ n +:+ ">") r
    end
  | TVariant _ _ =>
    match static_of u r with
    | Some p => Ret (p, r)
    | None => create u "variant" r
    end
  | TStruct s => Ret (Struct s, r)
  | _ => Ret (Basic u, get r)
  end.

(** ** Programs *)
Inductive op := Initialize | Terminate | Exit | TypeOf (u : ty).

Definition exec (o : op) (r : t) : outcome t :=
  match o with
  | Initialize => initialize r
  | Terminate => terminate r
  | Exit => exit r
  | TypeOf u => '(_, r) ← type_of u r; Ret r
  end.

Fixpoint run (os : list op) (r : t) : outcome t :=
  match os with [] => Ret r | o :: os => r ← exec o r; run os r end.

(** ** The invariant

    The object of a created type has the name of the type, and no type is made
    twice. *)
Record wf (r : t) : Prop := {
  wf_types : r.(ph) <> Destroyed -> Forall2 (fun u n => n = type_name struct_name u) r.(made) r.(types);
  wf_made : NoDup r.(made);
  wf_unconstructed : r.(ph) = Unconstructed -> r.(made) = [] /\ r.(types) = [];
  wf_destroyed : r.(ph) = Destroyed -> r.(types) = []
}.

(** What a pointer stands for. *)
Definition points_to (r : t) (p : ptr) (u : ty) : Prop :=
  match u, p with
  | TArray _, Created n | TOptional _, Created n | TVariant _ _, Created n => r.(made) !! n = Some u
  | TStruct s, Struct s' => s = s'
  | (TArray _ | TOptional _ | TVariant _ _ | TStruct _), _ => False
  | _, Basic u' => u = u'
  | _, _ => False
  end.

(** What later operations keep. *)
Definition extends (r r' : t) : Prop := r.(made) `prefix_of` r'.(made).

Lemma points_to_extends r r' p u : extends r r' -> points_to r p u -> points_to r' p u.
Proof. intros Hx. destruct u, p; cbn; try done; intros Hp; by eapply prefix_lookup_Some. Qed.

Lemma points_to_inj r p q u w : NoDup r.(made) -> points_to r p u -> points_to r q w -> p = q <-> u = w.
Proof.
  intros Hnd Hp Hq. split.
  - intros <-. destruct u, p, w; cbn in *; simplify_eq/=; try done; congruence.
  - intros <-. destruct u, p, q; cbn in *; simplify_eq/=; try done; f_equal;
      by eapply NoDup_lookup.
Qed.

(** The references that are held, whether or not the instance is there yet. *)
Definition count (r : t) : Z := match r.(ph) with Unconstructed => 1 | _ => r.(refcount) end.

Definition usable (r : t) : Prop := r.(ph) <> Destroyed.

(** What a call that does not count leaves as it was. *)
Record kept (r r' : t) : Prop := {
  kept_wf : wf r';
  kept_extends : extends r r';
  kept_usable : usable r' <-> usable r;
  kept_count : count r' = count r;
  kept_exited : r'.(exited) = r.(exited)
}.

Lemma kept_refl r : wf r -> kept r r.
Proof. intros Hr. split; [done|unfold extends; done|done..]. Qed.

Lemma kept_trans r1 r2 r3 : kept r1 r2 -> kept r2 r3 -> kept r1 r3.
Proof.
  intros [? ? ? ? ?] [? ? ? ? ?]. split; [done| |tauto|congruence|congruence]. unfold extends. by etrans.
Qed.

Lemma kept_get r : wf r -> kept r (get r).
Proof.
  intros Hr. unfold get. destruct (ph r) eqn:E; [|by apply kept_refl..].
  destruct (wf_unconstructed r Hr E) as [Hm Ht]. split.
  - split; cbn; rewrite ?Hm, ?Ht; intros; [constructor|constructor|done..].
  - unfold extends. done.
  - unfold usable. rewrite E. done.
  - unfold count. by rewrite E.
  - done.
Qed.

Lemma static_of_spec u r p : static_of u r = Some p -> exists n, p = Created n /\ r.(made) !! n = Some u.
Proof.
  unfold static_of. destruct (list_find (eq u) r.(made)) as [[n v]|] eqn:E; [|done]. intros [= <-].
  apply list_find_Some in E as (Hn & <- & _). by exists n.
Qed.

Lemma static_of_None u r : static_of u r = None -> u ∉ r.(made).
Proof.
  unfold static_of. destruct (list_find (eq u) r.(made)) as [[n v]|] eqn:E; [done|]. intros _ Hin.
  apply list_find_None in E. rewrite Forall_forall in E. by apply (E u).
Qed.

Lemma create_spec u n r p r' :
  wf r -> u ∉ r.(made) -> n = type_name struct_name u -> create u n r = Ret (p, r') ->
  kept r r' /\ exists i, p = Created i /\ r'.(made) !! i = Some u.
Proof.
  intros Hr Hu Hn Hc. pose proof (kept_get r Hr) as Hg. unfold create in Hc.
  assert (Hm : made (get r) = made r) by (unfold get; by destruct (ph r)).
  assert (Hp : ph (get r) <> Unconstructed) by (unfold get; by destruct (ph r) eqn:E; cbn; rewrite ?E).
  set (g := get r) in *. clearbody g. apply outcome_bind_inv in Hc as (un & Ha & [= <- <-]).
  assert (Hal : usable g) by (unfold usable; unfold alive in Ha; by destruct (ph g)).
  pose proof (wf_types g (kept_wf _ _ Hg) Hal) as HF. split.
  - eapply kept_trans; [exact Hg|]. destruct (kept_wf _ _ Hg) as [H1 H2 H3 H4]. split; [split; cbn| |done..].
    + intros _. apply Forall2_app; [done|]. by constructor.
    + apply NoDup_app. split; [done|]. split; [|apply NoDup_singleton].
      intros x Hx Hx'. apply list_elem_of_singleton in Hx' as ->. by rewrite Hm in Hx.
    + done.
    + done.
    + by apply prefix_app_r.
  - exists (length (types g)). split; [done|]. cbn. rewrite <-(Forall2_length _ _ _ HF).
    by rewrite list_lookup_middle.
Qed.

Lemma name_spec r p u :
  wf r -> usable r -> r.(exited) = false -> points_to r p u -> name p r = Ret (type_name struct_name u).
Proof.
  intros Hr Hu He Hp. unfold name.
  assert (Hc : forall n, made r !! n = Some u -> deref (types r !! n) = Ret (type_name struct_name u)).
  { intros n Hn. destruct (Forall2_lookup_l _ _ _ _ _ (wf_types r Hr Hu) Hn) as (x & -> & ->). done. }
  destruct u, p; cbn in Hp; simplify_eq/=; try done; try by apply Hc.
  all: try (unfold alive; destruct (ph r) eqn:E; by rewrite ?E).
  by rewrite He.
Qed.

(** A name that was read is the one of the type. *)
Lemma name_inv r p u n :
  wf r -> points_to r p u -> name p r = Ret n -> n = type_name struct_name u.
Proof.
  intros Hr Hp Hn. unfold name in Hn. destruct p.
  - apply outcome_bind_inv in Hn as (? & _ & [= <-]). destruct u; cbn in Hp; by simplify_eq.
  - assert (Hm : made r !! n0 = Some u) by (by destruct u). destruct (types r !! n0) as [x|] eqn:E; [|done].
    injection Hn as <-. destruct (ph r) eqn:Ep.
    3: by rewrite (wf_destroyed r Hr Ep) in E.
    all: assert (Hd : ph r <> Destroyed) by (by rewrite Ep).
    all: destruct (Forall2_lookup_l _ _ _ _ _ (wf_types r Hr Hd) Hm) as (y & Hy & ->); congruence.
  - destruct (exited r); [done|]. injection Hn as <-. destruct u; cbn in Hp; by simplify_eq.
Qed.

(** The types that are made while another is asked for are no deeper. *)
Definition makes_below (k : nat) (r r' : t) : Prop := forall w, w ∈ r'.(made) -> w ∈ r.(made) \/ (ty_rank w <= k)%nat.

Lemma made_get r : made (get r) = made r.
Proof. unfold get. by destruct (ph r). Qed.

Lemma made_create u n r p r' : create u n r = Ret (p, r') -> made r' = made r ++ [u].
Proof. unfold create. intros Hc. apply outcome_bind_inv in Hc as (? & _ & [= _ <-]). cbn. by rewrite made_get. Qed.

(** A type with a static: the pointer that is there, or a new object. *)
Lemma static_or_new u r p r' (rest : outcome (ptr * t)) :
  wf r -> (forall q n, r.(made) !! n = Some u -> q = Created n -> points_to r q u) ->
  (forall i r', r'.(made) !! i = Some u -> points_to r' (Created i) u) ->
  match static_of u r with Some p => Ret (p, r) | None => rest end = Ret (p, r') ->
  (u ∉ r.(made) -> rest = Ret (p, r') ->
    exists r1 n, kept r r1 /\ u ∉ r1.(made) /\ makes_below (ty_rank u) r r1 /\ n = type_name struct_name u /\
      create u n r1 = Ret (p, r')) ->
  kept r r' /\ points_to r' p u /\ makes_below (ty_rank u) r r'.
Proof.
  intros Hr Hold Hpt Hc Hnew. destruct (static_of u r) as [q|] eqn:Hs.
  - injection Hc as <- <-. destruct (static_of_spec _ _ _ Hs) as (n & -> & Hn).
    split_and!; [by apply kept_refl|by eapply Hold|]. intros w Hw. by left.
  - destruct (Hnew (static_of_None _ _ Hs) Hc) as (r1 & n & Hk & Hu & Hb & Hn & Hcr).
    destruct (create_spec _ _ _ _ _ (kept_wf _ _ Hk) Hu Hn Hcr) as (Hk' & i & -> & Hi).
    split_and!; [by eapply kept_trans|by apply Hpt|]. intros w Hw. rewrite (made_create _ _ _ _ _ Hcr) in Hw.
    apply elem_of_app in Hw as [Hw| ->%list_elem_of_singleton]; [by apply Hb|by right].
Qed.

Lemma element_then_create u e r p r' (wrap : string -> string) :
  wf r -> u ∉ r.(made) -> (ty_rank e < ty_rank u)%nat -> wrap (type_name struct_name e) = type_name struct_name u ->
  (forall r p r', wf r -> type_of e r = Ret (p, r') ->
    kept r r' /\ points_to r' p e /\ makes_below (ty_rank e) r r') ->
  ('(q, r) ← type_of e r; n ← name q r; create u (wrap n) r) = Ret (p, r') ->
  exists r1 n, kept r r1 /\ u ∉ r1.(made) /\ makes_below (ty_rank u) r r1 /\ n = type_name struct_name u /\
    create u n r1 = Ret (p, r').
Proof.
  intros Hr Hu Hlt Hw IH Hc. apply outcome_bind_inv in Hc as ([q r1] & Hq & Hc).
  apply outcome_bind_inv in Hc as (n & Hn & Hc). destruct (IH _ _ _ Hr Hq) as (Hk & Hp & Hb).
  exists r1, (wrap n). split_and!; [done| | | |done].
  - intros Hin. destruct (Hb u Hin); [done|lia].
  - intros w Hin. destruct (Hb w Hin); [by left|right; lia].
  - by rewrite (name_inv _ _ _ _ (kept_wf _ _ Hk) Hp Hn).
Qed.

Lemma type_of_spec u r p r' :
  wf r -> type_of u r = Ret (p, r') -> kept r r' /\ points_to r' p u /\ makes_below (ty_rank u) r r'.
Proof.
  revert r p r'. induction u as [u Hu|e IH|e IH] using ty_element_ind; intros r p r' Hr Hc.
  - destruct u; try done; cbn [type_of] in Hc.
    1-7: injection Hc as <- <-; split_and!; [by apply kept_get|done|intros w; rewrite made_get; by left].
    + eapply (static_or_new _ _ _ _ _ Hr); [..|exact Hc|]; [intros q n Hn ->; exact Hn|done|].
      intros Hm Hcr. exists r, "variant". split_and!; [by apply kept_refl|done|by left|done|done].
    + injection Hc as <- <-. split_and!; [by apply kept_refl|done|by left].
  - cbn [type_of] in Hc. eapply (static_or_new _ _ _ _ _ Hr); [..|exact Hc|]; [intros q n Hn ->; exact Hn|done|].
    intros Hm Hcr. apply (element_then_create _ e _ _ _ (fun n => "array<" +:+ n +:+ ">") Hr Hm); [cbn; lia|done..].
  - cbn [type_of] in Hc. eapply (static_or_new _ _ _ _ _ Hr); [..|exact Hc|]; [intros q n Hn ->; exact Hn|done|].
    intros Hm Hcr. apply (element_then_create _ e _ _ _ (fun n => "optional<" +:+ n +:+ ">") Hr Hm); [cbn; lia|done..].
Qed.

Lemma get_usable r : usable r -> alive (get r) = Ret ().
Proof. unfold usable, alive, get. by destruct (ph r) eqn:E; cbn; rewrite ?E. Qed.

Lemma type_of_total u r :
  wf r -> usable r -> r.(exited) = false -> exists p r', type_of u r = Ret (p, r').
Proof.
  assert (Hnew : forall u n r, usable r -> exists p r', create u n r = Ret (p, r')).
  { intros u0 n r0 Hr0. unfold create. rewrite (get_usable r0 Hr0). by do 2 eexists. }
  assert (Helem : forall e w (wrap : string -> string) r, wf r -> usable r -> r.(exited) = false ->
    (exists p r', type_of e r = Ret (p, r')) ->
    exists p r', ('(q, r) ← type_of e r; n ← name q r; create w (wrap n) r) = Ret (p, r')).
  { intros e w wrap r0 Hr Hu He (q & r1 & Hq). rewrite Hq. cbn.
    destruct (type_of_spec _ _ _ _ Hr Hq) as (Hk & Hp & _). destruct Hk as [Hw _ Hus _ Hex].
    assert (Hn : name q r1 = Ret (type_name struct_name e))
      by (apply name_spec; [done|by apply Hus|by rewrite Hex|done]).
    rewrite Hn. cbn. apply Hnew. by apply Hus. }
  revert r. induction u as [u Hl|e IH|e IH] using ty_element_ind; intros r Hr Hu He.
  - destruct u; try done; cbn [type_of]; try (by do 2 eexists). destruct (static_of _ r); [by do 2 eexists|by apply Hnew].
  - cbn [type_of]. destruct (static_of _ r); [by do 2 eexists|].
    apply (Helem e (TArray e) (fun n => "array<" +:+ n +:+ ">")); auto.
  - cbn [type_of]. destruct (static_of _ r); [by do 2 eexists|].
    apply (Helem e (TOptional e) (fun n => "optional<" +:+ n +:+ ">")); auto.
Qed.

(** Every operation keeps the invariant and the pointers that were given out. *)
Lemma release_wf r r' : wf r -> r.(ph) <> Unconstructed -> release r = Ret r' -> wf r' /\ r'.(made) = r.(made).
Proof.
  intros [Ht Hm Hu Hd] Hp Hc. unfold release in Hc. apply outcome_bind_inv in Hc as (? & _ & [= <-]).
  case_match; split; try done; split; cbn; done.
Qed.

Lemma get_constructed r : (get r).(ph) <> Unconstructed.
Proof. unfold get. by destruct (ph r) eqn:E; cbn; rewrite ?E. Qed.

Lemma exec_wf o r r' : wf r -> exec o r = Ret r' -> wf r' /\ extends r r'.
Proof.
  intros Hr Hc. pose proof (kept_get r Hr) as [Hg Hx _ _ _]. destruct o; cbn in Hc.
  - unfold initialize, reference in Hc. apply outcome_bind_inv in Hc as (? & _ & Hc). case_match; [|done].
    injection Hc as <-. split; [|done]. destruct Hg as [Ht Hm Hu Hd]. split; cbn; done.
  - destruct (release_wf _ _ Hg (get_constructed r) Hc) as [Hw Hm]. split; [done|]. unfold extends. by rewrite Hm.
  - apply outcome_bind_inv in Hc as (r1 & Hc & [= <-]).
    assert (H1 : wf r1 /\ r1.(made) = r.(made)).
    { destruct (ph r) eqn:E; [by injection Hc as <-|..]; apply release_wf; try done; by rewrite E. }
    destruct H1 as [[Ht Hm Hu Hd] Hmm]. split; [split; cbn; done|]. unfold extends. cbn. by rewrite Hmm.
  - apply outcome_bind_inv in Hc as ([p r1] & Hc & [= <-]).
    destruct (type_of_spec _ _ _ _ Hr Hc) as ([? ? _ _ _] & _). done.
Qed.

Lemma run_wf os r r' : wf r -> run os r = Ret r' -> wf r' /\ extends r r'.
Proof.
  revert r. induction os as [|o os IH]; intros r Hr Hc; cbn in Hc.
  { injection Hc as <-. split; [done|unfold extends; done]. }
  apply outcome_bind_inv in Hc as (r1 & H1 & Hc). destruct (exec_wf _ _ _ Hr H1) as [Hw Hx].
  destruct (IH _ Hw Hc) as [Hw' Hx']. split; [done|]. unfold extends in *. by etrans.
Qed.

Lemma wf_initial : wf initial.
Proof. split; cbn; try done; constructor. Qed.

(** The calls of [initialize] that are not yet matched, in a program that keeps what
    [dap.h] asks for: no [terminate] without an [initialize], no [initialize] after a
    [terminate] ([terminated]); and that has not ended. *)
Fixpoint held (terminated : bool) (n : nat) (os : list op) : option nat :=
  match os with
  | [] => Some n
  | Initialize :: os => if terminated then None else held false (S n) os
  | Terminate :: os => match n with O => None | S n => held true n os end
  | TypeOf _ :: os => held terminated n os
  | Exit :: _ => None
  end.

Lemma held_bound b m os n : held b m os = Some n -> (n <= m + length os)%nat.
Proof.
  revert b m. induction os as [|o os IH]; intros b m; cbn; [intros [= ->]; lia|].
  destruct o; try done; intros H.
  - destruct b; [done|]. apply IH in H. lia.
  - destruct m; [done|]. apply IH in H. lia.
  - apply IH in H. lia.
Qed.

Record running (n : nat) (r : t) : Prop := {
  ru_wf : wf r;
  ru_usable : usable r;
  ru_count : count r = 1 + Z.of_nat n;
  ru_exited : r.(exited) = false
}.

Lemma running_get n r : running n r -> running n (get r).
Proof.
  intros [Hw Hu Hc He]. destruct (kept_get r Hw) as [Hw' _ Hu' Hc' He'].
  split; [done|by apply Hu'|by rewrite Hc'|by rewrite He'].
Qed.

Lemma count_get r : (get r).(refcount) = count r.
Proof. unfold count, get. by destruct (ph r). Qed.

Lemma running_run b os n r m :
  running n r -> held b n os = Some m -> Z.of_nat (n + length os) < 2 ^ 63 ->
  exists r', run os r = Ret r' /\ running m r'.
Proof.
  revert b n r. induction os as [|o os IH]; intros b n r Hr Hh Hl; cbn in Hh; [injection Hh as <-; by exists r|].
  cbn in Hl. destruct o; try done; cbn [run exec].
  - destruct b; [done|]. pose proof (running_get n r Hr) as [Hw Hu Hc He]. unfold initialize, reference.
    rewrite (get_usable r (ru_usable _ _ Hr)). cbn. rewrite count_get, (ru_count _ _ Hr).
    rewrite (proj2 (Z.gtb_lt _ _)), u64_small by lia.
    apply (IH false (S n)); [|done|lia]. split; cbn; [by destruct Hw; split|done| |done].
    unfold count. cbn. destruct (ph (get r)) eqn:E; [by destruct (get_constructed r)|lia..].
  - destruct n as [|n]; [done|]. pose proof (running_get _ r Hr) as [Hw Hu Hc He].
    unfold terminate, release. rewrite (get_usable r (ru_usable _ _ Hr)). cbn.
    rewrite count_get, (ru_count _ _ Hr), u64_small by lia. rewrite (proj2 (Z.eqb_neq _ _)) by lia.
    apply (IH true n); [|done|lia]. split; cbn; [by destruct Hw; split|done| |done].
    unfold count. cbn. destruct (ph (get r)) eqn:E; [by destruct (get_constructed r)|lia..].
  - destruct Hr as [Hw Hu Hc He]. destruct (type_of_total u r Hw Hu He) as (p & r1 & Hty). rewrite Hty. cbn.
    destruct (type_of_spec _ _ _ _ Hw Hty) as ([Hw1 _ Hu1 Hc1 He1] & _).
    apply (IH b n); [|done|lia]. split; [done|by apply Hu1|by rewrite Hc1|by rewrite He1].
Qed.

Lemma running_initial : running 0 initial.
Proof. split; [apply wf_initial|done..]. Qed.

(** The last of the calls of [terminate] destroys the registry. *)
Lemma run_terminate n r :
  r.(ph) = Alive -> r.(refcount) = 1 + Z.of_nat n -> 1 + Z.of_nat n < 2 ^ 63 ->
  exists r', run (replicate (S n) Terminate) r = Ret r' /\ r'.(ph) = Destroyed /\ r'.(types) = [].
Proof.
  revert r. induction n as [|n IH]; intros [p c ts ms ex] Hp Hc Hn; cbn in Hp, Hc; subst; [by eexists|].
  change (replicate (S (S n)) Terminate) with (Terminate :: replicate (S n) Terminate). cbn [run exec].
  unfold terminate, release, alive, get. cbn [ph refcount types made exited]. rewrite outcome_bind_ret_l, u64_small by lia.
  rewrite (proj2 (Z.eqb_neq _ _)), outcome_bind_ret_l by lia. apply IH; cbn; [done|lia|lia].
Qed.

Lemma running_exit n r :
  running n r -> Z.of_nat n < 2 ^ 63 -> r.(ph) <> Unconstructed ->
  exists r', exit r = Ret r' /\ r'.(exited) = true /\
    if decide (n = 0%nat) then r'.(ph) = Destroyed /\ r'.(types) = []
    else r'.(ph) = Alive /\ r'.(refcount) = Z.of_nat n /\ r'.(types) = r.(types) /\ r'.(made) = r.(made).
Proof.
  intros [Hw Hu Hc He] Hn Hp. unfold exit, release, alive.
  unfold count in Hc. destruct (ph r) eqn:E; [done| |done]. rewrite Hc. cbn -[u64 Z.add].
  rewrite u64_small by lia. destruct (decide (n = 0%nat)) as [->|Hne].
  - eexists. split; [done|]. done.
  - rewrite (proj2 (Z.eqb_neq _ _)) by lia. eexists. split; [done|]. cbn. split_and!; try done. lia.
Qed.
End Registry.
End Registry.

Module RegistryProps.
Import Registry.
Section Props.
Context (struct_name : string -> string).

(** C33. A [TypeInfo*] identifies its type: whatever a program does before and in
    between, [TypeOf<A>::type()] and a later [TypeOf<B>::type()] give the same pointer
    exactly when [A] and [B] are the same type. *)
Theorem typeinfo_identity os os' a b p q r r1 r2 r3 :
  run struct_name os initial = Ret r -> type_of struct_name a r = Ret (p, r1) ->
  run struct_name os' r1 = Ret r2 -> type_of struct_name b r2 = Ret (q, r3) ->
  p = q <-> a = b.
Proof.
  intros H0 Ha H1 Hb. destruct (run_wf _ _ _ _ (wf_initial _) H0) as [Hw _].
  destruct (type_of_spec _ _ _ _ _ Hw Ha) as ([Hw1 _ _ _ _] & Hp & _).
  destruct (run_wf _ _ _ _ Hw1 H1) as [Hw2 Hx]. destruct (type_of_spec _ _ _ _ _ Hw2 Hb) as ([Hw3 Hx3 _ _ _] & Hq & _).
  apply (points_to_inj r3); [by apply (wf_made struct_name)| |done].
  eapply points_to_extends; [exact Hx3|]. by eapply points_to_extends.
Qed.

(** C34. The registry lives as long as it is referenced: a program that keeps what
    [dap.h] asks for ([terminate] at most as often as [initialize] at every point, and no
    [initialize] after a [terminate]) runs without undefined behaviour, and every type it
    asks for has the name of the type. At its end the type objects of structs, which are
    function-local statics, are destroyed in any case; the registry and the objects it
    owns (basic types, arrays, optionals, variants) are destroyed if every [initialize]
    was matched; otherwise they stay as they are, and the last of the missing calls of
    [terminate] destroys them. *)
Theorem registry_lifetime os n :
  held false 0 os = Some n -> Z.of_nat (length os) < 2 ^ 63 ->
  exists r, run struct_name os initial = Ret r /\
    (forall u, exists p r', type_of struct_name u r = Ret (p, r') /\
      name struct_name p r' = Ret (type_name struct_name u)) /\
    (r.(ph) <> Unconstructed -> exists r', exit r = Ret r' /\
      (forall s, name struct_name (Struct s) r' = Undefined) /\
      if decide (n = 0%nat) then r'.(ph) = Destroyed /\ r'.(types) = []
      else (forall p u, points_to r p u -> (forall s, u <> TStruct s) ->
             name struct_name p r' = Ret (type_name struct_name u)) /\
           exists r'', run struct_name (replicate n Terminate) r' = Ret r'' /\ r''.(ph) = Destroyed /\ r''.(types) = []).
Proof.
  intros Hh Hl. destruct (running_run struct_name false os 0 initial n (running_initial _) Hh Hl) as (r & Hr & Hru).
  exists r. split_and!; [done| |].
  - intros u. destruct Hru as [Hw Hu _ He]. destruct (type_of_total struct_name u r Hw Hu He) as (p & r' & Ht).
    exists p, r'. split; [done|]. destruct (type_of_spec _ _ _ _ _ Hw Ht) as ([Hw' _ Hu' _ He'] & Hp & _).
    apply name_spec; [done|by apply Hu'|by rewrite He'|done].
  - intros Hp. pose proof (held_bound _ _ _ _ Hh) as Hb.
    destruct (running_exit struct_name n r Hru ltac:(lia) Hp) as (r' & He & Hx & Hd). exists r'. split; [done|].
    split; [intros s; cbn; by rewrite Hx|]. case_decide as En; [done|]. destruct Hd as (Ha & Hc & Ht & Hm). split.
    + intros p u Hpt Hs. rewrite <-(name_spec struct_name r p u); [|apply Hru|apply Hru|apply Hru|done].
      destruct p as [b|i|s]; [|cbn; by rewrite Ht|by destruct u; try done; destruct (Hs name0)].
      cbn. unfold alive. rewrite Ha. destruct Hru as [_ Hu _ _]. unfold usable in Hu. by destruct (ph r).
    + destruct n as [|n]; [done|]. apply run_terminate; [done|lia|lia].
Qed.

(** A reference does not keep the type object of a struct: after [initialize()]
    and the end of the program the registry and the type of an array of the struct
    are there, and the type of the struct itself is gone. *)
Theorem struct_typeinfo_not_kept s :
  exists r p, run struct_name [Initialize; TypeOf (TArray (TStruct s)); Exit] initial = Ret r /\
    r.(ph) = Alive /\ type_of struct_name (TArray (TStruct s)) r = Ret (p, r) /\
    name struct_name p r = Ret ("array<" +:+ struct_name s +:+ ">") /\
    type_of struct_name (TStruct s) r = Ret (Struct s, r) /\ name struct_name (Struct s) r = Undefined.
Proof.
  exists (mk Alive 1 ["array<" +:+ struct_name s +:+ ">"] [TArray (TStruct s)] true), (Created 0).
  split_and!; try done. cbn [type_of]. unfold static_of. cbn [made list_find]. by rewrite decide_True.
Qed.
End Props.

Lemma typeinfo_identity_witness :
  Created 0 = Created 1 <-> TArray TString = TOptional TInteger.
Proof.
  apply (typeinfo_identity (fun s => s) [Initialize] [Terminate; TypeOf TAny] (TArray TString) (TOptional TInteger)
    _ _ (mk Alive 2 [] [] false) (mk Alive 2 ["array<string>"] [TArray TString] false)
    (mk Alive 1 ["array<string>"] [TArray TString] false)
    (mk Alive 1 ["array<string>"; "optional<integer>"] [TArray TString; TOptional TInteger] false)); reflexivity.
Defined.

Lemma registry_lifetime_witness :
  exists r, run (fun s => s) [Initialize; Initialize; TypeOf (TArray TString); Terminate] initial = Ret r /\
    exists r', exit r = Ret r' /\ exists r'', run (fun s => s) [Terminate] r' = Ret r'' /\ r''.(ph) = Destroyed /\ r''.(types) = [].
Proof.
  destruct (registry_lifetime (fun s => s) [Initialize; Initialize; TypeOf (TArray TString); Terminate] 1 eq_refl
    ltac:(reflexivity)) as (r & Hr & _ & He).
  exists r. split; [exact Hr|]. destruct He as (r' & He & _ & Hd); [cbn in Hr; injection Hr as <-; discriminate|].
  exists r'. split; [exact He|]. exact (proj2 Hd).
Defined.
End RegistryProps.
