(* ===== verification/AnyStorage.v ===== *)
(** * The storage of [any]

    Models [include/dap/any.h] down to its addresses: an [any] is an object of 56
    bytes (the pointers [value], [type] and [heap], then [buffer]), its contained
    object is constructed in the buffer when it fits there and otherwise in a block
    of the heap. The memory records which storage is live, the fields of every
    [any] and the objects that are constructed; each use of it that the language
    leaves undefined (a read of an object that is gone, a construction outside live
    storage, a [delete[]] of what is no block) is [UB], and so is a failed [assert].

    Parameters: [sizeof] and [alignof] (the layout the compiler chose) and [malloc]
    (what [operator new[]] returns for the live storage and a size). The contained
    objects are whole values: what storage they own themselves is not modelled, and
    neither is a source of an assignment that lies inside the [any] assigned to. *)
From Stdlib Require Import ZArith Lia.
From stdpp Require Import base gmap fin_maps strings.
From S2P Require Import Prelude SMap Types.

(** ** Results: [NoMemory] is an exception of [operator new[]]. *)
Inductive result (A : Type) := Ok (a : A) | NoMemory | UB.
Arguments Ok {A} a.
Arguments NoMemory {A}.
Arguments UB {A}.

#[global] Instance result_bind : MBind result := fun A B f r =>
  match r with Ok a => f a | NoMemory => NoMemory | UB => UB end.

Module AnyStorage.

(** ** Memory: [any] objects by address, live storage (base and size), objects. *)
Record any := Any { any_value : Z; any_type : option ty; any_heap : Z }.

Record mem := Mem {
  anys : gmap Z any;
  live : gmap Z Z;
  objs : gmap Z (ty * value)
}.

Definition null_any : any := Any 0 None 0.

Definition buffer_offset : Z := 24.
Definition buffer_size : Z := 32.
Definition any_size : Z := 56.
Definition buffer (this : Z) : Z := this + buffer_offset.

Definition any_at (this : Z) (m : mem) : result any :=
  match anys m !! this with Some o => Ok o | None => UB end.

Definition set_any (this : Z) (o : any) (m : mem) : mem :=
  Mem (<[this := o]> (anys m)) (live m) (objs m).

Definition assert (b : bool) : result () := if b then Ok () else UB.

Section Storage.
Context (sizeof alignof : ty -> Z) (malloc : gmap Z Z -> Z -> option Z).

(** Objects that do not meet [[p, p + n)]: the others end when it is reused or freed. *)
Definition outside (p n : Z) (kv : Z * (ty * value)) : Prop :=
  kv.1 + sizeof kv.2.1 <= p \/ p + n <= kv.1.

#[export] Instance outside_dec p n kv : Decision (outside p n kv).
Proof. unfold outside. apply _. Defined.

Definition drop_range (p n : Z) (m : mem) : mem :=
  Mem (anys m) (live m) (filter (outside p n) (objs m)).

(** Whether [[p, p + n)] lies in one piece of live storage. *)
Definition in_live (p n : Z) (m : mem) : bool :=
  existsb (fun r => (r.1 <=? p) && (p + n <=? r.1 + r.2)) (map_to_list (live m)).

(** [new (dst) T(v)]: the object at [dst], which must be storage for it. *)
Definition construct_at (t : ty) (dst : Z) (v : value) (m : mem) : result mem :=
  if in_live dst (sizeof t) m && (dst mod alignof t =? 0)
  then let m := drop_range dst (sizeof t) m in
       Ok (Mem (anys m) (live m) (<[dst := (t, v)]> (objs m)))
  else UB.

(** Reading the object of type [T] at an address. *)
Definition read_at (t : ty) (src : Z) (m : mem) : result value :=
  match objs m !! src with
  | Some (t', v) => if bool_decide (t' = t) then Ok v else UB
  | None => UB
  end.

(** [TypeInfo::copyConstruct] and [TypeInfo::destruct] *)
Definition copyConstruct (t : ty) (dst src : Z) (m : mem) : result mem :=
  v ← read_at t src m; construct_at t dst v m.

Definition destruct (t : ty) (ptr : Z) (m : mem) : result mem :=
  _ ← read_at t ptr m; Ok (Mem (anys m) (live m) (delete ptr (objs m))).

(** [T::operator=] on the object at [ptr] *)
Definition assign_at (t : ty) (ptr : Z) (v : value) (m : mem) : result mem :=
  _ ← read_at t ptr m; Ok (Mem (anys m) (live m) (<[ptr := (t, v)]> (objs m))).

(** [new uint8_t[n]] and [delete[]] *)
Definition new_block (n : Z) (m : mem) : result (Z * mem) :=
  match malloc (live m) n with
  | Some p => Ok (p, Mem (anys m) (<[p := n]> (live m)) (objs m))
  | None => NoMemory
  end.

Definition delete_block (p : Z) (m : mem) : result mem :=
  match live m !! p, anys m !! p with
  | Some n, None =>
    let m := drop_range p n m in Ok (Mem (anys m) (delete p (live m)) (objs m))
  | _, _ => UB
  end.

(** ** The private members *)
Definition alignUp (val alignment : Z) : Z :=
  u64 (alignment * (u64 (u64 (val + alignment) - 1) / alignment)).

Definition isInBuffer (this ptr : Z) : bool :=
  (buffer this <=? ptr) && (ptr <? u64 (buffer this + buffer_size)).

Definition alloc (this size align : Z) (m : mem) : result mem :=
  o ← any_at this m;
  _ ← assert (any_value o =? 0);
  let value := alignUp (buffer this) align in
  let m := set_any this (Any value (any_type o) (any_heap o)) m in
  if isInBuffer this (u64 (value + size - 1)) then Ok m
  else
    '(heap, m) ← new_block (u64 (size + align)) m;
    Ok (set_any this (Any (alignUp heap align) (any_type o) heap) m).

Definition free (this : Z) (m : mem) : result mem :=
  o ← any_at this m;
  _ ← assert (negb (any_value o =? 0));
  m ← (if negb (any_heap o =? 0)
       then m ← delete_block (any_heap o) m;
            Ok (set_any this (Any (any_value o) (any_type o) 0) m)
       else Ok m);
  o ← any_at this m;
  Ok (set_any this (Any 0 (any_type o) (any_heap o)) m).

(** [type->...] of a null [type] is undefined. *)
Definition type_of (o : any) : result ty :=
  match any_type o with Some t => Ok t | None => UB end.

(** ** The operations *)
Definition reset (this : Z) (m : mem) : result mem :=
  o ← any_at this m;
  m ← (if negb (any_value o =? 0)
       then t ← type_of o;
            m ← destruct t (any_value o) m;
            free this m
       else Ok m);
  o ← any_at this m;
  Ok (set_any this (Any 0 None (any_heap o)) m).

(** [alloc(type->size(), type->alignment()); type->copyConstruct(value, src)] *)
Definition alloc_copy (this src : Z) (m : mem) : result mem :=
  o ← any_at this m;
  t ← type_of o;
  m ← alloc this (sizeof t) (alignof t) m;
  o ← any_at this m;
  copyConstruct t (any_value o) src m.

Definition set_type (this : Z) (t : option ty) (m : mem) : result mem :=
  o ← any_at this m; Ok (set_any this (Any (any_value o) t (any_heap o)) m).

(** The body shared by the copy constructor and the copy assignment. *)
Definition copy_from (this rhs : Z) (m : mem) : result mem :=
  o ← any_at rhs m;
  m ← set_type this (any_type o) m;
  o ← any_at rhs m;
  if negb (any_value o =? 0) then alloc_copy this (any_value o) m else Ok m.

(** The body shared by the move constructor and the move assignment. *)
Definition move_from (this rhs : Z) (m : mem) : result mem :=
  o ← any_at rhs m;
  m ← set_type this (any_type o) m;
  o ← any_at rhs m;
  m ← (if isInBuffer rhs (any_value o)
       then alloc_copy this (any_value o) m
       else l ← any_at this m;
            Ok (set_any this (Any (any_value o) (any_type l) (any_heap l)) m));
  o ← any_at rhs m;
  Ok (set_any rhs (Any 0 None (any_heap o)) m).

Definition copy_assign (this rhs : Z) (m : mem) : result mem :=
  m ← reset this m; copy_from this rhs m.

Definition move_assign (this rhs : Z) (m : mem) : result mem :=
  m ← reset this m; move_from this rhs m.

(** [is<T>] and [get<T>] *)
Definition is_type (this : Z) (t : ty) (m : mem) : result bool :=
  o ← any_at this m;
  Ok (if bool_decide (t = TNull) then any_value o =? 0 else bool_decide (any_type o = Some t)).

Definition get (this : Z) (t : ty) (m : mem) : result value :=
  b ← is_type this t m;
  _ ← assert b;
  o ← any_at this m;
  read_at t (any_value o) m.

(** [operator=(const T&)]; for [nullptr_t] the overload that resets. *)
Definition assign (this : Z) (t : ty) (v : value) (m : mem) : result mem :=
  if bool_decide (t = TNull) then reset this m
  else
    b ← is_type this t m;
    if negb b then
      m ← reset this m;
      m ← set_type this (Some t) m;
      m ← alloc this (sizeof t) (alignof t) m;
      o ← any_at this m;
      construct_at t (any_value o) v m
    else
      o ← any_at this m;
      assign_at t (any_value o) v m.

(** Constructors and the destructor: the storage of the [any] itself begins and
    ends with them. *)
Definition default_construct (this : Z) (m : mem) : result mem :=
  Ok (Mem (<[this := null_any]> (anys m)) (<[this := any_size]> (live m)) (objs m)).

Definition construct_from (this : Z) (t : ty) (v : value) (m : mem) : result mem :=
  m ← default_construct this m; assign this t v m.

Definition copy_construct (this other : Z) (m : mem) : result mem :=
  m ← default_construct this m; copy_from this other m.

Definition move_construct (this other : Z) (m : mem) : result mem :=
  m ← default_construct this m; move_from this other m.

Definition destroy (this : Z) (m : mem) : result mem :=
  m ← reset this m;
  let m := drop_range this any_size m in
  Ok (Mem (delete this (anys m)) (delete this (live m)) (objs m)).

(** ** Programs over [any] objects *)
Inductive op :=
| Default (this : Z)
| From (this : Z) (t : ty) (v : value)
| CopyConstruct (this other : Z)
| MoveConstruct (this other : Z)
| Reset (this : Z)
| CopyAssign (this rhs : Z)
| MoveAssign (this rhs : Z)
| Assign (this : Z) (t : ty) (v : value)
| Destroy (this : Z).

Definition step (o : op) : mem -> result mem :=
  match o with
  | Default a => default_construct a
  | From a t v => construct_from a t v
  | CopyConstruct a b => copy_construct a b
  | MoveConstruct a b => move_construct a b
  | Reset a => reset a
  | CopyAssign a b => copy_assign a b
  | MoveAssign a b => move_assign a b
  | Assign a t v => assign a t v
  | Destroy a => destroy a
  end.

Fixpoint run (os : list op) (m : mem) : result mem :=
  match os with
  | [] => Ok m
  | o :: os => m ← step o m; run os m
  end.

End Storage.

Definition empty_mem : mem := Mem ∅ ∅ ∅.
End AnyStorage.

Module AnyStorageProps.
Import AnyStorage.

(** The highest address of user storage, exclusive. *)
Definition addr_max : Z := 2 ^ 63.

(** What the compiler and the allocator promise: sizes and alignments are positive
    and far below the address space; a new block is not null and meets no live
    storage. *)
Class Platform (sizeof alignof : ty -> Z) (malloc : gmap Z Z -> Z -> option Z) : Prop := {
  sizeof_pos t : 0 < sizeof t;
  alignof_pos t : 0 < alignof t;
  layout_small t : sizeof t + alignof t <= 2 ^ 62;
  malloc_fresh l n p : 0 < n -> malloc l n = Some p ->
    0 < p /\ p + n <= addr_max /\
    forall q k, l !! q = Some k -> p + n <= q \/ q + k <= p
}.

Section Props.
Context {sizeof alignof : ty -> Z} {malloc : gmap Z Z -> Z -> option Z}.
Context {PL : Platform sizeof alignof malloc}.
#[local] Set Default Proof Using "PL".

(** ** The invariant

    [slot m a o c]: the fields [o] of the [any] at [a] hold [c]. *)
Inductive slot (m : mem) (a : Z) : any -> option (ty * value) -> Prop :=
| slot_null : slot m a null_any None
| slot_buffer t v :
    alignUp (buffer a) (alignof t) + sizeof t <= a + any_size ->
    objs m !! alignUp (buffer a) (alignof t) = Some (t, v) ->
    slot m a (Any (alignUp (buffer a) (alignof t)) (Some t) 0) (Some (t, v))
| slot_heap t v h :
    0 < h -> live m !! h = Some (sizeof t + alignof t) -> anys m !! h = None ->
    objs m !! alignUp h (alignof t) = Some (t, v) ->
    slot m a (Any (alignUp h (alignof t)) (Some t) h) (Some (t, v)).

Definition apart (p n q k : Z) : Prop := p + n <= q \/ q + k <= p.

(** No storage overlaps, no block has two owners, and nothing is lost: every block
    belongs to an [any] and every object is the content of one. *)
Record wf (m : mem) : Prop := {
  wf_slot a o : anys m !! a = Some o -> exists c, slot m a o c;
  wf_any a o : anys m !! a = Some o -> live m !! a = Some any_size;
  wf_live p n : live m !! p = Some n -> 0 < p /\ 0 < n /\ p + n <= addr_max;
  wf_apart p n q k : p <> q -> live m !! p = Some n -> live m !! q = Some k -> apart p n q k;
  wf_owner a b oa ob : anys m !! a = Some oa -> anys m !! b = Some ob ->
    any_heap oa <> 0 -> any_heap oa = any_heap ob -> a = b;
  wf_block p n : live m !! p = Some n -> anys m !! p = None ->
    exists a o, anys m !! a = Some o /\ any_heap o = p;
  wf_obj p t v : objs m !! p = Some (t, v) ->
    exists a o, anys m !! a = Some o /\ any_value o = p /\ slot m a o (Some (t, v))
}.

(** What the [any] objects hold. *)
Definition contents (m : mem) : gmap Z (option (ty * value)) :=
  (fun o => if any_value o =? 0 then None else objs m !! any_value o) <$> anys m.

(** ** Alignment *)
Lemma alignUp_spec p al : 0 < al -> 0 <= p -> p + al <= 2 ^ 64 - 1 ->
  p <= alignUp p al < p + al /\ alignUp p al mod al = 0.
Proof.
  intros Hal Hp Hb. unfold alignUp, u64.
  rewrite (Z.mod_small (p + al)), (Z.mod_small (p + al - 1)) by lia.
  pose proof (Z.div_mod (p + al - 1) al ltac:(lia)) as E.
  pose proof (Z.mod_pos_bound (p + al - 1) al Hal).
  rewrite Z.mod_small by lia. split; [lia|].
  rewrite Z.mul_comm. apply Z.mod_mul. lia.
Qed.

Lemma alignUp_layout t p : 0 <= p <= addr_max ->
  p <= alignUp p (alignof t) < p + alignof t /\ alignUp p (alignof t) mod alignof t = 0.
Proof.
  intros Hp. pose proof (sizeof_pos t). pose proof (alignof_pos t). pose proof (layout_small t).
  unfold addr_max in *. apply alignUp_spec; lia.
Qed.

(** ** Where a content lies *)
Definition owner (a : Z) (o : any) : Z := if any_heap o =? 0 then a else any_heap o.

Lemma slot_fun m a o c c' : slot m a o c -> slot m a o c' -> c = c'.
Proof. intros S1 S2. destruct S1; inversion S2; subst; simplify_eq; congruence. Qed.

Lemma slot_content m a o t v : slot m a o (Some (t, v)) ->
  any_type o = Some t /\ objs m !! any_value o = Some (t, v).
Proof. by inversion 1. Qed.

Lemma slot_range m a o t v : wf m -> anys m !! a = Some o -> slot m a o (Some (t, v)) ->
  exists n, live m !! owner a o = Some n /\ owner a o <= any_value o /\
    any_value o + sizeof t <= owner a o + n /\ 0 < any_value o.
Proof.
  intros W Ha Hs. pose proof (wf_any m W _ _ Ha) as Hl.
  destruct (wf_live m W _ _ Hl) as (? & ? & ?).
  unfold owner. inversion Hs as [|? ? Hfit Hobj|? ? h ? Hh ? Hobj]; subst; cbn.
  - exists any_size. split; [done|]. unfold buffer, buffer_offset, any_size in *.
    destruct (alignUp_layout t (a + 24)); lia.
  - destruct (wf_live m W _ _ Hh) as (? & ? & ?). destruct (alignUp_layout t h); [lia|].
    destruct (Z.eqb_spec h 0); [lia|]. eexists. split; [done|]. lia.
Qed.

Lemma owner_inj m a b oa ob : wf m -> anys m !! a = Some oa -> anys m !! b = Some ob ->
  a <> b -> owner a oa <> owner b ob.
Proof.
  intros W Ha Hb Hne. unfold owner.
  destruct (wf_slot m W _ _ Ha) as [ca Sa], (wf_slot m W _ _ Hb) as [cb Sb].
  assert (Hheap : forall x o c, slot m x o c -> any_heap o <> 0 -> anys m !! any_heap o = None)
    by (intros x o c []; cbn; done).
  destruct (Z.eqb_spec (any_heap oa) 0), (Z.eqb_spec (any_heap ob) 0); [done| | |].
  - intros ->. pose proof (Hheap _ _ _ Sb ltac:(done)). congruence.
  - intros E. pose proof (Hheap _ _ _ Sa ltac:(done)). congruence.
  - intros E. apply Hne. by eapply (wf_owner m W).
Qed.

(** The objects of other [any]s lie outside any range of a region they do not own. *)
Lemma others_outside m w n p k t v q :
  wf m -> live m !! w = Some n -> w <= p -> p + k <= w + n ->
  objs m !! q = Some (t, v) ->
  (forall a o, anys m !! a = Some o -> any_value o = q -> slot m a o (Some (t, v)) -> owner a o <> w) ->
  outside sizeof p k (q, (t, v)).
Proof.
  intros W Hw Hp Hk Hq Hne. destruct (wf_obj m W _ _ _ Hq) as (a & o & Ha & Hv & Hs).
  destruct (slot_range _ _ _ _ _ W Ha Hs) as (n' & Hl & ? & ? & ?).
  destruct (wf_apart m W _ _ _ _ (Hne _ _ Ha Hv Hs) Hl Hw); unfold outside; cbn; lia.
Qed.

Lemma drop_range_id p k m :
  (forall q tv, objs m !! q = Some tv -> outside sizeof p k (q, tv)) -> drop_range sizeof p k m = m.
Proof.
  intros H. unfold drop_range. rewrite map_filter_id; [by destruct m|]. intros q tv E. by apply H.
Qed.

Lemma in_live_spec p n m w k : live m !! w = Some k -> w <= p -> p + n <= w + k -> in_live p n m = true.
Proof.
  intros Hw ? ?. unfold in_live. apply existsb_exists. exists (w, k). split.
  - apply list_elem_of_In. by apply elem_of_map_to_list.
  - cbn. apply andb_true_iff. split; apply Z.leb_le; lia.
Qed.

(** ** Reset *)
Definition cleared (a : Z) (o : any) (m : mem) : mem :=
  Mem (<[a := null_any]> (anys m)) (delete (any_heap o) (live m)) (delete (any_value o) (objs m)).

Lemma no_live_null m : wf m -> live m !! 0 = None.
Proof. intros W. destruct (live m !! 0) eqn:E; [|done]. apply (wf_live m W) in E. lia. Qed.

Lemma no_obj_null m : wf m -> objs m !! 0 = None.
Proof.
  intros W. destruct (objs m !! 0) as [[t v]|] eqn:E; [|done].
  destruct (wf_obj m W _ _ _ E) as (a & o & Ha & Hv & Hs).
  destruct (slot_range _ _ _ _ _ W Ha Hs) as (n & _ & _ & _ & ?). lia.
Qed.

Lemma slot_some m a o c : slot m a o c -> any_value o <> 0 ->
  exists t v, c = Some (t, v) /\ objs m !! any_value o = Some (t, v).
Proof. intros [|t v ? ?|t v h ? ? ? ?] Hv; cbn in *; [done|eauto|eauto]. Qed.

(** Two [any]s do not share their content, and no [any] lies in a block. *)
Lemma value_ne m a b oa ob : wf m -> anys m !! a = Some oa -> anys m !! b = Some ob ->
  a <> b -> any_value ob <> 0 -> any_value oa <> any_value ob.
Proof.
  intros W Ha Hb Hne Hnz E.
  destruct (wf_slot m W _ _ Ha) as [ca Sa], (wf_slot m W _ _ Hb) as [cb Sb].
  destruct (slot_some _ _ _ _ Sa) as (t & v & -> & Ho); [congruence|].
  destruct (slot_some _ _ _ _ Sb Hnz) as (t' & v' & -> & Ho').
  destruct (slot_range _ _ _ _ _ W Ha Sa) as (n & Hn & ? & ? & ?).
  destruct (slot_range _ _ _ _ _ W Hb Sb) as (k & Hk & ? & ? & ?).
  pose proof (sizeof_pos t). pose proof (sizeof_pos t').
  destruct (wf_apart m W _ _ _ _ (owner_inj _ _ _ _ _ W Ha Hb Hne) Hn Hk); lia.
Qed.

Lemma heap_not_any m a b oa ob : wf m -> anys m !! a = Some oa -> anys m !! b = Some ob ->
  any_heap oa <> b.
Proof.
  intros W Ha Hb. destruct (wf_slot m W _ _ Ha) as [ca Sa].
  destruct (wf_live m W _ _ (wf_any m W _ _ Hb)). destruct Sa; cbn; [lia|lia|congruence].
Qed.

Lemma slot_frame m m' a o c : slot m a o c ->
  (0 < any_heap o -> anys m !! any_heap o = None -> is_Some (live m !! any_heap o) ->
     anys m' !! any_heap o = None /\ live m' !! any_heap o = live m !! any_heap o) ->
  (is_Some (objs m !! any_value o) ->
     objs m' !! any_value o = objs m !! any_value o) ->
  slot m' a o c.
Proof.
  intros Hs Hh Ho. destruct Hs; cbn in *; constructor; try done.
  - rewrite Ho; eauto.
  - destruct Hh as [_ ->]; eauto.
  - apply Hh; eauto.
  - rewrite Ho; eauto.
Qed.

Lemma delete_block_spec m h n m0 : live m !! h = Some n -> anys m !! h = None ->
  (forall q tv, objs m !! q = Some tv -> outside sizeof h n (q, tv)) ->
  m0 = Mem (anys m) (delete h (live m)) (objs m) -> delete_block sizeof h m = Ok m0.
Proof. intros Hl Ha Ho ->. unfold delete_block. rewrite Hl, Ha, drop_range_id; done. Qed.

Lemma reset_spec m a o : wf m -> anys m !! a = Some o -> reset sizeof a m = Ok (cleared a o m).
Proof.
  intros W Ha. destruct (wf_slot m W _ _ Ha) as [c Hs].
  unfold reset, any_at. rewrite Ha. cbn.
  destruct c as [[t v]|].
  - destruct (slot_content _ _ _ _ _ Hs) as [Ht Ho].
    destruct (slot_range _ _ _ _ _ W Ha Hs) as (n & Hn & ? & ? & ?).
    rewrite (proj2 (Z.eqb_neq (any_value o) 0)) by lia. cbn. unfold type_of. rewrite Ht. cbn.
    unfold destruct, read_at. rewrite Ho, bool_decide_eq_true_2 by done. cbn.
    unfold free, any_at. cbn. rewrite Ha. cbn. rewrite (proj2 (Z.eqb_neq (any_value o) 0)) by lia. cbn.
    destruct (Z.eqb_spec (any_heap o) 0) as [E|E]; cbn.
    + rewrite Ha. cbn. rewrite lookup_insert_eq. cbn. unfold cleared, set_any. cbn.
      rewrite insert_insert_eq, E, (delete_id (live m)) by by apply no_live_null. done.
    + assert (Hh : owner a o = any_heap o) by (unfold owner; by rewrite (proj2 (Z.eqb_neq _ _))).
      rewrite Hh in *. inversion Hs; subst; [done|]. cbn in *.
      erewrite delete_block_spec; [|done|done| |reflexivity].
      * cbn. rewrite !lookup_insert_eq. cbn. rewrite lookup_insert_eq. cbn.
        unfold cleared, set_any. cbn. by rewrite !insert_insert_eq.
      * cbn. intros q [t' v'] [Hq Hobj]%lookup_delete_Some.
        eapply others_outside; [done|done|lia|lia|done|].
        intros b ob Hb Hv Sb Heq. destruct (decide (a = b)) as [<-|Hne].
        -- rewrite Ha in Hb. injection Hb as <-. cbn in Hv. congruence.
        -- apply (owner_inj _ _ _ _ _ W Ha Hb Hne). unfold owner at 1. cbn.
           rewrite (proj2 (Z.eqb_neq _ _)) by done. done.
  - inversion Hs; subst. cbn. rewrite Ha. cbn. unfold cleared, set_any. cbn.
    rewrite !delete_id; [done|by apply no_obj_null|by apply no_live_null].
Qed.

Lemma slot_cleared m a o b ob c : wf m -> anys m !! a = Some o -> anys m !! b = Some ob ->
  a <> b -> slot m b ob c -> slot (cleared a o m) b ob c.
Proof.
  intros W Ha Hb Hne Hs. apply (slot_frame m); [done| |].
  - intros Hpos Hnone _. cbn. rewrite lookup_insert_ne by congruence. split; [done|].
    apply lookup_delete_ne. intros E. apply Hne. apply (wf_owner m W a b o ob); congruence || lia.
  - intros [tv Hv]. cbn. apply lookup_delete_ne. eapply value_ne; [done..|].
    intros E. rewrite E, no_obj_null in Hv; done.
Qed.

Lemma wf_cleared m a o : wf m -> anys m !! a = Some o -> wf (cleared a o m).
Proof.
  intros W Ha. split; cbn.
  - intros b ob [[<- <-]|[Hne Hb]]%lookup_insert_Some; [eexists; constructor|].
    destruct (wf_slot m W _ _ Hb) as [c Hs]. exists c. by apply slot_cleared.
  - intros b ob Hb. assert (exists ob', anys m !! b = Some ob') as [ob' Hb'].
    { apply lookup_insert_Some in Hb as [[<- _]|[_ Hb]]; eauto. }
    rewrite lookup_delete_ne by by eapply heap_not_any. by eapply wf_any.
  - intros p n [_ Hp]%lookup_delete_Some. by eapply wf_live.
  - intros p n q k Hne [_ Hp]%lookup_delete_Some [_ Hq]%lookup_delete_Some. by eapply wf_apart.
  - intros b d ob od [[<- <-]|[? Hb]]%lookup_insert_Some [[<- <-]|[? Hd]]%lookup_insert_Some;
      cbn; try done. by eapply wf_owner.
  - intros p n [Hh Hp]%lookup_delete_Some [Hn Hne]%lookup_insert_None.
    destruct (wf_block m W _ _ Hp Hn) as (b & ob & Hb & E). exists b, ob.
    split; [|done]. rewrite lookup_insert_ne; [done|]. congruence.
  - intros p t v [Hv Hp]%lookup_delete_Some.
    destruct (wf_obj m W _ _ _ Hp) as (b & ob & Hb & E & Hs). exists b, ob.
    assert (a <> b) by congruence. rewrite lookup_insert_ne by done.
    split; [done|]. split; [done|]. by apply slot_cleared.
Qed.

Lemma contents_cleared m a o : wf m -> anys m !! a = Some o ->
  contents (cleared a o m) = <[a := None]> (contents m).
Proof.
  intros W Ha. apply map_eq. intros b. unfold contents. cbn.
  destruct (decide (a = b)) as [<-|Hne]; [by rewrite fmap_insert, !lookup_insert_eq|].
  rewrite lookup_fmap, !lookup_insert_ne, lookup_fmap by done.
  destruct (anys m !! b) as [ob|] eqn:Hb; [|done]. cbn. f_equal.
  destruct (Z.eqb_spec (any_value ob) 0); [done|]. apply lookup_delete_ne. by eapply value_ne.
Qed.

(** ** Allocation and construction

    [placed m a t p h]: [alloc] may put an object of type [t] at [p], in the buffer
    of [a] ([h] null) or in the new block [h]. *)
Inductive placed (m : mem) (a : Z) (t : ty) : Z -> Z -> Prop :=
| placed_buffer : alignUp (buffer a) (alignof t) + sizeof t <= a + any_size ->
    placed m a t (alignUp (buffer a) (alignof t)) 0
| placed_heap h : 0 < h -> h + (sizeof t + alignof t) <= addr_max ->
    (forall q k, live m !! q = Some k -> apart h (sizeof t + alignof t) q k) ->
    placed m a t (alignUp h (alignof t)) h.

Definition live_with (t : ty) (h : Z) (l : gmap Z Z) : gmap Z Z :=
  if h =? 0 then l else <[h := sizeof t + alignof t]> l.

Definition filled (a : Z) (t : ty) (v : value) (p h : Z) (m : mem) : mem :=
  Mem (<[a := Any p (Some t) h]> (anys m)) (live_with t h (live m)) (<[p := (t, v)]> (objs m)).

Lemma alloc_spec m a t m1 : wf m -> anys m !! a = Some null_any ->
  m1 = set_any a (Any 0 (Some t) 0) m ->
  alloc malloc a (sizeof t) (alignof t) m1 = NoMemory \/
  exists p h, placed m a t p h /\
    alloc malloc a (sizeof t) (alignof t) m1 =
      Ok (Mem (<[a := Any p (Some t) h]> (anys m)) (live_with t h (live m)) (objs m)).
Proof.
  intros W Ha ->. unfold alloc, any_at. cbn. rewrite lookup_insert_eq. cbn.
  pose proof (sizeof_pos t). pose proof (alignof_pos t). pose proof (layout_small t).
  destruct (wf_live m W _ _ (wf_any m W _ _ Ha)) as (? & _ & ?).
  unfold isInBuffer, buffer, buffer_offset, buffer_size, any_size, addr_max in *.
  destruct (alignUp_layout t (a + 24)) as [? _]; [unfold addr_max; lia|].
  rewrite !u64_small by lia.
  destruct (Z.leb_spec (a + 24) (alignUp (a + 24) (alignof t) + sizeof t - 1)); [|lia]. cbn.
  destruct (Z.ltb_spec (alignUp (a + 24) (alignof t) + sizeof t - 1) (a + 24 + 32)).
  - right. eexists _, 0. split; [apply placed_buffer; unfold buffer, buffer_offset, any_size; lia|].
    unfold set_any. cbn. rewrite insert_insert_eq. done.
  - unfold new_block. cbn. destruct (malloc (live m) _) as [h|] eqn:E; [right|by left].
    apply malloc_fresh in E as (? & ? & Hf); [|lia]. unfold addr_max in *.
    eexists _, h. split; [apply placed_heap; [lia|unfold addr_max; lia|exact Hf]|].
    unfold set_any, live_with. cbn. rewrite !insert_insert_eq, (proj2 (Z.eqb_neq h 0)) by lia. done.
Qed.

(** The place of a new object: aligned, in storage that is live after [alloc], and
    away from every other object. *)
Lemma placed_range m a t p h : wf m -> anys m !! a = Some null_any -> placed m a t p h ->
  0 < p /\ p mod alignof t = 0 /\
  exists w n, live_with t h (live m) !! w = Some n /\ w <= p /\ p + sizeof t <= w + n.
Proof.
  intros W Ha Hp. pose proof (wf_any m W _ _ Ha) as Hl. pose proof (sizeof_pos t).
  destruct (wf_live m W _ _ Hl) as (? & _ & ?). unfold any_size in *.
  destruct Hp as [Hfit|h Hpos Hmax _].
  - unfold buffer, buffer_offset in *. destruct (alignUp_layout t (a + 24)); [lia|].
    split; [lia|]. split; [done|]. exists a, 56. split; [done|]. unfold any_size in *. lia.
  - pose proof (alignof_pos t). destruct (alignUp_layout t h); [lia|]. split; [lia|]. split; [done|].
    exists h, (sizeof t + alignof t). unfold live_with.
    rewrite (proj2 (Z.eqb_neq h 0)), lookup_insert_eq by lia. split; [done|]. lia.
Qed.

Lemma placed_outside m a t p h q tv : wf m -> anys m !! a = Some null_any -> placed m a t p h ->
  objs m !! q = Some tv -> outside sizeof p (sizeof t) (q, tv).
Proof.
  intros W Ha Hp Hq. destruct tv as [t' v']. pose proof (wf_any m W _ _ Ha) as Hl.
  destruct (wf_live m W _ _ Hl) as (? & _ & ?).
  destruct Hp as [Hfit|h Hpos Hmax Hf].
  - unfold any_size in *. destruct (alignUp_layout t (buffer a)); [unfold buffer, buffer_offset; lia|].
    unfold buffer, buffer_offset in *.
    eapply others_outside; [done|exact Hl|lia|unfold any_size in *; lia|done|].
    intros b ob Hb Hv Hs E. destruct (decide (a = b)) as [<-|Hne].
    + rewrite Ha in Hb. injection Hb as <-. inversion Hs.
    + apply (owner_inj _ _ _ _ _ W Ha Hb Hne). done.
  - destruct (wf_obj m W _ _ _ Hq) as (b & ob & Hb & <- & Hs).
    destruct (slot_range _ _ _ _ _ W Hb Hs) as (n & Hn & ? & ? & ?).
    pose proof (sizeof_pos t). pose proof (alignof_pos t). destruct (alignUp_layout t h); [lia|].
    destruct (Hf _ _ Hn); unfold outside; cbn; lia.
Qed.

Lemma construct_spec m a t p h v : wf m -> anys m !! a = Some null_any -> placed m a t p h ->
  construct_at sizeof alignof t p v
    (Mem (<[a := Any p (Some t) h]> (anys m)) (live_with t h (live m)) (objs m)) =
  Ok (filled a t v p h m).
Proof.
  intros W Ha Hp. destruct (placed_range _ _ _ _ _ W Ha Hp) as (_ & Hal & w & n & Hw & ? & ?).
  unfold construct_at. erewrite in_live_spec; [|exact Hw|lia|lia].
  rewrite (proj2 (Z.eqb_eq _ _) Hal), drop_range_id; [done|].
  cbn. intros q tv. by eapply placed_outside.
Qed.

Lemma placed_fresh m a t p h : wf m -> anys m !! a = Some null_any -> placed m a t p h ->
  objs m !! p = None.
Proof.
  intros W Ha Hp. destruct (objs m !! p) as [[t' v]|] eqn:E; [|done].
  destruct (placed_outside _ _ _ _ _ _ _ W Ha Hp E); cbn in *;
    pose proof (sizeof_pos t); pose proof (sizeof_pos t'); lia.
Qed.

Lemma placed_heap_fresh m a t p h : wf m -> placed m a t p h -> h <> 0 ->
  live m !! h = None /\ anys m !! h = None.
Proof.
  intros W Hp Hh. assert (Hl : live m !! h = None).
  { destruct Hp as [|h Hpos _ Hf]; [done|]. destruct (live m !! h) as [k|] eqn:E; [|done].
    destruct (wf_live m W _ _ E) as (_ & ? & _).
    destruct (Hf _ _ E); pose proof (sizeof_pos t); pose proof (alignof_pos t); lia. }
  split; [done|]. destruct (anys m !! h) as [o|] eqn:E; [|done].
  apply (wf_any m W) in E. congruence.
Qed.

Lemma live_with_lookup m a t p h q k : placed m a t p h ->
  live_with t h (live m) !! q = Some k ->
  (q = h /\ k = sizeof t + alignof t /\ h <> 0) \/ live m !! q = Some k.
Proof.
  intros Hp. unfold live_with. destruct (Z.eqb_spec h 0); [by right|].
  intros [[<- <-]|[_ ?]]%lookup_insert_Some; [left|right]; done.
Qed.

Lemma live_with_old m a t p h q : wf m -> placed m a t p h -> is_Some (live m !! q) ->
  live_with t h (live m) !! q = live m !! q.
Proof.
  intros W Hp [k Hq]. unfold live_with. destruct (Z.eqb_spec h 0); [done|].
  destruct (placed_heap_fresh _ _ _ _ _ W Hp) as [? _]; [done|].
  apply lookup_insert_ne. congruence.
Qed.

Lemma slot_filled m a t v p h b ob c : wf m -> anys m !! a = Some null_any -> placed m a t p h ->
  anys m !! b = Some ob -> slot m b ob c -> slot (filled a t v p h m) b ob c.
Proof.
  intros W Ha Hp Hb Hs. apply (slot_frame m); [done| |].
  - intros Hpos Hnone Hl. cbn. split; [|by eapply live_with_old].
    rewrite lookup_insert_ne by congruence. done.
  - intros [tv Hv]. cbn. apply lookup_insert_ne. intros ->.
    rewrite (placed_fresh _ _ _ _ _ W Ha Hp) in Hv. done.
Qed.

Lemma slot_new m a t v p h : wf m -> anys m !! a = Some null_any -> placed m a t p h ->
  slot (filled a t v p h m) a (Any p (Some t) h) (Some (t, v)).
Proof.
  intros W Ha Hp. pose proof (placed_heap_fresh _ _ _ _ _ W Hp) as Hf.
  destruct Hp as [Hfit|h Hpos Hmax Hap]; constructor; cbn; try apply lookup_insert_eq; try done.
  - unfold live_with. rewrite (proj2 (Z.eqb_neq h 0)) by lia. apply lookup_insert_eq.
  - destruct Hf as [_ Hf]; [lia|]. rewrite lookup_insert_ne; [done|]. intros ->. congruence.
Qed.

Lemma live_filled m a t p h : wf m -> placed m a t p h -> let l := live_with t h (live m) in
  (forall q k, l !! q = Some k -> 0 < q /\ 0 < k /\ q + k <= addr_max) /\
  (forall q k r j, q <> r -> l !! q = Some k -> l !! r = Some j -> apart q k r j).
Proof.
  intros W Hp l. pose proof (sizeof_pos t). pose proof (alignof_pos t). split.
  - intros q k Hq. destruct (live_with_lookup _ _ _ _ _ _ _ Hp Hq) as [(-> & -> & ?)|Hl].
    + destruct Hp; [done|]. lia.
    + by eapply wf_live.
  - intros q k r j Hne Hq Hr.
    destruct (live_with_lookup _ _ _ _ _ _ _ Hp Hq) as [(-> & -> & ?)|Hl],
      (live_with_lookup _ _ _ _ _ _ _ Hp Hr) as [(-> & -> & ?)|Hl']; [done| | |by eapply wf_apart].
    + destruct Hp as [|? ? ? Hf]; [done|]. by apply Hf.
    + destruct Hp as [|? ? ? Hf]; [done|]. destruct (Hf _ _ Hl); [by right|by left].
Qed.

Lemma heap_live m a o : wf m -> anys m !! a = Some o -> any_heap o <> 0 -> is_Some (live m !! any_heap o).
Proof. intros W Ha. destruct (wf_slot m W _ _ Ha) as [c []]; cbn; [done|done|eauto]. Qed.

Lemma wf_filled m a t v p h : wf m -> anys m !! a = Some null_any -> placed m a t p h ->
  wf (filled a t v p h m).
Proof.
  intros W Ha Hp. destruct (live_filled _ _ _ _ _ W Hp) as [Hl Hap].
  pose proof (placed_heap_fresh _ _ _ _ _ W Hp) as Hf.
  split; cbn; [| |done|done| | |].
  - intros b ob [[<- <-]|[Hne Hb]]%lookup_insert_Some; [eexists; by apply slot_new|].
    destruct (wf_slot m W _ _ Hb) as [c Hs]. exists c. by apply slot_filled.
  - intros b ob Hb. assert (exists ob', anys m !! b = Some ob') as [ob' Hb'].
    { apply lookup_insert_Some in Hb as [[<- _]|[_ Hb]]; eauto. }
    pose proof (wf_any m W _ _ Hb'). erewrite live_with_old; eauto.
  - intros b d ob od [[<- <-]|[? Hb]]%lookup_insert_Some [[<- <-]|[? Hd]]%lookup_insert_Some Hnz E;
      cbn in *; [done| | |by eapply wf_owner].
    + destruct (heap_live _ _ _ W Hd) as [? X]; [congruence|]. rewrite <- E in X.
      destruct Hf; [done|congruence].
    + destruct (heap_live _ _ _ W Hb) as [? X]; [congruence|]. rewrite E in X.
      destruct Hf; [congruence|congruence].
  - intros q k Hq [Hn Hne]%lookup_insert_None.
    destruct (live_with_lookup _ _ _ _ _ _ _ Hp Hq) as [(-> & _ & _)|Hq'].
    + eexists a, _. rewrite lookup_insert_eq. done.
    + destruct (wf_block m W _ _ Hq' Hn) as (b & ob & Hb & E). exists b, ob. split; [|done].
      rewrite lookup_insert_ne; [done|]. intros <-. rewrite Ha in Hb. injection Hb as <-.
      cbn in E. subst q. rewrite no_live_null in Hq'; done.
  - intros q t' v' [[<- [= <- <-]]|[Hne Hq]]%lookup_insert_Some.
    + eexists a, _. rewrite lookup_insert_eq. split; [done|]. split; [done|]. by apply slot_new.
    + destruct (wf_obj m W _ _ _ Hq) as (b & ob & Hb & E & Hs). exists b, ob.
      rewrite lookup_insert_ne; [split; [done|]; split; [done|]; by apply slot_filled|].
      intros <-. rewrite Ha in Hb. injection Hb as <-. inversion Hs.
Qed.

Lemma contents_filled m a t v p h : wf m -> anys m !! a = Some null_any -> placed m a t p h ->
  contents (filled a t v p h m) = <[a := Some (t, v)]> (contents m).
Proof.
  intros W Ha Hp. destruct (placed_range _ _ _ _ _ W Ha Hp) as (Hpos & _).
  apply map_eq. intros b. unfold contents. cbn.
  destruct (decide (a = b)) as [<-|Hne].
  - rewrite fmap_insert, !lookup_insert_eq. cbn.
    by rewrite (proj2 (Z.eqb_neq p 0)) by lia.
  - rewrite lookup_fmap, !lookup_insert_ne, lookup_fmap by done.
    destruct (anys m !! b) as [ob|] eqn:Hb; [|done]. cbn. f_equal.
    destruct (Z.eqb_spec (any_value ob) 0); [done|]. apply lookup_insert_ne. intros ->.
    destruct (wf_slot m W _ _ Hb) as [c Hs].
    destruct (slot_some _ _ _ _ Hs) as (t' & v' & _ & Ho); [done|].
    rewrite (placed_fresh _ _ _ _ _ W Ha Hp) in Ho. done.
Qed.

(** ** What the operations promise

    [made t v]: what an [any] holds after [operator=(const T&)] with [v]. Assigning
    an [any] to itself leaves it null. *)
Abbreviation store := (gmap Z (option (ty * value))) (only parsing).

Definition held (c : store) (a : Z) : option (ty * value) := default None (c !! a).

Definition made (t : ty) (v : value) : option (ty * value) :=
  if bool_decide (t = TNull) then None else Some (t, v).

Definition spec (o : op) (c : store) : store :=
  match o with
  | Default a | Reset a => <[a := None]> c
  | From a t v | Assign a t v => <[a := made t v]> c
  | CopyConstruct a b => <[a := held c b]> c
  | CopyAssign a b => <[a := if bool_decide (a = b) then None else held c b]> c
  | MoveConstruct a b | MoveAssign a b =>
    <[b := None]> (<[a := if bool_decide (a = b) then None else held c b]> c)
  | Destroy a => delete a c
  end.

(** A program names [any] objects that exist, and places new ones in free storage. *)
Definition free_at (a : Z) (m : mem) : Prop :=
  0 < a /\ a + any_size <= addr_max /\ forall q k, live m !! q = Some k -> apart a any_size q k.

Definition free_atb (a : Z) (m : mem) : bool :=
  (0 <? a) && (a + any_size <=? addr_max) &&
  forallb (fun r => (a + any_size <=? r.1) || (r.1 + r.2 <=? a)) (map_to_list (live m)).

Definition exists_at (a : Z) (m : mem) : bool := bool_decide (is_Some (anys m !! a)).

Definition enabled (o : op) (m : mem) : bool :=
  match o with
  | Default a | From a _ _ => free_atb a m
  | CopyConstruct a b | MoveConstruct a b => free_atb a m && exists_at b m
  | CopyAssign a b | MoveAssign a b => exists_at a m && exists_at b m
  | Reset a | Assign a _ _ | Destroy a => exists_at a m
  end.

Definition is_move (o : op) : bool :=
  match o with MoveConstruct _ _ | MoveAssign _ _ => true | _ => false end.

Fixpoint enabled_run (os : list op) (m : mem) : bool :=
  match os with
  | [] => true
  | o :: os => enabled o m &&
      match step sizeof alignof malloc o m with Ok m => enabled_run os m | _ => true end
  end.

Definition copying (os : list op) : bool := forallb (fun o => negb (is_move o)) os.

(** [operator new[]] threw, or the operation returned and the [any]s hold [c]. *)
Definition gives (r : result mem) (c : store) : Prop :=
  r = NoMemory \/ exists m', r = Ok m' /\ wf m' /\ contents m' = c.

Lemma contents_set_any a o m :
  contents (set_any a o m) =
  <[a := if any_value o =? 0 then None else objs m !! any_value o]> (contents m).
Proof. unfold contents. cbn. by rewrite fmap_insert. Qed.

Lemma contents_lookup m a o c : wf m -> anys m !! a = Some o -> slot m a o c ->
  contents m !! a = Some c.
Proof.
  intros W Ha Hs. unfold contents. rewrite lookup_fmap, Ha. cbn. f_equal.
  destruct c as [[t v]|]; [|by inversion Hs].
  destruct (slot_range _ _ _ _ _ W Ha Hs) as (? & _ & _ & _ & ?).
  rewrite (proj2 (Z.eqb_neq _ _)) by lia. by destruct (slot_content _ _ _ _ _ Hs).
Qed.

(** ** Constructors, reset and destructor *)
Lemma reset_gives m a : wf m -> is_Some (anys m !! a) ->
  gives (reset sizeof a m) (<[a := None]> (contents m)).
Proof.
  intros W [o Ha]. right. eexists. split; [by apply reset_spec|].
  split; [by apply wf_cleared|by apply contents_cleared].
Qed.

Lemma free_atb_spec a m : free_atb a m = true -> free_at a m.
Proof.
  unfold free_atb, free_at. rewrite !andb_true_iff, Z.ltb_lt, Z.leb_le, forallb_forall.
  intros [[? ?] Hr]. split; [done|]. split; [done|]. intros q k Hq.
  specialize (Hr (q, k)). cbn in Hr. rewrite orb_true_iff, !Z.leb_le in Hr. apply Hr.
  apply list_elem_of_In. by apply elem_of_map_to_list.
Qed.

Lemma free_fresh a m : wf m -> free_at a m -> live m !! a = None /\ anys m !! a = None.
Proof.
  intros W (? & ? & Hf). assert (Hl : live m !! a = None).
  { destruct (live m !! a) as [k|] eqn:E; [|done]. destruct (wf_live m W _ _ E) as (_ & ? & _).
    destruct (Hf _ _ E); unfold any_size in *; lia. }
  split; [done|]. destruct (anys m !! a) eqn:E; [|done]. apply (wf_any m W) in E. congruence.
Qed.

Definition with_null (a : Z) (m : mem) : mem :=
  Mem (<[a := null_any]> (anys m)) (<[a := any_size]> (live m)) (objs m).

Lemma slot_with_null m a b ob c : wf m -> free_at a m -> slot m b ob c ->
  slot (with_null a m) b ob c.
Proof.
  intros W Hf Hs. destruct (free_fresh _ _ W Hf) as [Hl Ha]. apply (slot_frame m); [done| |done].
  intros Hpos Hnone [k Hk]. assert (a <> any_heap ob) by congruence.
  cbn. by rewrite !lookup_insert_ne by done.
Qed.

Lemma wf_with_null m a : wf m -> free_at a m -> wf (with_null a m).
Proof.
  intros W Hf. destruct (free_fresh _ _ W Hf) as [Hl Ha].
  assert (Hslot := fun b ob c => slot_with_null m a b ob c W Hf).
  destruct Hf as (Hpos & Hmax & Hf). split; cbn.
  - intros b ob [[<- <-]|[Hne Hb]]%lookup_insert_Some; [eexists; constructor|].
    destruct (wf_slot m W _ _ Hb) as [c Hs]. eauto.
  - intros b ob [[<- <-]|[Hne Hb]]%lookup_insert_Some; [apply lookup_insert_eq|].
    rewrite lookup_insert_ne by done. by eapply wf_any.
  - intros p n [[<- <-]|[Hne Hp]]%lookup_insert_Some; [done|]. by eapply wf_live.
  - intros p n q k Hne [[<- <-]|[? Hp]]%lookup_insert_Some [[<- <-]|[? Hq]]%lookup_insert_Some;
      [done|by apply Hf| |by eapply wf_apart].
    destruct (Hf _ _ Hp); [by right|by left].
  - intros b d ob od [[<- <-]|[? Hb]]%lookup_insert_Some [[<- <-]|[? Hd]]%lookup_insert_Some;
      cbn; try done. by eapply wf_owner.
  - intros p n [[<- <-]|[Hne Hp]]%lookup_insert_Some [Hn ?]%lookup_insert_None; [done|].
    destruct (wf_block m W _ _ Hp Hn) as (b & ob & Hb & E). exists b, ob. split; [|done].
    rewrite lookup_insert_ne by congruence. done.
  - intros p t v Hp. destruct (wf_obj m W _ _ _ Hp) as (b & ob & Hb & E & Hs). exists b, ob.
    rewrite lookup_insert_ne by congruence. eauto.
Qed.

Lemma contents_with_null m a : contents (with_null a m) = <[a := None]> (contents m).
Proof. unfold contents. cbn. by rewrite fmap_insert. Qed.

Definition without (a : Z) (m : mem) : mem :=
  Mem (delete a (anys m)) (delete a (live m)) (objs m).

Lemma slot_without m a b ob c : wf m -> is_Some (anys m !! a) -> anys m !! b = Some ob -> slot m b ob c ->
  slot (without a m) b ob c.
Proof.
  intros W [oa Ha] Hb Hs. apply (slot_frame m); [done| |done]. intros Hpos Hnone _. cbn.
  rewrite lookup_delete_ne by congruence. split; [done|]. rewrite lookup_delete_ne; [done|]. congruence.
Qed.

Lemma wf_without m a : wf m -> anys m !! a = Some null_any -> wf (without a m).
Proof.
  intros W Ha. assert (Hsome : is_Some (anys m !! a)) by eauto. split; cbn.
  - intros b ob [Hne Hb]%lookup_delete_Some. destruct (wf_slot m W _ _ Hb) as [c Hs].
    exists c. by apply slot_without.
  - intros b ob [Hne Hb]%lookup_delete_Some. rewrite lookup_delete_ne by done. by eapply wf_any.
  - intros p n [_ Hp]%lookup_delete_Some. by eapply wf_live.
  - intros p n q k Hne [_ Hp]%lookup_delete_Some [_ Hq]%lookup_delete_Some. by eapply wf_apart.
  - intros b d ob od [? Hb]%lookup_delete_Some [? Hd]%lookup_delete_Some. by eapply wf_owner.
  - intros p n [Hne Hp]%lookup_delete_Some Hn. rewrite lookup_delete_ne in Hn by done.
    destruct (wf_block m W _ _ Hp Hn) as (b & ob & Hb & E). exists b, ob. split; [|done].
    rewrite lookup_delete_ne; [done|]. intros <-. rewrite Ha in Hb. injection Hb as <-.
    cbn in E. subst p. rewrite no_live_null in Hp; done.
  - intros p t v Hp. destruct (wf_obj m W _ _ _ Hp) as (b & ob & Hb & E & Hs). exists b, ob.
    rewrite lookup_delete_ne; [split; [done|]; split; [done|]; by apply slot_without|].
    intros <-. rewrite Ha in Hb. injection Hb as <-. inversion Hs.
Qed.

Lemma destroy_gives m a : wf m -> is_Some (anys m !! a) ->
  gives (destroy sizeof a m) (delete a (contents m)).
Proof.
  intros W [o Ha]. right. pose proof (wf_cleared _ _ _ W Ha) as W'.
  unfold destroy. rewrite (reset_spec _ _ _ W Ha). cbn [mbind result_bind].
  assert (Hn : anys (cleared a o m) !! a = Some null_any) by apply lookup_insert_eq.
  rewrite drop_range_id.
  - eexists. split; [done|]. split; [by apply wf_without|].
    unfold contents at 1. cbn. rewrite fmap_delete. fold (contents (cleared a o m)).
    change (delete a (contents (cleared a o m)) = delete a (contents m)).
    rewrite contents_cleared by done. by rewrite delete_insert_eq.
  - intros q [t v] Hq. eapply others_outside; [exact W'|by eapply wf_any|lia|lia|done|].
    intros b ob Hb Hv Hs E. destruct (decide (a = b)) as [<-|Hne].
    + rewrite Hn in Hb. injection Hb as <-. inversion Hs.
    + apply (owner_inj _ _ _ _ _ W' Hn Hb Hne). done.
Qed.

(** ** Assignment and copies *)
Lemma any_at_ok a m o : anys m !! a = Some o -> any_at a m = Ok o.
Proof. intros H. unfold any_at. by rewrite H. Qed.

Lemma fill_gives m a t v : wf m -> anys m !! a = Some null_any ->
  gives (m ← set_type a (Some t) m; m ← alloc malloc a (sizeof t) (alignof t) m;
         o ← any_at a m; construct_at sizeof alignof t (any_value o) v m)
        (<[a := Some (t, v)]> (contents m)).
Proof.
  intros W Ha. unfold set_type. rewrite (any_at_ok _ _ _ Ha). cbn [mbind result_bind any_value any_heap null_any].
  destruct (alloc_spec m a t _ W Ha eq_refl) as [->|(p & h & Hp & ->)]; [by left|]. right.
  cbn [mbind result_bind]. erewrite any_at_ok; [|apply lookup_insert_eq].
  cbn [mbind result_bind any_value]. eexists. split; [by apply construct_spec|].
  split; [by apply wf_filled|by apply contents_filled].
Qed.

Lemma alloc_copy_spec m a t v src : wf m -> anys m !! a = Some null_any -> objs m !! src = Some (t, v) ->
  let r := alloc_copy sizeof alignof malloc a src (set_any a (Any 0 (Some t) 0) m) in
  r = NoMemory \/ exists p h, placed m a t p h /\ r = Ok (filled a t v p h m).
Proof.
  intros W Ha Hsrc r. unfold r, alloc_copy. erewrite any_at_ok; [|apply lookup_insert_eq].
  cbn [mbind result_bind type_of any_type].
  destruct (alloc_spec m a t _ W Ha eq_refl) as [E|(p & h & Hp & E)]; rewrite E; [by left|].
  right. exists p, h. split; [done|]. cbn [mbind result_bind].
  erewrite any_at_ok; [|apply lookup_insert_eq]. cbn [mbind result_bind any_value].
  unfold copyConstruct, read_at. cbn [objs]. rewrite Hsrc, bool_decide_eq_true_2 by done.
  cbn [mbind result_bind]. by apply construct_spec.
Qed.

Lemma copy_from_gives m a b : wf m -> anys m !! a = Some null_any -> is_Some (anys m !! b) ->
  gives (copy_from sizeof alignof malloc a b m) (<[a := held (contents m) b]> (contents m)).
Proof.
  intros W Ha [ob Hb]. destruct (wf_slot m W _ _ Hb) as [c Hs].
  unfold held. rewrite (contents_lookup _ _ _ _ W Hb Hs). cbn [default].
  unfold copy_from. rewrite (any_at_ok _ _ _ Hb). cbn [mbind result_bind].
  unfold set_type. rewrite (any_at_ok _ _ _ Ha). cbn [mbind result_bind any_value any_heap null_any].
  destruct c as [[t v]|].
  - destruct (slot_content _ _ _ _ _ Hs) as [-> Ho].
    destruct (slot_range _ _ _ _ _ W Hb Hs) as (_ & _ & _ & _ & ?).
    assert (a <> b) by (intros <-; rewrite Ha in Hb; injection Hb as <-; cbn in *; lia).
    erewrite any_at_ok; [|cbn; by rewrite lookup_insert_ne]. cbn [mbind result_bind].
    rewrite (proj2 (Z.eqb_neq (any_value ob) 0)) by lia. cbn [negb].
    destruct (alloc_copy_spec _ _ _ _ _ W Ha Ho) as [E|(p & h & Hp & E)]; [by left|]. right.
    eexists. split; [exact E|]. split; [by apply wf_filled|by apply contents_filled].
  - inversion Hs; subst. cbn [any_type null_any].
    assert (E : set_any a (Any 0 None 0) m = m)
      by (unfold set_any; destruct m; cbn in *; by rewrite insert_id).
    rewrite E, (any_at_ok _ _ _ Hb). cbn. right. exists m. split; [done|]. split; [done|].
    rewrite insert_id; [done|]. apply (contents_lookup _ _ null_any); [done|done|constructor].
Qed.

Lemma slot_of m a o t : wf m -> anys m !! a = Some o -> any_type o = Some t ->
  exists v, slot m a o (Some (t, v)).
Proof.
  intros W Ha Ht. destruct (wf_slot m W _ _ Ha) as [c Hs]. destruct Hs; cbn in Ht; simplify_eq.
  - exists v. by constructor.
  - exists v. by constructor.
Qed.

(** The object of an [any] replaced in place. *)
Definition updated (o : any) (t : ty) (v : value) (m : mem) : mem :=
  Mem (anys m) (live m) (<[any_value o := (t, v)]> (objs m)).

Lemma slot_updated m a o t v v' b ob c : wf m -> anys m !! a = Some o -> slot m a o (Some (t, v')) ->
  anys m !! b = Some ob -> slot m b ob c ->
  slot (updated o t v m) b ob (if bool_decide (a = b) then Some (t, v) else c).
Proof.
  intros W Ha Sa Hb Sb. case_bool_decide as E.
  - subst b. rewrite Ha in Hb. injection Hb as <-.
    inversion Sa; subst; constructor; try done; apply lookup_insert_eq.
  - apply (slot_frame m); [done|done|]. intros [tv Hv]. apply lookup_insert_ne.
    eapply value_ne; [done..|]. intros E'. rewrite E', no_obj_null in Hv; done.
Qed.

Lemma wf_updated m a o t v v' : wf m -> anys m !! a = Some o -> slot m a o (Some (t, v')) ->
  wf (updated o t v m).
Proof.
  intros W Ha Sa. split; cbn; try apply W.
  - intros b ob Hb. destruct (wf_slot m W _ _ Hb) as [c Hs]. eexists. by eapply slot_updated.
  - intros q t' w [[<- [= <- <-]]|[Hne Hq]]%lookup_insert_Some.
    + exists a, o. split; [done|]. split; [done|].
      pose proof (slot_updated m a o t v v' a o _ W Ha Sa Ha Sa) as X.
      by rewrite bool_decide_eq_true_2 in X.
    + destruct (wf_obj m W _ _ _ Hq) as (b & ob & Hb & E & Hs). exists b, ob.
      split; [done|]. split; [done|].
      pose proof (slot_updated m a o t v v' b ob _ W Ha Sa Hb Hs) as X.
      rewrite bool_decide_eq_false_2 in X; [done|]. intros <-. congruence.
Qed.

Lemma contents_updated m a o t v v' : wf m -> anys m !! a = Some o -> slot m a o (Some (t, v')) ->
  contents (updated o t v m) = <[a := Some (t, v)]> (contents m).
Proof.
  intros W Ha Sa. pose proof (wf_updated m a o t v v' W Ha Sa) as W'. apply map_eq. intros b.
  destruct (anys m !! b) as [ob|] eqn:Hb.
  - destruct (wf_slot m W _ _ Hb) as [c Hs].
    rewrite (contents_lookup _ _ _ _ W' Hb (slot_updated _ _ _ _ v _ _ _ _ W Ha Sa Hb Hs)).
    case_bool_decide as E; [subst; by rewrite lookup_insert_eq|].
    rewrite lookup_insert_ne by done. symmetry. by eapply contents_lookup.
  - rewrite lookup_insert_ne by congruence. unfold contents. cbn. by rewrite !lookup_fmap, Hb.
Qed.

Lemma assign_gives m a t v : wf m -> is_Some (anys m !! a) ->
  gives (assign sizeof alignof malloc a t v m) (<[a := made t v]> (contents m)).
Proof.
  intros W [o Ha]. unfold assign, made. case_bool_decide as Ht; [apply reset_gives; eauto|].
  unfold is_type. rewrite (any_at_ok _ _ _ Ha). cbn [mbind result_bind].
  rewrite (bool_decide_eq_false_2 (t = TNull)) by done.
  case_bool_decide as E; cbn [negb].
  - destruct (slot_of _ _ _ _ W Ha E) as [v' Hs]. destruct (slot_content _ _ _ _ _ Hs) as [_ Ho].
    rewrite ?(any_at_ok _ _ _ Ha). cbn [mbind result_bind]. unfold assign_at, read_at.
    rewrite Ho, bool_decide_eq_true_2 by done. cbn [mbind result_bind].
    right. eexists. split; [reflexivity|].
    split; [by eapply wf_updated|by eapply contents_updated].
  - rewrite (reset_spec _ _ _ W Ha). cbn [mbind result_bind].
    rewrite <- (insert_insert_eq (contents m) a (Some (t, v)) None), <- (contents_cleared _ _ _ W Ha).
    apply fill_gives; [by apply wf_cleared|apply lookup_insert_eq].
Qed.

Lemma copy_assign_gives m a b : wf m -> is_Some (anys m !! a) -> is_Some (anys m !! b) ->
  gives (copy_assign sizeof alignof malloc a b m)
        (<[a := if bool_decide (a = b) then None else held (contents m) b]> (contents m)).
Proof.
  intros W [o Ha] [ob Hb]. unfold copy_assign. rewrite (reset_spec _ _ _ W Ha). cbn [mbind result_bind].
  assert (X : gives (copy_from sizeof alignof malloc a b (cleared a o m))
    (<[a := held (contents (cleared a o m)) b]> (contents (cleared a o m)))).
  { apply copy_from_gives; [by apply wf_cleared|apply lookup_insert_eq|].
    cbn. destruct (decide (a = b)) as [->|]; [rewrite lookup_insert_eq|rewrite lookup_insert_ne]; eauto. }
  rewrite contents_cleared, insert_insert_eq in X by done.
  unfold held in *. case_bool_decide; [subst; by rewrite lookup_insert_eq in X|].
  by rewrite lookup_insert_ne in X.
Qed.

(** ** Every operation *)
Lemma step_gives m o : wf m -> enabled o m = true -> is_move o = false ->
  gives (step sizeof alignof malloc o m) (spec o (contents m)).
Proof.
  intros W He Hm.
  assert (Hnull : forall a, free_atb a m = true ->
    wf (with_null a m) /\ is_Some (anys (with_null a m) !! a) /\ contents m !! a = None).
  { intros a Hf%free_atb_spec. split; [by apply wf_with_null|]. cbn. rewrite lookup_insert_eq.
    split; [eauto|]. unfold contents. rewrite lookup_fmap. by destruct (free_fresh _ _ W Hf) as [_ ->]. }
  destruct o as [a|a t v|a b|a b|a|a b|a b|a t v|a]; cbn [enabled is_move step spec] in *; try done.
  - destruct (Hnull a He) as (W' & _ & _). right. eexists. split; [reflexivity|].
    split; [done|]. apply contents_with_null.
  - destruct (Hnull a He) as (W' & Ha & _). pose proof (assign_gives _ _ t v W' Ha) as X.
    by rewrite contents_with_null, insert_insert_eq in X.
  - apply andb_true_iff in He as [He Hb%bool_decide_eq_true].
    destruct (Hnull a He) as (W' & Ha & Hn).
    assert (a <> b) by (intros <-; unfold contents in Hn; rewrite lookup_fmap in Hn;
      destruct Hb as [? E]; rewrite E in Hn; done).
    unfold copy_construct. cbn [default_construct mbind result_bind].
    pose proof (copy_from_gives (with_null a m) a b W') as X.
    rewrite contents_with_null, insert_insert_eq in X. unfold held in *.
    rewrite lookup_insert_ne in X by done. apply X; cbn; [apply lookup_insert_eq|].
    by rewrite lookup_insert_ne.
  - apply bool_decide_eq_true in He. by apply reset_gives.
  - apply andb_true_iff in He as [Ha%bool_decide_eq_true Hb%bool_decide_eq_true].
    by apply copy_assign_gives.
  - apply bool_decide_eq_true in He. by apply assign_gives.
  - apply bool_decide_eq_true in He. by apply destroy_gives.
Qed.

Lemma run_gives os m : wf m -> enabled_run os m = true -> copying os = true ->
  gives (run sizeof alignof malloc os m) (foldl (fun c o => spec o c) (contents m) os).
Proof.
  revert m. induction os as [|o os IH]; intros m W He Hc; cbn in *; [right; eauto|].
  apply andb_true_iff in He as [He Hr], Hc as [Hm%negb_true_iff Hc].
  destruct (step_gives _ _ W He Hm) as [->|(m' & E & W' & <-)]; [by left|].
  rewrite E in *. by apply IH.
Qed.

Lemma wf_empty : wf empty_mem.
Proof. split; cbn; intros *; rewrite ?lookup_empty; done. Qed.

Lemma get_content m a t v : wf m -> t <> TNull -> contents m !! a = Some (Some (t, v)) ->
  get a t m = Ok v.
Proof.
  intros W Ht Hc. pose proof Hc as Hc'. unfold contents in Hc. rewrite lookup_fmap in Hc.
  destruct (anys m !! a) as [o|] eqn:Ha; [|done]. destruct (wf_slot m W _ _ Ha) as [c Hs].
  rewrite (contents_lookup _ _ _ _ W Ha Hs) in Hc'. injection Hc' as ->.
  destruct (slot_content _ _ _ _ _ Hs) as [Hty Ho].
  unfold get, is_type. rewrite (any_at_ok _ _ _ Ha). cbn [mbind result_bind].
  rewrite bool_decide_eq_false_2, Hty, bool_decide_eq_true_2 by done. cbn [assert mbind result_bind].
  unfold read_at. by rewrite Ho, bool_decide_eq_true_2.
Qed.

Lemma wf_no_leak m : wf m -> anys m = ∅ -> live m = ∅ /\ objs m = ∅.
Proof.
  intros W E. split; apply map_empty; intros p.
  - destruct (live m !! p) as [n|] eqn:Hp; [|done].
    destruct (wf_block m W _ _ Hp) as (a & o & Ha & _); rewrite E in *; done.
  - destruct (objs m !! p) as [[t v]|] eqn:Hp; [|done].
    destruct (wf_obj m W _ _ _ Hp) as (a & o & Ha & _). rewrite E in Ha. done.
Qed.

(** ** Moves *)
Lemma in_buffer_slot m b ob c : wf m -> anys m !! b = Some ob -> slot m b ob c ->
  isInBuffer b (any_value ob) = negb (any_value ob =? 0) && (any_heap ob =? 0).
Proof.
  intros W Hb Hs. pose proof (wf_any m W _ _ Hb) as Hl. destruct (wf_live m W _ _ Hl) as (? & _ & ?).
  unfold isInBuffer, buffer, buffer_offset, buffer_size, addr_max, any_size in *.
  rewrite u64_small by lia.
  destruct Hs as [|t v Hfit Ho|t v h Hh Hlh Hnone Ho]; cbn.
  - destruct (Z.leb_spec (b + 24) 0); [lia|done].
  - unfold buffer, buffer_offset, any_size in *. pose proof (sizeof_pos t).
    destruct (alignUp_layout t (b + 24)); [unfold addr_max; lia|].
    destruct (Z.leb_spec (b + 24) (alignUp (b + 24) (alignof t))); [|lia].
    destruct (Z.ltb_spec (alignUp (b + 24) (alignof t)) (b + 24 + 32)); [|lia].
    destruct (Z.eqb_spec (alignUp (b + 24) (alignof t)) 0); [lia|done].
  - rewrite (proj2 (Z.eqb_neq h 0)), andb_false_r by lia. apply not_true_is_false.
    rewrite andb_true_iff, Z.leb_le, Z.ltb_lt.
    pose proof (sizeof_pos t). pose proof (alignof_pos t).
    destruct (wf_live m W _ _ Hlh) as (_ & _ & ?). unfold addr_max in *.
    destruct (alignUp_layout t h); [unfold addr_max; lia|].
    assert (h <> b) by congruence.
    destruct (wf_apart m W _ _ _ _ ltac:(eassumption) Hlh Hl); lia.
Qed.

Lemma move_from_contents m a b : wf m -> anys m !! a = Some null_any -> is_Some (anys m !! b) ->
  let r := move_from sizeof alignof malloc a b m in
  r = NoMemory \/
  exists m', r = Ok m' /\ contents m' = <[b := None]> (<[a := held (contents m) b]> (contents m)).
Proof.
  intros W Ha [ob Hb] r. destruct (wf_slot m W _ _ Hb) as [c Hs].
  unfold held. rewrite (contents_lookup _ _ _ _ W Hb Hs). cbn [default].
  unfold r, move_from. rewrite (any_at_ok _ _ _ Hb). cbn [mbind result_bind].
  unfold set_type. rewrite (any_at_ok _ _ _ Ha). cbn [mbind result_bind any_value any_heap null_any].
  destruct (decide (a = b)) as [<-|Hne].
  { rewrite Ha in Hb. injection Hb as <-. inversion Hs; subst.
    erewrite any_at_ok; [|apply lookup_insert_eq]. cbn [mbind result_bind any_value].
    rewrite (in_buffer_slot _ _ _ _ W Ha Hs : isInBuffer a 0 = false).
    cbn [mbind result_bind any_heap].
    erewrite any_at_ok; [|apply lookup_insert_eq]. right. eexists. split; [done|].
    rewrite !contents_set_any. cbn. by rewrite !insert_insert_eq. }
  erewrite (any_at_ok b); [|cbn; rewrite lookup_insert_ne by done; exact Hb]. cbn [mbind result_bind].
  rewrite (in_buffer_slot _ _ _ _ W Hb Hs). destruct (negb _ && _) eqn:E.
  - apply andb_true_iff in E as [Hv%negb_true_iff%Z.eqb_neq _].
    destruct (slot_some _ _ _ _ Hs Hv) as (t & v & -> & Ho).
    destruct (slot_content _ _ _ _ _ Hs) as [-> _].
    destruct (alloc_copy_spec _ _ _ _ _ W Ha Ho) as [->|(p & h & Hp & ->)]; [by left|right].
    cbn [mbind result_bind]. erewrite (any_at_ok b); [|cbn; rewrite lookup_insert_ne by done; exact Hb].
    eexists. split; [done|]. rewrite contents_set_any, contents_filled; done.
  - right. erewrite (any_at_ok a); [|apply lookup_insert_eq]. cbn [mbind result_bind any_type any_heap].
    erewrite (any_at_ok b); [|cbn; rewrite !lookup_insert_ne by done; exact Hb]. cbn [mbind result_bind].
    eexists. split; [done|]. rewrite !contents_set_any. cbn. rewrite insert_insert_eq. do 2 f_equal.
    pose proof (contents_lookup _ _ _ _ W Hb Hs) as X. unfold contents in X.
    rewrite lookup_fmap, Hb in X. by injection X.
Qed.

Lemma move_contents m o : wf m -> enabled o m = true -> is_move o = true ->
  let r := step sizeof alignof malloc o m in
  r = NoMemory \/ exists m', r = Ok m' /\ contents m' = spec o (contents m).
Proof.
  intros W He Hm. destruct o as [| | |a b| | |a b| |]; try done; cbn [enabled step spec] in *;
    apply andb_true_iff in He as [Ha Hb%bool_decide_eq_true].
  - apply free_atb_spec in Ha. destruct (free_fresh _ _ W Ha) as [_ Hn].
    assert (a <> b) by (intros <-; rewrite Hn in Hb; by destruct Hb).
    rewrite bool_decide_eq_false_2 by done.
    unfold move_construct. cbn [default_construct mbind result_bind].
    pose proof (move_from_contents (with_null a m) a b (wf_with_null _ _ W Ha)) as X.
    rewrite contents_with_null, insert_insert_eq in X. unfold held in *.
    rewrite lookup_insert_ne in X by done. apply X; cbn; [apply lookup_insert_eq|].
    by rewrite lookup_insert_ne.
  - apply bool_decide_eq_true in Ha as [o Ha]. unfold move_assign.
    rewrite (reset_spec _ _ _ W Ha). cbn [mbind result_bind].
    pose proof (move_from_contents (cleared a o m) a b (wf_cleared _ _ _ W Ha)) as X.
    rewrite contents_cleared, insert_insert_eq in X by done. unfold held in *.
    case_bool_decide; [subst; rewrite lookup_insert_eq in X|rewrite lookup_insert_ne in X by done];
      apply X; cbn; try apply lookup_insert_eq; rewrite ?lookup_insert_eq, ?lookup_insert_ne; eauto.
Qed.

(** C21. A program that constructs, copies, assigns, resets and destroys [any]
    objects never runs into undefined behaviour: unless [operator new[]] throws it
    ends, every [any] then holds what the assignments say ([foldl spec]; assigning
    an [any] to itself leaves it null), [get<T>] of an [any] that holds a [T]
    returns that value, and once every [any] is destroyed no block and no object
    is left. *)
Theorem any_storage_refines os :
  enabled_run os empty_mem = true -> copying os = true ->
  run sizeof alignof malloc os empty_mem = NoMemory \/
  exists m, run sizeof alignof malloc os empty_mem = Ok m /\
    contents m = foldl (fun c o => spec o c) ∅ os /\
    (forall a t v, t <> TNull -> contents m !! a = Some (Some (t, v)) -> get a t m = Ok v) /\
    (anys m = ∅ -> live m = ∅ /\ objs m = ∅).
Proof.
  intros He Hc. destruct (run_gives _ _ wf_empty He Hc) as [->|(m & -> & W & E)]; [by left|right].
  exists m. split; [done|]. split; [exact E|]. split; [|by apply wf_no_leak].
  intros a t v. by apply get_content.
Qed.

(** The move constructor and the move assignment, at the end of such a program,
    leave every [any] with the content a move promises: the target holds what the
    source held, the source is null, the others are unchanged. *)
Theorem any_move_contents os m o :
  enabled_run os empty_mem = true -> copying os = true ->
  run sizeof alignof malloc os empty_mem = Ok m ->
  enabled o m = true -> is_move o = true ->
  step sizeof alignof malloc o m = NoMemory \/
  exists m', step sizeof alignof malloc o m = Ok m' /\ contents m' = spec o (contents m).
Proof.
  intros He Hc Hr. destruct (run_gives _ _ wf_empty He Hc) as [E|(m0 & E & W & _)]; [congruence|].
  assert (m0 = m) as -> by congruence. by apply move_contents.
Qed.
End Props.

(** ** A platform

    Sizes as a 64-bit C++ library has them (a string and smaller types fit in the
    buffer, a map does not), and an allocator that takes the storage above all
    that is live. *)
Definition lp64_sizeof (t : ty) : Z :=
  match t with
  | TBoolean => 1
  | TInteger | TNumber | TNull => 8
  | TString => 32
  | TArray _ => 24
  | TObject | TAny | TVariant _ _ => 56
  | TOptional _ => 64
  | TStruct _ => 128
  end.

Definition lp64_alignof (t : ty) : Z := match t with TBoolean => 1 | _ => 8 end.

Definition top (l : gmap Z Z) : Z :=
  foldr (fun r top => Z.max (r.1 + r.2) top) 4096 (map_to_list l).

Definition bump (l : gmap Z Z) (n : Z) : option Z :=
  if top l + n <=? addr_max then Some (top l) else None.

Lemma top_spec l : 0 < top l /\ forall q k, l !! q = Some k -> q + k <= top l.
Proof.
  unfold top. split.
  - induction (map_to_list l) as [|[q k] r IH]; cbn [foldr fst snd]; lia.
  - intros q k Hq. apply elem_of_map_to_list in Hq. revert Hq.
    induction (map_to_list l) as [|r rs IH]; intros Hq; [by apply elem_of_nil in Hq|].
    apply elem_of_cons in Hq as [<-|Hq]; cbn [foldr fst snd]; [|specialize (IH Hq)]; lia.
Qed.

#[export] Instance lp64_platform : Platform lp64_sizeof lp64_alignof bump.
Proof.
  split; try (intros []; cbn; lia). intros l n p Hn. unfold bump.
  destruct (Z.leb_spec (top l + n) addr_max); [|done]. intros [= <-].
  destruct (top_spec l) as [? Hl]. split; [done|]. split; [done|].
  intros q k Hq. specialize (Hl _ _ Hq). lia.
Qed.

(** A map goes to the heap and is copied, then replaced by an integer. *)
Definition any_program : list op :=
  [Default 1000; From 2000 TObject (VObject []); CopyAssign 1000 2000;
   Assign 2000 TInteger (VInteger 5); CopyConstruct 3000 1000].

Lemma any_storage_refines_witness :
  enabled_run (sizeof := lp64_sizeof) (alignof := lp64_alignof) (malloc := bump)
    (any_program ++ [Destroy 3000; Destroy 2000; Destroy 1000]) empty_mem = true /\
  exists m, run lp64_sizeof lp64_alignof bump any_program empty_mem = Ok m /\
    get 1000 TObject m = Ok (VObject []) /\ get 2000 TInteger m = Ok (VInteger 5).
Proof.
  split; [vm_compute; reflexivity|].
  destruct (any_storage_refines (PL := lp64_platform) any_program) as [E|(m & E & Hc & Hg & _)];
    [vm_compute; reflexivity|vm_compute; reflexivity|vm_compute in E; discriminate|].
  exists m. split; [exact E|].
  split; (apply Hg; [discriminate|rewrite Hc; vm_compute; reflexivity]).
Defined.

Lemma any_move_contents_witness :
  exists m, run lp64_sizeof lp64_alignof bump any_program empty_mem = Ok m /\
  exists m', step lp64_sizeof lp64_alignof bump (MoveAssign 2000 1000) m = Ok m' /\
    held (contents m') 2000 = Some (TObject, VObject []).
Proof.
  destruct (run lp64_sizeof lp64_alignof bump any_program empty_mem) as [m| |] eqn:E;
    [|vm_compute in E; discriminate|vm_compute in E; discriminate].
  exists m. split; [reflexivity|].
  destruct (any_move_contents (PL := lp64_platform) any_program m (MoveAssign 2000 1000))
    as [F|(m' & F & Hc)]; [vm_compute; reflexivity|vm_compute; reflexivity|exact E| |reflexivity| |].
  - vm_compute in E. injection E as <-. vm_compute. reflexivity.
  - vm_compute in E. injection E as <-. vm_compute in F. discriminate.
  - exists m'. split; [exact F|]. rewrite Hc. vm_compute in E. injection E as <-. vm_compute. reflexivity.
Defined.

(** A move does not take over the heap block of its source: when both objects
    are destroyed the block is still live; and when the source is used again, its
    next reset frees the block under the content of the target, whose [get] then
    reads an object that is gone. *)
Theorem any_move_dangles :
  (exists m, run lp64_sizeof lp64_alignof bump
     [From 1000 TObject (VObject []); MoveConstruct 2000 1000; Destroy 1000; Destroy 2000]
     empty_mem = Ok m /\ anys m = ∅ /\ live m <> ∅) /\
  (exists m, run lp64_sizeof lp64_alignof bump
     [From 1000 TObject (VObject []); MoveConstruct 2000 1000;
      Assign 1000 TInteger (VInteger 7); Reset 1000] empty_mem = Ok m /\
   enabled (Reset 2000) m = true /\ get 2000 TObject m = UB).
Proof.
  split; eexists; (split; [vm_compute; reflexivity|]); (split; [reflexivity|]).
  - discriminate.
  - reflexivity.
Qed.
End AnyStorageProps.
