(* ===== verification/Serialization.v ===== *)
(** * The serialization interfaces and the code generic over them

    Models [include/dap/serialization.h] and the struct part of
    [include/dap/typeof.h]. [Deserializer], [Serializer] and [FieldSerializer]
    are abstract C++ classes; here they are type classes, with one method per
    virtual function. On top of them [deserialize] and [serialize] are the
    overloads of the headers for every type [TypeOf<T>] describes
    ([TypeInfo::deserialize] and [TypeInfo::serialize]).

    A method that fills an object through a pointer takes the object's current
    value and returns the value it leaves there, also when it returns [false]. *)
From Stdlib Require Import ZArith Lia.
From stdpp Require Import base list strings.
From S2P Require Import Prelude SMap Types.

(** ** The interfaces *)

(** [class Deserializer]. [des_boolean] to [des_string]: [None] is [false], and
    the target is left alone. [des_array d] is [None] when [array] returns [false]
    without calling its function, else the deserializers the function is called
    with, in order, as long as it returns [true]; [des_field d name] likewise for
    the one call [field] makes. The recursion of the methods for [object] and [any]
    into nested values is bounded by a fuel. *)
Class Deserializer (D : Type) := {
  des_boolean : D -> option bool;
  des_integer : D -> option Z;
  des_number : D -> option double;
  des_string : D -> option string;
  des_object : nat -> D -> smap value -> outcome (bool * smap value);
  des_any : nat -> D -> value -> outcome (bool * value);
  des_count : D -> outcome nat;
  des_array : D -> option (list D);
  des_field : D -> string -> option D
}.

(** What [type->serialize(this, value)] does for each type: an argument of the
    methods that call it on the contents of an [any]. *)
Definition serialize_fn (Ser : Type) : Type := ty -> value -> Ser -> outcome (bool * Ser).

(** [class Serializer] with its storage as a state, and [class FieldSerializer]:
    [ser_struct s cb] is [object(cb)], [fs_field] the call [field(name, cb)]. *)
Class Serializer (Ser FS : Type) := {
  ser_boolean : bool -> Ser -> outcome (bool * Ser);
  ser_integer : Z -> Ser -> outcome (bool * Ser);
  ser_number : double -> Ser -> outcome (bool * Ser);
  ser_string : string -> Ser -> outcome (bool * Ser);
  ser_object : serialize_fn Ser -> smap value -> Ser -> outcome (bool * Ser);
  ser_any : serialize_fn Ser -> value -> Ser -> outcome (bool * Ser);
  ser_array : list (Ser -> outcome (bool * Ser)) -> Ser -> outcome (bool * Ser);
  ser_struct : (FS -> outcome (bool * FS)) -> Ser -> outcome (bool * Ser);
  ser_remove : Ser -> Ser;
  fs_field : string -> (Ser -> outcome (bool * Ser)) -> FS -> outcome (bool * FS)
}.

(** ** Loops shared by the overloads *)

(** The elements a [std::vector<T>] gains when it grows. *)
Fixpoint default_elements (env : schema) (fuel : nat) (t : ty) (n : nat) : outcome (list value) :=
  match n with
  | O => Ret []
  | S n => v ← construct env fuel t; vs ← default_elements env fuel t n; Ret (v :: vs)
  end.

(** [std::vector<T>::resize(n)]. *)
Definition resize (env : schema) (fuel : nat) (t : ty) (n : nat) (vec : list value)
    : outcome (list value) :=
  vs ← default_elements env fuel t (n - length vec);
  Ret (take n vec ++ vs).

Section Loops.
Context {D : Type}.

(** [array] with the function that deserializes into element [i++] of [vec]: an
    index past the end of the vector is out of bounds. *)
Fixpoint array_loop (elem : D -> value -> outcome (bool * value)) (ds : list D)
    (i : nat) (vec : list value) : outcome (bool * list value) :=
  match ds with
  | [] => Ret (true, vec)
  | d :: ds =>
    cur ← deref (vec !! i);
    '(ok, v) ← elem d cur;
    let vec := <[i := v]> vec in
    if (ok : bool) then array_loop elem ds (S i) vec else Ret (false, vec)
  end.

(** [Deserializer::deserialize] for a [dap::array<T>]. *)
Definition deserialize_array `{Deserializer D} (env : schema) (fuel : nat) (t : ty)
    (elem : D -> value -> outcome (bool * value)) (d : D) (vec : list value)
    : outcome (bool * list value) :=
  n ← des_count d;
  vec ← resize env fuel t n vec;
  match des_array d with
  | None => Ret (false, vec)
  | Some ds => array_loop elem ds 0 vec
  end.

(** [TypeOf<STRUCT>::deserializeFields]: every [DAP_FIELD], in order, with the
    type of the member it names, until one fails. *)
Fixpoint deserializeFields `{Deserializer D}
    (member_deserialize : ty -> D -> value -> outcome (bool * value))
    (si : struct_info) (fields : list (string * string)) (fd : D)
    (obj : list (string * value)) : outcome (bool * list (string * value)) :=
  match fields with
  | [] => Ret (true, obj)
  | (field, name) :: fields =>
    match des_field fd name with
    | None => Ret (false, obj)
    | Some d =>
      m ← deref (member_of si field);
      cur ← deref (get_member obj field);
      '(ok, v) ← member_deserialize m.(mem_type) d cur;
      let obj := set_member obj field v in
      if (ok : bool) then deserializeFields member_deserialize si fields fd obj
      else Ret (false, obj)
    end
  end.
End Loops.

(** [TypeOf<STRUCT>::serializeFields]. *)
Fixpoint serializeFields {Ser FS} `{Serializer Ser FS} (rec : serialize_fn Ser) (si : struct_info)
    (fields : list (string * string)) (obj : list (string * value)) (fs : FS)
    : outcome (bool * FS) :=
  match fields with
  | [] => Ret (true, fs)
  | (field, name) :: fields =>
    m ← deref (member_of si field);
    v ← deref (get_member obj field);
    '(ok, fs) ← fs_field name (rec m.(mem_type) v) fs;
    if (ok : bool) then serializeFields rec si fields obj fs else Ret (false, fs)
  end.

(** [a && b] on calls that return [bool] and change a state. *)
Definition and_then {A} (x : outcome (bool * A)) (f : A -> outcome (bool * A))
    : outcome (bool * A) :=
  '(ok, a) ← x;
  if (ok : bool) then f a else Ret (false, a).

Arguments and_then {A} x f : simpl never.

(** ** [deserialize] and [serialize] for every type *)
Section Generic.
Context (env : schema).

Fixpoint deserialize {D} `{Deserializer D} (fuel : nat) (t : ty) (d : D) (cur : value)
    : outcome (bool * value) :=
  match fuel with
  | O => OutOfFuel
  | S fuel =>
    match t with
    | TBoolean => Ret (match des_boolean d with Some b => (true, VBoolean b) | None => (false, cur) end)
    | TInteger => Ret (match des_integer d with Some z => (true, VInteger z) | None => (false, cur) end)
    | TNumber => Ret (match des_number d with Some x => (true, VNumber x) | None => (false, cur) end)
    | TString => Ret (match des_string d with Some s => (true, VString s) | None => (false, cur) end)
    | TObject =>
      match cur with
      | VObject m => '(ok, m) ← des_object fuel d m; Ret (ok, VObject m)
      | _ => Undefined
      end
    | TAny => des_any fuel d cur
    | TNull => Ret (true, cur)
    | TArray t =>
      match cur with
      | VArray vec =>
        '(ok, vec) ← deserialize_array env fuel t (deserialize fuel t) d vec;
        Ret (ok, VArray vec)
      | _ => Undefined
      end
    | TOptional t =>
      v ← construct env fuel t;
      '(ok, v) ← deserialize fuel t d v;
      Ret (true, if (ok : bool) then VOptional (Some v) else cur)
    | TVariant _ _ =>
      match cur with
      | VVariant a => '(ok, a) ← des_any fuel d a; Ret (ok, VVariant a)
      | _ => Undefined
      end
    | TStruct s =>
      match cur with
      | VStruct obj =>
        si ← deref (env s);
        '(ok, obj) ← and_then
          match si.(si_base) with
          | None => Ret (true, obj)
          | Some base =>
            bsi ← deref (env base);
            deserializeFields (deserialize fuel) bsi bsi.(si_fields) d obj
          end
          (fun obj => deserializeFields (deserialize fuel) si si.(si_fields) d obj);
        Ret (ok, VStruct obj)
      | _ => Undefined
      end
    end
  end.

Fixpoint serialize {Ser FS} `{Serializer Ser FS} (fuel : nat) (t : ty) (v : value) (s : Ser)
    : outcome (bool * Ser) :=
  match fuel with
  | O => OutOfFuel
  | S fuel =>
    match t, v with
    | TBoolean, VBoolean b => ser_boolean b s
    | TInteger, VInteger z => ser_integer z s
    | TNumber, VNumber x => ser_number x s
    | TString, VString x => ser_string x s
    | TObject, VObject m => ser_object (serialize fuel) m s
    | TAny, a => ser_any (serialize fuel) a s
    | TNull, _ => Ret (true, s)
    | TArray t, VArray l => ser_array (serialize fuel t <$> l) s
    | TOptional t, VOptional None => Ret (true, ser_remove s)
    | TOptional t, VOptional (Some v) => serialize fuel t v s
    | TVariant _ _, VVariant a => ser_any (serialize fuel) a s
    | TStruct name, VStruct obj =>
      si ← deref (env name);
      ser_struct (fun fs => and_then
        match si.(si_base) with
        | None => Ret (true, fs)
        | Some base =>
          bsi ← deref (env base);
          serializeFields (serialize fuel) bsi bsi.(si_fields) obj fs
        end
        (fun fs => serializeFields (serialize fuel) si si.(si_fields) obj fs)) s
    | _, _ => Undefined
    end
  end.
End Generic.
