(* ===== verification/Json.v ===== *)
(** * The JSON encoding: specification, contracts and the generic round trip

    [jtree] is a JSON document; [json_of] is the encoding the DAP specification
    gives to a value of a DAP type, as one recursive function with no storage,
    no callbacks and no fuel. [DeserializerContract] and [SerializerContract] say
    what a JSON backend promises to the generic code of [serialization.h]; against
    them it is proved that [serialize] stores [json_of] of the value
    ([serialize_stores]) and that [deserialize] of such a document into a fresh
    object gives the value back ([deserialize_loads]). *)
From Stdlib Require Import Ascii ZArith Lia.
From stdpp Require Import base list strings.
From S2P Require Import Prelude SMap Types Serialization.

#[local] Unset Elimination Schemes.
Inductive jtree :=
| JNull
| JBool (b : bool)
| JInt (z : Z)
| JFloat (d : double)
| JString (s : string)
| JArray (l : list jtree)
| JObject (o : smap jtree).
#[local] Set Elimination Schemes.

Section jtree_ind.
Variable P : jtree -> Prop.
Hypothesis PNull : P JNull.
Hypothesis PBool : forall b, P (JBool b).
Hypothesis PInt : forall z, P (JInt z).
Hypothesis PFloat : forall d, P (JFloat d).
Hypothesis PString : forall s, P (JString s).
Hypothesis PArray : forall l, Forall P l -> P (JArray l).
Hypothesis PObject : forall o, Forall (fun kv => P kv.2) o -> P (JObject o).

Fixpoint jtree_nested_ind (j : jtree) : P j :=
  match j with
  | JNull => PNull
  | JBool b => PBool b
  | JInt z => PInt z
  | JFloat d => PFloat d
  | JString s => PString s
  | JArray l => PArray l ((fix go (l : list jtree) : Forall P l :=
      match l with [] => Forall_nil_2 _ | j :: l => Forall_cons_2 _ j l (jtree_nested_ind j) (go l) end) l)
  | JObject o => PObject o ((fix go (o : smap jtree) : Forall (fun kv => P kv.2) o :=
      match o with
      | [] => Forall_nil_2 _
      | kv :: o => Forall_cons_2 _ kv o (jtree_nested_ind kv.2) (go o)
      end) o)
  end.
End jtree_ind.

Fixpoint jheight (j : jtree) : nat :=
  match j with
  | JArray l => S ((fix go (l : list jtree) : nat :=
      match l with [] => 0 | j :: l => jheight j `max` go l end%nat) l)
  | JObject o => S ((fix go (o : smap jtree) : nat :=
      match o with [] => 0 | kv :: o => jheight kv.2 `max` go o end%nat) o)
  | _ => 0%nat
  end.

Definition jheights (l : list jtree) : nat := foldr (fun j h => jheight j `max` h)%nat 0%nat l.

Lemma jheight_array l : jheight (JArray l) = S (jheights l).
Proof. cbn. f_equal. Qed.

Lemma jheight_object o : jheight (JObject o) = S (jheights o.*2).
Proof. cbn. f_equal. induction o as [|[k v] o IH]; cbn; [done|]. by rewrite IH. Qed.

Lemma jheights_elem j l : j ∈ l -> (jheight j <= jheights l)%nat.
Proof.
  induction l as [|x l IH]; [by intros ?%elem_of_nil|].
  intros [->|Hv]%elem_of_cons; cbn; fold (jheights l); [|specialize (IH Hv)]; lia.
Qed.

(** ** The encoding of a value of a type

    [None]: the value is not of the type, or has no encoding of its own (an unset
    optional outside a struct). *)

(** The fields of a struct with the members they name: the base's first. *)
Definition resolve (si : struct_info) : option (list (member * string)) :=
  mapM (fun fn => (fun m => (m, fn.2)) <$> member_of si fn.1) si.(si_fields).

Definition resolved_fields (env : schema) (si : struct_info) : option (list (member * string)) :=
  match si.(si_base) with
  | None => resolve si
  | Some base => bsi ← env base; l ← resolve bsi; k ← resolve si; Some (l ++ k)
  end.

Definition member_names (si : struct_info) : list string := mem_name <$> si.(si_members).

Fixpoint json_of (env : schema) (v : value) (t : ty) : option jtree :=
  match t, v with
  | TBoolean, VBoolean b => Some (JBool b)
  | TInteger, VInteger z => Some (JInt z)
  | TNumber, VNumber x => Some (JFloat x)
  | TString, VString s => Some (JString s)
  | TObject, VObject m =>
    JObject <$> (fix members (m : smap value) : option (smap jtree) :=
      match m with
      | [] => Some []
      | (k, a) :: m => j ← json_of env a TAny; o ← members m; Some ((k, j) :: o)
      end) m
  | TAny, VAnyEmpty => Some JNull
  | TAny, VAny t v => if bool_decide (t = TNull) then None else json_of env v t
  | TArray t, VArray l =>
    JArray <$> (fix elems (l : list value) : option (list jtree) :=
      match l with
      | [] => Some []
      | v :: l => j ← json_of env v t; js ← elems l; Some (j :: js)
      end) l
  | TVariant _ _, VVariant a => json_of env a TAny
  | TStruct s, VStruct fs =>
    si ← env s;
    l ← resolved_fields env si;
    if bool_decide (fs.*1 = member_names si) then
      JObject <$> (fix fields (l : list (member * string)) (o : smap jtree) : option (smap jtree) :=
        match l with
        | [] => Some o
        | (m, name) :: l =>
          oj ← (fix find (fs : list (string * value)) : option (option jtree) :=
            match fs with
            | [] => None
            | (n, v) :: fs =>
              if bool_decide (n = m.(mem_name)) then
                match m.(mem_type), v with
                | TOptional t, VOptional None => Some None
                | TOptional t, VOptional (Some w) => Some <$> json_of env w t
                | t, v => Some <$> json_of env v t
                end
              else find fs
            end) fs;
          fields l (match oj with Some j => sm_insert o name j | None => o end)
        end) l []
    else None
  | _, _ => None
  end.

(** The same, on the lists of a struct, an array and an object. *)
Definition member_json (env : schema) (t : ty) (v : value) : option (option jtree) :=
  match t, v with
  | TOptional t, VOptional None => Some None
  | TOptional t, VOptional (Some w) => Some <$> json_of env w t
  | t, v => Some <$> json_of env v t
  end.

Fixpoint fields_json (env : schema) (l : list (member * string)) (fs : list (string * value))
    (o : smap jtree) : option (smap jtree) :=
  match l with
  | [] => Some o
  | (m, name) :: l =>
    v ← get_member fs m.(mem_name);
    oj ← member_json env m.(mem_type) v;
    fields_json env l fs (match oj with Some j => sm_insert o name j | None => o end)
  end.

Lemma json_of_struct env s fs :
  json_of env (VStruct fs) (TStruct s) =
    (si ← env s; l ← resolved_fields env si;
     if bool_decide (fs.*1 = member_names si) then JObject <$> fields_json env l fs [] else None).
Proof.
  cbn. destruct (env s) as [si|]; [|done]; cbn. destruct (resolved_fields env si) as [l|]; [|done].
  cbn. case_bool_decide as Hn; [|done]. clear Hn. f_equal. generalize (@nil (string * jtree)).
  induction l as [|[m name] l IH]; intros o; [done|]. cbn.
  match goal with |- mbind _ (?F fs) = _ =>
    assert (Hf : F fs = (v ← get_member fs m.(mem_name); member_json env m.(mem_type) v)) end.
  { clear IH. induction fs as [|[n v] fs IHf]; [done|]. cbn. case_bool_decide; [|exact IHf].
    cbn. unfold member_json. by destruct (mem_type m), v as [| | | | | | | | |[]| |]. }
  rewrite Hf. destruct (get_member fs (mem_name m)); cbn; [|done]. destruct (member_json _ _ _); cbn; [|done].
  apply IH.
Qed.

Lemma json_of_array env t l j :
  json_of env (VArray l) (TArray t) = Some j ->
  exists k, j = JArray k /\ Forall2 (fun v j => json_of env v t = Some j) l k.
Proof.
  cbn. intros (k & E & ->)%fmap_Some_1. exists k. split; [done|].
  revert k E. induction l as [|v l IH]; intros k E.
  - injection E as <-. constructor.
  - apply bind_Some in E as (x & Hx & E). apply bind_Some in E as (js & Hjs & [= <-]).
    constructor; auto.
Qed.

Lemma json_of_object env m j :
  json_of env (VObject m) TObject = Some j ->
  exists o, j = JObject o /\
    Forall2 (fun ka kj => ka.1 = kj.1 /\ json_of env ka.2 TAny = Some kj.2) m o.
Proof.
  cbn. intros (k & E & ->)%fmap_Some_1. exists k. split; [done|].
  revert k E. induction m as [|[n a] m IH]; intros k E.
  - injection E as <-. constructor.
  - apply bind_Some in E as (x & Hx & E). apply bind_Some in E as (js & Hjs & [= <-]).
    constructor; auto.
Qed.

(** ** What a document holds as an [any] *)
Fixpoint any_of_json (j : jtree) : value :=
  match j with
  | JNull => VAnyEmpty
  | JBool b => VAny TBoolean (VBoolean b)
  | JInt z => VAny TInteger (VInteger z)
  | JFloat x => VAny TNumber (VNumber x)
  | JString s => VAny TString (VString s)
  | JArray l => VAny (TArray TAny) (VArray (map any_of_json l))
  | JObject o => VAny TObject (VObject (map (fun kv => (kv.1, any_of_json kv.2)) o))
  end.

Definition in_int64 (z : Z) : bool := (- 2 ^ 63 <=? z) && (z <? 2 ^ 63).

(** ** The limits of a backend

    What a library or the code around it cannot carry: the strings and names, the
    lengths of arrays, the doubles and the depths it can, and the integers it can
    read into an [any]. Text of fewer than 2^16 bytes without NUL is never a
    problem. *)
Record limits := {
  lim_string : string -> bool;
  lim_key : string -> bool;
  lim_length : nat -> bool;
  lim_float : double -> bool;
  lim_int : Z -> bool;
  lim_depth : nat -> bool
}.

Definition plain (s : string) : bool :=
  forallb (fun c => negb (bool_decide (c = NUL))) (bytes_of s) && (Z.of_nat (String.length s) <? 2 ^ 16).

Class LimitsOk (L : limits) : Prop := {
  plain_string s : plain s = true -> lim_string L s = true;
  plain_key s : plain s = true -> lim_key L s = true;
  lim_depth_le n n' : (n <= n')%nat -> lim_depth L n' = true -> lim_depth L n = true;
  lim_depth_one : lim_depth L 1 = true
}.

Definition no_limits : limits := {|
  lim_string _ := true; lim_key _ := true; lim_length _ := true; lim_float _ := true;
  lim_int _ := true; lim_depth _ := true
|}.

#[global] Instance no_limits_ok : LimitsOk no_limits.
Proof. by split. Qed.

Fixpoint sortedb {A} (m : smap A) : bool :=
  match m with
  | [] => true
  | (k, _) :: m => forallb (fun kv => key_ltb k kv.1) m && sortedb m
  end.

Lemma sortedb_sorted {A} (m : smap A) : sortedb m = true <-> sm_sorted m.
Proof.
  induction m as [|[k v] m IH]; cbn; [done|]. rewrite andb_true_iff, IH, forallb_forall, Forall_forall.
  split; intros [H ?]; split; try done; intros x Hx; apply H; by apply list_elem_of_In.
Qed.

Lemma sortedb_keys {A B} (m : smap A) (o : smap B) : m.*1 = o.*1 -> sortedb m = sortedb o.
Proof.
  revert o. induction m as [|[k v] m IH]; intros [|[k' v'] o]; cbn; try done.
  intros [= -> He]. rewrite (IH o He). f_equal. clear IH.
  revert o He. induction m as [|[x v1] m IH]; intros [|[y w] o]; cbn; try done.
  intros [= -> He]. by rewrite (IH o He).
Qed.

(** A document within the limits whose integers fit an [int64_t] and whose objects
    are canonical; [dyn]: it is read into an [any]. *)
Fixpoint canonical (L : limits) (dyn : bool) (j : jtree) : bool :=
  match j with
  | JInt z => in_int64 z && (negb dyn || lim_int L z)
  | JFloat x => lim_float L x
  | JString s => lim_string L s
  | JArray l => lim_length L (length l) && forallb (canonical L dyn) l
  | JObject o => sortedb o && forallb (fun kv => lim_key L kv.1 && canonical L dyn kv.2) o
  | _ => true
  end.

(** The types of the values [deserialize] puts in an [any]. *)
Definition natural_type (t : ty) : bool :=
  match t with
  | TBoolean | TInteger | TNumber | TString | TObject | TArray TAny => true
  | _ => false
  end.

(** A value within the limits every [any] of which holds such a type, with integers
    in range and maps in their canonical form; [dyn]: the value is inside an [any]. *)
Fixpoint natural (L : limits) (dyn : bool) (v : value) : bool :=
  match v with
  | VInteger z => in_int64 z && (negb dyn || lim_int L z)
  | VNumber x => lim_float L x
  | VString s => lim_string L s
  | VAny t v => natural_type t && natural L true v
  | VObject m => sortedb m && forallb (fun kv => lim_key L kv.1 && natural L true kv.2) m
  | VArray l => lim_length L (length l) && forallb (natural L dyn) l
  | VOptional (Some v) => natural L dyn v
  | VVariant a => natural L dyn a
  | VStruct fs => forallb (fun kv => natural L dyn kv.2) fs
  | _ => true
  end.

Lemma Forall2_keys {A B} (P : A -> B -> Prop) (m : smap A) (o : smap B) :
  Forall2 (fun a b => a.1 = b.1 /\ P a.2 b.2) m o -> m.*1 = o.*1.
Proof. induction 1 as [|x y m o [He _] _ IH]; cbn; congruence. Qed.

(** [json_of] of a natural [any] is canonical and keeps all of it. *)
Lemma natural_any L env v j t dyn :
  natural L dyn v = true -> json_of env v t = Some j ->
  (t = TAny -> canonical L true j = true /\ any_of_json j = v) /\
  (natural_type t = true -> dyn = true \/ t = TObject ->
    canonical L true j = true /\ any_of_json j = VAny t v).
Proof.
  revert t j dyn. induction v using value_nested_ind; intros u j dyn Hn Hj;
    try (split; [intros Hu|intros Hu [->|Hd]]; destruct u; simplify_eq/=; done).
  - split; [|intros Hu _; by destruct u]. intros ->. cbn in Hj, Hn. case_bool_decide; [done|].
    apply andb_true_iff in Hn as [Ht Hn]. destruct (IHv _ _ _ Hn Hj) as [_ Hany]. by apply Hany; [|left].
  - split; [intros ->; done|]. intros Hu _. destruct u as [| | | | | | |[]| | |]; try done.
    apply json_of_object in Hj as (o & -> & Ho). cbn in Hn. apply andb_true_iff in Hn as [Hs Hn].
    assert (Hall : Forall2 (fun (ka : string * value) (kj : string * jtree) =>
      ka.1 = kj.1 /\ lim_key L kj.1 && canonical L true kj.2 = true /\ any_of_json kj.2 = ka.2) m o).
    { clear Hs. induction Ho as [|ka kj m o [Hk Hj] Ho IH]; constructor.
      - inversion_clear H as [|? ? Hka _]. cbn in Hn. rewrite !andb_true_iff in Hn.
        destruct Hn as [[Hk' Hn] _]. destruct (Hka _ _ _ Hn Hj) as [[Hc Ha] _]; [done|].
        rewrite <-Hk, Hk', Hc. done.
      - inversion_clear H. cbn in Hn. apply andb_true_iff in Hn as [_ Hn]. by apply IH. }
    clear H Ho Hn. cbn. rewrite <-(sortedb_keys m o (Forall2_keys (fun a j => any_of_json j = a) _ _
      (Forall2_impl _ _ _ _ Hall (fun x y H => conj (proj1 H) (proj2 (proj2 H)))))), Hs.
    clear Hs. cbn. split.
    + induction Hall as [|ka kj m o (_ & Hc & _) _ IH]; cbn; [done|]. by rewrite Hc.
    + do 2 f_equal. induction Hall as [|[k a] [k' kj] m o (Hk & _ & Ha) _ IH]; cbn in *; [done|].
      by rewrite Hk, Ha, IH.
  - split; [intros ->; done|]. intros Hu _. destruct u as [| | | | | | |[]| | |]; try done.
    apply json_of_array in Hj as (o & -> & Ho). cbn in Hn. apply andb_true_iff in Hn as [Hl Hn].
    rewrite (Forall2_length _ _ _ Ho) in Hl.
    assert (Hall : Forall2 (fun v j => canonical L true j = true /\ any_of_json j = v) l o).
    { clear Hl. induction Ho as [|v j l o Hj Ho IH]; constructor.
      - inversion_clear H as [|? ? Hv _]. cbn in Hn. apply andb_true_iff in Hn as [Hn _]. by eapply Hv.
      - inversion_clear H. cbn in Hn. apply andb_true_iff in Hn as [_ Hn]. by apply IH. }
    clear H Ho Hn. cbn. rewrite Hl. cbn. clear Hl. split.
    + induction Hall as [|v j l o (Hc & _) _ IH]; cbn; [done|]. by rewrite Hc.
    + do 2 f_equal. induction Hall as [|v j l o (_ & Ha) _ IH]; cbn; [done|]. by rewrite Ha, IH.
Qed.

Lemma canonical_any L j : canonical L true j = true -> canonical L false j = true.
Proof.
  induction j as [| |z| | |l IH|o IH] using jtree_nested_ind; cbn; try done.
  - by rewrite !andb_true_iff; intros [-> _].
  - rewrite !andb_true_iff. intros [-> Hl]. split; [done|]. revert Hl.
    induction IH as [|j l Hj _ IHl]; cbn; [done|]. rewrite !andb_true_iff. naive_solver.
  - rewrite !andb_true_iff. intros [-> Ho]. split; [done|]. revert Ho.
    induction IH as [|j l Hj _ IHl]; cbn; [done|]. rewrite !andb_true_iff. naive_solver.
Qed.

(** The document of an [any] is no deeper than the [any]. *)
Lemma any_of_json_height j : (jheight j <= height (any_of_json j))%nat.
Proof.
  induction j as [| | | | |l IH|o IH] using jtree_nested_ind; try (cbn; lia).
  - rewrite jheight_array.
    change (S (jheights l) <= S (height (VArray (map any_of_json l))))%nat. rewrite height_array.
    assert (jheights l <= heights (map any_of_json l))%nat; [|lia].
    unfold jheights, heights. induction IH as [|j l Hj _ IHl]; cbn -[jheight height] in *; lia.
  - rewrite jheight_object.
    change (S (jheights o.*2) <= S (height (VObject (map (fun kv => (kv.1, any_of_json kv.2)) o))))%nat.
    rewrite height_object.
    assert (jheights o.*2 <= heights (map (fun kv => (kv.1, any_of_json kv.2)) o).*2)%nat; [|lia].
    unfold jheights, heights. induction IH as [|j l Hj _ IHl]; cbn -[jheight height] in *; lia.
Qed.

(** ** What a backend promises: serializers

    [stored r j]: the call succeeded and the storage now holds [j]; [removed] is
    whether [remove()] was called on it. *)
Class SerializerView (Ser FS : Type) := {
  ser_content : Ser -> option jtree;
  ser_removed : Ser -> bool;
  fs_content : FS -> option (smap jtree)
}.

Section Stored.
Context {Ser FS : Type} `{SerializerView Ser FS}.

Definition stored (removed : bool) (j : jtree) (r : outcome (bool * Ser)) : Prop :=
  exists s, r = Ret (true, s) /\ ser_content s = Some j /\ ser_removed s = removed.

(** The storage a nested serializer starts on, and what a new one may start on. *)
Definition fresh_ser (s : Ser) : Prop := ser_content s = Some JNull /\ ser_removed s = false.

Definition blank_ser (s : Ser) : Prop :=
  (ser_content s = Some JNull \/ ser_content s = Some (JObject [])) /\ ser_removed s = false.

(** An [any] that holds nothing stores nothing, so a null needs a null to start on. *)
Definition ready_ser (j : jtree) (s : Ser) : Prop := blank_ser s /\ (j = JNull -> fresh_ser s).

Lemma fresh_blank s : fresh_ser s -> blank_ser s.
Proof. intros [? ?]. split; auto. Qed.

Lemma fresh_ready j s : fresh_ser s -> ready_ser j s.
Proof. intros Hs. split; [by apply fresh_blank|done]. Qed.

(** The call [serialize(any)] makes for the value it holds: the method of a basic
    type, or [type->serialize]. *)
Definition any_step `{Serializer Ser FS} (rec : serialize_fn Ser) (t : ty) (v : value) (s : Ser)
    : outcome (bool * Ser) :=
  match t, v with
  | TBoolean, VBoolean b => ser_boolean b s
  | TInteger, VInteger z => ser_integer z s
  | TNumber, VNumber x => ser_number x s
  | TString, VString x => ser_string x s
  | TObject, VObject m => ser_object rec m s
  | _, _ => rec t v s
  end.

(** A value of a basic type is one. *)
Definition shaped (t : ty) (v : value) : bool :=
  match t, v with
  | TBoolean, VBoolean _ | TInteger, VInteger _ | TNumber, VNumber _ | TString, VString _
  | TObject, VObject _ => true
  | TBoolean, _ | TInteger, _ | TNumber, _ | TString, _ | TObject, _ | TNull, _ => false
  | _, _ => true
  end.
End Stored.

Class SerializerContract (Ser FS : Type) (L : limits) `{Serializer Ser FS} `{SerializerView Ser FS} := {
  sc_limits :: LimitsOk L;
  sc_boolean b s : blank_ser s -> stored false (JBool b) (ser_boolean b s);
  sc_integer z s : blank_ser s -> in_int64 z = true -> stored false (JInt z) (ser_integer z s);
  sc_number x s : blank_ser s -> stored false (JFloat x) (ser_number x s);
  sc_string x s : blank_ser s -> lim_string L x = true -> stored false (JString x) (ser_string x s);
  sc_object rec m o s : blank_ser s -> sm_sorted m ->
    Forall2 (fun ka kj => ka.1 = kj.1 /\ lim_key L kj.1 = true /\
      forall s', fresh_ser s' -> stored false kj.2 (rec TAny ka.2 s')) m o ->
    stored false (JObject o) (ser_object rec m s);
  sc_any_empty rec s : fresh_ser s -> stored false JNull (ser_any rec VAnyEmpty s);
  sc_any rec t v j s : blank_ser s -> shaped t v = true ->
    stored false j (any_step rec t v s) -> stored false j (ser_any rec (VAny t v) s);
  sc_array cbs js s : blank_ser s -> lim_length L (length js) = true ->
    Forall2 (fun cb j => forall s', fresh_ser s' -> stored false j (cb s')) cbs js ->
    stored false (JArray js) (ser_array cbs s);
  sc_struct s : blank_ser s -> exists f, fs_content f = Some [] /\
    forall cb f' o, cb f = Ret (true, f') -> fs_content f' = Some o -> stored false (JObject o) (ser_struct cb s);
  sc_remove s : fresh_ser s -> stored true JNull (Ret (true, ser_remove s));
  sc_field name cb removed j f o :
    fs_content f = Some o -> sm_lookup o name = None -> lim_key L name = true ->
    (forall s', fresh_ser s' -> exists s'', cb s' = Ret (true, s'') /\
      ser_removed s'' = removed /\ ser_content s'' = Some j) ->
    exists f', fs_field name cb f = Ret (true, f') /\
      fs_content f' = Some (if removed then o else sm_insert o name j)
}.

(** A value of the types the encoding covers: integers in range, maps canonical. *)
Fixpoint encodable (L : limits) (v : value) : bool :=
  match v with
  | VInteger z => in_int64 z
  | VNumber x => lim_float L x
  | VString s => lim_string L s
  | VAny _ v | VVariant v | VOptional (Some v) => encodable L v
  | VObject m => sortedb m && forallb (fun kv => lim_key L kv.1 && encodable L kv.2) m
  | VArray l => lim_length L (length l) && forallb (encodable L) l
  | VStruct fs => forallb (fun kv => encodable L kv.2) fs
  | _ => true
  end.

Lemma natural_encodable L dyn v : natural L dyn v = true -> encodable L v = true.
Proof.
  revert dyn. induction v as [| | | | | |t v IH|m IH|l IH|[w|] IH|a IH|fs IH] using value_nested_ind;
    intros dyn; cbn; eauto.
  - by rewrite andb_true_iff; intros [-> _].
  - rewrite andb_true_iff. naive_solver.
  - rewrite !andb_true_iff. intros [-> Hm]. split; [done|]. revert Hm.
    induction IH as [|kv m Hkv _ IHm]; cbn; [done|]. rewrite !andb_true_iff. naive_solver.
  - rewrite !andb_true_iff. intros [-> Hl]. split; [done|]. revert Hl.
    induction IH as [|v l Hv _ IHl]; cbn; [done|]. rewrite !andb_true_iff. naive_solver.
  - induction IH as [|kv m Hkv _ IHm]; cbn; [done|]. rewrite !andb_true_iff. naive_solver.
Qed.

Lemma get_member_elem fs n v : get_member fs n = Some v -> (n, v) ∈ fs.
Proof.
  induction fs as [|[k w] fs IH]; cbn; [done|]. case_bool_decide; subst; [|set_solver].
  intros [= ->]. by left.
Qed.

(** Distinct field names, as the JSON object keys of one struct, in plain text. *)
Definition names_ok (env : schema) : Prop :=
  forall s si l, env s = Some si -> resolved_fields env si = Some l ->
    NoDup l.*2 /\ forallb (fun mn => plain mn.2) l = true.

(** ** [serialize] stores the encoding *)
Lemma resolve_spec si l :
  resolve si = Some l ->
  Forall2 (fun fn mn => member_of si fn.1 = Some mn.1 /\ mn.2 = fn.2) si.(si_fields) l.
Proof.
  unfold resolve. rewrite mapM_Some. intros HF. eapply Forall2_impl; [exact HF|].
  intros fn mn (m & Hm & ->)%fmap_Some_1. done.
Qed.

Lemma member_of_name si f m : member_of si f = Some m -> mem_name m = f.
Proof.
  unfold member_of. destruct (list_find _ _) as [[i m']|] eqn:E; [|done]. intros [= ->].
  by apply list_find_Some in E as (_ & ? & _).
Qed.

Section SerializeStores.
Context {Ser FS : Type} {HS : Serializer Ser FS} {HV : SerializerView Ser FS}.
Context {L : limits} {HC : SerializerContract Ser FS L} (env : schema) (Hnames : names_ok env).

(** The fields loops, over the resolved fields. *)
Fixpoint ser_fields (rec : serialize_fn Ser) (l : list (member * string))
    (obj : list (string * value)) (fs : FS) : outcome (bool * FS) :=
  match l with
  | [] => Ret (true, fs)
  | (m, name) :: l =>
    v ← deref (get_member obj m.(mem_name));
    '(ok, fs) ← fs_field name (rec m.(mem_type) v) fs;
    if (ok : bool) then ser_fields rec l obj fs else Ret (false, fs)
  end.

Lemma serializeFields_resolved rec si l obj fs :
  resolve si = Some l -> serializeFields rec si si.(si_fields) obj fs = ser_fields rec l obj fs.
Proof.
  intros HF%resolve_spec. revert fs.
  induction HF as [|[f n] [m n'] fields l [Hm Hn] _ IH]; intros fs; cbn in *; [done|]. subst n'.
  rewrite Hm. cbn. rewrite (member_of_name _ _ _ Hm). destruct (get_member obj f); cbn; [|done].
  destruct (fs_field _ _ _) as [[ok fs']| | |]; cbn; [|done..]. destruct ok; [apply IH|done].
Qed.

Lemma ser_fields_app rec l k obj fs :
  ser_fields rec (l ++ k) obj fs = and_then (ser_fields rec l obj fs) (ser_fields rec k obj).
Proof.
  revert fs. induction l as [|[m n] l IH]; intros fs; cbn; [done|].
  destruct (get_member _ _); cbn; [|done]. destruct (fs_field _ _ _) as [[[] fs']| | |]; cbn; [|done..].
  apply IH.
Qed.

Lemma serialize_struct_fields fuel s si l obj ser :
  env s = Some si -> resolved_fields env si = Some l ->
  exists cb, (forall fs, cb fs = ser_fields (serialize env fuel) l obj fs) /\
    serialize env (S fuel) (TStruct s) (VStruct obj) ser = ser_struct cb ser.
Proof.
  intros Hs Hl. cbn. rewrite Hs. eexists. split; [|reflexivity]. intros fs. unfold resolved_fields in Hl.
  destruct (si_base si) as [base|].
  - apply bind_Some in Hl as (bsi & Hb & Hl). apply bind_Some in Hl as (l1 & Hl1 & Hl).
    apply bind_Some in Hl as (l2 & Hl2 & [= <-]). rewrite Hb. cbn.
    rewrite ser_fields_app, <-(serializeFields_resolved _ bsi) by done.
    destruct (serializeFields _ bsi _ _ _) as [[[] fs']| | |]; cbn; try done.
    by apply serializeFields_resolved.
  - cbn. by apply serializeFields_resolved.
Qed.

(** What the induction proves of a value: at any type it has an encoding for. *)
Definition stores (v : value) : Prop :=
  forall t j fuel s, encodable L v = true -> json_of env v t = Some j -> (height v < fuel)%nat ->
    ready_ser j s -> stored false j (serialize env fuel t v s).

(** A member: an unset optional removes its field. *)
Lemma member_stores t v oj fuel s :
  stores v -> (forall w, v = VOptional (Some w) -> stores w) ->
  encodable L v = true -> member_json env t v = Some oj -> (height v < fuel)%nat -> fresh_ser s ->
  exists s', serialize env fuel t v s = Ret (true, s') /\
    ser_removed s' = (if oj is Some _ then false else true) /\ ser_content s' = Some (default JNull oj).
Proof using HC.
  intros Hv Hw He Hj Hf Hs.
  assert (Hplain : Some <$> json_of env v t = Some oj -> exists s', serialize env fuel t v s = Ret (true, s') /\
    ser_removed s' = (if oj is Some _ then false else true) /\ ser_content s' = Some (default JNull oj)).
  { intros (j & Hjv & ->)%fmap_Some_1. destruct (Hv t j fuel s He Hjv Hf (fresh_ready _ _ Hs)) as (s' & -> & Hc & Hr).
    by exists s'. }
  destruct t; try exact (Hplain Hj). destruct v as [| | | | | | | | |[w|]| |]; try exact (Hplain Hj).
  - apply fmap_Some_1 in Hj as (j & Hj & ->). destruct fuel as [|fuel]; [lia|]. cbn in Hf |- *.
    destruct (Hw w eq_refl t j fuel s He Hj ltac:(lia) (fresh_ready _ _ Hs)) as (s' & -> & Hc & Hr).
    by exists s'.
  - injection Hj as <-. destruct fuel; [lia|].
    destruct (sc_remove s Hs) as (s' & [= <-] & Hc & Hr). by exists (ser_remove s).
Qed.

Lemma fields_store fuel l obj o0 o f :
  Forall (fun kv => stores kv.2 /\ forall w, kv.2 = VOptional (Some w) -> stores w) obj ->
  forallb (fun kv => encodable L kv.2) obj = true -> (heights obj.*2 < fuel)%nat ->
  NoDup l.*2 -> forallb (fun mn => plain mn.2) l = true -> (forall n, n ∈ l.*2 -> sm_lookup o0 n = None) ->
  fields_json env l obj o0 = Some o -> fs_content f = Some o0 ->
  exists f', ser_fields (serialize env fuel) l obj f = Ret (true, f') /\ fs_content f' = Some o.
Proof using HC.
  intros Hst Henc Hfu. revert o0 f. induction l as [|[m n] l IH]; intros o0 f Hnd Hpl Hfree Hj Hf.
  { injection Hj as <-. by exists f. }
  cbn in Hj. apply bind_Some in Hj as (v & Hv & Hj). apply bind_Some in Hj as (oj & Hoj & Hj).
  cbn in Hnd. apply NoDup_cons in Hnd as [Hn Hnd]. apply get_member_elem in Hv as Hin.
  rewrite Forall_forall in Hst. destruct (Hst _ Hin) as [Hsv Hsw]. cbn [snd] in Hsv, Hsw.
  cbn in Hpl. apply andb_true_iff in Hpl as [Hp Hpl].
  assert (encodable L v = true).
  { rewrite forallb_forall in Henc. apply (Henc (mem_name m, v)). by apply list_elem_of_In. }
  assert (height v < fuel)%nat.
  { eapply Nat.le_lt_trans; [apply heights_elem|exact Hfu].
    apply list_elem_of_fmap. by exists (mem_name m, v). }
  cbn [ser_fields]. rewrite Hv. cbn [deref]. rewrite outcome_bind_ret_l.
  destruct (sc_field n (serialize env fuel (mem_type m) v) (if oj is Some _ then false else true)
    (default JNull oj) f o0 Hf) as (f' & -> & Hf').
  { apply Hfree. by left. }
  { by apply plain_key. }
  { intros s' Hs'. destruct (member_stores (mem_type m) v oj fuel s') as (s'' & -> & Hr & Hc); try done.
    by exists s''. }
  cbn. eapply IH; [done|done| |exact Hj|].
  - intros k Hk. destruct oj; [|apply Hfree; by right].
    rewrite sm_lookup_insert_ne; [apply Hfree; by right|]. by intros ->.
  - rewrite Hf'. by destruct oj.
Qed.

Lemma value_stores v : stores v /\ (forall w, v = VOptional (Some w) -> stores w).
Proof using HC Hnames.
  induction v as [b|z|x|x| | |u v IH|m IH|l IH|w IH|a IH|fs IH] using value_nested_ind;
    (split; [|try by intros ? [=]]); try (intros t j fuel s He Hj Hf Hs; destruct fuel as [|fuel]; [lia|];
      destruct t; try discriminate Hj).
  - injection Hj as <-. by apply sc_boolean, Hs.
  - injection Hj as <-. apply sc_integer; [apply Hs|done].
  - injection Hj as <-. by apply sc_number, Hs.
  - injection Hj as <-. apply sc_string; [apply Hs|done].
  - injection Hj as <-. by apply sc_any_empty, Hs.
  - cbn in Hj, Hf, He. case_bool_decide as Hu; [done|]. destruct IH as [IH _]. cbn [serialize].
    apply sc_any; [apply Hs|by destruct u, v|].
    assert (Hrec : stored false j (serialize env fuel u v s)) by (apply IH; [done..|lia|done]).
    assert (Hrec' : stored false j (serialize env (S fuel) u v s)) by (apply IH; [done..|lia|done]).
    destruct u, v; done.
  - apply json_of_object in Hj as (o & -> & Ho). cbn [serialize]. cbn in He.
    apply andb_true_iff in He as [Hso He]. apply sc_object; [apply Hs|by apply sortedb_sorted|].
    rewrite height_object in Hf. clear Hso. revert Hf.
    induction Ho as [|ka kj m o [Hk Hj] Ho IHo]; intros Hf; constructor.
    + cbn in He, Hf. rewrite !andb_true_iff in He. destruct He as [[Hkey He] _].
      split; [done|]. split; [by rewrite <-Hk|]. intros s' Hs'. inversion_clear IH as [|? ? [Ha _] _].
      apply Ha; [done..|lia|by apply fresh_ready].
    + inversion_clear IH. cbn in He, Hf. apply andb_true_iff in He as [_ He].
      apply IHo; [done..| |unfold heights; lia]. split; [apply Hs|done].
  - apply json_of_array in Hj as (o & -> & Ho). cbn [serialize]. cbn in He.
    apply andb_true_iff in He as [Hlen He]. rewrite (Forall2_length _ _ _ Ho) in Hlen.
    apply sc_array; [apply Hs|done|]. rewrite height_array in Hf. clear Hlen Hs. revert Hf.
    induction Ho as [|v j l o Hj Ho IHo]; intros Hf; constructor.
    + intros s' Hs'. inversion_clear IH as [|? ? [Ha _] _]. cbn in He, Hf.
      apply andb_true_iff in He as [He _]. apply Ha; [done..|lia|by apply fresh_ready].
    + inversion_clear IH. cbn in He, Hf. apply andb_true_iff in He as [_ He].
      apply IHo; [done..|unfold heights; lia].
  - intros v [= ->]. exact (proj1 (IH v eq_refl)).
  - cbn in Hj, Hf, He. destruct IH as [IH _].
    apply (IH TAny j (S fuel) s He Hj ltac:(lia) Hs).
  - rewrite json_of_struct in Hj. apply bind_Some in Hj as (si & Hsi & Hj).
    apply bind_Some in Hj as (l & Hl & Hj). case_bool_decide; [|done].
    apply fmap_Some_1 in Hj as (o & Hj & ->). rewrite height_struct in Hf.
    destruct (serialize_struct_fields fuel name si l fs s Hsi Hl) as (cb & Hcb & ->).
    destruct (sc_struct s (proj1 Hs)) as (f & Hf0 & Hlaw).
    destruct (fields_store fuel l fs [] o f) as (f' & Hr & Ho); [done|done|lia|by eapply Hnames|by eapply Hnames|done..|].
    apply (Hlaw _ f'); [by rewrite Hcb|done].
Qed.

Lemma serialize_stores v t j fuel s :
  encodable L v = true -> json_of env v t = Some j -> (height v < fuel)%nat -> ready_ser j s ->
  stored false j (serialize env fuel t v s).
Proof using HC Hnames. apply value_stores. Qed.

End SerializeStores.

(** ** What a backend promises: deserializers

    [des_tree d] is the document [d] reads; [None] is the [NullDeserializer], what
    [field] hands out for a missing member. *)
Class DeserializerView (D : Type) := des_tree : D -> option jtree.

Class DeserializerContract (D : Type) (L : limits) `{Deserializer D} `{DeserializerView D} := {
  dc_limits :: LimitsOk L;
  dc_boolean d : des_boolean d = match des_tree d with Some (JBool b) => Some b | _ => None end;
  dc_string d s : des_tree d = Some (JString s) -> lim_string L s = true -> des_string d = Some s;
  dc_not_string d : (forall s, des_tree d <> Some (JString s)) -> des_string d = None;
  dc_integer d z : des_tree d = Some (JInt z) -> in_int64 z = true -> des_integer d = Some z;
  dc_number d x : des_tree d = Some (JFloat x) -> des_number d = Some x;
  dc_object fuel d o : des_tree d = Some (JObject o) -> canonical L true (JObject o) = true ->
    (jheight (JObject o) <= fuel)%nat ->
    des_object fuel d [] = Ret (true, map (fun kv => (kv.1, any_of_json kv.2)) o);
  dc_any fuel d j cur : des_tree d = Some j -> canonical L true j = true -> (jheight j < fuel)%nat ->
    des_any fuel d cur = Ret (true, any_of_json j);
  dc_array d l : des_tree d = Some (JArray l) ->
    des_count d = Ret (length l) /\
    exists ds, des_array d = Some ds /\ Forall2 (fun d j => des_tree d = Some j) ds l;
  dc_field d o name : des_tree d = Some (JObject o) -> lim_key L name = true ->
    exists d', des_field d name = Some d' /\ des_tree d' = sm_lookup o name;
  dc_field_other d j name : des_tree d = Some j -> (forall o, j <> JObject o) ->
    des_field d name = None \/ exists d', des_field d name = Some d' /\ des_tree d' = None;
  dc_missing_scalar d : des_tree d = None -> des_integer d = None /\ des_number d = None;
  dc_missing_object fuel d m : (0 < fuel)%nat -> des_tree d = None -> des_object fuel d m = Ret (false, m);
  dc_missing_any fuel d a : (0 < fuel)%nat -> des_tree d = None -> des_any fuel d a = Ret (false, a);
  dc_missing_array d : des_tree d = None -> (exists n, des_count d = Ret n) /\ des_array d = None;
  dc_missing_field d name : des_tree d = None -> des_field d name = None
}.

(** ** The types and schemas the round trip covers

    Optionals only as the type of a member; an optional struct has a field, else a
    missing member would be read as a struct. *)
Definition returns {A} (r : outcome A) : bool := match r with Ret _ => true | _ => false end.

Fixpoint type_ok (env : schema) (k : nat) (t : ty) : bool :=
  match t with
  | TNull | TOptional _ => false
  | TArray t => type_ok env k t && returns (construct env k t)
  | TStruct s => bool_decide (is_Some (env s))
  | _ => true
  end.

Definition rejects_missing (env : schema) (t : ty) : bool :=
  match t with
  | TStruct s =>
    match env s with
    | Some si => match resolved_fields env si with Some (_ :: _) => true | _ => false end
    | None => false
    end
  | _ => true
  end.

Definition member_type_ok (env : schema) (k : nat) (t : ty) : bool :=
  match t with
  | TOptional t => type_ok env k t && rejects_missing env t && returns (construct env k t)
  | _ => type_ok env k t
  end.

(** An initializer the deserializer overwrites. *)
Definition init_ok (m : member) : bool :=
  match m.(mem_init) with
  | None => true
  | Some _ => match m.(mem_type) with
              | TBoolean | TInteger | TNumber | TString | TAny => true
              | _ => false
              end
  end.

(** The member is serialized: some [DAP_FIELD] names it. *)
Definition serialized (env : schema) (si : struct_info) (name : string) : bool :=
  match resolved_fields env si with
  | Some l => existsb (fun mn => bool_decide (mn.1.(mem_name) = name)) l
  | None => false
  end.

(** A member no field names, which a decoded object has unset. *)
Definition left_out (m : member) : bool :=
  match m.(mem_type), m.(mem_init) with TOptional _, None => true | _, _ => false end.

(** A struct whose fields name members, each once and under a name of its own; a member
    that is not a field is an optional (the one a struct inherits from a base its
    [DAP_IMPLEMENT_STRUCT_TYPEINFO] does not mention). *)
Definition struct_ok (env : schema) (k : nat) (si : struct_info) : bool :=
  match resolved_fields env si with
  | None => false
  | Some l =>
    bool_decide (NoDup l.*2) && bool_decide (NoDup (mem_name <$> l.*1)) &&
    bool_decide (NoDup (member_names si)) && forallb (fun mn => plain mn.2) l &&
    forallb (fun m => serialized env si m.(mem_name) || left_out m) si.(si_members) &&
    forallb (fun mn => existsb (fun m => bool_decide (mn.1.(mem_name) = m.(mem_name)) &&
                                         ty_eqb mn.1.(mem_type) m.(mem_type)) si.(si_members)) l &&
    forallb (fun mn => member_type_ok env k mn.1.(mem_type)) l &&
    forallb (fun m => init_ok m && match m.(mem_type) with TNull => false | _ => true end) si.(si_members)
  end.

Definition schema_ok (env : schema) (k : nat) : Prop :=
  forall s si, env s = Some si -> struct_ok env k si = true.

(** The encoding loses nothing of the value: members that are not serialized are unset, in
    it and in the structs it holds. (An [any] that survives holds no struct.) *)
Definition unset (v : value) : bool := match v with VOptional None => true | _ => false end.

Fixpoint lossless (env : schema) (v : value) (t : ty) {struct v} : bool :=
  match t, v with
  | TArray t, VArray l => forallb (fun v => lossless env v t) l
  | TOptional t, VOptional (Some v) => lossless env v t
  | TStruct s, VStruct fs =>
    match env s with
    | None => true
    | Some si =>
      forallb (fun kv => (serialized env si kv.1 || unset kv.2) &&
        match member_of si kv.1 with Some m => lossless env kv.2 m.(mem_type) | None => true end) fs
    end
  | _, _ => true
  end.

(** Types made of the structs [ok], and a set of structs that serialize all their members
    and hold only structs of the set. *)
Fixpoint made_of (ok : string -> bool) (t : ty) : bool :=
  match t with
  | TArray t | TOptional t => made_of ok t
  | TStruct s => ok s
  | _ => true
  end.

Definition complete (env : schema) (ok : string -> bool) : Prop :=
  forall s si m, ok s = true -> env s = Some si -> m ∈ si.(si_members) ->
    serialized env si m.(mem_name) = true /\ made_of ok m.(mem_type) = true.

(** A default-constructed object: the deserializer overwrites or fills all of it. *)
Inductive fresh (env : schema) : ty -> value -> Prop :=
| fresh_boolean v : fresh env TBoolean v
| fresh_integer v : fresh env TInteger v
| fresh_number v : fresh env TNumber v
| fresh_string v : fresh env TString v
| fresh_any v : fresh env TAny v
| fresh_object : fresh env TObject (VObject [])
| fresh_array t : fresh env (TArray t) (VArray [])
| fresh_optional t : fresh env (TOptional t) (VOptional None)
| fresh_variant t0 ts a : fresh env (TVariant t0 ts) (VVariant a)
| fresh_struct s si fs : env s = Some si ->
    Forall2 (fun m nv => nv.1 = m.(mem_name) /\ fresh env m.(mem_type) nv.2) si.(si_members) fs ->
    fresh env (TStruct s) (VStruct fs).

Lemma construct_mono env k k' t v :
  construct env k t = Ret v -> (k <= k')%nat -> construct env k' t = Ret v.
Proof.
  revert k' t v. induction k as [|k IH]; intros [|k'] t v Hc Hk; try done; [lia|].
  destruct t; try done; cbn in *.
  - inv_outcome. by erewrite IH by (done || lia).
  - destruct (env name) as [si|]; [|done]. apply outcome_bind_inv in Hc as (fs & Hfs & [= <-]).
    match goal with |- mbind _ (?F _) = _ => assert (He : F (si_members si) = Ret fs) end; [|by rewrite He].
    revert fs Hfs. generalize (si_members si) as ms.
    induction ms as [|m ms IHm]; intros fs Hfs; [done|].
    apply outcome_bind_inv in Hfs as (x & Hx & Hfs). apply outcome_bind_inv in Hfs as (xs & Hxs & [= <-]).
    assert (Hx' : match mem_init m with Some v => Ret v | None => construct env k' (mem_type m) end = Ret x).
    { destruct (mem_init m); [done|]. by apply (IH k'); [|lia]. }
    cbn. rewrite Hx'. cbn. by rewrite (IHm _ Hxs).
Qed.

Lemma construct_fresh env k0 k t v :
  schema_ok env k0 -> construct env k t = Ret v -> t <> TNull -> fresh env t v.
Proof.
  intros Hok. revert t v. induction k as [|k IH]; intros t v Hc Ht; [done|].
  destruct t; cbn in Hc; try (injection Hc as <-); try constructor; try done.
  - inv_outcome. constructor.
  - destruct (env name) as [si|] eqn:Hs; [|done]. apply outcome_bind_inv in Hc as (fs & Hfs & [= <-]).
    econstructor; [exact Hs|]. specialize (Hok _ _ Hs). unfold struct_ok in Hok.
    destruct (resolved_fields env si); [|done]. rewrite !andb_true_iff in Hok. destruct Hok as [_ Hini].
    clear Hs. revert fs Hfs Hini. generalize (si_members si) as ms.
    induction ms as [|m ms IHm]; intros fs Hfs Hini; [injection Hfs as <-; constructor|].
    apply outcome_bind_inv in Hfs as (x & Hx & Hfs). apply outcome_bind_inv in Hfs as (xs & Hxs & [= <-]).
    cbn in Hini. rewrite !andb_true_iff in Hini. destruct Hini as [[Hi Hn] Hini].
    constructor; [|by apply IHm]. split; [done|]. unfold init_ok in Hi.
    destruct (mem_init m); [destruct (mem_type m); try done; constructor|].
    apply IH; [done|]. by destruct (mem_type m).
Qed.

Lemma returns_construct env k k' t :
  returns (construct env k t) = true -> (k <= k')%nat -> exists c, construct env k' t = Ret c.
Proof.
  destruct (construct env k t) as [c| | |] eqn:E; try done. intros _ Hk. exists c.
  by eapply construct_mono.
Qed.

(** Structs with the same member names are equal when their members are. *)
Lemma get_member_ext (fs gs : list (string * value)) :
  fs.*1 = gs.*1 -> NoDup fs.*1 -> (forall n, n ∈ fs.*1 -> get_member fs n = get_member gs n) -> fs = gs.
Proof.
  revert gs. induction fs as [|[n v] fs IH]; intros [|[n' w] gs] He Hnd Hg; try done.
  cbn in He, Hnd. injection He as -> He. apply NoDup_cons in Hnd as [Hn Hnd].
  assert (v = w) as ->.
  { specialize (Hg n'). cbn in Hg. rewrite !bool_decide_eq_true_2 in Hg by done. set_solver. }
  f_equal. apply IH; [done..|]. intros x Hx. specialize (Hg x). cbn in Hg.
  rewrite !bool_decide_eq_false_2 in Hg by (by intros ->). set_solver.
Qed.

Lemma get_member_is_Some (fs : list (string * value)) n : n ∈ fs.*1 -> is_Some (get_member fs n).
Proof.
  induction fs as [|[k v] fs IH]; cbn; [by intros ?%elem_of_nil|].
  case_bool_decide; [by eexists|]. intros [->|?]%elem_of_cons; [done|auto].
Qed.

(** The document of a struct holds, under the name of each field, the encoding of
    its member. *)
Lemma fields_json_lookup env l fs o0 o :
  NoDup l.*2 -> fields_json env l fs o0 = Some o ->
  (forall n, n ∉ l.*2 -> sm_lookup o n = sm_lookup o0 n) /\
  (forall m n, (m, n) ∈ l -> sm_lookup o0 n = None ->
    exists v oj, get_member fs m.(mem_name) = Some v /\ member_json env m.(mem_type) v = Some oj /\
      sm_lookup o n = oj).
Proof.
  revert o0. induction l as [|[m n] l IH]; intros o0 Hnd Hj.
  { injection Hj as <-. split; [done|]. by intros ?? ?%elem_of_nil. }
  cbn in Hj, Hnd. apply bind_Some in Hj as (v & Hv & Hj). apply bind_Some in Hj as (oj & Hoj & Hj).
  apply NoDup_cons in Hnd as [Hn Hnd]. destruct (IH _ Hnd Hj) as [Hout Hin]. split.
  - intros n' Hn'. cbn in Hn'. rewrite Hout by set_solver. destruct oj; [|done].
    apply sm_lookup_insert_ne. set_solver.
  - intros m' n' [[= -> ->]|Hl]%elem_of_cons Hfree.
    + exists v, oj. split_and!; [done..|]. rewrite Hout by done.
      destruct oj; [apply sm_lookup_insert_eq|done].
    + apply Hin; [done|]. destruct oj; [|done]. rewrite sm_lookup_insert_ne; [done|].
      intros ->. apply Hn. apply list_elem_of_fmap. by exists (m', n').
Qed.

(** ** [deserialize] loads the encoding *)
Section DeserializeLoads.
Context {D : Type} {HD : Deserializer D} {HV : DeserializerView D} {L : limits} {HC : DeserializerContract D L}.
Context (env : schema) (k : nat) (Hok : schema_ok env k).

Fixpoint des_fields (rec : ty -> D -> value -> outcome (bool * value)) (l : list (member * string))
    (fd : D) (obj : list (string * value)) : outcome (bool * list (string * value)) :=
  match l with
  | [] => Ret (true, obj)
  | (m, name) :: l =>
    match des_field fd name with
    | None => Ret (false, obj)
    | Some d =>
      cur ← deref (get_member obj m.(mem_name));
      '(ok, v) ← rec m.(mem_type) d cur;
      let obj := set_member obj m.(mem_name) v in
      if (ok : bool) then des_fields rec l fd obj else Ret (false, obj)
    end
  end.

Lemma deserializeFields_resolved rec si l d obj :
  resolve si = Some l -> deserializeFields rec si si.(si_fields) d obj = des_fields rec l d obj.
Proof.
  intros HF%resolve_spec. revert obj.
  induction HF as [|[f n] [m n'] fields l [Hm Hn] _ IH]; intros obj; cbn in *; [done|]. subst n'.
  destruct (des_field d n); [|done]. rewrite Hm. cbn. rewrite (member_of_name _ _ _ Hm).
  destruct (get_member obj f); cbn; [|done].
  destruct (rec _ _ _) as [[[] v']| | |]; cbn; [apply IH|done..].
Qed.

Lemma des_fields_app rec l l' d obj :
  des_fields rec (l ++ l') d obj = and_then (des_fields rec l d obj) (des_fields rec l' d).
Proof.
  revert obj. induction l as [|[m n] l IH]; intros obj; cbn; [done|].
  destruct (des_field d n); [|done]. destruct (get_member _ _); cbn; [|done].
  destruct (rec _ _ _) as [[[] v']| | |]; cbn; [apply IH|done..].
Qed.

Lemma deserialize_struct_fields fuel s si l d obj :
  env s = Some si -> resolved_fields env si = Some l ->
  deserialize env (S fuel) (TStruct s) d (VStruct obj) =
    ('(ok, obj) ← des_fields (deserialize env fuel) l d obj; Ret (ok, VStruct obj)).
Proof.
  intros Hs Hl. cbn [deserialize]. rewrite Hs. cbn [deref]. rewrite outcome_bind_ret_l.
  unfold resolved_fields in Hl. f_equal. destruct (si_base si) as [base|].
  - apply bind_Some in Hl as (bsi & Hb & Hl). apply bind_Some in Hl as (l1 & Hl1 & Hl).
    apply bind_Some in Hl as (l2 & Hl2 & [= <-]). rewrite Hb. cbn [deref]. rewrite outcome_bind_ret_l.
    rewrite des_fields_app, <-(deserializeFields_resolved _ bsi) by done.
    destruct (deserializeFields _ bsi _ _ _) as [[[] fs']| | |]; cbn; try done.
    by apply deserializeFields_resolved.
  - cbn. by apply deserializeFields_resolved.
Qed.

Lemma default_elements_fresh fuel t n :
  type_ok env k t = true -> returns (construct env k t) = true -> (k <= fuel)%nat ->
  exists cs, default_elements env fuel t n = Ret cs /\ length cs = n /\ Forall (fresh env t) cs.
Proof using Hok.
  intros Ht Hr Hf. destruct (returns_construct env k fuel t Hr Hf) as [c Hc].
  assert (fresh env t c) by (eapply construct_fresh; [done..|]; by intros ->).
  induction n as [|n (cs & Hcs & Hl & Hfr)]; [by exists []|].
  exists (c :: cs). cbn. rewrite Hc. cbn. rewrite Hcs. cbn. auto using Forall_cons_2 with lia.
Qed.

(** A missing member fails, so that an optional stays unset. *)
Lemma deserialize_missing fuel t d c :
  (S k < fuel)%nat -> des_tree d = None -> type_ok env k t = true -> rejects_missing env t = true ->
  fresh env t c -> exists c', deserialize env fuel t d c = Ret (false, c').
Proof using HC Hok.
  intros Hf Hd Ht Hr Hc. destruct fuel as [|fuel]; [lia|].
  destruct (dc_missing_scalar d Hd) as [Hi Hn]. destruct (dc_missing_array d Hd) as [[cnt Hcount] Har].
  destruct Hc; try done; cbn [deserialize].
  - rewrite dc_boolean, Hd. by eexists.
  - rewrite Hi. by eexists.
  - rewrite Hn. by eexists.
  - rewrite dc_not_string by by rewrite Hd. by eexists.
  - rewrite dc_missing_any by (done || lia). by eexists.
  - rewrite dc_missing_object by (done || lia). by eexists.
  - unfold deserialize_array, resize. rewrite Har, Hcount. cbn in Ht. apply andb_true_iff in Ht as [Ht Hret].
    destruct (default_elements_fresh fuel t (cnt - 0)) as (cs & Hcs & _); [done..|lia|].
    cbn [length]. rewrite outcome_bind_ret_l, Hcs. by eexists.
  - rewrite dc_missing_any by (done || lia). by eexists.
  - change (exists c', deserialize env (S fuel) (TStruct s) d (VStruct fs) = Ret (false, c')).
    cbn in Hr. rewrite H in Hr. destruct (resolved_fields env si) as [[|[m n] l]|] eqn:El; try done.
    erewrite deserialize_struct_fields by done. cbn. rewrite dc_missing_field by done. by eexists.
Qed.

Lemma array_loop_loads (P : value -> Prop) (elem : D -> value -> outcome (bool * value)) ds vs cs pre :
  Forall2 (fun d v => forall c, P c -> elem d c = Ret (true, v)) ds vs ->
  length cs = length vs -> Forall P cs ->
  array_loop elem ds (length pre) (pre ++ cs) = Ret (true, pre ++ vs).
Proof.
  intros HF. revert cs pre. induction HF as [|d v ds vs Hd HF IH]; intros cs pre Hl HP.
  { by destruct cs. }
  destruct cs as [|c cs]; [done|]. apply Forall_cons in HP as [Hc HP]. cbn [array_loop].
  rewrite list_lookup_middle by done. cbn [deref]. rewrite outcome_bind_ret_l.
  rewrite Hd by done. cbn. rewrite insert_app_r_alt by lia. rewrite Nat.sub_diag. cbn.
  replace (pre ++ v :: cs) with ((pre ++ [v]) ++ cs) by by rewrite <-app_assoc.
  replace (S (length pre)) with (length (pre ++ [v])) by (rewrite length_app; cbn; lia).
  rewrite IH; [by rewrite <-app_assoc|by injection Hl|done].
Qed.

(** The loop over the fields, when each field in turn loads its member. *)
Lemma des_fields_load rec l d (fs obj : list (string * value)) :
  obj.*1 = fs.*1 -> NoDup (mem_name <$> l.*1) ->
  (forall m n, (m, n) ∈ l -> exists cur v d', get_member obj m.(mem_name) = Some cur /\
    get_member fs m.(mem_name) = Some v /\ des_field d n = Some d' /\
    rec m.(mem_type) d' cur = Ret (true, v)) ->
  exists obj', des_fields rec l d obj = Ret (true, obj') /\ obj'.*1 = fs.*1 /\
    (forall x, x ∈ (mem_name <$> l.*1) -> get_member obj' x = get_member fs x) /\
    (forall x, x ∉ (mem_name <$> l.*1) -> get_member obj' x = get_member obj x).
Proof.
  revert obj. induction l as [|[m n] l IH]; intros obj Hn Hnd Hl.
  { exists obj. split_and!; [done..| |done]. by intros x ?%elem_of_nil. }
  cbn in Hnd. apply NoDup_cons in Hnd as [Hni Hnd].
  destruct (Hl m n ltac:(by left)) as (cur & v & d' & Hcur & Hv & Hd & Hr).
  cbn [des_fields]. rewrite Hd, Hcur. cbn [deref]. rewrite outcome_bind_ret_l, Hr.
  rewrite outcome_bind_ret_l.
  destruct (IH (set_member obj (mem_name m) v)) as (obj' & -> & Hn' & Hin & Hout).
  - by rewrite set_member_names.
  - done.
  - intros m' n' Hin. destruct (Hl m' n') as (cur' & v' & d'' & Hc' & Hrest); [by right|].
    exists cur', v', d''. split; [|done]. rewrite get_set_member_ne; [done|].
    intros He. apply Hni. rewrite He. rewrite <-list_fmap_compose. apply list_elem_of_fmap.
    by exists (m', n').
  - exists obj'. split_and!; [done..| |].
    + intros x [->|Hx]%elem_of_cons; [|by apply Hin]. cbn. rewrite Hout, Hv by done.
      apply get_set_member_eq. by eexists.
    + intros x Hx. cbn in Hx. apply not_elem_of_cons in Hx as [Hne Hx]. rewrite Hout by done.
      by apply get_set_member_ne.
Qed.

Definition loads (v : value) : Prop :=
  forall t j fuel d c, natural L false v = true -> lossless env v t = true -> type_ok env k t = true -> json_of env v t = Some j ->
    des_tree d = Some j -> fresh env t c -> (2 + k + height v < fuel)%nat ->
    deserialize env fuel t d c = Ret (true, v).

(** A member, from the document of its struct under the field's name. *)
Lemma member_loads t v oj fuel d c :
  loads v -> (forall w, v = VOptional (Some w) -> loads w) ->
  natural L false v = true -> lossless env v t = true -> member_type_ok env k t = true -> member_json env t v = Some oj ->
  des_tree d = oj -> fresh env t c -> (2 + k + height v < fuel)%nat ->
  deserialize env fuel t d c = Ret (true, v).
Proof using HC Hok.
  intros Hv Hw Hn Hca Ht Hj Hd Hc Hf.
  assert (Hplain : type_ok env k t = true -> Some <$> json_of env v t = Some oj ->
    deserialize env fuel t d c = Ret (true, v)).
  { intros Ht' (j & Hjv & ->)%fmap_Some_1. by eapply Hv. }
  destruct t as [| | | | | | | |t| |]; try exact (Hplain Ht Hj).
  cbn in Ht. rewrite !andb_true_iff in Ht. destruct Ht as [[Ht Hr] Hret].
  destruct v as [| | | | | | | | |o| |]; try (cbn in Hj; discriminate Hj).
  destruct fuel as [|fuel]; [lia|]. cbn [deserialize].
  destruct (returns_construct env k fuel t Hret ltac:(lia)) as [c0 Hc0]. rewrite Hc0. cbn.
  assert (fresh env t c0) by (eapply construct_fresh; [done..|]; by intros ->).
  inversion Hc; subst. destruct o as [w|]; cbn in Hj.
  - apply fmap_Some_1 in Hj as (j & Hj & Hd). cbn in Hf. rewrite (Hw w eq_refl t j fuel d c0); [done..|]. cbn in *. lia.
  - injection Hj as Hd. destruct (deserialize_missing fuel t d c0) as [c' ->]; [lia|done..].
Qed.

Lemma struct_ok_inv s si :
  env s = Some si -> exists l, resolved_fields env si = Some l /\ NoDup l.*2 /\
    (forall m n, (m, n) ∈ l -> plain n = true) /\ NoDup (mem_name <$> l.*1) /\ NoDup (member_names si) /\
    (forall m n, (m, n) ∈ l -> member_type_ok env k m.(mem_type) = true /\
      exists m', m' ∈ si.(si_members) /\ m'.(mem_name) = m.(mem_name) /\ m'.(mem_type) = m.(mem_type)) /\
    (forall m, m ∈ si.(si_members) -> m.(mem_name) ∈ (mem_name <$> l.*1) \/
      serialized env si m.(mem_name) = false /\ left_out m = true).
Proof using Hok.
  intros Hs. specialize (Hok _ _ Hs). unfold struct_ok in Hok.
  destruct (resolved_fields env si) as [l|] eqn:Hl; [|done]. exists l.
  rewrite !andb_true_iff, !bool_decide_eq_true, !forallb_forall in Hok.
  destruct Hok as [[[[[[[H1 H2] H3] H7] H4] H5] H6] _]. split_and!; [done|done| |done|done| |].
  - intros m n Hin%list_elem_of_In. exact (H7 _ Hin).
  - intros m n Hin%list_elem_of_In. split; [exact (H6 _ Hin)|].
    specialize (H5 _ Hin). apply existsb_exists in H5 as (m' & Hm' & He).
    rewrite andb_true_iff, bool_decide_eq_true, ty_eqb_eq in He. exists m'.
    split; [by apply list_elem_of_In|]. by destruct He.
  - intros m Hm%list_elem_of_In. specialize (H4 _ Hm). destruct (serialized env si (mem_name m)) eqn:Es; [left|by right].
    unfold serialized in Es. rewrite Hl in Es. apply existsb_exists in Es as ([m' n] & Hm' & He).
    apply bool_decide_eq_true in He. cbn in He. rewrite <-He, <-list_fmap_compose. apply list_elem_of_fmap. exists (m', n).
    split; [done|by apply list_elem_of_In].
Qed.

(** A fresh struct has every member, fresh. *)
Lemma fresh_member si fs m' :
  Forall2 (fun m nv => nv.1 = m.(mem_name) /\ fresh env m.(mem_type) nv.2) si.(si_members) fs ->
  NoDup (member_names si) -> m' ∈ si.(si_members) ->
  exists cur, get_member fs m'.(mem_name) = Some cur /\ fresh env m'.(mem_type) cur.
Proof.
  unfold member_names. intros HF. induction HF as [|m [n c] ms fs [Hn Hc] _ IH]; [by intros _ ?%elem_of_nil|].
  cbn in *. intros [Hni Hnd]%NoDup_cons [->|Hin]%elem_of_cons.
  - rewrite bool_decide_eq_true_2 by done. by exists c.
  - rewrite bool_decide_eq_false_2; [by apply IH|]. intros He. apply Hni. apply list_elem_of_fmap.
    exists m'. split; [congruence|done].
Qed.

Lemma fresh_names si fs :
  Forall2 (fun m nv => nv.1 = m.(mem_name) /\ fresh env m.(mem_type) nv.2) si.(si_members) fs ->
  fs.*1 = member_names si.
Proof. unfold member_names. induction 1 as [|m nv ms fs [Hn _] _ IH]; cbn; congruence. Qed.

Lemma forallb_member {A} (f : A -> bool) (l : list (string * A)) kv :
  forallb (fun kv => f kv.2) l = true -> kv ∈ l -> f kv.2 = true.
Proof. rewrite forallb_forall. intros H Hin%list_elem_of_In. by apply (H kv). Qed.

Lemma member_of_elem si m : m ∈ si.(si_members) -> NoDup (member_names si) -> member_of si m.(mem_name) = Some m.
Proof.
  unfold member_of, member_names. intros Hm Hnd. destruct (list_find _ _) as [[i m']|] eqn:E.
  - apply list_find_Some in E as (Hi & He & _). apply list_elem_of_lookup_1 in Hm as [j Hj]. f_equal.
    assert (i = j) as ->; [|congruence].
    eapply NoDup_lookup; [exact Hnd|by rewrite list_lookup_fmap, Hi|rewrite list_lookup_fmap, Hj; cbn; congruence].
  - apply list_find_None in E. rewrite Forall_forall in E. by destruct (E m Hm).
Qed.

Section Lossless.
Context (si : struct_info) (fs : list (string * value)).
Context (Hca : forallb (fun kv => (serialized env si kv.1 || unset kv.2) &&
  match member_of si kv.1 with Some m => lossless env kv.2 m.(mem_type) | None => true end) fs = true).

Lemma lossless_member m v : NoDup (member_names si) -> m ∈ si.(si_members) -> (m.(mem_name), v) ∈ fs ->
  lossless env v m.(mem_type) = true.
Proof using Hca.
  intros Hnd Hm Hin%list_elem_of_In. rewrite forallb_forall in Hca. specialize (Hca _ Hin). cbn in Hca.
  rewrite member_of_elem in Hca by done. by apply andb_true_iff in Hca as [_ ?].
Qed.

Lemma lossless_unset n v : serialized env si n = false -> (n, v) ∈ fs -> unset v = true.
Proof using Hca.
  intros Hs Hin%list_elem_of_In. rewrite forallb_forall in Hca. specialize (Hca _ Hin). cbn in Hca.
  rewrite Hs in Hca. by apply andb_true_iff in Hca as [? _].
Qed.
End Lossless.

Lemma unset_inv m cur v : left_out m = true -> fresh env m.(mem_type) cur -> unset v = true -> cur = v.
Proof.
  unfold left_out, unset. intros Hl Hf Hv. destruct (mem_type m); try done. inversion Hf; subst.
  by destruct v as [| | | | | | | | |[]| |].
Qed.

Lemma struct_loads fs :
  Forall (fun kv => loads kv.2 /\ forall w, kv.2 = VOptional (Some w) -> loads w) fs ->
  loads (VStruct fs).
Proof using HC Hok.
  intros Hall t j fuel d c Hn Hca Ht Hj Hd Hc Hf. destruct fuel as [|fuel]; [lia|].
  destruct t as [| | | | | | | | | |s]; try discriminate Hj.
  rewrite json_of_struct in Hj. apply bind_Some in Hj as (si & Hs & Hj).
  apply bind_Some in Hj as (l & Hl & Hj). case_bool_decide as Hnames; [|done].
  apply fmap_Some_1 in Hj as (o & Hj & ->).
  destruct (struct_ok_inv _ _ Hs) as (l' & Hl' & Hnd2 & Hplain & Hnd1 & Hndm & Hfields & Hcover).
  assert (l' = l) as -> by congruence.
  inversion Hc as [| | | | | | | | |s' si' obj Hs' Hobj]; subst.
  assert (si' = si) as -> by congruence. cbn [lossless] in Hca. rewrite Hs in Hca.
  erewrite deserialize_struct_fields by done.
  destruct (fields_json_lookup env l fs [] o Hnd2 Hj) as [_ Hlook].
  rewrite height_struct in Hf. cbn [natural] in Hn. rewrite Forall_forall in Hall.
  destruct (des_fields_load (deserialize env fuel) l d fs obj) as (obj' & -> & Hn' & Hin & Hout).
  - rewrite (fresh_names _ _ Hobj). done.
  - done.
  - intros m n Hmn. destruct (Hfields m n Hmn) as (Hmt & m' & Hm' & Hmn' & Hmty).
    destruct (fresh_member si obj m' Hobj Hndm Hm') as (cur & Hcur & Hfr).
    destruct (Hlook m n Hmn eq_refl) as (v & oj & Hv & Hoj & Ho).
    destruct (dc_field d o n Hd) as (d' & Hd' & Htree); [by eapply plain_key, Hplain|].
    apply get_member_elem in Hv as Hvin. destruct (Hall _ Hvin) as [Hlv Hlw]. cbn [snd] in Hlv, Hlw.
    exists cur, v, d'. rewrite <-Hmn' at 1. split_and!; [done..|].
    apply (member_loads _ _ oj); try done.
    + by apply (forallb_member (natural L false) fs (mem_name m, v)).
    + rewrite <-Hmty. rewrite <-Hmn' in Hvin. by eapply lossless_member.
    + by rewrite Htree.
    + by rewrite <-Hmty.
    + assert (height v <= heights fs.*2)%nat; [|lia]. apply heights_elem, list_elem_of_fmap.
      by exists (mem_name m, v).
  - cbn. do 3 f_equal. apply get_member_ext; [done| |].
    + by rewrite Hn', Hnames.
    + intros x Hx. rewrite Hn', Hnames in Hx. apply list_elem_of_fmap in Hx as (m & -> & Hm).
      destruct (Hcover m Hm) as [Hx|[Hns Hlo]]; [by apply Hin|]. rewrite Hout.
      * destruct (fresh_member si obj m Hobj Hndm Hm) as (cur & -> & Hfr).
        destruct (get_member_is_Some fs (mem_name m)) as [v Hv]; [rewrite Hnames; by apply list_elem_of_fmap_2|].
        rewrite Hv. f_equal. eapply unset_inv; [done|done|]. by eapply lossless_unset, get_member_elem.
      * intros (m' & He & Hm')%list_elem_of_fmap. apply list_elem_of_fmap in Hm' as ([m'' n] & -> & Hm').
        unfold serialized in Hns. rewrite Hl in Hns. apply not_true_iff_false in Hns. apply Hns, existsb_exists.
        exists (m'', n). split; [by apply list_elem_of_In|]. by apply bool_decide_eq_true.
Qed.

Lemma array_loads l : Forall loads l -> loads (VArray l).
Proof using HC Hok.
  intros Hall t j fuel d c Hn Hca Ht Hj Hd Hc Hf. destruct fuel as [|fuel]; [lia|].
  destruct t as [| | | | | | |t| | |]; try discriminate Hj. cbn [lossless] in Hca.
  apply json_of_array in Hj as (js & -> & HF). inversion Hc; subst.
  cbn in Ht. apply andb_true_iff in Ht as [Ht Hr]. rewrite height_array in Hf.
  destruct (dc_array d js Hd) as (Hct & ds & Hds & HFd).
  cbn [deserialize]. unfold deserialize_array, resize. rewrite Hct, Hds, outcome_bind_ret_l.
  destruct (default_elements_fresh fuel t (length js)) as (cs & Hcs & Hlen & Hfr); [done..|lia|].
  rewrite Nat.sub_0_r, Hcs. rewrite take_nil.
  cbn [app]. rewrite !outcome_bind_ret_l.
  rewrite (array_loop_loads (fresh env t) _ ds l cs []); [done| |by rewrite Hlen, (Forall2_length _ _ _ HF)|done].
  clear Hcs Hlen Hfr cs Hct Hds Hd Hc. cbn [natural] in Hn. apply andb_true_iff in Hn as [_ Hn].
  revert ds HFd.
  induction HF as [|v j l js Hj HF IH]; intros ds HFd; inversion HFd as [|d0 ? ds0 ? Hd0 HFd0]; subst; constructor.
  - intros c0 Hc0. inversion_clear Hall as [|? ? Hv _]. cbn in Hn, Hf.
    apply andb_true_iff in Hn as [Hn _]. cbn in Hca. apply andb_true_iff in Hca as [Hca _]. apply (Hv t j); [done..|lia].
  - inversion_clear Hall. cbn in Hn, Hf, Hca. apply andb_true_iff in Hn as [_ Hn]. apply andb_true_iff in Hca as [_ Hca].
    apply IH; [done..|unfold heights; lia|done].
Qed.

Lemma value_loads v : loads v /\ (forall w, v = VOptional (Some w) -> loads w).
Proof using HC Hok.
  induction v as [b|z|x|x| | |u v IH|m IH|l IH|w IH|a IH|fs IH] using value_nested_ind;
    (split; [|try by intros ? [=]]);
    try (intros t j fuel d c Hn Hca Ht Hj Hd Hc Hf; destruct fuel as [|fuel]; [lia|];
      destruct t; try discriminate Hj).
  - injection Hj as <-. cbn [deserialize]. by rewrite dc_boolean, Hd.
  - injection Hj as <-. cbn [deserialize]. erewrite dc_integer; [done..|].
    cbn in Hn. by apply andb_true_iff in Hn as [Hn _].
  - injection Hj as <-. cbn [deserialize]. by erewrite dc_number.
  - injection Hj as <-. cbn [deserialize]. by erewrite dc_string.
  - injection Hj as <-. cbn [deserialize]. by erewrite dc_any; [|done..|cbn; lia].
  - destruct (natural_any L env _ _ TAny _ Hn Hj) as [[Hcan Hany] _]; [done|]. cbn [deserialize].
    pose proof (any_of_json_height j). rewrite Hany in *.
    erewrite dc_any; [|done..|lia]. by rewrite Hany.
  - destruct (natural_any L env _ _ TObject _ Hn Hj) as [_ [Hcan Hany]]; [done|by right|].
    pose proof (any_of_json_height j) as Hh. rewrite Hany in Hh. change (height (VAny ?t ?v)) with (S (height v)) in Hh.
    apply json_of_object in Hj as (o & -> & _). inversion Hc; subst. cbn [deserialize].
    erewrite dc_object; [|done..|lia]. injection Hany as <-. done.
  - apply (array_loads l) with (j := j); try done. eapply Forall_impl; [exact IH|]. by intros ? [].
  - intros v [= ->]. exact (proj1 (IH v eq_refl)).
  - cbn in Hn, Hj, Hf. destruct (natural_any L env _ _ TAny _ Hn Hj) as [[Hcan Hany] _]; [done|].
    inversion Hc; subst. cbn [deserialize]. pose proof (any_of_json_height j).
    erewrite dc_any; [|done..|lia]. done.
  - by apply (struct_loads fs IH _ j).
Qed.

Lemma deserialize_loads v t j fuel d c :
  natural L false v = true -> lossless env v t = true -> type_ok env k t = true -> json_of env v t = Some j ->
  des_tree d = Some j -> fresh env t c -> (2 + k + height v < fuel)%nat ->
  deserialize env fuel t d c = Ret (true, v).
Proof using HC Hok. apply value_loads. Qed.
End DeserializeLoads.

(** Structs that serialize every member carry every value that has an encoding, so that
    the round trips need no condition on values there. *)
Lemma get_member_unique (fs : list (string * value)) n v : NoDup fs.*1 -> (n, v) ∈ fs -> get_member fs n = Some v.
Proof.
  induction fs as [|[k w] fs IH]; cbn; [by intros _ ?%elem_of_nil|]. intros [Hk Hnd]%NoDup_cons [[= -> ->]|Hin]%elem_of_cons.
  - by rewrite bool_decide_eq_true_2.
  - rewrite bool_decide_eq_false_2; [by apply IH|]. intros ->. apply Hk, list_elem_of_fmap. by exists (n, v).
Qed.

Lemma complete_lossless env k ok v t j :
  schema_ok env k -> complete env ok -> made_of ok t = true -> json_of env v t = Some j -> lossless env v t = true.
Proof.
  intros Hok Hco. cut ((forall t j, made_of ok t = true -> json_of env v t = Some j -> lossless env v t = true) /\
    forall w t j, v = VOptional (Some w) -> made_of ok t = true -> json_of env w t = Some j -> lossless env w t = true).
  { intros [Hp _] Hm Hj. by eapply Hp. }
  clear t j. induction v as [b|z|x|x| | |u v IH|m IH|l IH|w IH|a IH|fs IH] using value_nested_ind;
    (split; [|try by intros ? ? ? [=]]); try (intros t j Ht Hj; destruct t; done).
  - intros t j Ht Hj. destruct t; try done. apply json_of_array in Hj as (o & -> & HF). cbn.
    induction HF as [|v j l o Hj _ IHF]; [done|]. inversion_clear IH as [|? ? [Hv _] IHl]. cbn. by rewrite (Hv t j Ht Hj), IHF.
  - intros v t j [= ->] Ht Hj. by apply (proj1 (IH v eq_refl) t j).
  - intros t j Ht Hj. destruct t as [| | | | | | | | | |s]; try done. rewrite json_of_struct in Hj.
    apply bind_Some in Hj as (si & Hs & Hj). apply bind_Some in Hj as (l & Hl & Hj). case_bool_decide as Hnames; [|done].
    apply fmap_Some_1 in Hj as (o & Hj & ->). cbn. rewrite Hs.
    destruct (struct_ok_inv env k Hok s si Hs) as (l' & Hl' & Hnd2 & _ & _ & Hndm & Hfields & Hcover).
    assert (l' = l) as -> by congruence. destruct (fields_json_lookup env l fs [] o Hnd2 Hj) as [_ Hlook].
    apply forallb_forall. intros [n v] Hin%list_elem_of_In. cbn.
    assert (Hn : n ∈ member_names si) by (rewrite <-Hnames; apply list_elem_of_fmap; by exists (n, v)).
    apply list_elem_of_fmap in Hn as (m & -> & Hm). destruct (Hco s si m Ht Hs Hm) as [Hser Hmo]. rewrite Hser. cbn.
    rewrite member_of_elem by done. unfold serialized in Hser. rewrite Hl in Hser.
    apply existsb_exists in Hser as ([m' n] & Hm'%list_elem_of_In & He%bool_decide_eq_true). cbn in He.
    destruct (Hfields m' n Hm') as (_ & m2 & Hm2 & Hn2 & Ht2). destruct (Hlook m' n Hm' eq_refl) as (v' & oj & Hv' & Hoj & _).
    assert (m2 = m) as ->. { pose proof (member_of_elem si m2 Hm2 Hndm). pose proof (member_of_elem si m Hm Hndm). congruence. }
    rewrite He, get_member_unique with (v := v) in Hv'; [|by rewrite Hnames|done]. injection Hv' as <-. rewrite <-Ht2 in Hoj.
    rewrite Forall_forall in IH. destruct (IH _ Hin) as [Hp Hw]. cbn in Hp, Hw.
    unfold member_json in Hoj. destruct (mem_type m); try (apply fmap_Some_1 in Hoj as (j' & Hj' & _); by eapply Hp).
    destruct v as [| | | | | | | | |[w|]| |]; try done. apply fmap_Some_1 in Hoj as (j' & Hj' & _). cbn. by eapply Hw.
Qed.

(** ** Documents that survive printing and parsing

    JSON text is UTF-8 and has no infinities or NaNs. *)
Definition in_range (lo hi : Z) (c : ascii) : bool := (lo <=? code c) && (code c <=? hi).
Definition continuation : ascii -> bool := in_range 128 191.

Fixpoint utf8 (l : bytes) : bool :=
  match l with
  | [] => true
  | c :: l =>
    if code c <? 128 then utf8 l
    else match l with
    | [] => false
    | c1 :: l =>
      if in_range 194 223 c then continuation c1 && utf8 l
      else match l with
      | [] => false
      | c2 :: l =>
        if in_range 224 239 c then
          in_range (if code c =? 224 then 160 else 128) (if code c =? 237 then 159 else 191) c1 &&
          continuation c2 && utf8 l
        else match l with
        | [] => false
        | c3 :: l =>
          in_range 240 244 c &&
          in_range (if code c =? 240 then 144 else 128) (if code c =? 244 then 143 else 191) c1 &&
          continuation c2 && continuation c3 && utf8 l
        end
      end
    end
  end.

(** A double whose exponent field is not all ones. *)
Definition finite (x : double) : bool := negb ((x / 2 ^ 52) mod 2 ^ 11 =? 2047).

Fixpoint printable (j : jtree) : bool :=
  match j with
  | JFloat x => finite x
  | JString s => utf8 (bytes_of s)
  | JArray l => forallb printable l
  | JObject o => forallb (fun kv => utf8 (bytes_of kv.1) && printable kv.2) o
  | _ => true
  end.

(** ** The encoding is canonical *)
Lemma fields_json_canonical L env l fs o0 o :
  Forall (fun kv => (forall t j, encodable L kv.2 = true -> json_of env kv.2 t = Some j -> canonical L false j = true) /\
    forall w t j, kv.2 = VOptional (Some w) -> encodable L w = true -> json_of env w t = Some j ->
      canonical L false j = true) fs ->
  forallb (fun kv => encodable L kv.2) fs = true -> Forall (fun mn => lim_key L mn.2 = true) l ->
  canonical L false (JObject o0) = true -> fields_json env l fs o0 = Some o -> canonical L false (JObject o) = true.
Proof.
  intros Hfs He Hkeys. revert o0. induction Hkeys as [|[m n] l Hk _ IH]; intros o0 Ho Hj; [by injection Hj as <-|].
  cbn in Hj. apply bind_Some in Hj as (v & Hv & Hj). apply bind_Some in Hj as (oj & Hoj & Hj).
  apply (IH _) in Hj; [done|]. destruct oj as [j|]; [|done].
  apply get_member_elem in Hv as Hin. rewrite Forall_forall in Hfs. destruct (Hfs _ Hin) as [Hp Hw].
  pose proof (forallb_member (encodable L) fs _ He Hin) as Hev. cbn [snd] in Hp, Hw, Hev.
  assert (Hcj : canonical L false j = true).
  { unfold member_json in Hoj. destruct (mem_type m); try (apply fmap_Some_1 in Hoj as (j' & Hj' & [= <-]); by eapply Hp).
    destruct v as [| | | | | | | | |[w|]| |]; try done;
      apply fmap_Some_1 in Hoj as (j' & Hj' & [= <-]); [|by eapply Hp..]. by eapply Hw. }
  cbn in Ho |- *. rewrite !andb_true_iff in *. destruct Ho as [Hs Ho]. split.
  - apply sortedb_sorted, sm_insert_sorted, sortedb_sorted, Hs.
  - rewrite forallb_forall in Ho |- *. intros kv Hkv%list_elem_of_In.
    assert (HF : Forall (fun kv => lim_key L kv.1 && canonical L false kv.2 = true) (sm_insert o0 n j)).
    { apply (sm_insert_forall (fun kv : string * jtree => lim_key L kv.1 && canonical L false kv.2 = true)).
      - cbn in Hk |- *. by rewrite Hk, Hcj.
      - apply Forall_forall. intros x Hx. by apply Ho, list_elem_of_In. }
    rewrite Forall_forall in HF. by apply HF.
Qed.

Lemma json_of_canonical L `{!LimitsOk L} env v t j :
  names_ok env -> encodable L v = true -> json_of env v t = Some j -> canonical L false j = true.
Proof.
  intros Hnames.
  cut ((forall t j, encodable L v = true -> json_of env v t = Some j -> canonical L false j = true) /\
    forall w t j, v = VOptional (Some w) -> encodable L w = true -> json_of env w t = Some j ->
      canonical L false j = true).
  { naive_solver. }
  clear t j. induction v as [b|z|x|x| | |u v IH|m IH|l IH|w IH|a IH|fs IH] using value_nested_ind;
    (split; [|try by intros ? ? ? [=]]); try by intros ? ? [=].
  all: try (intros t j He Hj; destruct t; try discriminate Hj; injection Hj as <-; cbn in *;
    rewrite ?He; done).
  all: try (match goal with |- forall _ _, encodable _ _ = true -> _ => idtac end;
    intros t j He Hj; destruct t; try discriminate Hj).
  - cbn in Hj. case_bool_decide; [done|]. exact (proj1 IH _ _ He Hj).
  - apply json_of_object in Hj as (o & -> & HF). cbn in He |- *. apply andb_true_iff in He as [Hs He].
    rewrite <-(sortedb_keys m o (Forall2_keys (fun a v => json_of env a TAny = Some v) m o HF)), Hs. cbn.
    clear Hs. induction HF as [|ka kj m o [Hk Hj] _ IHF]; [done|]. cbn in He |- *.
    rewrite !andb_true_iff in He. destruct He as [[Hkey He1] He2]. inversion_clear IH as [|? ? [Ha _] IHr].
    rewrite <-Hk, Hkey, (Ha TAny kj.2) by done. by apply IHF.
  - apply json_of_array in Hj as (o & -> & HF). cbn in He |- *. apply andb_true_iff in He as [Hl He].
    rewrite <-(Forall2_length _ _ _ HF), Hl. clear Hl. cbn.
    induction HF as [|a x l o Hj _ IHF]; [done|]. cbn in He |- *.
    apply andb_true_iff in He as [He1 He2]. inversion_clear IH as [|? ? [Ha _] IHr].
    rewrite (Ha t x) by done. by apply IHF.
  - intros v u x [= ->] He Hj. by eapply (proj1 (IH v eq_refl)).
  - cbn in Hj. exact (proj1 IH _ _ He Hj).
  - rewrite json_of_struct in Hj. apply bind_Some in Hj as (si & Hsi & Hj).
    apply bind_Some in Hj as (l & Hl & Hj). case_bool_decide; [|done].
    apply fmap_Some_1 in Hj as (o & Hj & ->). apply (fields_json_canonical L env l fs [] o IH He); [|done..].
    destruct (Hnames _ _ _ Hsi Hl) as [_ Hp]. rewrite forallb_forall in Hp.
    apply Forall_forall. intros mn Hin%list_elem_of_In. by apply plain_key, Hp.
Qed.

Lemma schema_ok_names env k : schema_ok env k -> names_ok env.
Proof.
  intros Hok s si l Hs Hl. specialize (Hok _ _ Hs). unfold struct_ok in Hok. rewrite Hl in Hok.
  rewrite !andb_true_iff, bool_decide_eq_true in Hok. tauto.
Qed.
