(* ===== verification/Backend.v ===== *)
(** * JSON backends

    What the session needs of a JSON backend ([src/json_serializer.h] selects one of
    three at build time): a [Deserializer] made from text, a [Serializer] and its
    [dump]. [JsonBackendContract] adds to the contracts of [Json] that the text a
    serializer prints is parsed back to the document it holds; the round trip of
    values is proved here once, for every backend that keeps the contract. *)
From Stdlib Require Import ZArith Lia.
From stdpp Require Import base list strings.
From S2P Require Import Prelude SMap Types Serialization Json.

(** [json::Deserializer(str)], which may abort on text that is not JSON,
    [json::Serializer()] and [dump()]. *)
Class JsonBackend (D Ser FS : Type) := {
  backend_des :: Deserializer D;
  backend_ser :: Serializer Ser FS;
  json_parse : string -> outcome D;
  json_new : Ser;
  json_dump : Ser -> outcome string
}.

(** What its clients rely on, for documents within the limits [L]. *)
Class JsonBackendContract (D Ser FS : Type) (L : limits) `{JsonBackend D Ser FS} `{DeserializerView D}
    `{SerializerView Ser FS} := {
  backend_des_contract :: DeserializerContract D L;
  backend_ser_contract :: SerializerContract Ser FS L;
  backend_new : blank_ser json_new;
  backend_text ser v : ser_content ser = Some v -> canonical L false v = true -> printable v = true ->
    lim_depth L (jheight v) = true ->
    exists text d, json_dump ser = Ret text /\ text <> EmptyString /\
      json_parse text = Ret d /\ des_tree d = Some v
}.

Section Backend.
Context {D Ser FS : Type} {HB : JsonBackend D Ser FS} {HD : DeserializerView D} {HV : SerializerView Ser FS}.
Context {L : limits} {HC : JsonBackendContract D Ser FS L}.

Lemma backend_ready j : j <> JNull -> ready_ser j json_new.
Proof using HC. intros Hj. split; [apply backend_new|done]. Qed.

(** What is stored, printed and parsed again is what was stored. *)
Lemma backend_reads env v t j (s : Ser) :
  names_ok env -> encodable L v = true -> json_of env v t = Some j -> printable j = true ->
  lim_depth L (jheight j) = true -> ser_content s = Some j ->
  exists text d, json_dump s = Ret text /\ json_parse text = Ret d /\ des_tree d = Some j.
Proof using HC.
  intros Hn He Hj Hp Hd Hs.
  destruct (backend_text s j Hs (json_of_canonical L env v t j Hn He Hj) Hp Hd) as (text & d & ? & _ & ? & ?).
  by exists text, d.
Qed.

Lemma backend_roundtrip env k t v j c fuel s0 :
  schema_ok env k -> type_ok env k t = true -> natural L false v = true -> lossless env v t = true ->
  json_of env v t = Some j -> printable j = true -> lim_depth L (jheight j) = true ->
  ready_ser j s0 -> fresh env t c -> (2 + k + height v < fuel)%nat ->
  exists (s : Ser) text (d : D),
    serialize env fuel t v s0 = Ret (true, s) /\ json_dump s = Ret text /\
    json_parse text = Ret d /\ deserialize env fuel t d c = Ret (true, v).
Proof using HC.
  intros Hok Ht Hn Hca Hj Hp Hd Hr Hc Hf. pose proof (natural_encodable L false v Hn) as He.
  pose proof (schema_ok_names env k Hok) as Hnames.
  destruct (serialize_stores env Hnames v t j fuel s0 He Hj) as (s & Hs & Hcont & _); [lia|done|].
  destruct (backend_reads env v t j s Hnames He Hj Hp Hd Hcont) as (text & d & Hdump & Hparse & Htree).
  exists s, text, d. split_and!; [done..|]. by eapply deserialize_loads.
Qed.
End Backend.

(** ** The loops the backends share

    The three backends are written the same way over different libraries: [J] is the
    library's value, [tree] the document it holds. *)
Section DeserializerLoops.
Context {J : Type}.

(** [deserialize(object)]: each member, under its name, read into an [any]. *)
Fixpoint object_items (any : J -> value -> outcome (bool * value)) (items : list (string * J))
    (v : smap value) : outcome (bool * smap value) :=
  match items with
  | [] => Ret (true, v)
  | (key, el) :: items =>
    '(ok, val) ← any el VAnyEmpty;
    if (ok : bool) then object_items any items (sm_insert v key val) else Ret (false, v)
  end.

Context (tree : J -> option jtree).

Lemma object_items_loads (any : J -> value -> outcome (bool * value)) items l m :
  Forall2 (fun x y => x.1 = y.1 /\ forall c, any x.2 c = Ret (true, any_of_json y.2)) items l ->
  object_items any items m = Ret (true, sm_insert_all m (map (fun kv => (kv.1, any_of_json kv.2)) l)).
Proof.
  intros HF. revert m. induction HF as [|[k x] [k' y] items l [Hk Hx] _ IH]; intros m; [done|].
  cbn in Hk, Hx |- *. subst k'. rewrite Hx. cbn. apply IH.
Qed.

(** Inserting the members in any order gives the canonical map. *)
Lemma rebuilt (o l : smap jtree) :
  l ≡ₚ o -> sortedb o = true ->
  sm_insert_all [] (map (fun kv => (kv.1, any_of_json kv.2)) l) = map (fun kv => (kv.1, any_of_json kv.2)) o.
Proof.
  intros Hl Hs. apply sm_rebuild; [|by apply Permutation_map].
  by apply (sm_map_sorted any_of_json o), sortedb_sorted.
Qed.

(** What [deserialize(any)] does on the documents below a height. *)
Definition loads_below (L : limits) (h : nat) (any : J -> value -> outcome (bool * value)) : Prop :=
  forall j v cur, tree j = Some v -> canonical L true v = true -> (jheight v < h)%nat ->
    any j cur = Ret (true, any_of_json v).

Lemma object_loads L h any (o l : smap jtree) items :
  loads_below L h any -> canonical L true (JObject o) = true -> (jheight (JObject o) <= h)%nat -> l ≡ₚ o ->
  Forall2 (fun x y => x.1 = y.1 /\ tree x.2 = Some y.2) items l ->
  object_items any items [] = Ret (true, map (fun kv => (kv.1, any_of_json kv.2)) o).
Proof.
  intros Hany Hc Hh Hl HF. cbn in Hc. apply andb_true_iff in Hc as [Hs Hc]. rewrite jheight_object in Hh.
  assert (Hmem : forall kv, kv ∈ l -> canonical L true kv.2 = true /\ (jheight kv.2 < h)%nat).
  { intros kv Hin. rewrite Hl in Hin. rewrite forallb_forall in Hc. split.
    - apply list_elem_of_In in Hin. specialize (Hc _ Hin). by apply andb_true_iff in Hc as [_ Hc].
    - assert (jheight kv.2 <= jheights o.*2)%nat; [|lia]. apply jheights_elem, list_elem_of_fmap. by exists kv. }
  rewrite (object_items_loads _ _ l); [do 2 f_equal; by apply rebuilt|]. clear Hl Hc Hh Hs.
  induction HF as [|x y items l [Hk Hx] HF IHF]; constructor.
  - split; [done|]. intros c. destruct (Hmem y ltac:(by left)). by apply Hany.
  - apply IHF. intros kv Hin. apply Hmem. by right.
Qed.

(** An array read into an array of [any]. *)
Lemma array_any_loads L h any ds l :
  loads_below L h any -> canonical L true (JArray l) = true -> (jheight (JArray l) <= h)%nat ->
  Forall2 (fun d x => tree d = Some x) ds l ->
  array_loop any ds 0 (replicate (length l) VAnyEmpty) = Ret (true, map any_of_json l).
Proof.
  intros Hany Hc Hh HF.
  apply (array_loop_loads (fun _ => True) any ds (map any_of_json l) (replicate (length l) VAnyEmpty) []);
    [|by rewrite length_replicate, length_map|by apply Forall_true].
  apply Forall2_fmap_r. rewrite jheight_array in Hh. cbn in Hc. apply andb_true_iff in Hc as [_ Hc]. revert Hc Hh.
  induction HF as [|d x ds l Hd HF IHF]; intros Hc Hf; constructor; cbn in Hc, Hf;
    apply andb_true_iff in Hc as [Hc Hc'].
  - intros c _. apply Hany; [done..|lia].
  - apply IHF; [done|unfold jheights; lia].
Qed.
End DeserializerLoops.

Section SerializerLoops.
Context {J T : Type} (on : J -> T) (cell : T -> J).

(** [prepare] makes room for a member where the library does not do it by itself;
    [get] and [set] read and write through the reference to it. *)
Context (prepare : string -> J -> J) (get : J -> string -> J) (set : J -> string -> J -> J).
Context (get_at : J -> nat -> J) (set_at : J -> nat -> J -> J).

(** [serialize(object)]: each value through a reference to its member. *)
Fixpoint object_members (rec : serialize_fn T) (v : smap value) (j : J) : outcome (bool * J) :=
  match v with
  | [] => Ret (true, j)
  | (key, a) :: v =>
    let j := prepare key j in
    '(ok, s) ← rec TAny a (on (get j key));
    let j := set j key (cell s) in
    if (ok : bool) then object_members rec v j else Ret (false, j)
  end.

(** [array(count, cb)]: the [i]'th call of [cb] serializes the [i]'th element. *)
Fixpoint array_elements (cbs : list (T -> outcome (bool * T))) (i : nat) (j : J) : outcome (bool * J) :=
  match cbs with
  | [] => Ret (true, j)
  | cb :: cbs =>
    '(ok, s) ← cb (on (get_at j i));
    let j := set_at j i (cell s) in
    if (ok : bool) then array_elements cbs (S i) j else Ret (false, j)
  end.

(** [FS::field]: a member that was removed is erased. *)
Definition field_member (removed : T -> bool) (erase : J -> string -> J) (name : string)
    (cb : T -> outcome (bool * T)) (j : J) : outcome (bool * J) :=
  let j := prepare name j in
  '(res, s) ← cb (on (get j name));
  let j := set j name (cell s) in
  Ret (res, if removed s then erase j name else j).

(** [serialize(any)], over the setters of the basic types. *)
Definition any_cases (boolean : bool -> T -> T) (integer : Z -> T -> T) (number : double -> T -> T)
    (str : string -> T -> T) (object : smap value -> T -> outcome (bool * T)) (rec : serialize_fn T)
    (v : value) (s : T) : outcome (bool * T) :=
  if any_is v TBoolean then
    x ← any_get v TBoolean; match x with VBoolean b => Ret (true, boolean b s) | _ => Undefined end
  else if any_is v TInteger then
    x ← any_get v TInteger; match x with VInteger z => Ret (true, integer z s) | _ => Undefined end
  else if any_is v TNumber then
    x ← any_get v TNumber; match x with VNumber d => Ret (true, number d s) | _ => Undefined end
  else if any_is v TString then
    x ← any_get v TString; match x with VString d => Ret (true, str d s) | _ => Undefined end
  else if any_is v TObject then
    x ← any_get v TObject; match x with VObject m => object m s | _ => Undefined end
  else if any_is v TNull then Ret (true, s)
  else match v with
       | VAny type value => rec type value s
       | _ => Ret (false, s)
       end.
End SerializerLoops.

(** What these loops store, from what the library promises of a member and of an
    element. *)
Section SerializerFacts.
Context {J T : Type} {HV : SerializerView T J} (tree : J -> option jtree).
Context (on : J -> T) (cell : T -> J) (removed : T -> bool).
Context (prepare : string -> J -> J) (get : J -> string -> J) (set : J -> string -> J -> J).
Context (get_at : J -> nat -> J) (set_at : J -> nat -> J -> J).
Context (key_ok : string -> bool).
Hypothesis view_cell : forall s, ser_content s = tree (cell s).
Hypothesis view_on : forall j, tree j = Some JNull -> fresh_ser (on j).
Hypothesis member_law : forall j o k,
  tree j = Some (JObject o) -> key_ok k = true -> sm_lookup o k = None ->
  tree (get (prepare k j) k) = Some JNull /\
  forall x v, tree x = Some v -> tree (set (prepare k j) k x) = Some (JObject (sm_insert o k v)).

Lemma object_members_stores rec m o (o0 : smap jtree) j :
  tree j = Some (JObject o0) -> NoDup m.*1 -> (forall k, k ∈ m.*1 -> sm_lookup o0 k = None) ->
  Forall2 (fun ka kj => ka.1 = kj.1 /\ key_ok kj.1 = true /\
      forall s', fresh_ser s' -> stored false kj.2 (rec TAny ka.2 s')) m o ->
  exists j', object_members on cell prepare get set rec m j = Ret (true, j') /\
    tree j' = Some (JObject (sm_insert_all o0 o)).
Proof using view_cell view_on member_law.
  intros Hj Hnd Hfree HF. revert o0 j Hj Hnd Hfree.
  induction HF as [|[k a] [k' v] m o (Hk & Hok & Hv) HF IH]; intros o0 j Hj Hnd Hfree; cbn in *; [by exists j|].
  subst k'. apply NoDup_cons in Hnd as [Hn Hnd].
  destruct (member_law j o0 k Hj Hok ltac:(apply Hfree; by left)) as [Hget Hset].
  destruct (Hv (on (get (prepare k j) k))) as (s & -> & Hc & _); [by apply view_on|].
  cbn. apply IH; [apply Hset; by rewrite <-view_cell|done|].
  intros x Hx. rewrite sm_lookup_insert_ne; [apply Hfree; by right|]. by intros ->.
Qed.

(** The members of a canonical map, stored in its order, are that map. *)
Lemma object_members_object rec m o j :
  tree j = Some (JObject []) -> sm_sorted m ->
  Forall2 (fun ka kj => ka.1 = kj.1 /\ key_ok kj.1 = true /\
      forall s', fresh_ser s' -> stored false kj.2 (rec TAny ka.2 s')) m o ->
  exists j', object_members on cell prepare get set rec m j = Ret (true, j') /\ tree j' = Some (JObject o).
Proof using view_cell view_on member_law.
  intros Hj Hs HF.
  destruct (object_members_stores rec m o [] j Hj) as (j' & Hl & Hj'); [by apply sm_keys_NoDup|done|done|].
  exists j'. split; [done|]. rewrite Hj'. do 2 f_equal. apply sm_rebuild; [|done].
  assert (Hkeys : m.*1 = o.*1) by (clear -HF; induction HF as [|x y m o [Hk _] _ IH]; cbn; congruence).
  apply sortedb_sorted. rewrite <-(sortedb_keys m o Hkeys). by apply sortedb_sorted.
Qed.

Lemma array_elements_stores (pre : list jtree -> list jtree -> J -> Prop) cbs js l j :
  (forall l v rest j, pre l (v :: rest) j -> tree (get_at j (length l)) = Some JNull /\
    forall x, tree x = Some v -> pre (l ++ [v]) rest (set_at j (length l) x)) ->
  pre l js j ->
  Forall2 (fun cb v => forall s', fresh_ser s' -> stored false v (cb s')) cbs js ->
  exists j', array_elements on cell get_at set_at cbs (length l) j = Ret (true, j') /\ pre (l ++ js) [] j'.
Proof using view_cell view_on.
  intros Hlaw Hj HF. revert l j Hj. induction HF as [|cb v cbs js Hv _ IH]; intros l j Hj; cbn.
  { exists j. by rewrite app_nil_r. }
  destruct (Hlaw _ _ _ _ Hj) as [Hget Hset].
  destruct (Hv (on (get_at j (length l)))) as (s & -> & Hc & _); [by apply view_on|].
  cbn. destruct (IH (l ++ [v]) (set_at j (length l) (cell s))) as (j' & Hl & Hj').
  { apply Hset. by rewrite <-view_cell. }
  exists j'. rewrite length_app, Nat.add_1_r in Hl. rewrite <-app_assoc in Hj'. done.
Qed.

Lemma field_member_stores erase name cb r v j o :
  (forall s, ser_removed s = removed s) ->
  (forall j o k v, tree j = Some (JObject (sm_insert o k v)) -> key_ok k = true -> sm_lookup o k = None ->
     tree (erase j k) = Some (JObject o)) ->
  tree j = Some (JObject o) -> key_ok name = true -> sm_lookup o name = None ->
  (forall s', fresh_ser s' -> exists s'', cb s' = Ret (true, s'') /\ ser_removed s'' = r /\ ser_content s'' = Some v) ->
  exists j', field_member on cell prepare get set removed erase name cb j = Ret (true, j') /\
    tree j' = Some (JObject (if r then o else sm_insert o name v)).
Proof using view_cell view_on member_law.
  intros Hrem Her Hj Hk Ho Hcb. destruct (member_law j o name Hj Hk Ho) as [Hget Hset].
  destruct (Hcb (on (get (prepare name j) name))) as (s & Hs & Hr & Hc); [by apply view_on|].
  unfold field_member. rewrite Hs. cbn. rewrite <-Hrem, Hr. eexists. split; [done|].
  rewrite view_cell in Hc. pose proof (Hset _ _ Hc) as Hin. destruct r; [|done]. by eapply Her.
Qed.
End SerializerFacts.
