(* ===== verification/Decode.v ===== *)
(** * Decoding documents that were not written by this library

    What comes from the network is any document, not only the encoding of a value.
    [typed] says that a value is an object of a type, where a [variant] holds one of
    its alternatives; [shaped] says the same but lets a variant hold anything an [any]
    can hold, because [TypeInfo]s of variants decode as [any] without a look at the
    alternatives. [DeserializerSafe] is what a backend promises about every document
    (the calls return, nested values are less deep, an array has as many elements as it
    counts); nlohmann/json and JsonCpp keep it, RapidJSON does not. Against it
    [deserialize] returns for every document, with no undefined behaviour and within a
    fuel that the depth of the document bounds; what it leaves in the object, also when
    it fails, is shaped like the object's type, and is of the type where no variant is
    part of it ([deserialize_safe]). *)
From Stdlib Require Import ZArith Lia.
From stdpp Require Import base list strings.
From S2P Require Import Prelude SMap Types Serialization Json Backend.

(** ** Values of a type

    With [strict] the [any] inside a [variant] holds one of the alternatives. *)
Fixpoint has_type (strict : bool) (env : schema) (v : value) (t : ty) {struct v} : bool :=
  match t, v with
  | TBoolean, VBoolean _ | TNumber, VNumber _ | TString, VString _ | TNull, VNull => true
  | TInteger, VInteger z => in_int64 z
  | TObject, VObject m => sortedb m && forallb (fun kv => has_type strict env kv.2 TAny) m
  | TAny, VAnyEmpty => true
  | TAny, VAny t v => negb (bool_decide (t = TNull)) && has_type strict env v t
  | TArray t, VArray l => forallb (fun v => has_type strict env v t) l
  | TOptional _, VOptional None => true
  | TOptional t, VOptional (Some v) => has_type strict env v t
  | TVariant t0 ts, VVariant a =>
    has_type strict env a TAny && (negb strict || existsb (any_is a) (t0 :: ts))
  | TStruct s, VStruct fs =>
    match env s with
    | None => false
    | Some si =>
      (fix members (fs : list (string * value)) (ms : list member) : bool :=
        match fs, ms with
        | [], [] => true
        | (n, v) :: fs, m :: ms => bool_decide (n = m.(mem_name)) && has_type strict env v m.(mem_type) && members fs ms
        | _, _ => false
        end) fs si.(si_members)
    end
  | _, _ => false
  end.

Notation typed := (has_type true).
Notation shaped := (has_type false).

Definition members_typed (b : bool) (env : schema) (ms : list member) (fs : list (string * value)) : Prop :=
  Forall2 (fun m nv => nv.1 = m.(mem_name) /\ has_type b env nv.2 m.(mem_type) = true) ms fs.

Lemma has_type_struct b env s si fs :
  env s = Some si -> has_type b env (VStruct fs) (TStruct s) = true <-> members_typed b env si.(si_members) fs.
Proof.
  intros Hs. unfold members_typed. cbn. rewrite Hs. clear Hs. generalize (si_members si) as ms.
  induction fs as [|[n v] fs IH]; intros [|m ms].
  - split; [constructor|done].
  - split; [done|]. by inversion 1.
  - split; [done|]. by inversion 1.
  - rewrite !andb_true_iff, bool_decide_eq_true, IH. split.
    + intros [[-> Hv] Hf]. by constructor.
    + intros HF. apply Forall2_cons in HF as [[? ?] ?]. done.
Qed.

Lemma has_type_array b env t l : has_type b env (VArray l) (TArray t) = true <-> Forall (fun v => has_type b env v t = true) l.
Proof.
  cbn. rewrite forallb_forall, Forall_forall. split; intros H x Hx; apply H; by apply list_elem_of_In.
Qed.

Lemma has_type_object b env m :
  has_type b env (VObject m) TObject = true <->
  sm_sorted m /\ Forall (fun kv => has_type b env kv.2 TAny = true) m.
Proof.
  cbn. rewrite andb_true_iff, sortedb_sorted, forallb_forall, Forall_forall.
  split; intros [? H]; (split; [done|]); intros x Hx; apply H; by apply list_elem_of_In.
Qed.

(** An object of a type is shaped like it. *)
Lemma typed_shaped env v : forall t, typed env v t = true -> shaped env v t = true.
Proof.
  induction v as [| | | | | |t v IH|m IH|l IH|o IH|a IH|fs IH] using value_nested_ind; intros []; try done.
  - cbn. rewrite !andb_true_iff. intros [? ?]. auto.
  - rewrite !has_type_object. intros [? Hf]. split; [done|]. rewrite Forall_forall in IH, Hf |- *. eauto.
  - rewrite !has_type_array, !Forall_forall. rewrite Forall_forall in IH. eauto.
  - destruct o as [v|]; [|done]. exact (IH v eq_refl _).
  - cbn. rewrite !andb_true_iff. intros [? _]. auto.
  - cbn [has_type]. destruct (env name) as [si|] eqn:Hs; [|done]. clear Hs. generalize (si_members si) as ms.
    induction IH as [|[n v] fs Hv _ IHf]; intros [|m ms]; [done..|]. rewrite !andb_true_iff. intros [[? ?] ?]. auto.
Qed.

(** A type no [variant] is part of: [good] are the structs it may use. *)
Fixpoint variant_free (good : string -> bool) (t : ty) : bool :=
  match t with
  | TArray t | TOptional t => variant_free good t
  | TVariant _ _ => false
  | TStruct s => good s
  | _ => true
  end.

(** Structs all of whose members are free of variants. *)
Definition variant_free_structs (env : schema) (good : string -> bool) : Prop :=
  forall s si m, good s = true -> env s = Some si -> m ∈ si.(si_members) -> variant_free good m.(mem_type) = true.

(** ** Calls that return and leave an object of its type *)
Definition safe {A} (P : A -> Prop) (r : outcome (bool * A)) : Prop := exists ok v, r = Ret (ok, v) /\ P v.

Lemma safe_ret {A} (P : A -> Prop) ok v : P v -> safe P (Ret (ok, v)).
Proof. by exists ok, v. Qed.

(** A call followed by a step on its result. *)
Lemma safe_bind {A B} (P : A -> Prop) (Q : B -> Prop) r (f : bool -> A -> outcome (bool * B)) :
  safe P r -> (forall ok v, P v -> safe Q (f ok v)) -> safe Q ('(ok, v) ← r; f ok v).
Proof. intros (ok & v & -> & Hv) Hf. cbn. by apply Hf. Qed.

Lemma safe_impl {A} (P Q : A -> Prop) r : safe P r -> (forall v, P v -> Q v) -> safe Q r.
Proof. intros (ok & v & -> & Hv) Hpq. exists ok, v. auto. Qed.

Lemma array_loop_safe {D} (P : value -> Prop) (elem : D -> value -> outcome (bool * value)) ds i vec :
  (forall d cur, d ∈ ds -> P cur -> safe P (elem d cur)) -> (i + length ds <= length vec)%nat -> Forall P vec ->
  safe (Forall P) (array_loop elem ds i vec).
Proof.
  revert i vec. induction ds as [|d ds IH]; intros i vec He Hl Hv; cbn in *; [by apply safe_ret|].
  destruct (lookup_lt_is_Some_2 vec i) as [cur Hcur]; [lia|]. rewrite Hcur. cbn [deref].
  rewrite outcome_bind_ret_l. eapply safe_bind.
  - apply He; [by left|]. by eapply Forall_lookup_1.
  - intros ok v Hpv. assert (Forall P (<[i:=v]> vec)) by by apply Forall_insert.
    destruct ok; [|by apply safe_ret]. apply IH; [|rewrite length_insert; lia|done].
    intros d' c Hd'. apply He. by right.
Qed.

Lemma object_items_safe {J} b env (any : J -> value -> outcome (bool * value)) items m :
  (forall kx, kx ∈ items -> safe (fun v => has_type b env v TAny = true) (any kx.2 VAnyEmpty)) ->
  has_type b env (VObject m) TObject = true ->
  safe (fun m => has_type b env (VObject m) TObject = true) (object_items any items m).
Proof.
  revert m. induction items as [|[k x] items IH]; intros m Ha Hm; cbn [object_items]; [by apply safe_ret|].
  eapply safe_bind; [apply (Ha (k, x)); by left|]. intros ok v Hv. destruct ok; [|by apply safe_ret].
  apply IH; [intros kx Hkx; apply Ha; by right|]. rewrite has_type_object in Hm |- *. destruct Hm as [Hs Hf].
  split; [by apply sm_insert_sorted|]. by apply sm_insert_forall.
Qed.

(** ** What a backend promises about every document *)
Class DeserializerSafe (D : Type) `{Deserializer D} := {
  des_depth : D -> nat;
  ds_integer d z : des_integer d = Some z -> in_int64 z = true;
  ds_any b env fuel d cur : (des_depth d < fuel)%nat -> has_type b env cur TAny = true ->
    safe (fun v => has_type b env v TAny = true) (des_any fuel d cur);
  ds_object b env fuel d m : (des_depth d < fuel)%nat -> has_type b env (VObject m) TObject = true ->
    safe (fun m => has_type b env (VObject m) TObject = true) (des_object fuel d m);
  ds_count d : exists n, des_count d = Ret n;
  ds_array d ds : des_array d = Some ds ->
    des_count d = Ret (length ds) /\ Forall (fun d' => des_depth d' < des_depth d)%nat ds;
  ds_field d name d' : des_field d name = Some d' -> (des_depth d' < des_depth d)%nat
}.

(** ** The types of a schema *)
Definition decodable (env : schema) (rank : nat) (si : struct_info) : bool :=
  forallb (fun m => (ty_rank m.(mem_type) <=? rank)%nat &&
    match m.(mem_init) with Some v => typed env v m.(mem_type) | None => true end) si.(si_members).

Record schema_decodable (env : schema) (k rank : nat) : Prop := {
  sd_ok : schema_ok env k;
  sd_decodable s si : env s = Some si -> decodable env rank si = true
}.

(** The fuel [deserialize] needs for a document. *)
Definition decode_fuel (k rank : nat) (t : ty) (depth : nat) : nat := (2 + k + ty_rank t + S rank * depth)%nat.

Section Decode.
Context {D : Type} {HDes : Deserializer D} {HS : DeserializerSafe D}.
Context (env : schema) (k rank : nat) (Henv : schema_decodable env k rank).
Context (b : bool) (good : string -> bool) (Hgood : variant_free_structs env good).

(** What is asked of a type: nothing for its shape, no variant for the type itself. *)
Notation kept t := (b = true -> variant_free good t = true).
Notation ok_type t := (fun v => has_type b env v t = true).

Lemma init_typed v t : typed env v t = true -> has_type b env v t = true.
Proof. destruct b; [done|]. apply typed_shaped. Qed.

Lemma kept_member s si m : kept (TStruct s) -> env s = Some si -> m ∈ si.(si_members) -> kept m.(mem_type).
Proof using Hgood. intros Hk Hs Hm Hb. by eapply Hgood; [apply Hk|..]. Qed.

Lemma construct_typed fuel t v : kept t -> construct env fuel t = Ret v -> has_type b env v t = true.
Proof using Henv Hgood.
  revert t v. induction fuel as [|fuel IH]; intros t v Hk Hc; [done|].
  destruct t; cbn in Hc; try (injection Hc as <-; done).
  - destruct b; [by specialize (Hk eq_refl)|]. inv_outcome. cbn. rewrite andb_true_r. unfold any_of.
    case_bool_decide; [done|]. case_bool_decide; [subst; by apply IH|]. cbn.
    rewrite bool_decide_eq_false_2 by done. cbn. by apply IH.
  - destruct (env name) as [si|] eqn:Hs; [|done]. apply outcome_bind_inv in Hc as (fs & Hfs & [= <-]).
    apply (has_type_struct _ _ _ si _ Hs). pose proof (sd_decodable _ _ _ Henv _ _ Hs) as Hd. unfold decodable in Hd.
    assert (Hm : forall m, m ∈ si.(si_members) -> kept m.(mem_type)) by (intros m; by apply (kept_member name)).
    clear Hs. revert fs Hfs Hd Hm. generalize (si_members si) as ms.
    induction ms as [|m ms IHm]; intros fs Hfs Hd Hm; [injection Hfs as <-; constructor|].
    apply outcome_bind_inv in Hfs as (x & Hx & Hfs). apply outcome_bind_inv in Hfs as (xs & Hxs & [= <-]).
    cbn in Hd. rewrite !andb_true_iff in Hd. destruct Hd as [[_ Hi] Hd].
    constructor; [|apply IHm; [done..|]; intros m' Hm'; apply Hm; by right]. split; [done|]. cbn.
    destruct (mem_init m); [injection Hx as <-; by apply init_typed|apply IH; [apply Hm; by left|done]].
Qed.

Lemma resize_typed fuel t n vec :
  kept t -> returns (construct env k t) = true -> (k <= fuel)%nat -> Forall (ok_type t) vec ->
  exists vec', resize env fuel t n vec = Ret vec' /\ length vec' = n /\ Forall (ok_type t) vec'.
Proof using Henv Hgood.
  intros Hk Hr Hf Hv. destruct (returns_construct env k fuel t Hr Hf) as [c Hc].
  assert (Hd : forall n, default_elements env fuel t n = Ret (replicate n c)).
  { induction n0 as [|n0 IHn]; [done|]. cbn. rewrite Hc. cbn. by rewrite IHn. }
  unfold resize. rewrite Hd. cbn. eexists. split; [done|]. split.
  - rewrite length_app, length_take, length_replicate. lia.
  - apply Forall_app. split; [by apply Forall_take|]. apply Forall_replicate. by eapply construct_typed.
Qed.

(** The loop over the fields. *)
Lemma des_fields_safe rec ms l d obj :
  (forall m n d' cur, (m, n) ∈ l -> des_field d n = Some d' -> has_type b env cur m.(mem_type) = true ->
    safe (ok_type m.(mem_type)) (rec m.(mem_type) d' cur)) ->
  (forall m n, (m, n) ∈ l -> exists m', m' ∈ ms /\ m'.(mem_name) = m.(mem_name) /\ m'.(mem_type) = m.(mem_type)) ->
  NoDup (mem_name <$> ms) -> members_typed b env ms obj ->
  safe (members_typed b env ms) (des_fields rec l d obj).
Proof.
  revert obj. induction l as [|[m n] l IH]; intros obj Hrec Hin Hnd Ho; cbn [des_fields]; [by apply safe_ret|].
  destruct (des_field d n) as [d'|] eqn:Hd; [|by apply safe_ret].
  destruct (Hin m n ltac:(by left)) as (m' & Hm' & Hn & Ht).
  assert (Hcur : exists cur, get_member obj m.(mem_name) = Some cur /\ has_type b env cur m.(mem_type) = true /\
    forall v, has_type b env v m.(mem_type) = true -> members_typed b env ms (set_member obj m.(mem_name) v)).
  { rewrite <-Hn, <-Ht. clear -Hm' Hnd Ho. unfold members_typed in *.
    induction Ho as [|x [k v] ms obj [Hk Hv] Ho IHo]; [by apply elem_of_nil in Hm'|]. cbn in Hnd, Hk, Hv.
    apply NoDup_cons in Hnd as [Hx Hnd]. subst k. cbn. case_bool_decide as E.
    - apply elem_of_cons in Hm' as [->|Hm']; [|destruct Hx; rewrite E; by apply list_elem_of_fmap_2].
      exists v. split_and!; [done..|]. intros w Hw. by constructor.
    - apply elem_of_cons in Hm' as [->|Hm']; [done|]. destruct (IHo Hnd Hm') as (cur & ? & ? & Hset).
      exists cur. split_and!; [done..|]. intros w Hw. constructor; [done|by apply Hset]. }
  destruct Hcur as (cur & -> & Hcur & Hset). cbn [deref]. rewrite outcome_bind_ret_l. eapply safe_bind.
  - apply (Hrec m n); [by left|done..].
  - intros [] v Hv; [|apply safe_ret; by apply Hset]. apply IH; [..|done|by apply Hset].
    + intros m1 n1 d1 c1 H1. apply Hrec. by right.
    + intros m1 n1 H1. apply (Hin m1 n1). by right.
Qed.

Lemma type_ok_member t : type_ok env k t = true -> member_type_ok env k t = true.
Proof. by destruct t. Qed.

(** Every document, into an object of a type of the schema. *)
Lemma deserialize_safe fuel t d cur :
  kept t -> member_type_ok env k t = true -> has_type b env cur t = true -> (decode_fuel k rank t (des_depth d) <= fuel)%nat ->
  safe (ok_type t) (deserialize env fuel t d cur).
Proof using Henv HS Hgood.
  revert t d cur. induction fuel as [|fuel IH]; intros t d cur Hk Ht Hcur Hf; unfold decode_fuel in *; [lia|].
  assert (Hdf : (des_depth d < fuel)%nat) by (cbn in Hf; lia).
  destruct t as [| | | | | | |t|t|t0 ts|s]; cbn [deserialize].
  - destruct (des_boolean d); by apply safe_ret.
  - destruct (des_integer d) eqn:E; [|by apply safe_ret]. apply safe_ret. by eapply ds_integer.
  - destruct (des_number d); by apply safe_ret.
  - destruct (des_string d); by apply safe_ret.
  - destruct cur; try done. eapply safe_bind; [by apply (ds_object b env)|]. intros. by apply safe_ret.
  - by apply ds_any.
  - by apply safe_ret.
  - destruct cur as [| | | | | | | |vec| | |]; try done. rewrite has_type_array in Hcur.
    cbn in Ht. apply andb_true_iff in Ht as [Ht Hr].
    eapply (safe_bind (Forall (ok_type t))); [|intros; apply safe_ret; by apply has_type_array].
    unfold deserialize_array. destruct (ds_count d) as [n Hn]. rewrite Hn, outcome_bind_ret_l.
    destruct (resize_typed fuel t n vec Hk Hr) as (vec' & -> & Hl & Hv); [lia|done|]. rewrite outcome_bind_ret_l.
    destruct (des_array d) as [ds|] eqn:Hds; [|by apply safe_ret].
    destruct (ds_array d ds Hds) as [Hc Hsub]. rewrite Hc in Hn. injection Hn as <-.
    apply array_loop_safe; [|lia|done]. intros d' c Hd' Hc'. rewrite Forall_forall in Hsub.
    specialize (Hsub d' Hd'). apply IH; [done|by apply type_ok_member|done|]. cbn [ty_rank] in Hf. nia.
  - cbn in Ht. rewrite !andb_true_iff in Ht. destruct Ht as [[Ht _] Hr].
    destruct (returns_construct env k fuel t Hr) as [c Hc]; [lia|]. rewrite Hc, outcome_bind_ret_l.
    eapply safe_bind; [apply IH; [done|by apply type_ok_member|by eapply construct_typed|cbn [ty_rank] in Hf; lia]|].
    intros ok v Hv. destruct ok; by apply safe_ret.
  - destruct b; [by specialize (Hk eq_refl)|]. destruct cur; try done. cbn in Hcur. rewrite andb_true_r in Hcur.
    eapply safe_bind; [by apply (ds_any false env)|]. intros ok v Hv. apply safe_ret. cbn. by rewrite Hv.
  - cbn in Ht. apply bool_decide_eq_true in Ht as [si Hs].
    destruct cur as [| | | | | | | | | | |fs]; try done. rewrite (has_type_struct _ _ _ si) in Hcur by done.
    destruct (struct_ok_inv env k (sd_ok _ _ _ Henv) s si Hs) as (l & Hl & _ & _ & _ & Hnd & Hty & _).
    change (safe (ok_type (TStruct s)) (deserialize env (S fuel) (TStruct s) d (VStruct fs))).
    rewrite (deserialize_struct_fields env fuel s si l d fs Hs Hl).
    eapply (safe_bind (members_typed b env si.(si_members)));
      [|intros; apply safe_ret; by apply (has_type_struct _ _ _ si)].
    apply des_fields_safe; [|intros m n Hmn; by destruct (Hty m n Hmn)|done|done].
    intros m n d' c Hmn Hd' Hc. destruct (Hty m n Hmn) as (Hmt & m' & Hm' & _ & Hmt').
    apply IH; [rewrite <-Hmt'; by apply (kept_member s si)|done..|]. pose proof (ds_field d n d' Hd').
    pose proof (sd_decodable _ _ _ Henv _ _ Hs) as Hdec. unfold decodable in Hdec. rewrite forallb_forall in Hdec.
    apply list_elem_of_In in Hm'. specialize (Hdec _ Hm'). rewrite andb_true_iff, Nat.leb_le, Hmt' in Hdec.
    destruct Hdec as [Hrk _]. cbn [ty_rank] in Hf. nia.
Qed.
End Decode.
