(* ===== verification/ProtocolTypes.v ===== *)
(** * The protocol: the structs used inside messages

    Models the structs of [include/dap/protocol.h] declared for the structs used inside messages ([X_members]:
    the members of struct [X], in order, with their initializers) and their
    descriptions in [src/protocol_types.cpp] ([X_info]: the serialized name and the
    [DAP_FIELD]s). *)
From stdpp Require Import base list strings.
From S2P Require Import Prelude Types.

Definition Checksum_members : list member :=
  [ Member "algorithm" TString (Some (VString "MD5"))
  ; Member "checksum" TString None ].
Definition Checksum_info : struct_info :=
  StructInfo "Checksum" EmptyString None Checksum_members
  [ ("algorithm", "algorithm")
  ; ("checksum", "checksum") ].

Definition Source_members : list member :=
  [ Member "adapterData" (TOptional (TVariant (TArray TAny) [TBoolean; TInteger; TNull; TNumber; TObject; TString])) None
  ; Member "checksums" (TOptional (TArray (TStruct "Checksum"))) None
  ; Member "name" (TOptional TString) None
  ; Member "origin" (TOptional TString) None
  ; Member "path" (TOptional TString) None
  ; Member "presentationHint" (TOptional TString) None
  ; Member "sourceReference" (TOptional TInteger) None
  ; Member "sources" (TOptional (TArray (TStruct "Source"))) None ].
Definition Source_info : struct_info :=
  StructInfo "Source" EmptyString None Source_members
  [ ("adapterData", "adapterData")
  ; ("checksums", "checksums")
  ; ("name", "name")
  ; ("origin", "origin")
  ; ("path", "path")
  ; ("presentationHint", "presentationHint")
  ; ("sourceReference", "sourceReference")
  ; ("sources", "sources") ].

Definition Breakpoint_members : list member :=
  [ Member "column" (TOptional TInteger) None
  ; Member "endColumn" (TOptional TInteger) None
  ; Member "endLine" (TOptional TInteger) None
  ; Member "id" (TOptional TInteger) None
  ; Member "instructionReference" (TOptional TString) None
  ; Member "line" (TOptional TInteger) None
  ; Member "message" (TOptional TString) None
  ; Member "offset" (TOptional TInteger) None
  ; Member "reason" (TOptional TString) None
  ; Member "source" (TOptional (TStruct "Source")) None
  ; Member "verified" TBoolean None ].
Definition Breakpoint_info : struct_info :=
  StructInfo "Breakpoint" EmptyString None Breakpoint_members
  [ ("column", "column")
  ; ("endColumn", "endColumn")
  ; ("endLine", "endLine")
  ; ("id", "id")
  ; ("instructionReference", "instructionReference")
  ; ("line", "line")
  ; ("message", "message")
  ; ("offset", "offset")
  ; ("reason", "reason")
  ; ("source", "source")
  ; ("verified", "verified") ].

Definition BreakpointLocation_members : list member :=
  [ Member "column" (TOptional TInteger) None
  ; Member "endColumn" (TOptional TInteger) None
  ; Member "endLine" (TOptional TInteger) None
  ; Member "line" TInteger None ].
Definition BreakpointLocation_info : struct_info :=
  StructInfo "BreakpointLocation" EmptyString None BreakpointLocation_members
  [ ("column", "column")
  ; ("endColumn", "endColumn")
  ; ("endLine", "endLine")
  ; ("line", "line") ].

Definition ColumnDescriptor_members : list member :=
  [ Member "attributeName" TString None
  ; Member "format" (TOptional TString) None
  ; Member "label" TString None
  ; Member "type" (TOptional TString) None
  ; Member "width" (TOptional TInteger) None ].
Definition ColumnDescriptor_info : struct_info :=
  StructInfo "ColumnDescriptor" EmptyString None ColumnDescriptor_members
  [ ("attributeName", "attributeName")
  ; ("format", "format")
  ; ("label", "label")
  ; ("type", "type")
  ; ("width", "width") ].

Definition BreakpointMode_members : list member :=
  [ Member "appliesTo" (TArray TString) None
  ; Member "description" (TOptional TString) None
  ; Member "label" TString None
  ; Member "mode" TString None ].
Definition BreakpointMode_info : struct_info :=
  StructInfo "BreakpointMode" EmptyString None BreakpointMode_members
  [ ("appliesTo", "appliesTo")
  ; ("description", "description")
  ; ("label", "label")
  ; ("mode", "mode") ].

Definition ExceptionBreakpointsFilter_members : list member :=
  [ Member "conditionDescription" (TOptional TString) None
  ; Member "def" (TOptional TBoolean) None
  ; Member "description" (TOptional TString) None
  ; Member "filter" TString None
  ; Member "label" TString None
  ; Member "supportsCondition" (TOptional TBoolean) None ].
Definition ExceptionBreakpointsFilter_info : struct_info :=
  StructInfo "ExceptionBreakpointsFilter" EmptyString None ExceptionBreakpointsFilter_members
  [ ("conditionDescription", "conditionDescription")
  ; ("def", "default")
  ; ("description", "description")
  ; ("filter", "filter")
  ; ("label", "label")
  ; ("supportsCondition", "supportsCondition") ].

Definition Capabilities_members : list member :=
  [ Member "additionalModuleColumns" (TOptional (TArray (TStruct "ColumnDescriptor"))) None
  ; Member "breakpointModes" (TOptional (TArray (TStruct "BreakpointMode"))) None
  ; Member "completionTriggerCharacters" (TOptional (TArray TString)) None
  ; Member "exceptionBreakpointFilters" (TOptional (TArray (TStruct "ExceptionBreakpointsFilter"))) None
  ; Member "supportSuspendDebuggee" (TOptional TBoolean) None
  ; Member "supportTerminateDebuggee" (TOptional TBoolean) None
  ; Member "supportedChecksumAlgorithms" (TOptional (TArray TString)) None
  ; Member "supportsBreakpointLocationsRequest" (TOptional TBoolean) None
  ; Member "supportsCancelRequest" (TOptional TBoolean) None
  ; Member "supportsClipboardContext" (TOptional TBoolean) None
  ; Member "supportsCompletionsRequest" (TOptional TBoolean) None
  ; Member "supportsConditionalBreakpoints" (TOptional TBoolean) None
  ; Member "supportsConfigurationDoneRequest" (TOptional TBoolean) None
  ; Member "supportsDataBreakpoints" (TOptional TBoolean) None
  ; Member "supportsDelayedStackTraceLoading" (TOptional TBoolean) None
  ; Member "supportsDisassembleRequest" (TOptional TBoolean) None
  ; Member "supportsEvaluateForHovers" (TOptional TBoolean) None
  ; Member "supportsExceptionFilterOptions" (TOptional TBoolean) None
  ; Member "supportsExceptionInfoRequest" (TOptional TBoolean) None
  ; Member "supportsExceptionOptions" (TOptional TBoolean) None
  ; Member "supportsFunctionBreakpoints" (TOptional TBoolean) None
  ; Member "supportsGotoTargetsRequest" (TOptional TBoolean) None
  ; Member "supportsHitConditionalBreakpoints" (TOptional TBoolean) None
  ; Member "supportsInstructionBreakpoints" (TOptional TBoolean) None
  ; Member "supportsLoadedSourcesRequest" (TOptional TBoolean) None
  ; Member "supportsLogPoints" (TOptional TBoolean) None
  ; Member "supportsModulesRequest" (TOptional TBoolean) None
  ; Member "supportsReadMemoryRequest" (TOptional TBoolean) None
  ; Member "supportsRestartFrame" (TOptional TBoolean) None
  ; Member "supportsRestartRequest" (TOptional TBoolean) None
  ; Member "supportsSetExpression" (TOptional TBoolean) None
  ; Member "supportsSetVariable" (TOptional TBoolean) None
  ; Member "supportsSingleThreadExecutionRequests" (TOptional TBoolean) None
  ; Member "supportsStepBack" (TOptional TBoolean) None
  ; Member "supportsStepInTargetsRequest" (TOptional TBoolean) None
  ; Member "supportsSteppingGranularity" (TOptional TBoolean) None
  ; Member "supportsTerminateRequest" (TOptional TBoolean) None
  ; Member "supportsTerminateThreadsRequest" (TOptional TBoolean) None
  ; Member "supportsValueFormattingOptions" (TOptional TBoolean) None
  ; Member "supportsWriteMemoryRequest" (TOptional TBoolean) None ].
Definition Capabilities_info : struct_info :=
  StructInfo "Capabilities" EmptyString None Capabilities_members
  [ ("additionalModuleColumns", "additionalModuleColumns")
  ; ("breakpointModes", "breakpointModes")
  ; ("completionTriggerCharacters", "completionTriggerCharacters")
  ; ("exceptionBreakpointFilters", "exceptionBreakpointFilters")
  ; ("supportSuspendDebuggee", "supportSuspendDebuggee")
  ; ("supportTerminateDebuggee", "supportTerminateDebuggee")
  ; ("supportedChecksumAlgorithms", "supportedChecksumAlgorithms")
  ; ("supportsBreakpointLocationsRequest", "supportsBreakpointLocationsRequest")
  ; ("supportsCancelRequest", "supportsCancelRequest")
  ; ("supportsClipboardContext", "supportsClipboardContext")
  ; ("supportsCompletionsRequest", "supportsCompletionsRequest")
  ; ("supportsConditionalBreakpoints", "supportsConditionalBreakpoints")
  ; ("supportsConfigurationDoneRequest", "supportsConfigurationDoneRequest")
  ; ("supportsDataBreakpoints", "supportsDataBreakpoints")
  ; ("supportsDelayedStackTraceLoading", "supportsDelayedStackTraceLoading")
  ; ("supportsDisassembleRequest", "supportsDisassembleRequest")
  ; ("supportsEvaluateForHovers", "supportsEvaluateForHovers")
  ; ("supportsExceptionFilterOptions", "supportsExceptionFilterOptions")
  ; ("supportsExceptionInfoRequest", "supportsExceptionInfoRequest")
  ; ("supportsExceptionOptions", "supportsExceptionOptions")
  ; ("supportsFunctionBreakpoints", "supportsFunctionBreakpoints")
  ; ("supportsGotoTargetsRequest", "supportsGotoTargetsRequest")
  ; ("supportsHitConditionalBreakpoints", "supportsHitConditionalBreakpoints")
  ; ("supportsInstructionBreakpoints", "supportsInstructionBreakpoints")
  ; ("supportsLoadedSourcesRequest", "supportsLoadedSourcesRequest")
  ; ("supportsLogPoints", "supportsLogPoints")
  ; ("supportsModulesRequest", "supportsModulesRequest")
  ; ("supportsReadMemoryRequest", "supportsReadMemoryRequest")
  ; ("supportsRestartFrame", "supportsRestartFrame")
  ; ("supportsRestartRequest", "supportsRestartRequest")
  ; ("supportsSetExpression", "supportsSetExpression")
  ; ("supportsSetVariable", "supportsSetVariable")
  ; ("supportsSingleThreadExecutionRequests", "supportsSingleThreadExecutionRequests")
  ; ("supportsStepBack", "supportsStepBack")
  ; ("supportsStepInTargetsRequest", "supportsStepInTargetsRequest")
  ; ("supportsSteppingGranularity", "supportsSteppingGranularity")
  ; ("supportsTerminateRequest", "supportsTerminateRequest")
  ; ("supportsTerminateThreadsRequest", "supportsTerminateThreadsRequest")
  ; ("supportsValueFormattingOptions", "supportsValueFormattingOptions")
  ; ("supportsWriteMemoryRequest", "supportsWriteMemoryRequest") ].

Definition CompletionItem_members : list member :=
  [ Member "detail" (TOptional TString) None
  ; Member "label" TString None
  ; Member "length" (TOptional TInteger) None
  ; Member "selectionLength" (TOptional TInteger) None
  ; Member "selectionStart" (TOptional TInteger) None
  ; Member "sortText" (TOptional TString) None
  ; Member "start" (TOptional TInteger) None
  ; Member "text" (TOptional TString) None
  ; Member "type" (TOptional TString) None ].
Definition CompletionItem_info : struct_info :=
  StructInfo "CompletionItem" EmptyString None CompletionItem_members
  [ ("detail", "detail")
  ; ("label", "label")
  ; ("length", "length")
  ; ("selectionLength", "selectionLength")
  ; ("selectionStart", "selectionStart")
  ; ("sortText", "sortText")
  ; ("start", "start")
  ; ("text", "text")
  ; ("type", "type") ].

Definition DisassembledInstruction_members : list member :=
  [ Member "address" TString None
  ; Member "column" (TOptional TInteger) None
  ; Member "endColumn" (TOptional TInteger) None
  ; Member "endLine" (TOptional TInteger) None
  ; Member "instruction" TString None
  ; Member "instructionBytes" (TOptional TString) None
  ; Member "line" (TOptional TInteger) None
  ; Member "location" (TOptional (TStruct "Source")) None
  ; Member "presentationHint" (TOptional TString) None
  ; Member "symbol" (TOptional TString) None ].
Definition DisassembledInstruction_info : struct_info :=
  StructInfo "DisassembledInstruction" EmptyString None DisassembledInstruction_members
  [ ("address", "address")
  ; ("column", "column")
  ; ("endColumn", "endColumn")
  ; ("endLine", "endLine")
  ; ("instruction", "instruction")
  ; ("instructionBytes", "instructionBytes")
  ; ("line", "line")
  ; ("location", "location")
  ; ("presentationHint", "presentationHint")
  ; ("symbol", "symbol") ].

Definition Message_members : list member :=
  [ Member "format" TString None
  ; Member "id" TInteger None
  ; Member "sendTelemetry" (TOptional TBoolean) None
  ; Member "showUser" (TOptional TBoolean) None
  ; Member "url" (TOptional TString) None
  ; Member "urlLabel" (TOptional TString) None
  ; Member "variables" (TOptional TObject) None ].
Definition Message_info : struct_info :=
  StructInfo "Message" EmptyString None Message_members
  [ ("format", "format")
  ; ("id", "id")
  ; ("sendTelemetry", "sendTelemetry")
  ; ("showUser", "showUser")
  ; ("url", "url")
  ; ("urlLabel", "urlLabel")
  ; ("variables", "variables") ].

Definition VariablePresentationHint_members : list member :=
  [ Member "attributes" (TOptional (TArray TString)) None
  ; Member "kind" (TOptional TString) None
  ; Member "lazy" (TOptional TBoolean) None
  ; Member "visibility" (TOptional TString) None ].
Definition VariablePresentationHint_info : struct_info :=
  StructInfo "VariablePresentationHint" EmptyString None VariablePresentationHint_members
  [ ("attributes", "attributes")
  ; ("kind", "kind")
  ; ("lazy", "lazy")
  ; ("visibility", "visibility") ].

Definition ValueFormat_members : list member :=
  [ Member "hex" (TOptional TBoolean) None ].
Definition ValueFormat_info : struct_info :=
  StructInfo "ValueFormat" EmptyString None ValueFormat_members
  [ ("hex", "hex") ].

Definition ExceptionDetails_members : list member :=
  [ Member "evaluateName" (TOptional TString) None
  ; Member "fullTypeName" (TOptional TString) None
  ; Member "innerException" (TOptional (TArray (TStruct "ExceptionDetails"))) None
  ; Member "message" (TOptional TString) None
  ; Member "stackTrace" (TOptional TString) None
  ; Member "typeName" (TOptional TString) None ].
Definition ExceptionDetails_info : struct_info :=
  StructInfo "ExceptionDetails" EmptyString None ExceptionDetails_members
  [ ("evaluateName", "evaluateName")
  ; ("fullTypeName", "fullTypeName")
  ; ("innerException", "innerException")
  ; ("message", "message")
  ; ("stackTrace", "stackTrace")
  ; ("typeName", "typeName") ].

Definition GotoTarget_members : list member :=
  [ Member "column" (TOptional TInteger) None
  ; Member "endColumn" (TOptional TInteger) None
  ; Member "endLine" (TOptional TInteger) None
  ; Member "id" TInteger None
  ; Member "instructionPointerReference" (TOptional TString) None
  ; Member "label" TString None
  ; Member "line" TInteger None ].
Definition GotoTarget_info : struct_info :=
  StructInfo "GotoTarget" EmptyString None GotoTarget_members
  [ ("column", "column")
  ; ("endColumn", "endColumn")
  ; ("endLine", "endLine")
  ; ("id", "id")
  ; ("instructionPointerReference", "instructionPointerReference")
  ; ("label", "label")
  ; ("line", "line") ].

Definition Module_members : list member :=
  [ Member "addressRange" (TOptional TString) None
  ; Member "dateTimeStamp" (TOptional TString) None
  ; Member "id" (TVariant TInteger [TString]) None
  ; Member "isOptimized" (TOptional TBoolean) None
  ; Member "isUserCode" (TOptional TBoolean) None
  ; Member "name" TString None
  ; Member "path" (TOptional TString) None
  ; Member "symbolFilePath" (TOptional TString) None
  ; Member "symbolStatus" (TOptional TString) None
  ; Member "version" (TOptional TString) None ].
Definition Module_info : struct_info :=
  StructInfo "Module" EmptyString None Module_members
  [ ("addressRange", "addressRange")
  ; ("dateTimeStamp", "dateTimeStamp")
  ; ("id", "id")
  ; ("isOptimized", "isOptimized")
  ; ("isUserCode", "isUserCode")
  ; ("name", "name")
  ; ("path", "path")
  ; ("symbolFilePath", "symbolFilePath")
  ; ("symbolStatus", "symbolStatus")
  ; ("version", "version") ].

Definition Scope_members : list member :=
  [ Member "column" (TOptional TInteger) None
  ; Member "endColumn" (TOptional TInteger) None
  ; Member "endLine" (TOptional TInteger) None
  ; Member "expensive" TBoolean None
  ; Member "indexedVariables" (TOptional TInteger) None
  ; Member "line" (TOptional TInteger) None
  ; Member "name" TString None
  ; Member "namedVariables" (TOptional TInteger) None
  ; Member "presentationHint" (TOptional TString) None
  ; Member "source" (TOptional (TStruct "Source")) None
  ; Member "variablesReference" TInteger None ].
Definition Scope_info : struct_info :=
  StructInfo "Scope" EmptyString None Scope_members
  [ ("column", "column")
  ; ("endColumn", "endColumn")
  ; ("endLine", "endLine")
  ; ("expensive", "expensive")
  ; ("indexedVariables", "indexedVariables")
  ; ("line", "line")
  ; ("name", "name")
  ; ("namedVariables", "namedVariables")
  ; ("presentationHint", "presentationHint")
  ; ("source", "source")
  ; ("variablesReference", "variablesReference") ].

Definition SourceBreakpoint_members : list member :=
  [ Member "column" (TOptional TInteger) None
  ; Member "condition" (TOptional TString) None
  ; Member "hitCondition" (TOptional TString) None
  ; Member "line" TInteger None
  ; Member "logMessage" (TOptional TString) None
  ; Member "mode" (TOptional TString) None ].
Definition SourceBreakpoint_info : struct_info :=
  StructInfo "SourceBreakpoint" EmptyString None SourceBreakpoint_members
  [ ("column", "column")
  ; ("condition", "condition")
  ; ("hitCondition", "hitCondition")
  ; ("line", "line")
  ; ("logMessage", "logMessage")
  ; ("mode", "mode") ].

Definition DataBreakpoint_members : list member :=
  [ Member "accessType" (TOptional TString) None
  ; Member "condition" (TOptional TString) None
  ; Member "dataId" TString None
  ; Member "hitCondition" (TOptional TString) None ].
Definition DataBreakpoint_info : struct_info :=
  StructInfo "DataBreakpoint" EmptyString None DataBreakpoint_members
  [ ("accessType", "accessType")
  ; ("condition", "condition")
  ; ("dataId", "dataId")
  ; ("hitCondition", "hitCondition") ].

Definition ExceptionPathSegment_members : list member :=
  [ Member "names" (TArray TString) None
  ; Member "negate" (TOptional TBoolean) None ].
Definition ExceptionPathSegment_info : struct_info :=
  StructInfo "ExceptionPathSegment" EmptyString None ExceptionPathSegment_members
  [ ("names", "names")
  ; ("negate", "negate") ].

Definition ExceptionOptions_members : list member :=
  [ Member "breakMode" TString (Some (VString "never"))
  ; Member "path" (TOptional (TArray (TStruct "ExceptionPathSegment"))) None ].
Definition ExceptionOptions_info : struct_info :=
  StructInfo "ExceptionOptions" EmptyString None ExceptionOptions_members
  [ ("breakMode", "breakMode")
  ; ("path", "path") ].

Definition ExceptionFilterOptions_members : list member :=
  [ Member "condition" (TOptional TString) None
  ; Member "filterId" TString None
  ; Member "mode" (TOptional TString) None ].
Definition ExceptionFilterOptions_info : struct_info :=
  StructInfo "ExceptionFilterOptions" EmptyString None ExceptionFilterOptions_members
  [ ("condition", "condition")
  ; ("filterId", "filterId")
  ; ("mode", "mode") ].

Definition FunctionBreakpoint_members : list member :=
  [ Member "condition" (TOptional TString) None
  ; Member "hitCondition" (TOptional TString) None
  ; Member "name" TString None ].
Definition FunctionBreakpoint_info : struct_info :=
  StructInfo "FunctionBreakpoint" EmptyString None FunctionBreakpoint_members
  [ ("condition", "condition")
  ; ("hitCondition", "hitCondition")
  ; ("name", "name") ].

Definition InstructionBreakpoint_members : list member :=
  [ Member "condition" (TOptional TString) None
  ; Member "hitCondition" (TOptional TString) None
  ; Member "instructionReference" TString None
  ; Member "mode" (TOptional TString) None
  ; Member "offset" (TOptional TInteger) None ].
Definition InstructionBreakpoint_info : struct_info :=
  StructInfo "InstructionBreakpoint" EmptyString None InstructionBreakpoint_members
  [ ("condition", "condition")
  ; ("hitCondition", "hitCondition")
  ; ("instructionReference", "instructionReference")
  ; ("mode", "mode")
  ; ("offset", "offset") ].

Definition StackFrame_members : list member :=
  [ Member "canRestart" (TOptional TBoolean) None
  ; Member "column" TInteger None
  ; Member "endColumn" (TOptional TInteger) None
  ; Member "endLine" (TOptional TInteger) None
  ; Member "id" TInteger None
  ; Member "instructionPointerReference" (TOptional TString) None
  ; Member "line" TInteger None
  ; Member "moduleId" (TOptional (TVariant TInteger [TString])) None
  ; Member "name" TString None
  ; Member "presentationHint" (TOptional TString) None
  ; Member "source" (TOptional (TStruct "Source")) None ].
Definition StackFrame_info : struct_info :=
  StructInfo "StackFrame" EmptyString None StackFrame_members
  [ ("canRestart", "canRestart")
  ; ("column", "column")
  ; ("endColumn", "endColumn")
  ; ("endLine", "endLine")
  ; ("id", "id")
  ; ("instructionPointerReference", "instructionPointerReference")
  ; ("line", "line")
  ; ("moduleId", "moduleId")
  ; ("name", "name")
  ; ("presentationHint", "presentationHint")
  ; ("source", "source") ].

(** [hex] is inherited from [ValueFormat]; no [DAP_FIELD] names it. *)
Definition StackFrameFormat_members : list member :=
  ValueFormat_members ++
  [ Member "includeAll" (TOptional TBoolean) None
  ; Member "line" (TOptional TBoolean) None
  ; Member "module" (TOptional TBoolean) None
  ; Member "parameterNames" (TOptional TBoolean) None
  ; Member "parameterTypes" (TOptional TBoolean) None
  ; Member "parameterValues" (TOptional TBoolean) None
  ; Member "parameters" (TOptional TBoolean) None ].
Definition StackFrameFormat_info : struct_info :=
  StructInfo "StackFrameFormat" EmptyString None StackFrameFormat_members
  [ ("includeAll", "includeAll")
  ; ("line", "line")
  ; ("module", "module")
  ; ("parameterNames", "parameterNames")
  ; ("parameterTypes", "parameterTypes")
  ; ("parameterValues", "parameterValues")
  ; ("parameters", "parameters") ].

Definition StepInTarget_members : list member :=
  [ Member "column" (TOptional TInteger) None
  ; Member "endColumn" (TOptional TInteger) None
  ; Member "endLine" (TOptional TInteger) None
  ; Member "id" TInteger None
  ; Member "label" TString None
  ; Member "line" (TOptional TInteger) None ].
Definition StepInTarget_info : struct_info :=
  StructInfo "StepInTarget" EmptyString None StepInTarget_members
  [ ("column", "column")
  ; ("endColumn", "endColumn")
  ; ("endLine", "endLine")
  ; ("id", "id")
  ; ("label", "label")
  ; ("line", "line") ].

Definition Thread_members : list member :=
  [ Member "id" TInteger None
  ; Member "name" TString None ].
Definition Thread_info : struct_info :=
  StructInfo "Thread" EmptyString None Thread_members
  [ ("id", "id")
  ; ("name", "name") ].

Definition Variable_members : list member :=
  [ Member "evaluateName" (TOptional TString) None
  ; Member "indexedVariables" (TOptional TInteger) None
  ; Member "memoryReference" (TOptional TString) None
  ; Member "name" TString None
  ; Member "namedVariables" (TOptional TInteger) None
  ; Member "presentationHint" (TOptional (TStruct "VariablePresentationHint")) None
  ; Member "type" (TOptional TString) None
  ; Member "value" TString None
  ; Member "variablesReference" TInteger None ].
Definition Variable_info : struct_info :=
  StructInfo "Variable" EmptyString None Variable_members
  [ ("evaluateName", "evaluateName")
  ; ("indexedVariables", "indexedVariables")
  ; ("memoryReference", "memoryReference")
  ; ("name", "name")
  ; ("namedVariables", "namedVariables")
  ; ("presentationHint", "presentationHint")
  ; ("type", "type")
  ; ("value", "value")
  ; ("variablesReference", "variablesReference") ].

(** All of them. *)
Definition protocol_types : list struct_info :=
  [ Checksum_info
  ; Source_info
  ; Breakpoint_info
  ; BreakpointLocation_info
  ; ColumnDescriptor_info
  ; BreakpointMode_info
  ; ExceptionBreakpointsFilter_info
  ; Capabilities_info
  ; CompletionItem_info
  ; DisassembledInstruction_info
  ; Message_info
  ; VariablePresentationHint_info
  ; ValueFormat_info
  ; ExceptionDetails_info
  ; GotoTarget_info
  ; Module_info
  ; Scope_info
  ; SourceBreakpoint_info
  ; DataBreakpoint_info
  ; ExceptionPathSegment_info
  ; ExceptionOptions_info
  ; ExceptionFilterOptions_info
  ; FunctionBreakpoint_info
  ; InstructionBreakpoint_info
  ; StackFrame_info
  ; StackFrameFormat_info
  ; StepInTarget_info
  ; Thread_info
  ; Variable_info ].
