(* ===== verification/ProtocolRequests.v ===== *)
(** * The protocol: the requests

    Models the structs of [include/dap/protocol.h] declared for the requests ([X_members]:
    the members of struct [X], in order, with their initializers) and their
    descriptions in [src/protocol_requests.cpp] ([X_info]: the serialized name and the
    [DAP_FIELD]s). *)
From stdpp Require Import base list strings.
From S2P Require Import Prelude Types.

Definition AttachRequest_members : list member :=
  [ Member "restart" (TOptional (TVariant (TArray TAny) [TBoolean; TInteger; TNull; TNumber; TObject; TString])) None ].
Definition AttachRequest_info : struct_info :=
  StructInfo "AttachRequest" "attach" None AttachRequest_members
  [ ("restart", "__restart") ].

Definition BreakpointLocationsRequest_members : list member :=
  [ Member "column" (TOptional TInteger) None
  ; Member "endColumn" (TOptional TInteger) None
  ; Member "endLine" (TOptional TInteger) None
  ; Member "line" TInteger None
  ; Member "source" (TStruct "Source") None ].
Definition BreakpointLocationsRequest_info : struct_info :=
  StructInfo "BreakpointLocationsRequest" "breakpointLocations" None BreakpointLocationsRequest_members
  [ ("column", "column")
  ; ("endColumn", "endColumn")
  ; ("endLine", "endLine")
  ; ("line", "line")
  ; ("source", "source") ].

Definition CancelRequest_members : list member :=
  [ Member "progressId" (TOptional TString) None
  ; Member "requestId" (TOptional TInteger) None ].
Definition CancelRequest_info : struct_info :=
  StructInfo "CancelRequest" "cancel" None CancelRequest_members
  [ ("progressId", "progressId")
  ; ("requestId", "requestId") ].

Definition CompletionsRequest_members : list member :=
  [ Member "column" TInteger None
  ; Member "frameId" (TOptional TInteger) None
  ; Member "line" (TOptional TInteger) None
  ; Member "text" TString None ].
Definition CompletionsRequest_info : struct_info :=
  StructInfo "CompletionsRequest" "completions" None CompletionsRequest_members
  [ ("column", "column")
  ; ("frameId", "frameId")
  ; ("line", "line")
  ; ("text", "text") ].

Definition ConfigurationDoneRequest_members : list member := [].
Definition ConfigurationDoneRequest_info : struct_info :=
  StructInfo "ConfigurationDoneRequest" "configurationDone" None ConfigurationDoneRequest_members [].

Definition ContinueRequest_members : list member :=
  [ Member "singleThread" (TOptional TBoolean) None
  ; Member "threadId" TInteger None ].
Definition ContinueRequest_info : struct_info :=
  StructInfo "ContinueRequest" "continue" None ContinueRequest_members
  [ ("singleThread", "singleThread")
  ; ("threadId", "threadId") ].

Definition DataBreakpointInfoRequest_members : list member :=
  [ Member "frameId" (TOptional TInteger) None
  ; Member "mode" (TOptional TString) None
  ; Member "name" TString None
  ; Member "variablesReference" (TOptional TInteger) None ].
Definition DataBreakpointInfoRequest_info : struct_info :=
  StructInfo "DataBreakpointInfoRequest" "dataBreakpointInfo" None DataBreakpointInfoRequest_members
  [ ("frameId", "frameId")
  ; ("mode", "mode")
  ; ("name", "name")
  ; ("variablesReference", "variablesReference") ].

Definition DisassembleRequest_members : list member :=
  [ Member "instructionCount" TInteger None
  ; Member "instructionOffset" (TOptional TInteger) None
  ; Member "memoryReference" TString None
  ; Member "offset" (TOptional TInteger) None
  ; Member "resolveSymbols" (TOptional TBoolean) None ].
Definition DisassembleRequest_info : struct_info :=
  StructInfo "DisassembleRequest" "disassemble" None DisassembleRequest_members
  [ ("instructionCount", "instructionCount")
  ; ("instructionOffset", "instructionOffset")
  ; ("memoryReference", "memoryReference")
  ; ("offset", "offset")
  ; ("resolveSymbols", "resolveSymbols") ].

Definition DisconnectRequest_members : list member :=
  [ Member "restart" (TOptional TBoolean) None
  ; Member "suspendDebuggee" (TOptional TBoolean) None
  ; Member "terminateDebuggee" (TOptional TBoolean) None ].
Definition DisconnectRequest_info : struct_info :=
  StructInfo "DisconnectRequest" "disconnect" None DisconnectRequest_members
  [ ("restart", "restart")
  ; ("suspendDebuggee", "suspendDebuggee")
  ; ("terminateDebuggee", "terminateDebuggee") ].

Definition EvaluateRequest_members : list member :=
  [ Member "context" (TOptional TString) None
  ; Member "expression" TString None
  ; Member "format" (TOptional (TStruct "ValueFormat")) None
  ; Member "frameId" (TOptional TInteger) None ].
Definition EvaluateRequest_info : struct_info :=
  StructInfo "EvaluateRequest" "evaluate" None EvaluateRequest_members
  [ ("context", "context")
  ; ("expression", "expression")
  ; ("format", "format")
  ; ("frameId", "frameId") ].

Definition ExceptionInfoRequest_members : list member :=
  [ Member "threadId" TInteger None ].
Definition ExceptionInfoRequest_info : struct_info :=
  StructInfo "ExceptionInfoRequest" "exceptionInfo" None ExceptionInfoRequest_members
  [ ("threadId", "threadId") ].

Definition GotoRequest_members : list member :=
  [ Member "targetId" TInteger None
  ; Member "threadId" TInteger None ].
Definition GotoRequest_info : struct_info :=
  StructInfo "GotoRequest" "goto" None GotoRequest_members
  [ ("targetId", "targetId")
  ; ("threadId", "threadId") ].

Definition GotoTargetsRequest_members : list member :=
  [ Member "column" (TOptional TInteger) None
  ; Member "line" TInteger None
  ; Member "source" (TStruct "Source") None ].
Definition GotoTargetsRequest_info : struct_info :=
  StructInfo "GotoTargetsRequest" "gotoTargets" None GotoTargetsRequest_members
  [ ("column", "column")
  ; ("line", "line")
  ; ("source", "source") ].

Definition InitializeRequest_members : list member :=
  [ Member "adapterID" TString None
  ; Member "clientID" (TOptional TString) None
  ; Member "clientName" (TOptional TString) None
  ; Member "columnsStartAt1" (TOptional TBoolean) None
  ; Member "linesStartAt1" (TOptional TBoolean) None
  ; Member "locale" (TOptional TString) None
  ; Member "pathFormat" (TOptional TString) None
  ; Member "supportsArgsCanBeInterpretedByShell" (TOptional TBoolean) None
  ; Member "supportsInvalidatedEvent" (TOptional TBoolean) None
  ; Member "supportsMemoryEvent" (TOptional TBoolean) None
  ; Member "supportsMemoryReferences" (TOptional TBoolean) None
  ; Member "supportsProgressReporting" (TOptional TBoolean) None
  ; Member "supportsRunInTerminalRequest" (TOptional TBoolean) None
  ; Member "supportsStartDebuggingRequest" (TOptional TBoolean) None
  ; Member "supportsVariablePaging" (TOptional TBoolean) None
  ; Member "supportsVariableType" (TOptional TBoolean) None ].
Definition InitializeRequest_info : struct_info :=
  StructInfo "InitializeRequest" "initialize" None InitializeRequest_members
  [ ("adapterID", "adapterID")
  ; ("clientID", "clientID")
  ; ("clientName", "clientName")
  ; ("columnsStartAt1", "columnsStartAt1")
  ; ("linesStartAt1", "linesStartAt1")
  ; ("locale", "locale")
  ; ("pathFormat", "pathFormat")
  ; ("supportsArgsCanBeInterpretedByShell", "supportsArgsCanBeInterpretedByShell")
  ; ("supportsInvalidatedEvent", "supportsInvalidatedEvent")
  ; ("supportsMemoryEvent", "supportsMemoryEvent")
  ; ("supportsMemoryReferences", "supportsMemoryReferences")
  ; ("supportsProgressReporting", "supportsProgressReporting")
  ; ("supportsRunInTerminalRequest", "supportsRunInTerminalRequest")
  ; ("supportsStartDebuggingRequest", "supportsStartDebuggingRequest")
  ; ("supportsVariablePaging", "supportsVariablePaging")
  ; ("supportsVariableType", "supportsVariableType") ].

Definition LaunchRequest_members : list member :=
  [ Member "restart" (TOptional (TVariant (TArray TAny) [TBoolean; TInteger; TNull; TNumber; TObject; TString])) None
  ; Member "noDebug" (TOptional TBoolean) None ].
Definition LaunchRequest_info : struct_info :=
  StructInfo "LaunchRequest" "launch" None LaunchRequest_members
  [ ("restart", "__restart")
  ; ("noDebug", "noDebug") ].

Definition LoadedSourcesRequest_members : list member := [].
Definition LoadedSourcesRequest_info : struct_info :=
  StructInfo "LoadedSourcesRequest" "loadedSources" None LoadedSourcesRequest_members [].

Definition ModulesRequest_members : list member :=
  [ Member "moduleCount" (TOptional TInteger) None
  ; Member "startModule" (TOptional TInteger) None ].
Definition ModulesRequest_info : struct_info :=
  StructInfo "ModulesRequest" "modules" None ModulesRequest_members
  [ ("moduleCount", "moduleCount")
  ; ("startModule", "startModule") ].

Definition NextRequest_members : list member :=
  [ Member "granularity" (TOptional TString) None
  ; Member "singleThread" (TOptional TBoolean) None
  ; Member "threadId" TInteger None ].
Definition NextRequest_info : struct_info :=
  StructInfo "NextRequest" "next" None NextRequest_members
  [ ("granularity", "granularity")
  ; ("singleThread", "singleThread")
  ; ("threadId", "threadId") ].

Definition PauseRequest_members : list member :=
  [ Member "threadId" TInteger None ].
Definition PauseRequest_info : struct_info :=
  StructInfo "PauseRequest" "pause" None PauseRequest_members
  [ ("threadId", "threadId") ].

Definition ReadMemoryRequest_members : list member :=
  [ Member "count" TInteger None
  ; Member "memoryReference" TString None
  ; Member "offset" (TOptional TInteger) None ].
Definition ReadMemoryRequest_info : struct_info :=
  StructInfo "ReadMemoryRequest" "readMemory" None ReadMemoryRequest_members
  [ ("count", "count")
  ; ("memoryReference", "memoryReference")
  ; ("offset", "offset") ].

Definition RestartFrameRequest_members : list member :=
  [ Member "frameId" TInteger None ].
Definition RestartFrameRequest_info : struct_info :=
  StructInfo "RestartFrameRequest" "restartFrame" None RestartFrameRequest_members
  [ ("frameId", "frameId") ].

Definition RestartRequest_members : list member :=
  [ Member "arguments" (TOptional TObject) None ].
Definition RestartRequest_info : struct_info :=
  StructInfo "RestartRequest" "restart" None RestartRequest_members
  [ ("arguments", "arguments") ].

Definition ReverseContinueRequest_members : list member :=
  [ Member "singleThread" (TOptional TBoolean) None
  ; Member "threadId" TInteger None ].
Definition ReverseContinueRequest_info : struct_info :=
  StructInfo "ReverseContinueRequest" "reverseContinue" None ReverseContinueRequest_members
  [ ("singleThread", "singleThread")
  ; ("threadId", "threadId") ].

Definition RunInTerminalRequest_members : list member :=
  [ Member "args" (TArray TString) None
  ; Member "argsCanBeInterpretedByShell" (TOptional TBoolean) None
  ; Member "cwd" TString None
  ; Member "env" (TOptional TObject) None
  ; Member "kind" (TOptional TString) None
  ; Member "title" (TOptional TString) None ].
Definition RunInTerminalRequest_info : struct_info :=
  StructInfo "RunInTerminalRequest" "runInTerminal" None RunInTerminalRequest_members
  [ ("args", "args")
  ; ("argsCanBeInterpretedByShell", "argsCanBeInterpretedByShell")
  ; ("cwd", "cwd")
  ; ("env", "env")
  ; ("kind", "kind")
  ; ("title", "title") ].

Definition ScopesRequest_members : list member :=
  [ Member "frameId" TInteger None ].
Definition ScopesRequest_info : struct_info :=
  StructInfo "ScopesRequest" "scopes" None ScopesRequest_members
  [ ("frameId", "frameId") ].

Definition SetBreakpointsRequest_members : list member :=
  [ Member "breakpoints" (TOptional (TArray (TStruct "SourceBreakpoint"))) None
  ; Member "lines" (TOptional (TArray TInteger)) None
  ; Member "source" (TStruct "Source") None
  ; Member "sourceModified" (TOptional TBoolean) None ].
Definition SetBreakpointsRequest_info : struct_info :=
  StructInfo "SetBreakpointsRequest" "setBreakpoints" None SetBreakpointsRequest_members
  [ ("breakpoints", "breakpoints")
  ; ("lines", "lines")
  ; ("source", "source")
  ; ("sourceModified", "sourceModified") ].

Definition SetDataBreakpointsRequest_members : list member :=
  [ Member "breakpoints" (TArray (TStruct "DataBreakpoint")) None ].
Definition SetDataBreakpointsRequest_info : struct_info :=
  StructInfo "SetDataBreakpointsRequest" "setDataBreakpoints" None SetDataBreakpointsRequest_members
  [ ("breakpoints", "breakpoints") ].

Definition SetExceptionBreakpointsRequest_members : list member :=
  [ Member "exceptionOptions" (TOptional (TArray (TStruct "ExceptionOptions"))) None
  ; Member "filterOptions" (TOptional (TArray (TStruct "ExceptionFilterOptions"))) None
  ; Member "filters" (TArray TString) None ].
Definition SetExceptionBreakpointsRequest_info : struct_info :=
  StructInfo "SetExceptionBreakpointsRequest" "setExceptionBreakpoints" None SetExceptionBreakpointsRequest_members
  [ ("exceptionOptions", "exceptionOptions")
  ; ("filterOptions", "filterOptions")
  ; ("filters", "filters") ].

Definition SetExpressionRequest_members : list member :=
  [ Member "expression" TString None
  ; Member "format" (TOptional (TStruct "ValueFormat")) None
  ; Member "frameId" (TOptional TInteger) None
  ; Member "value" TString None ].
Definition SetExpressionRequest_info : struct_info :=
  StructInfo "SetExpressionRequest" "setExpression" None SetExpressionRequest_members
  [ ("expression", "expression")
  ; ("format", "format")
  ; ("frameId", "frameId")
  ; ("value", "value") ].

Definition SetFunctionBreakpointsRequest_members : list member :=
  [ Member "breakpoints" (TArray (TStruct "FunctionBreakpoint")) None ].
Definition SetFunctionBreakpointsRequest_info : struct_info :=
  StructInfo "SetFunctionBreakpointsRequest" "setFunctionBreakpoints" None SetFunctionBreakpointsRequest_members
  [ ("breakpoints", "breakpoints") ].

Definition SetInstructionBreakpointsRequest_members : list member :=
  [ Member "breakpoints" (TArray (TStruct "InstructionBreakpoint")) None ].
Definition SetInstructionBreakpointsRequest_info : struct_info :=
  StructInfo "SetInstructionBreakpointsRequest" "setInstructionBreakpoints" None SetInstructionBreakpointsRequest_members
  [ ("breakpoints", "breakpoints") ].

Definition SetVariableRequest_members : list member :=
  [ Member "format" (TOptional (TStruct "ValueFormat")) None
  ; Member "name" TString None
  ; Member "value" TString None
  ; Member "variablesReference" TInteger None ].
Definition SetVariableRequest_info : struct_info :=
  StructInfo "SetVariableRequest" "setVariable" None SetVariableRequest_members
  [ ("format", "format")
  ; ("name", "name")
  ; ("value", "value")
  ; ("variablesReference", "variablesReference") ].

Definition SourceRequest_members : list member :=
  [ Member "source" (TOptional (TStruct "Source")) None
  ; Member "sourceReference" TInteger None ].
Definition SourceRequest_info : struct_info :=
  StructInfo "SourceRequest" "source" None SourceRequest_members
  [ ("source", "source")
  ; ("sourceReference", "sourceReference") ].

Definition StackTraceRequest_members : list member :=
  [ Member "format" (TOptional (TStruct "StackFrameFormat")) None
  ; Member "levels" (TOptional TInteger) None
  ; Member "startFrame" (TOptional TInteger) None
  ; Member "threadId" TInteger None ].
Definition StackTraceRequest_info : struct_info :=
  StructInfo "StackTraceRequest" "stackTrace" None StackTraceRequest_members
  [ ("format", "format")
  ; ("levels", "levels")
  ; ("startFrame", "startFrame")
  ; ("threadId", "threadId") ].

Definition StartDebuggingRequest_members : list member :=
  [ Member "configuration" TObject None
  ; Member "request" TString (Some (VString "launch")) ].
Definition StartDebuggingRequest_info : struct_info :=
  StructInfo "StartDebuggingRequest" "startDebugging" None StartDebuggingRequest_members
  [ ("configuration", "configuration")
  ; ("request", "request") ].

Definition StepBackRequest_members : list member :=
  [ Member "granularity" (TOptional TString) None
  ; Member "singleThread" (TOptional TBoolean) None
  ; Member "threadId" TInteger None ].
Definition StepBackRequest_info : struct_info :=
  StructInfo "StepBackRequest" "stepBack" None StepBackRequest_members
  [ ("granularity", "granularity")
  ; ("singleThread", "singleThread")
  ; ("threadId", "threadId") ].

Definition StepInRequest_members : list member :=
  [ Member "granularity" (TOptional TString) None
  ; Member "singleThread" (TOptional TBoolean) None
  ; Member "targetId" (TOptional TInteger) None
  ; Member "threadId" TInteger None ].
Definition StepInRequest_info : struct_info :=
  StructInfo "StepInRequest" "stepIn" None StepInRequest_members
  [ ("granularity", "granularity")
  ; ("singleThread", "singleThread")
  ; ("targetId", "targetId")
  ; ("threadId", "threadId") ].

Definition StepInTargetsRequest_members : list member :=
  [ Member "frameId" TInteger None ].
Definition StepInTargetsRequest_info : struct_info :=
  StructInfo "StepInTargetsRequest" "stepInTargets" None StepInTargetsRequest_members
  [ ("frameId", "frameId") ].

Definition StepOutRequest_members : list member :=
  [ Member "granularity" (TOptional TString) None
  ; Member "singleThread" (TOptional TBoolean) None
  ; Member "threadId" TInteger None ].
Definition StepOutRequest_info : struct_info :=
  StructInfo "StepOutRequest" "stepOut" None StepOutRequest_members
  [ ("granularity", "granularity")
  ; ("singleThread", "singleThread")
  ; ("threadId", "threadId") ].

Definition TerminateRequest_members : list member :=
  [ Member "restart" (TOptional TBoolean) None ].
Definition TerminateRequest_info : struct_info :=
  StructInfo "TerminateRequest" "terminate" None TerminateRequest_members
  [ ("restart", "restart") ].

Definition TerminateThreadsRequest_members : list member :=
  [ Member "threadIds" (TOptional (TArray TInteger)) None ].
Definition TerminateThreadsRequest_info : struct_info :=
  StructInfo "TerminateThreadsRequest" "terminateThreads" None TerminateThreadsRequest_members
  [ ("threadIds", "threadIds") ].

Definition ThreadsRequest_members : list member := [].
Definition ThreadsRequest_info : struct_info :=
  StructInfo "ThreadsRequest" "threads" None ThreadsRequest_members [].

Definition VariablesRequest_members : list member :=
  [ Member "count" (TOptional TInteger) None
  ; Member "filter" (TOptional TString) None
  ; Member "format" (TOptional (TStruct "ValueFormat")) None
  ; Member "start" (TOptional TInteger) None
  ; Member "variablesReference" TInteger None ].
Definition VariablesRequest_info : struct_info :=
  StructInfo "VariablesRequest" "variables" None VariablesRequest_members
  [ ("count", "count")
  ; ("filter", "filter")
  ; ("format", "format")
  ; ("start", "start")
  ; ("variablesReference", "variablesReference") ].

Definition WriteMemoryRequest_members : list member :=
  [ Member "allowPartial" (TOptional TBoolean) None
  ; Member "data" TString None
  ; Member "memoryReference" TString None
  ; Member "offset" (TOptional TInteger) None ].
Definition WriteMemoryRequest_info : struct_info :=
  StructInfo "WriteMemoryRequest" "writeMemory" None WriteMemoryRequest_members
  [ ("allowPartial", "allowPartial")
  ; ("data", "data")
  ; ("memoryReference", "memoryReference")
  ; ("offset", "offset") ].

(** All of them. *)
Definition protocol_requests : list struct_info :=
  [ AttachRequest_info
  ; BreakpointLocationsRequest_info
  ; CancelRequest_info
  ; CompletionsRequest_info
  ; ConfigurationDoneRequest_info
  ; ContinueRequest_info
  ; DataBreakpointInfoRequest_info
  ; DisassembleRequest_info
  ; DisconnectRequest_info
  ; EvaluateRequest_info
  ; ExceptionInfoRequest_info
  ; GotoRequest_info
  ; GotoTargetsRequest_info
  ; InitializeRequest_info
  ; LaunchRequest_info
  ; LoadedSourcesRequest_info
  ; ModulesRequest_info
  ; NextRequest_info
  ; PauseRequest_info
  ; ReadMemoryRequest_info
  ; RestartFrameRequest_info
  ; RestartRequest_info
  ; ReverseContinueRequest_info
  ; RunInTerminalRequest_info
  ; ScopesRequest_info
  ; SetBreakpointsRequest_info
  ; SetDataBreakpointsRequest_info
  ; SetExceptionBreakpointsRequest_info
  ; SetExpressionRequest_info
  ; SetFunctionBreakpointsRequest_info
  ; SetInstructionBreakpointsRequest_info
  ; SetVariableRequest_info
  ; SourceRequest_info
  ; StackTraceRequest_info
  ; StartDebuggingRequest_info
  ; StepBackRequest_info
  ; StepInRequest_info
  ; StepInTargetsRequest_info
  ; StepOutRequest_info
  ; TerminateRequest_info
  ; TerminateThreadsRequest_info
  ; ThreadsRequest_info
  ; VariablesRequest_info
  ; WriteMemoryRequest_info ].

(** [using Response = ...] of each request. *)
Definition request_response : list (string * string) :=
  [ ("AttachRequest", "AttachResponse")
  ; ("BreakpointLocationsRequest", "BreakpointLocationsResponse")
  ; ("CancelRequest", "CancelResponse")
  ; ("CompletionsRequest", "CompletionsResponse")
  ; ("ConfigurationDoneRequest", "ConfigurationDoneResponse")
  ; ("ContinueRequest", "ContinueResponse")
  ; ("DataBreakpointInfoRequest", "DataBreakpointInfoResponse")
  ; ("DisassembleRequest", "DisassembleResponse")
  ; ("DisconnectRequest", "DisconnectResponse")
  ; ("EvaluateRequest", "EvaluateResponse")
  ; ("ExceptionInfoRequest", "ExceptionInfoResponse")
  ; ("GotoRequest", "GotoResponse")
  ; ("GotoTargetsRequest", "GotoTargetsResponse")
  ; ("InitializeRequest", "InitializeResponse")
  ; ("LaunchRequest", "LaunchResponse")
  ; ("LoadedSourcesRequest", "LoadedSourcesResponse")
  ; ("ModulesRequest", "ModulesResponse")
  ; ("NextRequest", "NextResponse")
  ; ("PauseRequest", "PauseResponse")
  ; ("ReadMemoryRequest", "ReadMemoryResponse")
  ; ("RestartFrameRequest", "RestartFrameResponse")
  ; ("RestartRequest", "RestartResponse")
  ; ("ReverseContinueRequest", "ReverseContinueResponse")
  ; ("RunInTerminalRequest", "RunInTerminalResponse")
  ; ("ScopesRequest", "ScopesResponse")
  ; ("SetBreakpointsRequest", "SetBreakpointsResponse")
  ; ("SetDataBreakpointsRequest", "SetDataBreakpointsResponse")
  ; ("SetExceptionBreakpointsRequest", "SetExceptionBreakpointsResponse")
  ; ("SetExpressionRequest", "SetExpressionResponse")
  ; ("SetFunctionBreakpointsRequest", "SetFunctionBreakpointsResponse")
  ; ("SetInstructionBreakpointsRequest", "SetInstructionBreakpointsResponse")
  ; ("SetVariableRequest", "SetVariableResponse")
  ; ("SourceRequest", "SourceResponse")
  ; ("StackTraceRequest", "StackTraceResponse")
  ; ("StartDebuggingRequest", "StartDebuggingResponse")
  ; ("StepBackRequest", "StepBackResponse")
  ; ("StepInRequest", "StepInResponse")
  ; ("StepInTargetsRequest", "StepInTargetsResponse")
  ; ("StepOutRequest", "StepOutResponse")
  ; ("TerminateRequest", "TerminateResponse")
  ; ("TerminateThreadsRequest", "TerminateThreadsResponse")
  ; ("ThreadsRequest", "ThreadsResponse")
  ; ("VariablesRequest", "VariablesResponse")
  ; ("WriteMemoryRequest", "WriteMemoryResponse") ].
