(* ===== verification/ProtocolResponses.v ===== *)
(** * The protocol: the responses

    Models the structs of [include/dap/protocol.h] declared for the responses ([X_members]:
    the members of struct [X], in order, with their initializers) and their
    descriptions in [src/protocol_response.cpp] ([X_info]: the serialized name and the
    [DAP_FIELD]s). *)
From stdpp Require Import base list strings.
From S2P Require Import Prelude Types.

Definition AttachResponse_members : list member := [].
Definition AttachResponse_info : struct_info :=
  StructInfo "AttachResponse" EmptyString None AttachResponse_members [].

Definition BreakpointLocationsResponse_members : list member :=
  [ Member "breakpoints" (TArray (TStruct "BreakpointLocation")) None ].
Definition BreakpointLocationsResponse_info : struct_info :=
  StructInfo "BreakpointLocationsResponse" EmptyString None BreakpointLocationsResponse_members
  [ ("breakpoints", "breakpoints") ].

Definition CancelResponse_members : list member := [].
Definition CancelResponse_info : struct_info :=
  StructInfo "CancelResponse" EmptyString None CancelResponse_members [].

Definition CompletionsResponse_members : list member :=
  [ Member "targets" (TArray (TStruct "CompletionItem")) None ].
Definition CompletionsResponse_info : struct_info :=
  StructInfo "CompletionsResponse" EmptyString None CompletionsResponse_members
  [ ("targets", "targets") ].

Definition ConfigurationDoneResponse_members : list member := [].
Definition ConfigurationDoneResponse_info : struct_info :=
  StructInfo "ConfigurationDoneResponse" EmptyString None ConfigurationDoneResponse_members [].

Definition ContinueResponse_members : list member :=
  [ Member "allThreadsContinued" (TOptional TBoolean) None ].
Definition ContinueResponse_info : struct_info :=
  StructInfo "ContinueResponse" EmptyString None ContinueResponse_members
  [ ("allThreadsContinued", "allThreadsContinued") ].

Definition DataBreakpointInfoResponse_members : list member :=
  [ Member "accessTypes" (TOptional (TArray TString)) None
  ; Member "canPersist" (TOptional TBoolean) None
  ; Member "dataId" (TVariant TString [TNull]) None
  ; Member "description" TString None ].
Definition DataBreakpointInfoResponse_info : struct_info :=
  StructInfo "DataBreakpointInfoResponse" EmptyString None DataBreakpointInfoResponse_members
  [ ("accessTypes", "accessTypes")
  ; ("canPersist", "canPersist")
  ; ("dataId", "dataId")
  ; ("description", "description") ].

Definition DisassembleResponse_members : list member :=
  [ Member "instructions" (TArray (TStruct "DisassembledInstruction")) None ].
Definition DisassembleResponse_info : struct_info :=
  StructInfo "DisassembleResponse" EmptyString None DisassembleResponse_members
  [ ("instructions", "instructions") ].

Definition DisconnectResponse_members : list member := [].
Definition DisconnectResponse_info : struct_info :=
  StructInfo "DisconnectResponse" EmptyString None DisconnectResponse_members [].

Definition ErrorResponse_members : list member :=
  [ Member "error" (TOptional (TStruct "Message")) None ].
Definition ErrorResponse_info : struct_info :=
  StructInfo "ErrorResponse" EmptyString None ErrorResponse_members
  [ ("error", "error") ].

Definition EvaluateResponse_members : list member :=
  [ Member "indexedVariables" (TOptional TInteger) None
  ; Member "memoryReference" (TOptional TString) None
  ; Member "namedVariables" (TOptional TInteger) None
  ; Member "presentationHint" (TOptional (TStruct "VariablePresentationHint")) None
  ; Member "result" TString None
  ; Member "type" (TOptional TString) None
  ; Member "variablesReference" TInteger None ].
Definition EvaluateResponse_info : struct_info :=
  StructInfo "EvaluateResponse" EmptyString None EvaluateResponse_members
  [ ("indexedVariables", "indexedVariables")
  ; ("memoryReference", "memoryReference")
  ; ("namedVariables", "namedVariables")
  ; ("presentationHint", "presentationHint")
  ; ("result", "result")
  ; ("type", "type")
  ; ("variablesReference", "variablesReference") ].

Definition ExceptionInfoResponse_members : list member :=
  [ Member "breakMode" TString (Some (VString "never"))
  ; Member "description" (TOptional TString) None
  ; Member "details" (TOptional (TStruct "ExceptionDetails")) None
  ; Member "exceptionId" TString None ].
Definition ExceptionInfoResponse_info : struct_info :=
  StructInfo "ExceptionInfoResponse" EmptyString None ExceptionInfoResponse_members
  [ ("breakMode", "breakMode")
  ; ("description", "description")
  ; ("details", "details")
  ; ("exceptionId", "exceptionId") ].

Definition GotoResponse_members : list member := [].
Definition GotoResponse_info : struct_info :=
  StructInfo "GotoResponse" EmptyString None GotoResponse_members [].

Definition GotoTargetsResponse_members : list member :=
  [ Member "targets" (TArray (TStruct "GotoTarget")) None ].
Definition GotoTargetsResponse_info : struct_info :=
  StructInfo "GotoTargetsResponse" EmptyString None GotoTargetsResponse_members
  [ ("targets", "targets") ].

Definition InitializeResponse_members : list member :=
  [ Member "additionalModuleColumns" (TOptional (TArray (TStruct "ColumnDescriptor"))) None
  ; Member "breakpointModes" (TOptional (TArray (TStruct "BreakpointMode"))) None
  ; Member "completionTriggerCharacters" (TOptional (TArray TString)) None
  ; Member "exceptionBreakpointFilters" (TOptional (TArray (TStruct "ExceptionBreakpointsFilter"))) None
  ; Member "supportSuspendDebuggee" (TOptional TBoolean) None
  ; Member "supportTerminateDebuggee" (TOptional TBoolean) None
  ; Member "supportedChecksumAlgorithms" (TOptional (TArray TString)) None
  ; Member "supportsBreakpointLocationsRequest" (TOptional TBoolean) None
  ; Member "supportsCancelRequest" (TOptional TBoolean) None
  ; Member "supportsClipboardContext" (TOptional TBoolean) None
  ; Member "supportsCompletionsRequest" (TOptional TBoolean) None
  ; Member "supportsConditionalBreakpoints" (TOptional TBoolean) None
  ; Member "supportsConfigurationDoneRequest" (TOptional TBoolean) None
  ; Member "supportsDataBreakpoints" (TOptional TBoolean) None
  ; Member "supportsDelayedStackTraceLoading" (TOptional TBoolean) None
  ; Member "supportsDisassembleRequest" (TOptional TBoolean) None
  ; Member "supportsEvaluateForHovers" (TOptional TBoolean) None
  ; Member "supportsExceptionFilterOptions" (TOptional TBoolean) None
  ; Member "supportsExceptionInfoRequest" (TOptional TBoolean) None
  ; Member "supportsExceptionOptions" (TOptional TBoolean) None
  ; Member "supportsFunctionBreakpoints" (TOptional TBoolean) None
  ; Member "supportsGotoTargetsRequest" (TOptional TBoolean) None
  ; Member "supportsHitConditionalBreakpoints" (TOptional TBoolean) None
  ; Member "supportsInstructionBreakpoints" (TOptional TBoolean) None
  ; Member "supportsLoadedSourcesRequest" (TOptional TBoolean) None
  ; Member "supportsLogPoints" (TOptional TBoolean) None
  ; Member "supportsModulesRequest" (TOptional TBoolean) None
  ; Member "supportsReadMemoryRequest" (TOptional TBoolean) None
  ; Member "supportsRestartFrame" (TOptional TBoolean) None
  ; Member "supportsRestartRequest" (TOptional TBoolean) None
  ; Member "supportsSetExpression" (TOptional TBoolean) None
  ; Member "supportsSetVariable" (TOptional TBoolean) None
  ; Member "supportsSingleThreadExecutionRequests" (TOptional TBoolean) None
  ; Member "supportsStepBack" (TOptional TBoolean) None
  ; Member "supportsStepInTargetsRequest" (TOptional TBoolean) None
  ; Member "supportsSteppingGranularity" (TOptional TBoolean) None
  ; Member "supportsTerminateRequest" (TOptional TBoolean) None
  ; Member "supportsTerminateThreadsRequest" (TOptional TBoolean) None
  ; Member "supportsValueFormattingOptions" (TOptional TBoolean) None
  ; Member "supportsWriteMemoryRequest" (TOptional TBoolean) None ].
Definition InitializeResponse_info : struct_info :=
  StructInfo "InitializeResponse" EmptyString None InitializeResponse_members
  [ ("additionalModuleColumns", "additionalModuleColumns")
  ; ("breakpointModes", "breakpointModes")
  ; ("completionTriggerCharacters", "completionTriggerCharacters")
  ; ("exceptionBreakpointFilters", "exceptionBreakpointFilters")
  ; ("supportSuspendDebuggee", "supportSuspendDebuggee")
  ; ("supportTerminateDebuggee", "supportTerminateDebuggee")
  ; ("supportedChecksumAlgorithms", "supportedChecksumAlgorithms")
  ; ("supportsBreakpointLocationsRequest", "supportsBreakpointLocationsRequest")
  ; ("supportsCancelRequest", "supportsCancelRequest")
  ; ("supportsClipboardContext", "supportsClipboardContext")
  ; ("supportsCompletionsRequest", "supportsCompletionsRequest")
  ; ("supportsConditionalBreakpoints", "supportsConditionalBreakpoints")
  ; ("supportsConfigurationDoneRequest", "supportsConfigurationDoneRequest")
  ; ("supportsDataBreakpoints", "supportsDataBreakpoints")
  ; ("supportsDelayedStackTraceLoading", "supportsDelayedStackTraceLoading")
  ; ("supportsDisassembleRequest", "supportsDisassembleRequest")
  ; ("supportsEvaluateForHovers", "supportsEvaluateForHovers")
  ; ("supportsExceptionFilterOptions", "supportsExceptionFilterOptions")
  ; ("supportsExceptionInfoRequest", "supportsExceptionInfoRequest")
  ; ("supportsExceptionOptions", "supportsExceptionOptions")
  ; ("supportsFunctionBreakpoints", "supportsFunctionBreakpoints")
  ; ("supportsGotoTargetsRequest", "supportsGotoTargetsRequest")
  ; ("supportsHitConditionalBreakpoints", "supportsHitConditionalBreakpoints")
  ; ("supportsInstructionBreakpoints", "supportsInstructionBreakpoints")
  ; ("supportsLoadedSourcesRequest", "supportsLoadedSourcesRequest")
  ; ("supportsLogPoints", "supportsLogPoints")
  ; ("supportsModulesRequest", "supportsModulesRequest")
  ; ("supportsReadMemoryRequest", "supportsReadMemoryRequest")
  ; ("supportsRestartFrame", "supportsRestartFrame")
  ; ("supportsRestartRequest", "supportsRestartRequest")
  ; ("supportsSetExpression", "supportsSetExpression")
  ; ("supportsSetVariable", "supportsSetVariable")
  ; ("supportsSingleThreadExecutionRequests", "supportsSingleThreadExecutionRequests")
  ; ("supportsStepBack", "supportsStepBack")
  ; ("supportsStepInTargetsRequest", "supportsStepInTargetsRequest")
  ; ("supportsSteppingGranularity", "supportsSteppingGranularity")
  ; ("supportsTerminateRequest", "supportsTerminateRequest")
  ; ("supportsTerminateThreadsRequest", "supportsTerminateThreadsRequest")
  ; ("supportsValueFormattingOptions", "supportsValueFormattingOptions")
  ; ("supportsWriteMemoryRequest", "supportsWriteMemoryRequest") ].

Definition LaunchResponse_members : list member := [].
Definition LaunchResponse_info : struct_info :=
  StructInfo "LaunchResponse" EmptyString None LaunchResponse_members [].

Definition LoadedSourcesResponse_members : list member :=
  [ Member "sources" (TArray (TStruct "Source")) None ].
Definition LoadedSourcesResponse_info : struct_info :=
  StructInfo "LoadedSourcesResponse" EmptyString None LoadedSourcesResponse_members
  [ ("sources", "sources") ].

Definition ModulesResponse_members : list member :=
  [ Member "modules" (TArray (TStruct "Module")) None
  ; Member "totalModules" (TOptional TInteger) None ].
Definition ModulesResponse_info : struct_info :=
  StructInfo "ModulesResponse" EmptyString None ModulesResponse_members
  [ ("modules", "modules")
  ; ("totalModules", "totalModules") ].

Definition NextResponse_members : list member := [].
Definition NextResponse_info : struct_info :=
  StructInfo "NextResponse" EmptyString None NextResponse_members [].

Definition PauseResponse_members : list member := [].
Definition PauseResponse_info : struct_info :=
  StructInfo "PauseResponse" EmptyString None PauseResponse_members [].

Definition ReadMemoryResponse_members : list member :=
  [ Member "address" TString None
  ; Member "data" (TOptional TString) None
  ; Member "unreadableBytes" (TOptional TInteger) None ].
Definition ReadMemoryResponse_info : struct_info :=
  StructInfo "ReadMemoryResponse" EmptyString None ReadMemoryResponse_members
  [ ("address", "address")
  ; ("data", "data")
  ; ("unreadableBytes", "unreadableBytes") ].

Definition RestartFrameResponse_members : list member := [].
Definition RestartFrameResponse_info : struct_info :=
  StructInfo "RestartFrameResponse" EmptyString None RestartFrameResponse_members [].

Definition RestartResponse_members : list member := [].
Definition RestartResponse_info : struct_info :=
  StructInfo "RestartResponse" EmptyString None RestartResponse_members [].

Definition ReverseContinueResponse_members : list member := [].
Definition ReverseContinueResponse_info : struct_info :=
  StructInfo "ReverseContinueResponse" EmptyString None ReverseContinueResponse_members [].

Definition RunInTerminalResponse_members : list member :=
  [ Member "processId" (TOptional TInteger) None
  ; Member "shellProcessId" (TOptional TInteger) None ].
Definition RunInTerminalResponse_info : struct_info :=
  StructInfo "RunInTerminalResponse" EmptyString None RunInTerminalResponse_members
  [ ("processId", "processId")
  ; ("shellProcessId", "shellProcessId") ].

Definition ScopesResponse_members : list member :=
  [ Member "scopes" (TArray (TStruct "Scope")) None ].
Definition ScopesResponse_info : struct_info :=
  StructInfo "ScopesResponse" EmptyString None ScopesResponse_members
  [ ("scopes", "scopes") ].

Definition SetBreakpointsResponse_members : list member :=
  [ Member "breakpoints" (TArray (TStruct "Breakpoint")) None ].
Definition SetBreakpointsResponse_info : struct_info :=
  StructInfo "SetBreakpointsResponse" EmptyString None SetBreakpointsResponse_members
  [ ("breakpoints", "breakpoints") ].

Definition SetDataBreakpointsResponse_members : list member :=
  [ Member "breakpoints" (TArray (TStruct "Breakpoint")) None ].
Definition SetDataBreakpointsResponse_info : struct_info :=
  StructInfo "SetDataBreakpointsResponse" EmptyString None SetDataBreakpointsResponse_members
  [ ("breakpoints", "breakpoints") ].

Definition SetExceptionBreakpointsResponse_members : list member :=
  [ Member "breakpoints" (TOptional (TArray (TStruct "Breakpoint"))) None ].
Definition SetExceptionBreakpointsResponse_info : struct_info :=
  StructInfo "SetExceptionBreakpointsResponse" EmptyString None SetExceptionBreakpointsResponse_members
  [ ("breakpoints", "breakpoints") ].

Definition SetExpressionResponse_members : list member :=
  [ Member "indexedVariables" (TOptional TInteger) None
  ; Member "memoryReference" (TOptional TString) None
  ; Member "namedVariables" (TOptional TInteger) None
  ; Member "presentationHint" (TOptional (TStruct "VariablePresentationHint")) None
  ; Member "type" (TOptional TString) None
  ; Member "value" TString None
  ; Member "variablesReference" (TOptional TInteger) None ].
Definition SetExpressionResponse_info : struct_info :=
  StructInfo "SetExpressionResponse" EmptyString None SetExpressionResponse_members
  [ ("indexedVariables", "indexedVariables")
  ; ("memoryReference", "memoryReference")
  ; ("namedVariables", "namedVariables")
  ; ("presentationHint", "presentationHint")
  ; ("type", "type")
  ; ("value", "value")
  ; ("variablesReference", "variablesReference") ].

Definition SetFunctionBreakpointsResponse_members : list member :=
  [ Member "breakpoints" (TArray (TStruct "Breakpoint")) None ].
Definition SetFunctionBreakpointsResponse_info : struct_info :=
  StructInfo "SetFunctionBreakpointsResponse" EmptyString None SetFunctionBreakpointsResponse_members
  [ ("breakpoints", "breakpoints") ].

Definition SetInstructionBreakpointsResponse_members : list member :=
  [ Member "breakpoints" (TArray (TStruct "Breakpoint")) None ].
Definition SetInstructionBreakpointsResponse_info : struct_info :=
  StructInfo "SetInstructionBreakpointsResponse" EmptyString None SetInstructionBreakpointsResponse_members
  [ ("breakpoints", "breakpoints") ].

Definition SetVariableResponse_members : list member :=
  [ Member "indexedVariables" (TOptional TInteger) None
  ; Member "memoryReference" (TOptional TString) None
  ; Member "namedVariables" (TOptional TInteger) None
  ; Member "type" (TOptional TString) None
  ; Member "value" TString None
  ; Member "variablesReference" (TOptional TInteger) None ].
Definition SetVariableResponse_info : struct_info :=
  StructInfo "SetVariableResponse" EmptyString None SetVariableResponse_members
  [ ("indexedVariables", "indexedVariables")
  ; ("memoryReference", "memoryReference")
  ; ("namedVariables", "namedVariables")
  ; ("type", "type")
  ; ("value", "value")
  ; ("variablesReference", "variablesReference") ].

Definition SourceResponse_members : list member :=
  [ Member "content" TString None
  ; Member "mimeType" (TOptional TString) None ].
Definition SourceResponse_info : struct_info :=
  StructInfo "SourceResponse" EmptyString None SourceResponse_members
  [ ("content", "content")
  ; ("mimeType", "mimeType") ].

Definition StackTraceResponse_members : list member :=
  [ Member "stackFrames" (TArray (TStruct "StackFrame")) None
  ; Member "totalFrames" (TOptional TInteger) None ].
Definition StackTraceResponse_info : struct_info :=
  StructInfo "StackTraceResponse" EmptyString None StackTraceResponse_members
  [ ("stackFrames", "stackFrames")
  ; ("totalFrames", "totalFrames") ].

Definition StartDebuggingResponse_members : list member := [].
Definition StartDebuggingResponse_info : struct_info :=
  StructInfo "StartDebuggingResponse" EmptyString None StartDebuggingResponse_members [].

Definition StepBackResponse_members : list member := [].
Definition StepBackResponse_info : struct_info :=
  StructInfo "StepBackResponse" EmptyString None StepBackResponse_members [].

Definition StepInResponse_members : list member := [].
Definition StepInResponse_info : struct_info :=
  StructInfo "StepInResponse" EmptyString None StepInResponse_members [].

Definition StepInTargetsResponse_members : list member :=
  [ Member "targets" (TArray (TStruct "StepInTarget")) None ].
Definition StepInTargetsResponse_info : struct_info :=
  StructInfo "StepInTargetsResponse" EmptyString None StepInTargetsResponse_members
  [ ("targets", "targets") ].

Definition StepOutResponse_members : list member := [].
Definition StepOutResponse_info : struct_info :=
  StructInfo "StepOutResponse" EmptyString None StepOutResponse_members [].

Definition TerminateResponse_members : list member := [].
Definition TerminateResponse_info : struct_info :=
  StructInfo "TerminateResponse" EmptyString None TerminateResponse_members [].

Definition TerminateThreadsResponse_members : list member := [].
Definition TerminateThreadsResponse_info : struct_info :=
  StructInfo "TerminateThreadsResponse" EmptyString None TerminateThreadsResponse_members [].

Definition ThreadsResponse_members : list member :=
  [ Member "threads" (TArray (TStruct "Thread")) None ].
Definition ThreadsResponse_info : struct_info :=
  StructInfo "ThreadsResponse" EmptyString None ThreadsResponse_members
  [ ("threads", "threads") ].

Definition VariablesResponse_members : list member :=
  [ Member "variables" (TArray (TStruct "Variable")) None ].
Definition VariablesResponse_info : struct_info :=
  StructInfo "VariablesResponse" EmptyString None VariablesResponse_members
  [ ("variables", "variables") ].

Definition WriteMemoryResponse_members : list member :=
  [ Member "bytesWritten" (TOptional TInteger) None
  ; Member "offset" (TOptional TInteger) None ].
Definition WriteMemoryResponse_info : struct_info :=
  StructInfo "WriteMemoryResponse" EmptyString None WriteMemoryResponse_members
  [ ("bytesWritten", "bytesWritten")
  ; ("offset", "offset") ].

(** All of them. *)
Definition protocol_responses : list struct_info :=
  [ AttachResponse_info
  ; BreakpointLocationsResponse_info
  ; CancelResponse_info
  ; CompletionsResponse_info
  ; ConfigurationDoneResponse_info
  ; ContinueResponse_info
  ; DataBreakpointInfoResponse_info
  ; DisassembleResponse_info
  ; DisconnectResponse_info
  ; ErrorResponse_info
  ; EvaluateResponse_info
  ; ExceptionInfoResponse_info
  ; GotoResponse_info
  ; GotoTargetsResponse_info
  ; InitializeResponse_info
  ; LaunchResponse_info
  ; LoadedSourcesResponse_info
  ; ModulesResponse_info
  ; NextResponse_info
  ; PauseResponse_info
  ; ReadMemoryResponse_info
  ; RestartFrameResponse_info
  ; RestartResponse_info
  ; ReverseContinueResponse_info
  ; RunInTerminalResponse_info
  ; ScopesResponse_info
  ; SetBreakpointsResponse_info
  ; SetDataBreakpointsResponse_info
  ; SetExceptionBreakpointsResponse_info
  ; SetExpressionResponse_info
  ; SetFunctionBreakpointsResponse_info
  ; SetInstructionBreakpointsResponse_info
  ; SetVariableResponse_info
  ; SourceResponse_info
  ; StackTraceResponse_info
  ; StartDebuggingResponse_info
  ; StepBackResponse_info
  ; StepInResponse_info
  ; StepInTargetsResponse_info
  ; StepOutResponse_info
  ; TerminateResponse_info
  ; TerminateThreadsResponse_info
  ; ThreadsResponse_info
  ; VariablesResponse_info
  ; WriteMemoryResponse_info ].
