(* ===== verification/ProtocolEvents.v ===== *)
(** * The protocol: the events

    Models the structs of [include/dap/protocol.h] declared for the events ([X_members]:
    the members of struct [X], in order, with their initializers) and their
    descriptions in [src/protocol_events.cpp] ([X_info]: the serialized name and the
    [DAP_FIELD]s). *)
From stdpp Require Import base list strings.
From S2P Require Import Prelude Types.

Definition BreakpointEvent_members : list member :=
  [ Member "breakpoint" (TStruct "Breakpoint") None
  ; Member "reason" TString None ].
Definition BreakpointEvent_info : struct_info :=
  StructInfo "BreakpointEvent" "breakpoint" None BreakpointEvent_members
  [ ("breakpoint", "breakpoint")
  ; ("reason", "reason") ].

Definition CapabilitiesEvent_members : list member :=
  [ Member "capabilities" (TStruct "Capabilities") None ].
Definition CapabilitiesEvent_info : struct_info :=
  StructInfo "CapabilitiesEvent" "capabilities" None CapabilitiesEvent_members
  [ ("capabilities", "capabilities") ].

Definition ContinuedEvent_members : list member :=
  [ Member "allThreadsContinued" (TOptional TBoolean) None
  ; Member "threadId" TInteger None ].
Definition ContinuedEvent_info : struct_info :=
  StructInfo "ContinuedEvent" "continued" None ContinuedEvent_members
  [ ("allThreadsContinued", "allThreadsContinued")
  ; ("threadId", "threadId") ].

Definition ExitedEvent_members : list member :=
  [ Member "exitCode" TInteger None ].
Definition ExitedEvent_info : struct_info :=
  StructInfo "ExitedEvent" "exited" None ExitedEvent_members
  [ ("exitCode", "exitCode") ].

Definition InitializedEvent_members : list member := [].
Definition InitializedEvent_info : struct_info :=
  StructInfo "InitializedEvent" "initialized" None InitializedEvent_members [].

Definition InvalidatedEvent_members : list member :=
  [ Member "areas" (TOptional (TArray TString)) None
  ; Member "stackFrameId" (TOptional TInteger) None
  ; Member "threadId" (TOptional TInteger) None ].
Definition InvalidatedEvent_info : struct_info :=
  StructInfo "InvalidatedEvent" "invalidated" None InvalidatedEvent_members
  [ ("areas", "areas")
  ; ("stackFrameId", "stackFrameId")
  ; ("threadId", "threadId") ].

Definition LoadedSourceEvent_members : list member :=
  [ Member "reason" TString (Some (VString "new"))
  ; Member "source" (TStruct "Source") None ].
Definition LoadedSourceEvent_info : struct_info :=
  StructInfo "LoadedSourceEvent" "loadedSource" None LoadedSourceEvent_members
  [ ("reason", "reason")
  ; ("source", "source") ].

Definition MemoryEvent_members : list member :=
  [ Member "count" TInteger None
  ; Member "memoryReference" TString None
  ; Member "offset" TInteger None ].
Definition MemoryEvent_info : struct_info :=
  StructInfo "MemoryEvent" "memory" None MemoryEvent_members
  [ ("count", "count")
  ; ("memoryReference", "memoryReference")
  ; ("offset", "offset") ].

Definition ModuleEvent_members : list member :=
  [ Member "module" (TStruct "Module") None
  ; Member "reason" TString (Some (VString "new")) ].
Definition ModuleEvent_info : struct_info :=
  StructInfo "ModuleEvent" "module" None ModuleEvent_members
  [ ("module", "module")
  ; ("reason", "reason") ].

Definition OutputEvent_members : list member :=
  [ Member "category" (TOptional TString) None
  ; Member "column" (TOptional TInteger) None
  ; Member "data" (TOptional (TVariant (TArray TAny) [TBoolean; TInteger; TNull; TNumber; TObject; TString])) None
  ; Member "group" (TOptional TString) None
  ; Member "line" (TOptional TInteger) None
  ; Member "output" TString None
  ; Member "source" (TOptional (TStruct "Source")) None
  ; Member "variablesReference" (TOptional TInteger) None ].
Definition OutputEvent_info : struct_info :=
  StructInfo "OutputEvent" "output" None OutputEvent_members
  [ ("category", "category")
  ; ("column", "column")
  ; ("data", "data")
  ; ("group", "group")
  ; ("line", "line")
  ; ("output", "output")
  ; ("source", "source")
  ; ("variablesReference", "variablesReference") ].

Definition ProcessEvent_members : list member :=
  [ Member "isLocalProcess" (TOptional TBoolean) None
  ; Member "name" TString None
  ; Member "pointerSize" (TOptional TInteger) None
  ; Member "startMethod" (TOptional TString) None
  ; Member "systemProcessId" (TOptional TInteger) None ].
Definition ProcessEvent_info : struct_info :=
  StructInfo "ProcessEvent" "process" None ProcessEvent_members
  [ ("isLocalProcess", "isLocalProcess")
  ; ("name", "name")
  ; ("pointerSize", "pointerSize")
  ; ("startMethod", "startMethod")
  ; ("systemProcessId", "systemProcessId") ].

Definition ProgressEndEvent_members : list member :=
  [ Member "message" (TOptional TString) None
  ; Member "progressId" TString None ].
Definition ProgressEndEvent_info : struct_info :=
  StructInfo "ProgressEndEvent" "progressEnd" None ProgressEndEvent_members
  [ ("message", "message")
  ; ("progressId", "progressId") ].

Definition ProgressStartEvent_members : list member :=
  [ Member "cancellable" (TOptional TBoolean) None
  ; Member "message" (TOptional TString) None
  ; Member "percentage" (TOptional TNumber) None
  ; Member "progressId" TString None
  ; Member "requestId" (TOptional TInteger) None
  ; Member "title" TString None ].
Definition ProgressStartEvent_info : struct_info :=
  StructInfo "ProgressStartEvent" "progressStart" None ProgressStartEvent_members
  [ ("cancellable", "cancellable")
  ; ("message", "message")
  ; ("percentage", "percentage")
  ; ("progressId", "progressId")
  ; ("requestId", "requestId")
  ; ("title", "title") ].

Definition ProgressUpdateEvent_members : list member :=
  [ Member "message" (TOptional TString) None
  ; Member "percentage" (TOptional TNumber) None
  ; Member "progressId" TString None ].
Definition ProgressUpdateEvent_info : struct_info :=
  StructInfo "ProgressUpdateEvent" "progressUpdate" None ProgressUpdateEvent_members
  [ ("message", "message")
  ; ("percentage", "percentage")
  ; ("progressId", "progressId") ].

Definition StoppedEvent_members : list member :=
  [ Member "allThreadsStopped" (TOptional TBoolean) None
  ; Member "description" (TOptional TString) None
  ; Member "hitBreakpointIds" (TOptional (TArray TInteger)) None
  ; Member "preserveFocusHint" (TOptional TBoolean) None
  ; Member "reason" TString None
  ; Member "text" (TOptional TString) None
  ; Member "threadId" (TOptional TInteger) None ].
Definition StoppedEvent_info : struct_info :=
  StructInfo "StoppedEvent" "stopped" None StoppedEvent_members
  [ ("allThreadsStopped", "allThreadsStopped")
  ; ("description", "description")
  ; ("hitBreakpointIds", "hitBreakpointIds")
  ; ("preserveFocusHint", "preserveFocusHint")
  ; ("reason", "reason")
  ; ("text", "text")
  ; ("threadId", "threadId") ].

Definition TerminatedEvent_members : list member :=
  [ Member "restart" (TOptional (TVariant (TArray TAny) [TBoolean; TInteger; TNull; TNumber; TObject; TString])) None ].
Definition TerminatedEvent_info : struct_info :=
  StructInfo "TerminatedEvent" "terminated" None TerminatedEvent_members
  [ ("restart", "restart") ].

Definition ThreadEvent_members : list member :=
  [ Member "reason" TString None
  ; Member "threadId" TInteger None ].
Definition ThreadEvent_info : struct_info :=
  StructInfo "ThreadEvent" "thread" None ThreadEvent_members
  [ ("reason", "reason")
  ; ("threadId", "threadId") ].

(** All of them. *)
Definition protocol_events : list struct_info :=
  [ BreakpointEvent_info
  ; CapabilitiesEvent_info
  ; ContinuedEvent_info
  ; ExitedEvent_info
  ; InitializedEvent_info
  ; InvalidatedEvent_info
  ; LoadedSourceEvent_info
  ; MemoryEvent_info
  ; ModuleEvent_info
  ; OutputEvent_info
  ; ProcessEvent_info
  ; ProgressEndEvent_info
  ; ProgressStartEvent_info
  ; ProgressUpdateEvent_info
  ; StoppedEvent_info
  ; TerminatedEvent_info
  ; ThreadEvent_info ].
