(* ===== verification/Protocol.v ===== *)
(** * The protocol schema

    All the structs of the protocol as one [schema], and the facts the session and
    the JSON backend rely on: every [DAP_FIELD] names a member, no two fields of a
    struct share a serialized name, every member is a field, and the names requests
    and events are dispatched by are distinct. *)
From Stdlib Require Import ZArith Lia.
From stdpp Require Import base list strings.
From S2P Require Import Prelude SMap Types Serialization Json.
From S2P Require Import ProtocolTypes ProtocolRequests ProtocolResponses ProtocolEvents.

Definition protocol_structs : list struct_info :=
  protocol_types ++ protocol_requests ++ protocol_responses ++ protocol_events.

(** [TypeOf<T>::type()] for the structs of the protocol. *)
Fixpoint find_struct (l : list struct_info) (name : string) : option struct_info :=
  match l with
  | [] => None
  | si :: l => if bool_decide (si.(si_struct) = name) then Some si else find_struct l name
  end.

Definition protocol_schema : schema := find_struct protocol_structs.

Lemma find_struct_elem l s si : find_struct l s = Some si -> si ∈ l.
Proof.
  induction l as [|x l IH]; cbn; [done|]. case_bool_decide; [intros [= ->]; by left|].
  intros. right. auto.
Qed.

Lemma find_struct_name l s si : find_struct l s = Some si -> si.(si_struct) = s.
Proof.
  induction l as [|x l IH]; cbn; [done|]. case_bool_decide; [by intros [= ->]|done].
Qed.

(** A schema given by a list of structs is checked struct by struct. *)
Lemma find_struct_schema_ok l k :
  forallb (struct_ok (find_struct l) k) l = true -> schema_ok (find_struct l) k.
Proof.
  rewrite forallb_forall. intros H s si Hs%find_struct_elem. by apply H, list_elem_of_In.
Qed.

(** The nesting of structs by value in the protocol is at most three. *)
Definition protocol_depth : nat := 4.

Lemma protocol_structs_ok : forallb (struct_ok protocol_schema protocol_depth) protocol_structs = true.
Proof. vm_compute. reflexivity. Qed.

Lemma protocol_schema_ok : schema_ok protocol_schema protocol_depth.
Proof. apply find_struct_schema_ok. exact protocol_structs_ok. Qed.

Lemma protocol_constructs :
  forallb (fun si => returns (construct protocol_schema protocol_depth (TStruct si.(si_struct))))
    protocol_structs = true.
Proof. vm_compute. reflexivity. Qed.

(** Every member is serialized, but for the one [StackFrameFormat] inherits. *)
Lemma protocol_serialized :
  forallb (fun si => forallb (fun m => serialized protocol_schema si m.(mem_name) ||
    bool_decide (si.(si_struct) = "StackFrameFormat") && bool_decide (m.(mem_name) = "hex")) si.(si_members))
    protocol_structs = true.
Proof. vm_compute. reflexivity. Qed.

(** The structs that cannot hold a [StackFrameFormat]. *)
Definition loses (name : string) : bool := bool_decide (name ∈ ["StackFrameFormat"; "StackTraceRequest"]).

Lemma protocol_complete : complete protocol_schema (fun s => negb (loses s)).
Proof.
  intros s si m Hs Hsi Hm. pose proof (find_struct_name _ _ _ Hsi) as Hn. apply find_struct_elem, list_elem_of_In in Hsi.
  assert (Hall : forallb (fun si => loses si.(si_struct) || forallb (fun m => serialized protocol_schema si m.(mem_name) &&
    made_of (fun s => negb (loses s)) m.(mem_type)) si.(si_members)) protocol_structs = true) by (vm_compute; reflexivity).
  rewrite forallb_forall in Hall. specialize (Hall si Hsi). rewrite Hn in Hall. apply negb_true_iff in Hs. rewrite Hs in Hall.
  cbn [orb] in Hall. rewrite forallb_forall in Hall. apply list_elem_of_In in Hm. specialize (Hall m Hm). by apply andb_true_iff in Hall.
Qed.

(** A value of any other struct is carried whole. *)
Lemma protocol_lossless s v j : loses s = false -> json_of protocol_schema v (TStruct s) = Some j ->
  lossless protocol_schema v (TStruct s) = true.
Proof. intros Hs Hj. eapply complete_lossless; [exact protocol_schema_ok|exact protocol_complete| |exact Hj]. cbn. by rewrite Hs. Qed.

(** [T{}] for a type of the protocol. *)
Definition blank (u : ty) : value :=
  match construct protocol_schema protocol_depth u with Ret v => v | _ => VAnyEmpty end.

Lemma protocol_struct_names : NoDup (si_struct <$> protocol_structs).
Proof. apply (bool_decide_unpack _). vm_compute. exact I. Qed.

Module ProtocolProps.

(** The struct of a request's response. *)
Definition response_of (request : string) : option struct_info :=
  match list_find (fun rr => rr.1 = request) request_response with
  | Some (_, (_, r)) => find_struct protocol_responses r
  | None => None
  end.

(** Messages are dispatched by name without ambiguity: the serialized names of
    the requests are distinct and not empty, and so are those of the events; every
    struct has one description; and the response type every request declares is one
    of the protocol's responses. *)
Theorem protocol_dispatch_names :
  NoDup (si_name <$> protocol_requests) /\ NoDup (si_name <$> protocol_events) /\
  NoDup (si_struct <$> protocol_structs) /\
  EmptyString ∉ (si_name <$> (protocol_requests ++ protocol_events)) /\
  Forall (fun si => is_Some (response_of si.(si_struct))) protocol_requests.
Proof.
  split_and!; [| |exact protocol_struct_names| |].
  - apply (bool_decide_unpack _). vm_compute. exact I.
  - apply (bool_decide_unpack _). vm_compute. exact I.
  - apply (bool_decide_unpack _). vm_compute. exact I.
  - apply Forall_forall. intros si Hin.
    assert (Hall : forallb (fun si => bool_decide (is_Some (response_of (si_struct si)))) protocol_requests = true)
      by (vm_compute; reflexivity).
    rewrite forallb_forall in Hall. apply list_elem_of_In in Hin. specialize (Hall si Hin).
    by apply bool_decide_eq_true in Hall.
Qed.

(** The descriptions of the protocol's structs are consistent, and complete but for one
    member: every [DAP_FIELD] names a member of its struct, serialized names do not
    repeat within a struct, every member is serialized exactly once except [hex] of
    [StackFrameFormat], which is not, no optional holds a type that would read a missing
    member as present, and every struct has a default value. *)
Theorem protocol_structs_complete s si :
  protocol_schema s = Some si ->
  exists l, resolve si = Some l /\ NoDup l.*2 /\ NoDup (member_names si) /\
    (forall m, m ∈ (mem_name <$> l.*1) <-> m ∈ member_names si /\ ~ (s = "StackFrameFormat" /\ m = "hex")) /\
    exists c, construct protocol_schema protocol_depth (TStruct s) = Ret c.
Proof.
  intros Hs. destruct (struct_ok_inv protocol_schema _ protocol_schema_ok s si Hs)
    as (l & Hl & Hn2 & _ & Hn1 & Hnm & Hf & Hc).
  apply find_struct_elem in Hs as Hin. apply list_elem_of_In in Hin as Hin'. pose proof (find_struct_name _ _ _ Hs) as Hname.
  assert (Hb : si_base si = None).
  { assert (Hall : forallb (fun si => if si_base si is Some _ then false else true) protocol_structs = true)
      by (vm_compute; reflexivity).
    rewrite forallb_forall in Hall. specialize (Hall si Hin'). by destruct (si_base si). }
  assert (Hl' : resolve si = Some l) by (unfold resolved_fields in Hl; by rewrite Hb in Hl).
  assert (Hser : forall x, x ∈ (mem_name <$> l.*1) <-> serialized protocol_schema si x = true).
  { intros x. unfold serialized. rewrite Hl, existsb_exists, <-list_fmap_compose, list_elem_of_fmap. split.
    - intros (mn & -> & Hmn%list_elem_of_In). exists mn. split; [done|]. by apply bool_decide_eq_true.
    - intros (mn & Hmn%list_elem_of_In & He%bool_decide_eq_true). by exists mn. }
  exists l. split_and!; [done..| |].
  - intros x. rewrite Hser. split.
    + intros Hx. split.
      * apply Hser in Hx. rewrite <-list_fmap_compose in Hx. apply list_elem_of_fmap in Hx as ([m n] & -> & Hm).
        destruct (Hf m n Hm) as (_ & m' & Hm' & He & _). cbn. apply list_elem_of_fmap. by exists m'.
      * intros [-> ->]. revert Hx. injection Hs as <-. vm_compute. discriminate.
    + intros [(m & -> & Hm)%list_elem_of_fmap Hne]. pose proof protocol_serialized as Hps. rewrite forallb_forall in Hps.
      specialize (Hps si Hin'). rewrite forallb_forall in Hps. apply list_elem_of_In in Hm. specialize (Hps m Hm).
      rewrite Hname in Hps. destruct (serialized _ si (mem_name m)); [done|]. cbn in Hps.
      by rewrite andb_true_iff, !bool_decide_eq_true in Hps.
  - pose proof protocol_constructs as Hcs. rewrite forallb_forall in Hcs. specialize (Hcs si Hin').
    rewrite Hname in Hcs. destruct (returns_construct _ _ protocol_depth _ Hcs) as [c Hct]; [lia|by exists c].
Qed.

Lemma protocol_structs_complete_witness :
  exists l, resolve SetBreakpointsRequest_info = Some l /\ NoDup l.*2 /\
    NoDup (member_names SetBreakpointsRequest_info) /\
    (forall m, m ∈ (mem_name <$> l.*1) <-> m ∈ member_names SetBreakpointsRequest_info /\
      ~ ("SetBreakpointsRequest" = "StackFrameFormat" /\ m = "hex")) /\
    exists c, construct protocol_schema protocol_depth (TStruct "SetBreakpointsRequest") = Ret c.
Proof. apply (protocol_structs_complete "SetBreakpointsRequest"). vm_compute. reflexivity. Defined.

End ProtocolProps.
