(* ===== verification/Traits.v ===== *)
(** * Type traits and overload resolution ([include/dap/traits.h], [include/dap/session.h])

    The templates of [traits.h] are functions on types that run in the compiler;
    [Session] uses them to choose between the overloads of [registerHandler] and
    [send]. A type is a [ctype]; a trait is a function on [ctype]s; and a substitution
    has one of three results: a type, a failure that drops the overload (SFINAE), or an
    error that ends the compilation. *)
From Stdlib Require Import ZArith Lia.
From stdpp Require Import base list strings.
From S2P Require Import Prelude SMap Types ProtocolTypes ProtocolRequests ProtocolResponses ProtocolEvents Protocol.

(** ** Types *)

(** The types that are called: [std::function], a lambda ([mutable] or not), a function,
    a method of a class ([const] or not). *)
Inductive fn_kind := StdFunction | Lambda (is_mutable : bool) | Function | Method (class : string) (is_const : bool).

#[global] Instance fn_kind_eq_dec : EqDecision fn_kind.
Proof. solve_decision. Defined.

Inductive ctype :=
| Fundamental (name : string)
| Class_ (name : string)
| ResponseOrError_ (t : ctype)
| Pointer (t : ctype)
| Ref (t : ctype)
| RRef (t : ctype)
| Const (t : ctype)
| Fn (k : fn_kind) (ret : ctype) (args : list ctype).

Definition void : ctype := Fundamental "void".

Section Induction.
Context (P : ctype -> Prop) (Hf : forall n, P (Fundamental n)) (Hc : forall n, P (Class_ n))
  (Hr : forall t, P t -> P (ResponseOrError_ t)) (Hp : forall t, P t -> P (Pointer t)) (Hl : forall t, P t -> P (Ref t))
  (Hrr : forall t, P t -> P (RRef t)) (Hk : forall t, P t -> P (Const t))
  (Hfn : forall k r l, P r -> Forall P l -> P (Fn k r l)).

Fixpoint ctype_nested_ind (t : ctype) : P t :=
  match t with
  | Fundamental n => Hf n
  | Class_ n => Hc n
  | ResponseOrError_ t => Hr t (ctype_nested_ind t)
  | Pointer t => Hp t (ctype_nested_ind t)
  | Ref t => Hl t (ctype_nested_ind t)
  | RRef t => Hrr t (ctype_nested_ind t)
  | Const t => Hk t (ctype_nested_ind t)
  | Fn k r l => Hfn k r l (ctype_nested_ind r)
      ((fix go (l : list ctype) : Forall P l :=
          match l with [] => Forall_nil_2 P | t :: l => Forall_cons_2 P t l (ctype_nested_ind t) (go l) end) l)
  end.
End Induction.

(** [std::is_same]. *)
Fixpoint is_same (a b : ctype) : bool :=
  match a, b with
  | Fundamental n, Fundamental m | Class_ n, Class_ m => bool_decide (n = m)
  | ResponseOrError_ a, ResponseOrError_ b | Pointer a, Pointer b | Ref a, Ref b | RRef a, RRef b | Const a, Const b =>
    is_same a b
  | Fn k r l, Fn k' r' l' =>
    bool_decide (k = k') && is_same r r' &&
    (fix go (l l' : list ctype) : bool :=
       match l, l' with
       | [], [] => true
       | a :: l, b :: l' => is_same a b && go l l'
       | _, _ => false
       end) l l'
  | _, _ => false
  end.

Lemma is_same_spec a b : is_same a b = true <-> a = b.
Proof.
  revert b. induction a as [n|n|a IH|a IH|a IH|a IH|a IH|k r l IHr IHl] using ctype_nested_ind; intros b.
  1,2: destruct b; cbn; rewrite ?bool_decide_eq_true; split; congruence.
  1-5: destruct b; cbn; try (split; congruence); rewrite IH; split; congruence.
  destruct b as [| | | | | | |k' r' l']; cbn; try (split; congruence).
  rewrite !andb_true_iff, bool_decide_eq_true, IHr.
  assert (Hl : (fix go (l l' : list ctype) : bool :=
       match l, l' with [], [] => true | a :: l, b :: l' => is_same a b && go l l' | _, _ => false end) l l' = true
    <-> l = l').
  { revert l'. induction IHl as [|a l Ha _ IH]; intros [|b l']; try (split; congruence).
    rewrite andb_true_iff, Ha, IH. split; [by intros [-> ->]|by intros [= -> ->]]. }
  rewrite Hl. split; [by intros [[-> ->] ->]|by intros [= -> -> ->]].
Qed.

#[global] Instance ctype_eq_dec : EqDecision ctype.
Proof.
  intros a b. destruct (is_same a b) eqn:E; [left|right].
  - by apply is_same_spec.
  - intros He. apply is_same_spec in He. congruence.
Defined.

(** [std::remove_cv] and [std::decay]. *)
Definition remove_cv (t : ctype) : ctype := match t with Const t => t | _ => t end.

Definition remove_reference (t : ctype) : ctype := match t with Ref t | RRef t => t | _ => t end.

Definition decay (t : ctype) : ctype :=
  match remove_reference t with
  | Fn Function r l => Pointer (Fn Function r l)
  | t => remove_cv t
  end.

(** ** Substitution *)
Inductive subst (A : Type) : Type := Ok (a : A) | Failure | Hard.
Arguments Ok {_} _.
Arguments Failure {_}.
Arguments Hard {_}.

#[global] Instance subst_bind : MBind subst := fun A B f m =>
  match m with Ok a => f a | Failure => Failure | Hard => Hard end.

(** The classes of a program: the direct base of a class, and its member type
    [Response]; [depth] bounds the length of a chain of bases. *)
Record classes := { base_of : string -> option string; Response_of : string -> option string; depth : nat }.

Section Traits.
Context (cl : classes).

Fixpoint derives (fuel : nat) (base d : string) : bool :=
  match fuel with
  | O => false
  | S fuel =>
    match cl.(base_of) d with
    | Some b => bool_decide (b = base) || derives fuel base b
    | None => false
    end
  end.

(** [std::is_base_of]: of class types. *)
Definition is_base_of (base t : ctype) : bool :=
  match remove_cv base, remove_cv t with
  | Class_ b, Class_ d => bool_decide (b = d) || derives cl.(depth) b d
  | ResponseOrError_ _ as b, d => is_same b d
  | Fn StdFunction _ _ as b, d | Fn (Lambda _) _ _ as b, d => is_same b d
  | _, _ => false
  end.

(** ** [traits.h] *)

(** [std::tuple_element] is an error when the index is out of range. *)
Definition NthTypeOf (n : nat) (types : list ctype) : subst ctype :=
  match types !! n with Some t => Ok t | None => Hard end.

Definition IsTypeOrDerived (base t : ctype) : bool := is_base_of base (decay t) || is_same base (decay t).

Fixpoint EachIsTypeOrDerived (n : nat) (bases types : list ctype) : subst bool :=
  match n with
  | O => Ok true
  | S n' =>
    base ← NthTypeOf n' bases;
    type ← NthTypeOf n' types;
    let last_matches := IsTypeOrDerived base type in
    match n' with
    | O => Ok last_matches
    | S _ => others_match ← EachIsTypeOrDerived n' bases types; Ok (last_matches && others_match)
    end
  end.

Record Signature := { ret : ctype; parameters : list ctype }.

Definition parameter_count (s : Signature) : nat := length s.(parameters).

Definition parameter (s : Signature) (n : nat) : subst ctype := NthTypeOf n s.(parameters).

Definition signature (r : ctype) (args : list ctype) : Signature := {| ret := decay r; parameters := decay <$> args |}.

(** [decltype(&F::operator())]: an error inside [SignatureOf] unless [F] is a class with
    one [operator()]. *)
Definition call_operator (f : ctype) : subst ctype :=
  match f with
  | Fn StdFunction r l => Ok (Fn (Method "std::function" true) r l)
  | Fn (Lambda is_mutable) r l => Ok (Fn (Method "lambda" (negb is_mutable)) r l)
  | _ => Hard
  end.

(** The specializations of [SignatureOf], which the primary template ends in. *)
Definition SignatureOf_pointer (f : ctype) : subst Signature :=
  match f with
  | Pointer (Fn Function r l) => Ok (signature r l)
  | Fn (Method _ false) r l => Ok (signature r l)
  | Fn (Method _ true) r l => Ok (signature r l)
  | _ => Hard
  end.

Definition SignatureOf (f : ctype) : subst Signature :=
  match SignatureOf_pointer f with
  | Ok s => Ok s
  | _ => op ← call_operator f; SignatureOf_pointer op
  end.

Definition ParameterType (f : ctype) (n : nat) : subst ctype := s ← SignatureOf f; parameter s n.

Definition HasSignature (f s : ctype) : subst bool :=
  sf ← SignatureOf f; ss ← SignatureOf s;
  Ok (is_same sf.(ret) ss.(ret) && bool_decide (sf.(parameters) = ss.(parameters))).

Definition Min (a b : nat) : nat := if (a <? b)%nat then a else b.

Definition CompatibleWith (f s : ctype) : subst bool :=
  ss ← SignatureOf s; sf ← SignatureOf f;
  each ← EachIsTypeOrDerived (Min (parameter_count ss) (parameter_count sf)) ss.(parameters) sf.(parameters);
  Ok ((parameter_count ss =? parameter_count sf)%nat && each).

Definition EnableIf (condition : bool) (t : ctype) : subst ctype := if condition then Ok t else Failure.

Definition EnableIfIsType (base t true_ty : ctype) : subst ctype := EnableIf (IsTypeOrDerived base t) true_ty.

Definition EnableIfHasSignature (f s true_ty : ctype) : subst ctype :=
  b ← HasSignature f s; EnableIf b true_ty.

(** ** The overloads of [Session] *)
Definition Request : ctype := Class_ "Request".
Definition Event : ctype := Class_ "Event".
Definition Error : ctype := Class_ "Error".
Definition function (r : ctype) (args : list ctype) : ctype := Fn StdFunction r args.

Definition IsRequest (t : ctype) : subst ctype := EnableIfIsType Request t void.
Definition IsEvent (t : ctype) : subst ctype := EnableIfIsType Event t void.

Definition IsRequestHandlerWithoutCallback (f : ctype) : subst ctype :=
  b ← CompatibleWith f (function void [Request]); EnableIf b void.

Definition IsRequestHandlerWithCallback (f callback : ctype) : subst ctype :=
  b ← CompatibleWith f (function void [Request; function void [callback]]); EnableIf b void.

(** [typename T::Response]; [typename T::Request] of a [ResponseOrError]. *)
Definition member_Response (t : ctype) : subst ctype :=
  match t with
  | Class_ n => match cl.(Response_of) n with Some r => Ok (Class_ r) | None => Failure end
  | _ => Failure
  end.

Definition member_Request (t : ctype) : subst ctype := match t with ResponseOrError_ t => Ok t | _ => Failure end.

Inductive overload := OnRequest | OnRequestCallback | OnRequestErrorCallback | OnEvent | SendRequest | SendEvent.

#[global] Instance overload_eq_dec : EqDecision overload.
Proof. solve_decision. Defined.

(** The declarations of [registerHandler], substituted for [F]: the default template
    arguments, then the return type. *)
Definition registerHandler_request (f : ctype) : subst ctype :=
  RequestType ← ParameterType f 0; IsRequestHandlerWithoutCallback f.

Definition registerHandler_callback (f : ctype) : subst ctype :=
  RequestType ← ParameterType f 0; ResponseType ← member_Response RequestType;
  IsRequestHandlerWithCallback f ResponseType.

Definition registerHandler_error_callback (f : ctype) : subst ctype :=
  RequestType ← ParameterType f 0; ResponseType ← member_Response RequestType;
  IsRequestHandlerWithCallback f (ResponseOrError_ ResponseType).

Definition registerHandler_event (f : ctype) : subst ctype :=
  EventType ← ParameterType f 0; IsEvent EventType.

Inductive resolution := Selected (o : overload) | NoMatch | Ambiguous | IllFormed.

Definition is_hard {A} (s : subst A) : bool := match s with Hard => true | _ => false end.
Definition is_ok {A} (s : subst A) : bool := match s with Ok _ => true | _ => false end.

(** Templates whose parameters are the same: more than one viable is ambiguous. *)
Definition resolve (candidates : list (overload * subst ctype)) : resolution :=
  if existsb (fun c => is_hard c.2) candidates then IllFormed
  else match List.filter (fun c => is_ok c.2) candidates with
       | [] => NoMatch
       | [c] => Selected c.1
       | _ => Ambiguous
       end.

Definition registerHandler_candidates (f : ctype) : list (overload * subst ctype) :=
  [ (OnRequest, registerHandler_request f);
    (OnRequestCallback, registerHandler_callback f);
    (OnRequestErrorCallback, registerHandler_error_callback f);
    (OnEvent, registerHandler_event f) ].

(** The type deduced for [F] of a forwarding reference [F&&]. *)
Definition deduce (lvalue : bool) (arg : ctype) : ctype := if lvalue then Ref arg else arg.

(** [session.registerHandler(handler)] for a handler of type [arg]. *)
Definition registerHandler (lvalue : bool) (arg : ctype) : resolution :=
  resolve (registerHandler_candidates (deduce lvalue arg)).

(** [registerSentHandler]: the response type. *)
Definition registerSentHandler (lvalue : bool) (arg : ctype) : subst ctype :=
  p ← ParameterType (deduce lvalue arg) 0; member_Request p.

(** [session.send(x)] for an [x] of type [t]; the return type of the first names
    [T::Response]. *)
Definition send_candidates (t : ctype) : list (overload * subst ctype) :=
  [ (SendRequest, _ ← IsRequest t; member_Response t);
    (SendEvent, IsEvent t) ].

Definition send (t : ctype) : resolution := resolve (send_candidates (decay t)).

(** *** The bodies of the overloads, instantiated *)

(** [handler] is captured by value in a lambda that is not [mutable], and called as a
    [const] object with a [const T&]. *)
Definition const_callable (f : ctype) : option (ctype * list ctype) :=
  match decay f with
  | Fn StdFunction r l | Fn (Lambda false) r l | Pointer (Fn Function r l) => Some (r, l)
  | _ => None
  end.

(** A parameter that binds to a [const T&]. *)
Definition binds_const (p : ctype) : bool :=
  match p with Ref (Const _) => true | Ref _ | RRef _ => false | _ => true end.

(** [ResponseOrError<R> res = handler(...)]. *)
Definition converts_to_response (response r : ctype) : bool :=
  is_same (ResponseOrError_ response) (decay r) || IsTypeOrDerived response r || IsTypeOrDerived Error r.

Definition body (o : overload) (f : ctype) : subst ctype :=
  match const_callable f with
  | None => Hard
  | Some (r, l) =>
    if negb (forallb binds_const (take 1 l)) then Hard
    else
      RequestType ← ParameterType f 0;
      match o with
      | OnRequest =>
        match member_Response RequestType with
        | Ok response => if converts_to_response response r then Ok response else Hard
        | _ => Hard
        end
      | OnRequestCallback | OnRequestErrorCallback =>
        match l with [_; RRef _] => Hard | [_; _] => member_Response RequestType | _ => Hard end
      | OnEvent => if (length l =? 1)%nat then Ok RequestType else Hard
      | SendRequest | SendEvent => Hard
      end
  end.

(** A call that compiles: the overload and the type it registers or answers with. *)
Definition registers (lvalue : bool) (arg : ctype) : option (overload * ctype) :=
  match registerHandler lvalue arg with
  | Selected o => match body o (deduce lvalue arg) with Ok t => Some (o, t) | _ => None end
  | _ => None
  end.
End Traits.

(** ** Facts *)
Module TraitsFacts.
Section Facts.
Context (cl : classes).

(** [EachIsTypeOrDerived] is the conjunction over the pairs. *)
Lemma each_spec n bases types : (n <= length bases)%nat -> (n <= length types)%nat ->
  EachIsTypeOrDerived cl n bases types =
    Ok (forallb (fun p => IsTypeOrDerived cl p.1 p.2) (zip (take n bases) (take n types))).
Proof.
  induction n as [|n IH]; intros Hb Ht; [done|]. cbn [EachIsTypeOrDerived]. unfold NthTypeOf.
  destruct (lookup_lt_is_Some_2 bases n) as [b Eb]; [lia|]. destruct (lookup_lt_is_Some_2 types n) as [t Et]; [lia|].
  rewrite Eb, Et. cbn [mbind subst_bind]. rewrite (take_S_r _ _ _ Eb), (take_S_r _ _ _ Et).
  rewrite zip_with_app by (rewrite !length_take; lia). rewrite forallb_app. cbn [zip_with forallb].
  destruct n as [|n]; [cbn; by rewrite andb_true_r|].
  rewrite IH by lia. cbn [mbind subst_bind fst snd]. by rewrite andb_true_r, andb_comm.
Qed.

Definition compatible (bases types : list ctype) : bool :=
  (length bases =? length types)%nat && forallb (fun p => IsTypeOrDerived cl p.1 p.2) (zip bases types).

Lemma compatible_spec f s sf ss : SignatureOf f = Ok sf -> SignatureOf s = Ok ss ->
  CompatibleWith cl f s = Ok (compatible ss.(parameters) sf.(parameters)).
Proof.
  intros Hf Hs. unfold CompatibleWith. rewrite Hf, Hs. cbn [mbind subst_bind]. unfold parameter_count, compatible, Min.
  destruct (Nat.eqb_spec (length ss.(parameters)) (length sf.(parameters))) as [He|Hne].
  - rewrite He, Nat.ltb_irrefl, each_spec by lia. cbn [mbind subst_bind]. rewrite !take_ge by lia. done.
  - destruct (Nat.ltb_spec (length ss.(parameters)) (length sf.(parameters))); rewrite each_spec by lia; done.
Qed.

(** The handlers the documentation lists: a [std::function], a lambda or a function. *)
Inductive form := AsFunction | AsLambda | AsPointer.

Definition handler_of (fm : form) (r : ctype) (args : list ctype) : ctype :=
  match fm with
  | AsFunction => function r args
  | AsLambda => Fn (Lambda false) r args
  | AsPointer => Pointer (Fn Function r args)
  end.

Lemma handler_signature fm r args : SignatureOf (handler_of fm r args) = Ok (signature r args).
Proof. by destruct fm. Qed.

Lemma handler_callable fm r args : const_callable (handler_of fm r args) = Some (r, args).
Proof. by destruct fm. Qed.

Lemma handler_compatible fm r args sargs :
  CompatibleWith cl (handler_of fm r args) (function void sargs) = Ok (compatible (decay <$> sargs) (decay <$> args)).
Proof.
  exact (compatible_spec _ (handler_of AsFunction void sargs) _ _ (handler_signature fm r args) (handler_signature AsFunction void sargs)).
Qed.

(** A class of requests, with the response type it declares, and a class of events. *)
Record request_class (q r : string) : Prop := {
  rq_base : IsTypeOrDerived cl Request (Class_ q) = true;
  rq_event : IsTypeOrDerived cl Event (Class_ q) = false;
  rq_response : cl.(Response_of) q = Some r
}.

Record event_class (e : string) : Prop := {
  ev_base : IsTypeOrDerived cl Event (Class_ e) = true;
  ev_request : IsTypeOrDerived cl Request (Class_ e) = false;
  ev_response : cl.(Response_of) e = None
}.

(** The candidates for a handler with parameters [args]. *)
Lemma candidates_of fm r p args q : decay p = Class_ q ->
  let ps := Class_ q :: (decay <$> args) in
  registerHandler_candidates cl (handler_of fm r (p :: args)) =
  [ (OnRequest, EnableIf (compatible [Request] ps) void);
    (OnRequestCallback, x ← member_Response cl (Class_ q); EnableIf (compatible [Request; function void [x]] ps) void);
    (OnRequestErrorCallback, x ← member_Response cl (Class_ q);
       EnableIf (compatible [Request; function void [ResponseOrError_ x]] ps) void);
    (OnEvent, EnableIf (IsTypeOrDerived cl Event (Class_ q)) void) ].
Proof.
  intros Hp. cbn zeta. unfold registerHandler_candidates, registerHandler_request, registerHandler_callback,
    registerHandler_error_callback, registerHandler_event, ParameterType, IsRequestHandlerWithoutCallback,
    IsRequestHandlerWithCallback, parameter, NthTypeOf.
  rewrite !handler_signature. cbn [mbind subst_bind signature parameters fmap list_fmap lookup list_lookup]. rewrite Hp.
  rewrite !handler_compatible. cbn [mbind subst_bind fmap list_fmap decay remove_reference remove_cv function]. rewrite Hp.
  destruct (member_Response cl (Class_ q)); [|done..]. cbn [mbind subst_bind]. rewrite !handler_compatible.
  cbn [mbind subst_bind fmap list_fmap decay remove_reference remove_cv function]. by rewrite Hp.
Qed.

Lemma request_response_type q r : cl.(Response_of) q = Some r -> member_Response cl (Class_ q) = Ok (Class_ r).
Proof. intros Hr. cbn. by rewrite Hr. Qed.

Lemma function_type_same a b : IsTypeOrDerived cl (function void [a]) (function void [b]) = is_same a b.
Proof. unfold IsTypeOrDerived. cbn. rewrite !bool_decide_eq_true_2 by done. cbn. rewrite !andb_true_r. by destruct (is_same a b). Qed.

(** A request handler without a callback. *)
Lemma registers_request fm res p q r : request_class q r -> decay p = Class_ q -> binds_const p = true ->
  converts_to_response cl (Class_ r) res = true ->
  registers cl false (handler_of fm res [p]) = Some (OnRequest, Class_ r).
Proof.
  intros [Hb He Hr] Hp Hc Hres. unfold registers, registerHandler, deduce. rewrite (candidates_of fm res p [] q Hp).
  unfold compatible. cbn. rewrite Hb, He, Hr. cbn. unfold body, ParameterType, parameter, NthTypeOf.
  rewrite handler_callable, handler_signature. cbn. rewrite Hc. cbn. by rewrite Hp, (request_response_type _ _ Hr), Hres.
Qed.

(** One with a callback for the response, and for the response or an error. *)
Lemma registers_callback fm res p p2 q r : request_class q r -> decay p = Class_ q -> binds_const p = true ->
  (forall t, p2 <> RRef t) -> decay p2 = function void [Class_ r] ->
  registers cl false (handler_of fm res [p; p2]) = Some (OnRequestCallback, Class_ r).
Proof.
  intros [Hb He Hr] Hp Hc Hp2 Hf. unfold registers, registerHandler, deduce. rewrite (candidates_of fm res p [p2] q Hp).
  unfold compatible. rewrite (request_response_type _ _ Hr). cbn [fmap list_fmap mbind subst_bind length zip_with forallb fst snd].
  rewrite Hf, !function_type_same, Hb, He, (proj2 (is_same_spec _ _) eq_refl). cbn. unfold body, ParameterType, parameter, NthTypeOf.
  rewrite handler_callable, handler_signature. cbn. rewrite Hc. cbn. rewrite Hp, (request_response_type _ _ Hr).
  destruct p2 as [| | | | |t| |]; [done..|by destruct (Hp2 t)|done|done].
Qed.

Lemma registers_error_callback fm res p p2 q r : request_class q r -> decay p = Class_ q -> binds_const p = true ->
  (forall t, p2 <> RRef t) -> decay p2 = function void [ResponseOrError_ (Class_ r)] ->
  registers cl false (handler_of fm res [p; p2]) = Some (OnRequestErrorCallback, Class_ r).
Proof.
  intros [Hb He Hr] Hp Hc Hp2 Hf. unfold registers, registerHandler, deduce. rewrite (candidates_of fm res p [p2] q Hp).
  unfold compatible. rewrite (request_response_type _ _ Hr). cbn [fmap list_fmap mbind subst_bind length zip_with forallb fst snd].
  rewrite Hf, !function_type_same, Hb, He, (proj2 (is_same_spec (ResponseOrError_ _) _) eq_refl). cbn.
  unfold body, ParameterType, parameter, NthTypeOf.
  rewrite handler_callable, handler_signature. cbn. rewrite Hc. cbn. rewrite Hp, (request_response_type _ _ Hr).
  destruct p2 as [| | | | |t| |]; [done..|by destruct (Hp2 t)|done|done].
Qed.

Lemma registers_event fm res p e : event_class e -> decay p = Class_ e -> binds_const p = true ->
  registers cl false (handler_of fm res [p]) = Some (OnEvent, Class_ e).
Proof.
  intros [Hb He Hr] Hp Hc. unfold registers, registerHandler, deduce. rewrite (candidates_of fm res p [] e Hp).
  unfold compatible. cbn. rewrite Hb, He, Hr. cbn. unfold body, ParameterType, parameter, NthTypeOf.
  rewrite handler_callable, handler_signature. cbn. rewrite Hc. cbn. by rewrite Hp.
Qed.

Lemma send_request_class q r : request_class q r -> send cl (Class_ q) = Selected SendRequest.
Proof.
  intros [Hb He Hr]. unfold send, resolve, send_candidates, IsRequest, IsEvent, EnableIfIsType. cbn. by rewrite Hb, He, Hr.
Qed.

Lemma send_event_class e : event_class e -> send cl (Class_ e) = Selected SendEvent.
Proof.
  intros [Hb He Hr]. unfold send, resolve, send_candidates, IsRequest, IsEvent, EnableIfIsType. cbn. by rewrite Hb, He.
Qed.
End Facts.
End TraitsFacts.

(** ** The classes of the protocol *)
Definition protocol_classes : classes := {|
  base_of c :=
    if bool_decide (c ∈ si_struct <$> protocol_requests) then Some "Request"
    else if bool_decide (c ∈ si_struct <$> protocol_responses) then Some "Response"
    else if bool_decide (c ∈ si_struct <$> protocol_events) then Some "Event"
    else if bool_decide (c = "StackFrameFormat") then Some "ValueFormat"
    else None;
  Response_of c := rr ← list_find (fun rr => rr.1 = c) request_response; Some rr.2.2;
  depth := 3
|}.

Module TraitsProps.
Import TraitsFacts.

Lemma protocol_request_class q r : (q, r) ∈ request_response -> request_class protocol_classes q r.
Proof.
  assert (Hall : forallb (fun rr => IsTypeOrDerived protocol_classes Request (Class_ rr.1) &&
    negb (IsTypeOrDerived protocol_classes Event (Class_ rr.1)) &&
    bool_decide (protocol_classes.(Response_of) rr.1 = Some rr.2)) request_response = true) by (vm_compute; reflexivity).
  rewrite forallb_forall in Hall. intros Hin%list_elem_of_In. specialize (Hall _ Hin).
  rewrite !andb_true_iff, negb_true_iff, bool_decide_eq_true in Hall. destruct Hall as [[? ?] ?]. by split.
Qed.

Lemma protocol_event_class e : e ∈ si_struct <$> protocol_events -> event_class protocol_classes e.
Proof.
  assert (Hall : forallb (fun e => IsTypeOrDerived protocol_classes Event (Class_ e) &&
    negb (IsTypeOrDerived protocol_classes Request (Class_ e)) &&
    bool_decide (protocol_classes.(Response_of) e = None)) (si_struct <$> protocol_events) = true) by (vm_compute; reflexivity).
  rewrite forallb_forall in Hall. intros Hin%list_elem_of_In. specialize (Hall _ Hin).
  rewrite !andb_true_iff, negb_true_iff, bool_decide_eq_true in Hall. destruct Hall as [[? ?] ?]. by split.
Qed.

(** A [const T&] parameter. *)
Definition const_ref (c : string) : ctype := Ref (Const (Class_ c)).

(** C27. Every documented call compiles and means what the documentation says: for each
    request of the protocol a handler (a [std::function], a lambda or a function) that
    takes it by [const] reference and returns a [ResponseOrError], a response or an
    [Error], or that takes a callback for the response, or for the response or an error,
    selects exactly the overload for that signature, with the response type the request
    declares; [send] of it selects the overload for requests; and the handler of sent
    responses gets that type. For each event, the handler and [send] select the overloads
    for events. *)
Theorem protocol_overloads fm :
  (forall q r res, (q, r) ∈ request_response ->
    res ∈ [ResponseOrError_ (Class_ r); Class_ r; Error] ->
    registers protocol_classes false (handler_of fm res [const_ref q]) = Some (OnRequest, Class_ r)) /\
  (forall q r, (q, r) ∈ request_response ->
    registers protocol_classes false (handler_of fm void [const_ref q; function void [Class_ r]])
      = Some (OnRequestCallback, Class_ r) /\
    registers protocol_classes false (handler_of fm void [const_ref q; function void [ResponseOrError_ (Class_ r)]])
      = Some (OnRequestErrorCallback, Class_ r) /\
    registerSentHandler false (handler_of fm void [Ref (Const (ResponseOrError_ (Class_ r)))]) = Ok (Class_ r) /\
    send protocol_classes (Class_ q) = Selected SendRequest) /\
  (forall e, e ∈ si_struct <$> protocol_events ->
    registers protocol_classes false (handler_of fm void [const_ref e]) = Some (OnEvent, Class_ e) /\
    send protocol_classes (Class_ e) = Selected SendEvent).
Proof.
  split_and!.
  - intros q r res Hq%protocol_request_class Hres. apply (registers_request _ fm res _ q); [done..|].
    unfold converts_to_response. repeat (apply elem_of_cons in Hres as [->|Hres]; [|]).
    + by rewrite (proj2 (is_same_spec _ _) eq_refl).
    + unfold IsTypeOrDerived at 1. cbn [decay remove_reference remove_cv].
      by rewrite (proj2 (is_same_spec (Class_ r) _) eq_refl), !orb_true_r.
    + replace (IsTypeOrDerived protocol_classes Error Error) with true by (vm_compute; reflexivity).
      by rewrite orb_true_r.
    + by apply elem_of_nil in Hres.
  - intros q r Hq%protocol_request_class. split_and!.
    + by apply (registers_callback _ fm void _ _ q).
    + by apply (registers_error_callback _ fm void _ _ q).
    + by destruct fm.
    + by eapply send_request_class.
  - intros e He%protocol_event_class. split; [by apply registers_event|by apply send_event_class].
Qed.

(** [CompatibleWith<F, S>] holds iff the functions have as many parameters and each
    parameter of [F] is, or derives from, that of [S]; it is an error only when one of
    them has no signature. *)
Theorem compatible_with_spec cl f s sf ss :
  SignatureOf f = Ok sf -> SignatureOf s = Ok ss ->
  exists b, CompatibleWith cl f s = Ok b /\
    (b = true <-> Forall2 (fun base t => IsTypeOrDerived cl base t = true) ss.(parameters) sf.(parameters)).
Proof.
  intros Hf Hs. eexists. split; [by apply compatible_spec|]. unfold compatible.
  rewrite andb_true_iff, Nat.eqb_eq. generalize ss.(parameters), sf.(parameters). clear. intros l k. split.
  - revert k. induction l as [|a l IH]; intros [|b k]; cbn; intros [Hl Hk]; try done.
    apply andb_true_iff in Hk as [Hab Hk]. constructor; [done|]. apply IH. split; [lia|done].
  - induction 1 as [|a b l k Hab _ [Hl Hk]]; cbn; [done|]. by rewrite Hl, Hab, Hk.
Qed.

(** A handler passed as an lvalue does not compile: [F] is deduced as a reference, which
    has no signature. *)
Theorem register_lvalue_ill_formed cl f : registerHandler cl true f = IllFormed.
Proof. done. Qed.

(** The classes of the tests. *)
Definition test_classes : classes :=
  {| base_of c := if bool_decide (c = "E") then Some "S" else None; Response_of _ := None; depth := 1 |}.

Definition taking (c : string) : ctype := Pointer (Fn Function void [Class_ c]).

(** [F] can be called with the argument types of [S]: a derived object converts to its
    base. *)
Definition callable_with (cl : classes) (f s : ctype) : bool :=
  match SignatureOf f, SignatureOf s with
  | Ok sf, Ok ss => compatible cl sf.(parameters) ss.(parameters)
  | _, _ => false
  end.

(** [CompatibleWith<F, S>] is not "[F] can be called with the argument types of [S]" but
    the converse. *)
Theorem compatible_with_is_converse cl f s sf ss :
  SignatureOf f = Ok sf -> SignatureOf s = Ok ss -> CompatibleWith cl f s = Ok (callable_with cl s f).
Proof. intros Hf Hs. unfold callable_with. rewrite Hf, Hs. by apply compatible_spec. Qed.

Lemma compatible_with_spec_witness :
  CompatibleWith test_classes (taking "E") (taking "S") = Ok true /\
  CompatibleWith test_classes (taking "S") (taking "E") = Ok false /\
  exists b, CompatibleWith test_classes (taking "E") (taking "S") = Ok b.
Proof.
  split_and!; [vm_compute; reflexivity..|].
  destruct (compatible_with_spec test_classes (taking "E") (taking "S") (signature void [Class_ "E"])
    (signature void [Class_ "S"]) eq_refl eq_refl) as (b & Hb & _). by exists b.
Defined.

Lemma compatible_with_is_converse_witness :
  CompatibleWith test_classes (taking "E") (taking "S") = Ok (callable_with test_classes (taking "S") (taking "E")) /\
  callable_with test_classes (taking "E") (taking "S") = false.
Proof.
  split; [|vm_compute; reflexivity].
  apply (compatible_with_is_converse test_classes (taking "E") (taking "S") (signature void [Class_ "E"])
    (signature void [Class_ "S"]) eq_refl eq_refl).
Defined.
End TraitsProps.
