(* ===== verification/Nlohmann.v ===== *)
(** * The nlohmann/json backend

    Models [src/nlohmann_json_serializer.cpp] and [src/null_json_serializer.h].
    The library [nlohmann::json] is not part of the repository: its operations are
    the class [NJson], its documented behaviour the class [NJsonLaws]. The two
    C++ classes are instances of [Deserializer] and [Serializer], and satisfy
    the contracts of [Json.v] for every library that obeys the laws. *)
From Stdlib Require Import Ascii ZArith Lia.
From stdpp Require Import base list strings.
From S2P Require Import Prelude SMap Types Serialization Json Backend Decode.

(** ** The library's operations

    [nj_member]/[nj_set_member] read and write through the reference the
    non-const [operator\[\]] returns for a key, [nj_index]/[nj_set_index] for an
    index; [nj_dump] aborts on text it cannot encode (exceptions are disabled);
    [nj_parse] returns a discarded value on a parse error. *)
Class NJson (J : Type) := {
  nj_null : J;
  nj_parse : string -> J;
  nj_dump : J -> outcome string;
  nj_is_null : J -> bool;
  nj_is_boolean : J -> bool;
  nj_is_number : J -> bool;
  nj_is_number_integer : J -> bool;
  nj_is_number_float : J -> bool;
  nj_is_string : J -> bool;
  nj_is_array : J -> bool;
  nj_is_object : J -> bool;
  nj_is_structured : J -> bool;
  nj_get_bool : J -> bool;
  nj_get_int64 : J -> Z;
  nj_get_double : J -> double;
  nj_get_string : J -> string;
  nj_size : J -> nat;
  nj_items : J -> list (string * J);
  nj_at : J -> nat -> J;
  nj_find : J -> string -> option J;
  nj_of_bool : bool -> J;
  nj_of_int64 : Z -> J;
  nj_of_double : double -> J;
  nj_of_string : string -> J;
  nj_array : J;
  nj_object : J;
  nj_index : J -> nat -> J;
  nj_set_index : J -> nat -> J -> J;
  nj_member : J -> string -> J;
  nj_set_member : J -> string -> J -> J;
  nj_erase : J -> string -> J
}.

(** ** [NlohmannDeserializer] and [NullDeserializer] *)
Module NlohmannDeserializer.
Section Deserializer.
Context {J : Type} `{NJson J}.

(** A [Deserializer*] of this backend: [None] is [NullDeserializer::instance]. *)
Definition t : Type := option J.

Definition create (str : string) : t := Some (nj_parse str).

Definition boolean (j : J) : option bool :=
  if nj_is_boolean j then Some (nj_get_bool j) else None.

Definition integer (j : J) : option Z :=
  if nj_is_number_integer j then Some (nj_get_int64 j) else None.

Definition number (j : J) : option double :=
  if nj_is_number j then Some (nj_get_double j) else None.

Definition string (j : J) : option string :=
  if nj_is_string j then Some (nj_get_string j) else None.

(** [array(cb)]: the elements the loop visits. *)
Definition array (j : J) : option (list J) :=
  if nj_is_array j then Some (nj_at j <$> seq 0 (nj_size j)) else None.

(** [deserialize(any)], with [deserialize(object)] and [deserialize(array<any>)]
    for the nested values. *)
Fixpoint any (fuel : nat) (j : J) (v : value) : outcome (bool * value) :=
  match fuel with
  | O => OutOfFuel
  | S fuel =>
    if nj_is_boolean j then Ret (true, VAny TBoolean (VBoolean (nj_get_bool j)))
    else if nj_is_number_float j then Ret (true, VAny TNumber (VNumber (nj_get_double j)))
    else if nj_is_number_integer j then Ret (true, VAny TInteger (VInteger (nj_get_int64 j)))
    else if nj_is_string j then Ret (true, VAny TString (VString (nj_get_string j)))
    else if nj_is_object j then
      '(ok, obj) ← object_items (any fuel) (nj_items j) [];
      Ret (if (ok : bool) then (true, VAny TObject (VObject obj)) else (false, v))
    else if nj_is_array j then
      '(ok, arr) ← match array j with
                   | None => Ret (false, [])
                   | Some ds => array_loop (any fuel) ds 0 (replicate (nj_size j) VAnyEmpty)
                   end;
      Ret (if (ok : bool) then (true, VAny (TArray TAny) (VArray arr)) else (false, v))
    else if nj_is_null j then Ret (true, VAnyEmpty)
    else Ret (false, v)
  end.

(** [deserialize(object)]: the loop over [json->items()]. *)
Definition object (fuel : nat) (j : J) (v : smap value) : outcome (bool * smap value) :=
  object_items (any fuel) (nj_items j) v.

Definition count (j : J) : nat := nj_size j.

(** [field(name, cb)]: what [cb] is called with. *)
Definition field (j : J) (name : String.string) : option t :=
  if nj_is_structured j then
    match nj_find j name with
    | None => Some None
    | Some obj => Some (Some obj)
    end
  else None.

#[global] Instance Nlohmann_Deserializer : Deserializer t := {|
  des_boolean d := match d with Some j => boolean j | None => None end;
  des_integer d := match d with Some j => integer j | None => None end;
  des_number d := match d with Some j => number j | None => None end;
  des_string d := match d with Some j => string j | None => None end;
  des_object fuel d m := match d with Some j => object fuel j m | None => Ret (false, m) end;
  des_any fuel d v := match d with Some j => any fuel j v | None => Ret (false, v) end;
  des_count d := Ret (match d with Some j => count j | None => 0%nat end);
  des_array d := match d with Some j => option_map (map Some) (array j) | None => None end;
  des_field d name := match d with Some j => field j name | None => None end
|}.
End Deserializer.
Arguments t : clear implicits.
#[global] Typeclasses Opaque t.
End NlohmannDeserializer.

(** ** [NlohmannSerializer] *)
Module NlohmannSerializer.
Section Serializer.
Context {J : Type} `{NJson J}.

(** The storage the serializer points to, and its [removed] flag. *)
Record t := { json : J; removed : bool }.

Definition create : t := {| json := nj_null; removed := false |}.

(** [NlohmannSerializer s(&slot)]. *)
Definition on (slot : J) : t := {| json := slot; removed := false |}.

Definition dump (s : t) : outcome string := nj_dump s.(json).

(** [*json = ...] *)
Definition assign (j : J) (s : t) : t := {| json := j; removed := s.(removed) |}.

Definition boolean (v : bool) (s : t) : outcome (bool * t) := Ret (true, assign (nj_of_bool v) s).
Definition integer (v : Z) (s : t) : outcome (bool * t) := Ret (true, assign (nj_of_int64 v) s).
Definition number (v : double) (s : t) : outcome (bool * t) := Ret (true, assign (nj_of_double v) s).
Definition string (v : string) (s : t) : outcome (bool * t) := Ret (true, assign (nj_of_string v) s).

(** [serialize(const dap::object&)]. *)
Definition object (rec : serialize_fn t) (v : smap value) (s : t) : outcome (bool * t) :=
  let j := if nj_is_object s.(json) then s.(json) else nj_object in
  '(ok, j) ← object_members on json (fun _ j => j) nj_member nj_set_member rec v j;
  Ret (ok, assign j s).

(** [serialize(const dap::any&)]. *)
Definition any (rec : serialize_fn t) (v : value) (s : t) : outcome (bool * t) :=
  any_cases (fun b => assign (nj_of_bool b)) (fun z => assign (nj_of_int64 z))
    (fun x => assign (nj_of_double x)) (fun x => assign (nj_of_string x)) (object rec) rec v s.

(** [array(count, cb)]. *)
Definition array (cbs : list (t -> outcome (bool * t))) (s : t) : outcome (bool * t) :=
  '(ok, j) ← array_elements on json nj_index nj_set_index cbs 0 nj_array;
  Ret (ok, assign j s).

(** [FS::field]. *)
Definition field (name : String.string) (cb : t -> outcome (bool * t)) (j : J) : outcome (bool * J) :=
  field_member on json (fun _ j => j) nj_member nj_set_member removed nj_erase name cb j.

(** [object(cb)]. *)
Definition struct_ (cb : J -> outcome (bool * J)) (s : t) : outcome (bool * t) :=
  '(ok, j) ← cb nj_object;
  Ret (ok, assign j s).

Definition remove (s : t) : t := {| json := s.(json); removed := true |}.

#[global] Instance Nlohmann_Serializer : Serializer t J := {|
  ser_boolean := boolean;
  ser_integer := integer;
  ser_number := number;
  ser_string := string;
  ser_object := object;
  ser_any := any;
  ser_array := array;
  ser_struct := struct_;
  ser_remove := remove;
  fs_field := field
|}.
End Serializer.
Arguments t : clear implicits.
End NlohmannSerializer.

(** ** The library's documented behaviour

    [nj_tree j] is the document [j] holds, [None] for a discarded value. The order
    of [items()] is that of the library's map, not that of [smap]. *)
Class NJsonLaws (J : Type) `{NJson J} := {
  nj_tree : J -> option jtree;
  nj_is_null_spec j : nj_is_null j = match nj_tree j with Some JNull => true | _ => false end;
  nj_is_boolean_spec j : nj_is_boolean j = match nj_tree j with Some (JBool _) => true | _ => false end;
  nj_is_number_integer_spec j :
    nj_is_number_integer j = match nj_tree j with Some (JInt _) => true | _ => false end;
  nj_is_number_float_spec j :
    nj_is_number_float j = match nj_tree j with Some (JFloat _) => true | _ => false end;
  nj_is_number_spec j : nj_is_number j = nj_is_number_integer j || nj_is_number_float j;
  nj_is_string_spec j : nj_is_string j = match nj_tree j with Some (JString _) => true | _ => false end;
  nj_is_array_spec j : nj_is_array j = match nj_tree j with Some (JArray _) => true | _ => false end;
  nj_is_object_spec j : nj_is_object j = match nj_tree j with Some (JObject _) => true | _ => false end;
  nj_is_structured_spec j : nj_is_structured j = nj_is_array j || nj_is_object j;
  nj_get_bool_spec j b : nj_tree j = Some (JBool b) -> nj_get_bool j = b;
  nj_get_int64_spec j z : nj_tree j = Some (JInt z) -> in_int64 z = true -> nj_get_int64 j = z;
  nj_get_int64_range j : in_int64 (nj_get_int64 j) = true;
  nj_get_double_spec j x : nj_tree j = Some (JFloat x) -> nj_get_double j = x;
  nj_get_string_spec j s : nj_tree j = Some (JString s) -> nj_get_string j = s;
  nj_size_spec j l : nj_tree j = Some (JArray l) -> nj_size j = length l;
  nj_items_object j o : nj_tree j = Some (JObject o) ->
    exists l, l ≡ₚ o /\ Forall2 (fun x y => x.1 = y.1 /\ nj_tree x.2 = Some y.2) (nj_items j) l;
  nj_items_null j : nj_tree j = Some JNull -> nj_items j = [];
  nj_items_array j l : nj_tree j = Some (JArray l) -> nj_tree <$> (nj_items j).*2 = Some <$> l;
  nj_items_primitive j : nj_tree j <> Some JNull -> nj_is_structured j = false ->
    nj_items j = [(EmptyString, j)];
  nj_at_spec j l i x : nj_tree j = Some (JArray l) -> l !! i = Some x -> nj_tree (nj_at j i) = Some x;
  nj_find_spec j o name : nj_tree j = Some (JObject o) ->
    match nj_find j name with
    | Some x => exists v, sm_lookup o name = Some v /\ nj_tree x = Some v
    | None => sm_lookup o name = None
    end;
  nj_find_other j name : (forall o, nj_tree j <> Some (JObject o)) -> nj_find j name = None;
  nj_null_spec : nj_tree nj_null = Some JNull;
  nj_of_bool_spec b : nj_tree (nj_of_bool b) = Some (JBool b);
  nj_of_int64_spec z : in_int64 z = true -> nj_tree (nj_of_int64 z) = Some (JInt z);
  nj_of_double_spec x : nj_tree (nj_of_double x) = Some (JFloat x);
  nj_of_string_spec s : nj_tree (nj_of_string s) = Some (JString s);
  nj_array_spec : nj_tree nj_array = Some (JArray []);
  nj_object_spec : nj_tree nj_object = Some (JObject []);
  nj_index_spec j l : nj_tree j = Some (JArray l) -> nj_tree (nj_index j (length l)) = Some JNull;
  nj_set_index_spec j l x v : nj_tree j = Some (JArray l) -> nj_tree x = Some v ->
    nj_tree (nj_set_index j (length l) x) = Some (JArray (l ++ [v]));
  nj_member_spec j o name : nj_tree j = Some (JObject o) ->
    nj_tree (nj_member j name) = Some (default JNull (sm_lookup o name));
  nj_set_member_spec j o name x v : nj_tree j = Some (JObject o) -> nj_tree x = Some v ->
    nj_tree (nj_set_member j name x) = Some (JObject (sm_insert o name v));
  nj_erase_spec j o name : nj_tree j = Some (JObject o) ->
    nj_tree (nj_erase j name) = Some (JObject (sm_delete o name));
  nj_parse_dump j v : nj_tree j = Some v -> canonical no_limits false v = true -> printable v = true ->
    exists text, nj_dump j = Ret text /\ text <> EmptyString /\ nj_tree (nj_parse text) = Some v
}.

(** ** The deserializer keeps its contract *)
Module NlohmannDeserializerFacts.
Import NlohmannDeserializer.
Section Facts.
Context {J : Type} {HJ : NJson J} {HL : NJsonLaws J}.

#[global] Instance Nlohmann_DeserializerView : DeserializerView (t J) := fun d => match d with Some j => nj_tree j | None => None end.

Lemma array_trees j l :
  nj_tree j = Some (JArray l) ->
  exists ds, array j = Some ds /\ Forall2 (fun d x => nj_tree d = Some x) ds l.
Proof.
  intros Hj. unfold array. rewrite nj_is_array_spec, Hj. eexists. split; [done|].
  rewrite (nj_size_spec _ _ Hj). apply Forall2_fmap_l. apply Forall2_same_length_lookup.
  rewrite length_seq. split; [done|]. intros i i' x Hi Hx. apply lookup_seq in Hi as [-> _].
  by eapply nj_at_spec.
Qed.

Lemma any_loads fuel j v cur :
  nj_tree j = Some v -> canonical no_limits true v = true -> (jheight v < fuel)%nat ->
  any fuel j cur = Ret (true, any_of_json v).
Proof.
  revert j v cur. induction fuel as [|fuel IH]; intros j v cur Hj Hc Hf; [lia|]. cbn [any].
  rewrite nj_is_boolean_spec, nj_is_number_float_spec, nj_is_number_integer_spec, nj_is_string_spec,
    nj_is_object_spec, nj_is_array_spec, nj_is_null_spec, Hj.
  destruct v as [|b|z|x|s|l|o].
  - done.
  - by rewrite (nj_get_bool_spec _ _ Hj).
  - cbn in Hc. rewrite andb_true_r in Hc. by rewrite (nj_get_int64_spec _ _ Hj).
  - by rewrite (nj_get_double_spec _ _ Hj).
  - by rewrite (nj_get_string_spec _ _ Hj).
  - destruct (array_trees j l Hj) as (ds & -> & HF). rewrite (nj_size_spec _ _ Hj).
    by rewrite (array_any_loads nj_tree no_limits fuel) by (done || lia).
  - destruct (nj_items_object j o Hj) as (l & Hl & HF).
    by rewrite (object_loads nj_tree no_limits fuel (any fuel) o l) by (done || lia).
Qed.

(** A parse error leaves a value of no type. *)
Lemma any_discarded fuel j cur :
  (0 < fuel)%nat -> nj_tree j = None -> any fuel j cur = Ret (false, cur).
Proof.
  intros Hf Hj. destruct fuel; [lia|]. cbn [any].
  by rewrite nj_is_boolean_spec, nj_is_number_float_spec, nj_is_number_integer_spec, nj_is_string_spec,
    nj_is_object_spec, nj_is_array_spec, nj_is_null_spec, Hj.
Qed.

#[global] Instance Nlohmann_DeserializerContract : DeserializerContract (t J) no_limits.
Proof.
  split.
  - apply _.
  - intros [j|]; [|done]. cbn. unfold des_tree, Nlohmann_DeserializerView, boolean. cbn.
    rewrite nj_is_boolean_spec. destruct (nj_tree j) as [[]|] eqn:E; try done.
    by rewrite (nj_get_bool_spec _ _ E).
  - intros [j|] x Hx _; [|done]. cbn in *. unfold string.
    by rewrite nj_is_string_spec, Hx, (nj_get_string_spec _ _ Hx).
  - intros [j|] Hno; [|done]. cbn in *. unfold string. rewrite nj_is_string_spec.
    unfold des_tree, Nlohmann_DeserializerView in Hno. cbn in Hno.
    destruct (nj_tree j) as [[]|]; try done. by destruct (Hno s).
  - intros [j|] z Hz Hr; [|done]. cbn in *. unfold integer.
    by rewrite nj_is_number_integer_spec, Hz, (nj_get_int64_spec _ _ Hz).
  - intros [j|] x Hx; [|done]. cbn in *. unfold number.
    by rewrite nj_is_number_spec, nj_is_number_integer_spec, nj_is_number_float_spec, Hx,
      (nj_get_double_spec _ _ Hx).
  - intros fuel [j|] o Ho Hc Hf; [|done]. cbn [des_object Nlohmann_Deserializer]. unfold object.
    destruct (nj_items_object j o Ho) as (l & Hl & HF).
    apply (object_loads nj_tree no_limits fuel _ o l); try done. intros x v c. apply any_loads.
  - intros fuel [j|] v cur; [|done]. apply any_loads.
  - intros [j|] l Hl; [|done]. split; [exact (f_equal Ret (nj_size_spec j l Hl))|].
    destruct (array_trees j l Hl) as (ds & Hds & HF). exists (map Some ds). cbn. rewrite Hds.
    split; [done|]. by apply Forall2_fmap_l.
  - intros [j|] o name Ho _; [|done]. cbn. unfold field.
    rewrite nj_is_structured_spec, nj_is_array_spec, nj_is_object_spec. cbn in Ho. rewrite Ho. cbn.
    pose proof (nj_find_spec j o name Ho) as Hfind. destruct (nj_find j name) as [x|].
    + destruct Hfind as (v & Hv & Hx). exists (Some x). split; [done|]. by rewrite Hv.
    + exists None. done.
  - intros [j|] v name Hv Hno; [|done]. cbn in Hv |- *. unfold field.
    destruct (nj_is_structured j); [right|by left]. rewrite nj_find_other; [by exists None|].
    intros o. rewrite Hv. intros [= ->]. by apply (Hno o).
  - intros [j|] Hd; [|done]. cbn in *. unfold integer, number.
    by rewrite nj_is_number_spec, nj_is_number_integer_spec, nj_is_number_float_spec, Hd.
  - intros fuel [j|] m Hfu Hd; [|done]. cbn in Hd |- *. unfold object.
    rewrite nj_items_primitive; [|by rewrite Hd|by rewrite nj_is_structured_spec, nj_is_array_spec,
      nj_is_object_spec, Hd]. cbn. by rewrite any_discarded.
  - intros fuel [j|] a Hfu Hd; [|done]. by apply any_discarded.
  - intros [j|] Hd; (split; [by eexists|]); [|done]. cbn in *. unfold array. by rewrite nj_is_array_spec, Hd.
  - intros [j|] name Hd; [|done]. cbn in *. unfold field.
    by rewrite nj_is_structured_spec, nj_is_array_spec, nj_is_object_spec, Hd.
Qed.
(** *** Documents of any form *)
Definition jdepth (j : J) : nat := match nj_tree j with Some v => jheight v | None => 0%nat end.

Lemma items_below j x : x ∈ (nj_items j).*2 ->
  (jdepth x <= jdepth j)%nat /\ (nj_is_object j = true -> (jdepth x < jdepth j)%nat).
Proof.
  rewrite nj_is_object_spec. intros Hx. unfold jdepth at 2 4. destruct (nj_tree j) as [v|] eqn:E.
  2: { rewrite nj_items_primitive in Hx.
    - apply list_elem_of_singleton in Hx; cbn in Hx; subst x; unfold jdepth; rewrite E; cbn; lia.
    - by rewrite E.
    - by rewrite nj_is_structured_spec, nj_is_array_spec, nj_is_object_spec, E. }
  destruct v as [| | | | |l|o].
  2-5: rewrite nj_items_primitive in Hx
    by (by rewrite ?nj_is_structured_spec, ?nj_is_array_spec, ?nj_is_object_spec, E);
    apply list_elem_of_singleton in Hx; cbn in Hx; subst x; unfold jdepth; rewrite E; cbn; lia.
  - rewrite (nj_items_null j E) in Hx. by apply elem_of_nil in Hx.
  - split; [|done]. assert (Hin : nj_tree x ∈ nj_tree <$> (nj_items j).*2) by by apply list_elem_of_fmap_2.
    rewrite (nj_items_array j l E) in Hin. apply list_elem_of_fmap in Hin as (w & Hw & Hin).
    unfold jdepth. rewrite Hw, jheight_array. pose proof (jheights_elem w l Hin). lia.
  - destruct (nj_items_object j o E) as (l & Hl & HF).
    apply list_elem_of_fmap in Hx as (kx & -> & Hx). apply list_elem_of_lookup in Hx as [i Hi].
    destruct (Forall2_lookup_l _ _ _ _ _ HF Hi) as (y & Hy & _ & Hty).
    apply list_elem_of_lookup_2 in Hy. rewrite Hl in Hy. unfold jdepth. rewrite Hty, jheight_object.
    assert (jheight y.2 <= jheights o.*2)%nat; [|lia]. by apply jheights_elem, list_elem_of_fmap_2.
Qed.

Lemma array_below j ds : array j = Some ds ->
  nj_size j = length ds /\ Forall (fun x => jdepth x < jdepth j)%nat ds.
Proof.
  intros Hds. pose proof Hds as Hj. unfold array in Hj. rewrite nj_is_array_spec in Hj.
  destruct (nj_tree j) as [[]|] eqn:E; try done. clear Hj.
  destruct (array_trees j l E) as (ds' & Hds' & HF). rewrite Hds in Hds'. injection Hds' as <-.
  rewrite (nj_size_spec _ _ E), (Forall2_length _ _ _ HF). split; [done|].
  unfold jdepth at 2. rewrite E, jheight_array. apply Forall_lookup. intros i x Hx.
  destruct (Forall2_lookup_l _ _ _ _ _ HF Hx) as (y & Hy & Ht). unfold jdepth. rewrite Ht.
  apply list_elem_of_lookup_2 in Hy. pose proof (jheights_elem y l Hy). lia.
Qed.

Lemma any_safe b env fuel j cur :
  (jdepth j < fuel)%nat -> has_type b env cur TAny = true -> safe (fun v => has_type b env v TAny = true) (any fuel j cur).
Proof.
  revert j cur. induction fuel as [|fuel IH]; intros j cur Hf Hcur; [lia|]. cbn [any].
  destruct (nj_is_boolean j); [by apply safe_ret|]. destruct (nj_is_number_float j); [by apply safe_ret|].
  destruct (nj_is_number_integer j); [apply safe_ret, nj_get_int64_range|].
  destruct (nj_is_string j); [by apply safe_ret|].
  destruct (nj_is_object j) eqn:Eo.
  { eapply (safe_bind (fun m => has_type b env (VObject m) TObject = true)).
    - apply object_items_safe; [|done]. intros kx Hkx.
      destruct (items_below j kx.2) as [_ Hlt]; [by apply list_elem_of_fmap_2|].
      specialize (Hlt Eo). apply IH; [lia|done].
    - intros ok m Hm. destruct ok; by apply safe_ret. }
  destruct (nj_is_array j); [|destruct (nj_is_null j); by apply safe_ret].
  eapply (safe_bind (fun l => has_type b env (VArray l) (TArray TAny) = true)).
  - destruct (array j) as [ds|] eqn:Eds; [|by apply safe_ret]. destruct (array_below j ds Eds) as [Hn Hsub].
    eapply safe_impl; [apply (array_loop_safe (fun v => has_type b env v TAny = true))|].
    + intros d c Hd Hc. rewrite Forall_forall in Hsub. specialize (Hsub d Hd). apply IH; [lia|done].
    + rewrite length_replicate. lia.
    + by apply Forall_replicate.
    + intros l. apply has_type_array.
  - intros ok l Hl. destruct ok; by apply safe_ret.
Qed.

#[global] Instance Nlohmann_DeserializerSafe : DeserializerSafe (t J).
Proof using HL.
  refine {| des_depth := (fun d : t J => match d with Some j => S (jdepth j) | None => 0%nat end) |}.
  - intros [j|] z; [|done]. cbn. unfold integer. case_match; [|done]. intros [= <-]. apply nj_get_int64_range.
  - intros b env fuel [j|] cur Hf Hc; [|by apply safe_ret]. apply any_safe; [lia|done].
  - intros b env fuel [j|] m Hf Hm; [|by apply safe_ret]. apply object_items_safe; [|done]. intros kx Hkx.
    apply any_safe; [|done]. destruct (items_below j kx.2) as [Hle _]; [by apply list_elem_of_fmap_2|lia].
  - intros d. by eexists.
  - intros [j|] ds; [|done]. cbn. destruct (array j) as [l|] eqn:E; [|done]. intros [= <-].
    destruct (array_below j l E) as [Hn Hsub]. rewrite length_map. split; [unfold count; by rewrite Hn|].
    apply Forall_fmap. eapply Forall_impl; [exact Hsub|]. cbn. lia.
  - intros [j|] name d'; [|done]. cbn. unfold field. case_match; [|done].
    destruct (nj_find j name) as [x|] eqn:Ef; intros [= <-]; [|lia].
    assert (Hv : exists o v, nj_tree j = Some (JObject o) /\ sm_lookup o name = Some v /\ nj_tree x = Some v).
    { destruct (nj_tree j) as [[]|] eqn:E.
      7: { pose proof (nj_find_spec j o name E) as Hx. rewrite Ef in Hx. destruct Hx as (v & ? & ?). by exists o, v. }
      all: by rewrite nj_find_other in Ef by by rewrite E. }
    destruct Hv as (o & v & Ho & Hv & Hx).
    unfold jdepth. rewrite Ho, Hx, jheight_object. apply sm_lookup_elem in Hv.
    assert (jheight v <= jheights o.*2)%nat; [|lia].
    apply jheights_elem, list_elem_of_fmap. by exists (name, v).
Defined.
End Facts.
End NlohmannDeserializerFacts.

(** ** The serializer keeps its contract *)
Module NlohmannSerializerFacts.
Import NlohmannSerializer.
Section Facts.
Context {J : Type} {HJ : NJson J} {HL : NJsonLaws J}.

#[global] Instance Nlohmann_SerializerView : SerializerView (t J) J := {|
  ser_content s := nj_tree s.(json);
  ser_removed := removed;
  fs_content j := match nj_tree j with Some (JObject o) => Some o | _ => None end
|}.

Lemma stored_assign j v s :
  blank_ser s -> nj_tree j = Some v -> stored false v (Ret (true, assign j s)).
Proof. intros [_ Hr] Hj. by exists (assign j s). Qed.

Lemma view_cell (s : t J) : ser_content s = nj_tree (json s).
Proof. done. Qed.

Lemma fresh_on j : nj_tree j = Some JNull -> fresh_ser (on j).
Proof. done. Qed.

Lemma member_law j o k :
  nj_tree j = Some (JObject o) -> true = true -> sm_lookup o k = None ->
  nj_tree (nj_member j k) = Some JNull /\
  forall x v, nj_tree x = Some v -> nj_tree (nj_set_member j k x) = Some (JObject (sm_insert o k v)).
Proof.
  intros Hj _ Hk. split; [by rewrite (nj_member_spec j o k Hj), Hk|]. intros x v. by apply nj_set_member_spec.
Qed.

#[global] Instance Nlohmann_SerializerContract : SerializerContract (t J) J no_limits.
Proof.
  split.
  - apply _.
  - intros b s Hs. by apply stored_assign, nj_of_bool_spec.
  - intros z s Hs Hz. by apply stored_assign, nj_of_int64_spec.
  - intros x s Hs. by apply stored_assign, nj_of_double_spec.
  - intros x s Hs _. by apply stored_assign, nj_of_string_spec.
  - intros rec m o s Hs Hsort HF.
    assert (Hempty : nj_tree (if nj_is_object (json s) then json s else nj_object) = Some (JObject [])).
    { rewrite nj_is_object_spec. destruct Hs as [[Hs|Hs] _]; cbn in Hs; rewrite Hs; [apply nj_object_spec|done]. }
    destruct (object_members_object nj_tree on json (fun _ j => j) nj_member nj_set_member (fun _ => true)
      view_cell fresh_on member_law rec m o _ Hempty Hsort HF) as (j' & Hl & Hj').
    cbn. unfold object. rewrite Hl. by apply stored_assign.
  - intros rec s Hs. exists s. cbn. split; [done|]. by destruct Hs.
  - intros rec u v j s Hs Hu Hst. cbn.
    by destruct u, v; try discriminate Hu; unfold any; cbn; repeat rewrite bool_decide_eq_false_2 by done.
  - intros cbs js s Hs _ HF.
    destruct (array_elements_stores nj_tree on json nj_index nj_set_index view_cell fresh_on
      (fun l _ j => nj_tree j = Some (JArray l)) cbs js [] nj_array) as (j' & Hl & Hj').
    + intros l v rest j Hj. split; [by apply nj_index_spec|]. intros x. by apply nj_set_index_spec.
    + apply nj_array_spec.
    + done.
    + cbn in Hl |- *. unfold array. rewrite Hl. by apply stored_assign.
  - intros s Hs. exists nj_object. cbn. rewrite nj_object_spec. split; [done|].
    intros cb f' o Hcb Ho. unfold struct_. rewrite Hcb. apply stored_assign; [done|].
    by destruct (nj_tree f') as [[]|]; simplify_eq.
  - intros s [Hc Hr]. by exists (remove s).
  - intros name cb r v f o Hf Ho _ Hcb. cbn in Hf. destruct (nj_tree f) as [[]|] eqn:Ef; simplify_eq.
    destruct (field_member_stores nj_tree on json removed (fun _ j => j) nj_member nj_set_member (fun _ => true)
      view_cell fresh_on member_law nj_erase name cb r v f o) as (f' & Hf' & Ht'); try done.
    + intros j o' n w Hj _ Hn. by rewrite (nj_erase_spec _ _ n Hj), sm_delete_insert.
    + exists f'. cbn. by rewrite Ht'.
Qed.
End Facts.
End NlohmannSerializerFacts.

(** ** The backend *)
Section NlohmannBackend.
Import NlohmannDeserializerFacts NlohmannSerializerFacts.
Context {J : Type} {HJ : NJson J} {HL : NJsonLaws J}.

#[global] Instance Nlohmann_JsonBackend :
  JsonBackend (NlohmannDeserializer.t J) (NlohmannSerializer.t J) J := {|
  json_parse text := Ret (NlohmannDeserializer.create text);
  json_new := NlohmannSerializer.create;
  json_dump := NlohmannSerializer.dump
|}.

Lemma nlohmann_new_fresh : fresh_ser (NlohmannSerializer.create : NlohmannSerializer.t J).
Proof using HL. split; [apply nj_null_spec|done]. Qed.

#[global] Instance Nlohmann_JsonBackendContract :
  JsonBackendContract (NlohmannDeserializer.t J) (NlohmannSerializer.t J) J no_limits.
Proof.
  split; [apply _..| |].
  - apply fresh_blank, nlohmann_new_fresh.
  - intros ser v Hv Hc Hp _. destruct (nj_parse_dump _ v Hv Hc Hp) as (text & ? & ? & ?).
    by exists text, (NlohmannDeserializer.create text).
Qed.
End NlohmannBackend.
