(* ===== verification/JsonCpp.v ===== *)
(** * The JsonCpp backend

    Models [src/jsoncpp_json_serializer.cpp]. The library is not part of the
    repository: the operations of [Json::Value] the code uses are the class
    [CppJson], their documented behaviour the class [CppJsonLaws]. The two C++
    classes keep the contracts of [Json] within [cpp_limits]. *)
From Stdlib Require Import Ascii ZArith Lia.
From stdpp Require Import base list strings.
From S2P Require Import Prelude SMap Types Serialization Json Backend Decode.

(** ** The library's operations

    [cj_parse]: [CharReader::parse], [None] when it returns [false]; [cj_entries]: the
    iterators of a value with [name()], which is empty for an element of an array;
    [cj_member]/[cj_set_member] and [cj_index]/[cj_set_index] read and write through
    the references of the non-const [operator\[\]]. *)
Class CppJson (J : Type) := {
  cj_null : J;
  cj_parse : string -> option J;
  cj_write : J -> string;
  cj_is_bool : J -> bool;
  cj_is_real : J -> bool;
  cj_is_int64 : J -> bool;
  cj_is_numeric : J -> bool;
  cj_is_string : J -> bool;
  cj_is_object : J -> bool;
  cj_is_array : J -> bool;
  cj_is_null : J -> bool;
  cj_as_bool : J -> bool;
  cj_as_int64 : J -> Z;
  cj_as_double : J -> double;
  cj_as_string : J -> string;
  cj_size : J -> nat;
  cj_entries : J -> list (string * J);
  cj_find : J -> string -> option J;
  cj_of_bool : bool -> J;
  cj_of_int64 : Z -> J;
  cj_of_double : double -> J;
  cj_of_string : string -> J;
  cj_array : J;
  cj_object : J;
  cj_index : J -> nat -> J;
  cj_set_index : J -> nat -> J -> J;
  cj_member : J -> string -> J;
  cj_set_member : J -> string -> J -> J;
  cj_remove_member : J -> string -> J
}.

(** ** [JsonCppDeserializer] *)
Module JsonCppDeserializer.
Section Deserializer.
Context {J : Type} `{CppJson J}.

(** A [Deserializer*] of this backend: [None] is [NullDeserializer::instance]. *)
Definition t : Type := option J.

(** [parse]: the process is aborted when the text is not JSON. *)
Definition parse (text : string) : outcome J :=
  match cj_parse text with Some j => Ret j | None => Undefined end.

Definition create (str : string) : outcome t := j ← parse str; Ret (Some j).

Definition boolean (j : J) : option bool :=
  if cj_is_bool j then Some (cj_as_bool j) else None.

Definition integer (j : J) : option Z :=
  if cj_is_int64 j then Some (cj_as_int64 j) else None.

Definition number (j : J) : option double :=
  if cj_is_numeric j then Some (cj_as_double j) else None.

Definition string (j : J) : option string :=
  if cj_is_string j then Some (cj_as_string j) else None.

Definition array (j : J) : option (list J) :=
  if cj_is_array j then Some (cj_entries j).*2 else None.

Definition count (j : J) : nat := cj_size j.

(** [deserialize(any)], with [deserialize(object)] and [deserialize(array<any>)]
    for the nested values. *)
Fixpoint any (fuel : nat) (j : J) (v : value) : outcome (bool * value) :=
  match fuel with
  | O => OutOfFuel
  | S fuel =>
    if cj_is_bool j then Ret (true, VAny TBoolean (VBoolean (cj_as_bool j)))
    else if cj_is_real j then Ret (true, VAny TNumber (VNumber (cj_as_double j)))
    else if cj_is_int64 j then Ret (true, VAny TInteger (VInteger (cj_as_int64 j)))
    else if cj_is_string j then Ret (true, VAny TString (VString (cj_as_string j)))
    else if cj_is_object j then
      '(ok, obj) ← object_items (any fuel) (cj_entries j) [];
      Ret (if (ok : bool) then (true, VAny TObject (VObject obj)) else (false, v))
    else if cj_is_array j then
      '(ok, arr) ← match array j with
                   | None => Ret (false, [])
                   | Some ds => array_loop (any fuel) ds 0 (replicate (count j) VAnyEmpty)
                   end;
      Ret (if (ok : bool) then (true, VAny (TArray TAny) (VArray arr)) else (false, v))
    else if cj_is_null j then Ret (true, VAnyEmpty)
    else Ret (false, v)
  end.

(** [deserialize(object)]. *)
Definition object (fuel : nat) (j : J) (v : smap value) : outcome (bool * smap value) :=
  object_items (any fuel) (cj_entries j) v.

(** [field(name, cb)]: what [cb] is called with. *)
Definition field (j : J) (name : String.string) : option t :=
  if cj_is_object j then
    match cj_find j name with
    | None => Some None
    | Some value => Some (Some value)
    end
  else None.

#[global] Instance JsonCpp_Deserializer : Deserializer t := {|
  des_boolean d := match d with Some j => boolean j | None => None end;
  des_integer d := match d with Some j => integer j | None => None end;
  des_number d := match d with Some j => number j | None => None end;
  des_string d := match d with Some j => string j | None => None end;
  des_object fuel d m := match d with Some j => object fuel j m | None => Ret (false, m) end;
  des_any fuel d v := match d with Some j => any fuel j v | None => Ret (false, v) end;
  des_count d := Ret (match d with Some j => count j | None => 0%nat end);
  des_array d := match d with Some j => option_map (map Some) (array j) | None => None end;
  des_field d name := match d with Some j => field j name | None => None end
|}.
End Deserializer.
Arguments t : clear implicits.
#[global] Typeclasses Opaque t.
End JsonCppDeserializer.

(** ** [JsonCppSerializer] *)
Module JsonCppSerializer.
Section Serializer.
Context {J : Type} `{CppJson J}.

(** The storage the serializer points to, and its [removed] flag. *)
Record t := { json : J; removed : bool }.

Definition create : t := {| json := cj_null; removed := false |}.

(** [JsonCppSerializer s(&slot)]. *)
Definition on (slot : J) : t := {| json := slot; removed := false |}.

Definition dump (s : t) : string := cj_write s.(json).

(** [*json = ...] *)
Definition assign (j : J) (s : t) : t := {| json := j; removed := s.(removed) |}.

Definition boolean (v : bool) (s : t) : outcome (bool * t) := Ret (true, assign (cj_of_bool v) s).
Definition integer (v : Z) (s : t) : outcome (bool * t) := Ret (true, assign (cj_of_int64 v) s).
Definition number (v : double) (s : t) : outcome (bool * t) := Ret (true, assign (cj_of_double v) s).
Definition string (v : string) (s : t) : outcome (bool * t) := Ret (true, assign (cj_of_string v) s).

(** [serialize(const dap::object&)]. *)
Definition object (rec : serialize_fn t) (v : smap value) (s : t) : outcome (bool * t) :=
  let j := if cj_is_object s.(json) then s.(json) else cj_object in
  '(ok, j) ← object_members on json (fun _ j => j) cj_member cj_set_member rec v j;
  Ret (ok, assign j s).

(** [serialize(const dap::any&)]. *)
Definition any (rec : serialize_fn t) (v : value) (s : t) : outcome (bool * t) :=
  any_cases (fun b => assign (cj_of_bool b)) (fun z => assign (cj_of_int64 z))
    (fun x => assign (cj_of_double x)) (fun x => assign (cj_of_string x)) (object rec) rec v s.

(** [Json::Value::ArrayIndex(i)]: 32 bits. *)
Definition ArrayIndex (i : nat) : nat := Z.to_nat (u32 (Z.of_nat i)).

(** [array(count, cb)]. *)
Definition array (cbs : list (t -> outcome (bool * t))) (s : t) : outcome (bool * t) :=
  '(ok, j) ← array_elements on json (fun j i => cj_index j (ArrayIndex i))
               (fun j i => cj_set_index j (ArrayIndex i)) cbs 0 cj_array;
  Ret (ok, assign j s).

(** [FS::field]. *)
Definition field (name : String.string) (cb : t -> outcome (bool * t)) (j : J) : outcome (bool * J) :=
  field_member on json (fun _ j => j) cj_member cj_set_member removed cj_remove_member name cb j.

(** [object(cb)]. *)
Definition struct_ (cb : J -> outcome (bool * J)) (s : t) : outcome (bool * t) :=
  '(ok, j) ← cb cj_object;
  Ret (ok, assign j s).

Definition remove (s : t) : t := {| json := s.(json); removed := true |}.

#[global] Instance JsonCpp_Serializer : Serializer t J := {|
  ser_boolean := boolean;
  ser_integer := integer;
  ser_number := number;
  ser_string := string;
  ser_object := object;
  ser_any := any;
  ser_array := array;
  ser_struct := struct_;
  ser_remove := remove;
  fs_field := field
|}.
End Serializer.
Arguments t : clear implicits.
End JsonCppSerializer.

#[global] Instance JsonCpp_JsonBackend {J} `{CppJson J} :
  JsonBackend (JsonCppDeserializer.t J) (JsonCppSerializer.t J) J := {|
  json_parse := JsonCppDeserializer.create;
  json_new := JsonCppSerializer.create;
  json_dump s := Ret (JsonCppSerializer.dump s)
|}.

(** ** The library's documented behaviour

    The library stores strings and names of fewer than 2^30 bytes, indexes arrays
    with 32 bits, and its reader refuses text nested deeper than 1000. A [real] with
    an integral value is also an [isInt64]. *)
Definition cpp_limits : limits := {|
  lim_string s := Z.of_nat (String.length s) <? 2 ^ 30;
  lim_key s := Z.of_nat (String.length s) <? 2 ^ 30;
  lim_length n := Z.of_nat n <? 2 ^ 32;
  lim_float _ := true;
  lim_int _ := true;
  lim_depth n := Z.of_nat n <? 1000
|}.

#[global] Instance cpp_limits_ok : LimitsOk cpp_limits.
Proof.
  split; cbn.
  - unfold plain. intros s. rewrite andb_true_iff. lia.
  - unfold plain. intros s. rewrite andb_true_iff. lia.
  - lia.
  - done.
Qed.

Class CppJsonLaws (J : Type) `{CppJson J} := {
  cj_tree : J -> jtree;
  cj_is_bool_spec j : cj_is_bool j = match cj_tree j with JBool _ => true | _ => false end;
  cj_is_real_spec j : cj_is_real j = match cj_tree j with JFloat _ => true | _ => false end;
  cj_is_int64_int j z : cj_tree j = JInt z -> cj_is_int64 j = in_int64 z;
  cj_is_int64_other j : (forall z, cj_tree j <> JInt z) -> (forall x, cj_tree j <> JFloat x) ->
    cj_is_int64 j = false;
  cj_is_numeric_spec j : cj_is_numeric j = match cj_tree j with JInt _ | JFloat _ => true | _ => false end;
  cj_is_string_spec j : cj_is_string j = match cj_tree j with JString _ => true | _ => false end;
  cj_is_object_spec j : cj_is_object j = match cj_tree j with JObject _ => true | _ => false end;
  cj_is_array_spec j : cj_is_array j = match cj_tree j with JArray _ => true | _ => false end;
  cj_is_null_spec j : cj_is_null j = match cj_tree j with JNull => true | _ => false end;
  cj_as_bool_spec j b : cj_tree j = JBool b -> cj_as_bool j = b;
  cj_as_int64_spec j z : cj_tree j = JInt z -> in_int64 z = true -> cj_as_int64 j = z;
  cj_as_int64_range j : cj_is_int64 j = true -> in_int64 (cj_as_int64 j) = true;
  cj_as_double_spec j x : cj_tree j = JFloat x -> cj_as_double j = x;
  cj_as_string_spec j s : cj_tree j = JString s -> cj_as_string j = s;
  cj_size_spec j l : cj_tree j = JArray l -> cj_size j = length l;
  cj_entries_array j l : cj_tree j = JArray l -> cj_tree <$> (cj_entries j).*2 = l;
  cj_entries_object j o : cj_tree j = JObject o ->
    exists l, l ≡ₚ o /\ Forall2 (fun x y => x.1 = y.1 /\ cj_tree x.2 = y.2) (cj_entries j) l;
  cj_entries_scalar j : cj_is_array j = false -> cj_is_object j = false -> cj_entries j = [];
  cj_find_spec j o name : cj_tree j = JObject o -> cj_tree <$> cj_find j name = sm_lookup o name;
  cj_null_spec : cj_tree cj_null = JNull;
  cj_of_bool_spec b : cj_tree (cj_of_bool b) = JBool b;
  cj_of_int64_spec z : in_int64 z = true -> cj_tree (cj_of_int64 z) = JInt z;
  cj_of_double_spec x : cj_tree (cj_of_double x) = JFloat x;
  cj_of_string_spec s : lim_string cpp_limits s = true -> cj_tree (cj_of_string s) = JString s;
  cj_array_spec : cj_tree cj_array = JArray [];
  cj_object_spec : cj_tree cj_object = JObject [];
  cj_index_spec j l : cj_tree j = JArray l -> cj_tree (cj_index j (length l)) = JNull;
  cj_set_index_spec j l x : cj_tree j = JArray l ->
    cj_tree (cj_set_index j (length l) x) = JArray (l ++ [cj_tree x]);
  cj_member_spec j o name : cj_tree j = JObject o -> sm_lookup o name = None ->
    cj_tree (cj_member j name) = JNull;
  cj_set_member_spec j o name x : cj_tree j = JObject o -> lim_key cpp_limits name = true ->
    cj_tree (cj_set_member j name x) = JObject (sm_insert o name (cj_tree x));
  cj_remove_member_spec j o name : cj_tree j = JObject o ->
    cj_tree (cj_remove_member j name) = JObject (sm_delete o name);
  cj_parse_write j : canonical cpp_limits false (cj_tree j) = true -> printable (cj_tree j) = true ->
    lim_depth cpp_limits (jheight (cj_tree j)) = true ->
    cj_write j <> EmptyString /\ cj_tree <$> cj_parse (cj_write j) = Some (cj_tree j)
}.

(** ** The deserializer keeps its contract *)
Module JsonCppFacts.
Section DeserializerFacts.
Import JsonCppDeserializer.
Context {J : Type} {HJ : CppJson J} {HL : CppJsonLaws J}.

Definition doc_tree (j : J) : option jtree := Some (cj_tree j).

#[global] Instance JsonCpp_DeserializerView : DeserializerView (t J) := fun d => match d with Some j => doc_tree j | None => None end.

Lemma cpp_array_trees j l : cj_tree j = JArray l ->
  exists ds, array j = Some ds /\ Forall2 (fun d x => doc_tree d = Some x) ds l.
Proof.
  intros Hj. unfold array. rewrite cj_is_array_spec, Hj. eexists. split; [done|].
  rewrite <-(cj_entries_array j l Hj). apply Forall2_fmap_r. by apply Forall_Forall2_diag, Forall_true.
Qed.

Lemma cpp_items j o : cj_tree j = JObject o ->
  exists l, l ≡ₚ o /\ Forall2 (fun x y => x.1 = y.1 /\ doc_tree x.2 = Some y.2) (cj_entries j) l.
Proof.
  intros Hj. destruct (cj_entries_object j o Hj) as (l & Hl & HF). exists l. split; [done|].
  eapply Forall2_impl; [exact HF|]. unfold doc_tree. intros x y [-> ->]. done.
Qed.

Lemma cpp_any_loads fuel : loads_below doc_tree cpp_limits fuel (any fuel).
Proof.
  induction fuel as [|fuel IH]; intros j v cur Hj Hc Hf; [lia|]. injection Hj as Hj. cbn [any].
  rewrite cj_is_bool_spec, cj_is_real_spec, cj_is_string_spec, cj_is_object_spec, cj_is_array_spec,
    cj_is_null_spec, Hj.
  destruct v as [|b|z|x|s|l|o].
  - by rewrite cj_is_int64_other by by rewrite Hj.
  - by rewrite (cj_as_bool_spec _ _ Hj).
  - cbn in Hc. apply andb_true_iff in Hc as [Hc _].
    by rewrite (cj_is_int64_int _ _ Hj), Hc, (cj_as_int64_spec _ _ Hj).
  - by rewrite (cj_as_double_spec _ _ Hj).
  - rewrite cj_is_int64_other by by rewrite Hj. by rewrite (cj_as_string_spec _ _ Hj).
  - rewrite cj_is_int64_other by by rewrite Hj. destruct (cpp_array_trees j l Hj) as (ds & -> & HF).
    unfold count. rewrite (cj_size_spec _ _ Hj).
    by rewrite (array_any_loads doc_tree cpp_limits fuel) by (done || lia).
  - rewrite cj_is_int64_other by by rewrite Hj. destruct (cpp_items j o Hj) as (l & Hl & HF).
    by rewrite (object_loads doc_tree cpp_limits fuel (any fuel) o l) by (done || lia).
Qed.

#[global] Instance JsonCpp_DeserializerContract : DeserializerContract (t J) cpp_limits.
Proof.
  split.
  - apply _.
  - intros [j|]; [|done]. cbn. unfold boolean. rewrite cj_is_bool_spec.
    destruct (cj_tree j) eqn:E; try done. by rewrite (cj_as_bool_spec _ _ E).
  - intros [j|] x Hx _; [|done]. injection Hx as Hx. cbn. unfold string.
    by rewrite cj_is_string_spec, Hx, (cj_as_string_spec _ _ Hx).
  - intros [j|] Hno; [|done]. cbn. unfold string. rewrite cj_is_string_spec.
    destruct (cj_tree j) eqn:E; try done. destruct (Hno s). unfold des_tree, JsonCpp_DeserializerView, doc_tree.
    cbn. by rewrite E.
  - intros [j|] z Hz Hr; [|done]. injection Hz as Hz. cbn. unfold integer.
    by rewrite (cj_is_int64_int _ _ Hz), Hr, (cj_as_int64_spec _ _ Hz).
  - intros [j|] x Hx; [|done]. injection Hx as Hx. cbn. unfold number.
    by rewrite cj_is_numeric_spec, Hx, (cj_as_double_spec _ _ Hx).
  - intros fuel [j|] o Ho Hc Hf; [|done]. injection Ho as Ho. cbn [des_object JsonCpp_Deserializer]. unfold object.
    destruct (cpp_items j o Ho) as (l & Hl & HF).
    apply (object_loads doc_tree cpp_limits fuel _ o l); try done. apply cpp_any_loads.
  - intros fuel [j|] v cur; [|done]. apply cpp_any_loads.
  - intros [j|] l Hl; [|done]. injection Hl as Hl. cbn. unfold count. rewrite (cj_size_spec j l Hl). split; [done|].
    destruct (cpp_array_trees j l Hl) as (ds & -> & HF). exists (map Some ds).
    split; [done|]. by apply Forall2_fmap_l.
  - intros [j|] o name Ho _; [|done]. injection Ho as Ho. cbn. unfold field. rewrite cj_is_object_spec, Ho.
    pose proof (cj_find_spec j o name Ho) as Hfind. destruct (cj_find j name) as [x|]; cbn in Hfind.
    + exists (Some x). split; [done|]. by rewrite <-Hfind.
    + by exists None.
  - intros [j|] v name Hv Hno; [|done]. injection Hv as Hv. cbn. unfold field. rewrite cj_is_object_spec, Hv.
    destruct v; try by left. by destruct (Hno o).
  - by intros [j|].
  - by intros fuel [j|].
  - by intros fuel [j|].
  - intros [j|]; [done|]. split; [by eexists|done].
  - by intros [j|].
Qed.
(** *** Documents of any form *)
Lemma cpp_entries_below j x : x ∈ (cj_entries j).*2 -> (jheight (cj_tree x) < jheight (cj_tree j))%nat.
Proof.
  intros Hx. destruct (cj_tree j) as [| | | | |l|o] eqn:E.
  1-5: rewrite cj_entries_scalar in Hx by (by rewrite ?cj_is_array_spec, ?cj_is_object_spec, E);
    by apply elem_of_nil in Hx.
  - assert (Hin : cj_tree x ∈ cj_tree <$> (cj_entries j).*2) by by apply list_elem_of_fmap_2.
    rewrite (cj_entries_array j l E) in Hin. rewrite jheight_array. pose proof (jheights_elem _ l Hin). lia.
  - destruct (cj_entries_object j o E) as (l & Hl & HF).
    apply list_elem_of_fmap in Hx as (kx & -> & Hx). apply list_elem_of_lookup in Hx as [i Hi].
    destruct (Forall2_lookup_l _ _ _ _ _ HF Hi) as (y & Hy & _ & Hty).
    apply list_elem_of_lookup_2 in Hy. rewrite Hl in Hy. rewrite Hty, jheight_object.
    assert (jheight y.2 <= jheights o.*2)%nat; [|lia]. by apply jheights_elem, list_elem_of_fmap_2.
Qed.

Lemma cpp_array_below j ds : array j = Some ds ->
  cj_size j = length ds /\ Forall (fun x => jheight (cj_tree x) < jheight (cj_tree j))%nat ds.
Proof.
  unfold array. destruct (cj_is_array j) eqn:E; [|done]. intros [= <-]. split.
  - rewrite cj_is_array_spec in E. destruct (cj_tree j) as [| | | | |l|] eqn:Ej; try done.
    by rewrite (cj_size_spec j l Ej), <-(cj_entries_array j l Ej), length_fmap.
  - apply Forall_forall. intros x. apply cpp_entries_below.
Qed.

Lemma cpp_any_safe b env fuel j cur :
  (jheight (cj_tree j) < fuel)%nat -> has_type b env cur TAny = true ->
  safe (fun v => has_type b env v TAny = true) (any fuel j cur).
Proof.
  revert j cur. induction fuel as [|fuel IH]; intros j cur Hf Hcur; [lia|]. cbn [any].
  destruct (cj_is_bool j); [by apply safe_ret|]. destruct (cj_is_real j); [by apply safe_ret|].
  destruct (cj_is_int64 j) eqn:Ei; [by apply safe_ret, cj_as_int64_range|].
  destruct (cj_is_string j); [by apply safe_ret|].
  destruct (cj_is_object j).
  { eapply (safe_bind (fun m => has_type b env (VObject m) TObject = true)).
    - apply object_items_safe; [|done]. intros kx Hkx.
      pose proof (cpp_entries_below j kx.2 ltac:(by apply list_elem_of_fmap_2)). apply IH; [lia|done].
    - intros ok m Hm. destruct ok; by apply safe_ret. }
  destruct (cj_is_array j); [|destruct (cj_is_null j); by apply safe_ret].
  eapply (safe_bind (fun l => has_type b env (VArray l) (TArray TAny) = true)).
  - destruct (array j) as [ds|] eqn:Eds; [|by apply safe_ret]. destruct (cpp_array_below j ds Eds) as [Hn Hsub].
    eapply safe_impl; [apply (array_loop_safe (fun v => has_type b env v TAny = true))|].
    + intros d c Hd Hc. rewrite Forall_forall in Hsub. specialize (Hsub d Hd). apply IH; [lia|done].
    + rewrite length_replicate. unfold count. lia.
    + by apply Forall_replicate.
    + intros l. apply has_type_array.
  - intros ok l Hl. destruct ok; by apply safe_ret.
Qed.

#[global] Instance JsonCpp_DeserializerSafe : DeserializerSafe (t J).
Proof using HL.
  refine {| des_depth := (fun d : t J => match d with Some j => S (jheight (cj_tree j)) | None => 0%nat end) |}.
  - intros [j|] z; [|done]. cbn. unfold integer. case_match; [|done]. intros [= <-]. by apply cj_as_int64_range.
  - intros b env fuel [j|] cur Hf Hc; [|by apply safe_ret]. apply cpp_any_safe; [lia|done].
  - intros b env fuel [j|] m Hf Hm; [|by apply safe_ret]. apply object_items_safe; [|done]. intros kx Hkx.
    apply cpp_any_safe; [|done]. pose proof (cpp_entries_below j kx.2 ltac:(by apply list_elem_of_fmap_2)). lia.
  - intros d. by eexists.
  - intros [j|] ds; [|done]. cbn. destruct (array j) as [l|] eqn:E; [|done]. intros [= <-].
    destruct (cpp_array_below j l E) as [Hn Hsub]. rewrite length_map. split; [unfold count; by rewrite Hn|].
    apply Forall_fmap. eapply Forall_impl; [exact Hsub|]. cbn. lia.
  - intros [j|] name d'; [|done]. cbn. unfold field. rewrite cj_is_object_spec.
    destruct (cj_tree j) as [| | | | | |o] eqn:E; try done.
    pose proof (cj_find_spec j o name E) as Hf. destruct (cj_find j name) as [x|]; intros [= <-]; [|lia].
    symmetry in Hf. cbn in Hf. apply sm_lookup_elem in Hf. rewrite jheight_object.
    assert (jheight (cj_tree x) <= jheights o.*2)%nat; [|lia].
    apply jheights_elem, list_elem_of_fmap. by exists (name, cj_tree x).
Defined.
End DeserializerFacts.

(** ** The serializer keeps its contract *)
Section SerializerFacts.
Import JsonCppSerializer.
Context {J : Type} {HJ : CppJson J} {HL : CppJsonLaws J}.

#[global] Instance JsonCpp_SerializerView : SerializerView (t J) J := {|
  ser_content s := doc_tree s.(json);
  ser_removed s := s.(removed);
  fs_content j := match cj_tree j with JObject o => Some o | _ => None end
|}.

Lemma cpp_stored j v s : blank_ser s -> cj_tree j = v -> stored false v (Ret (true, assign j s)).
Proof. intros [_ Hr] <-. by exists (assign j s). Qed.

Lemma cpp_view (s : t J) : ser_content s = doc_tree (json s).
Proof. done. Qed.

Lemma cpp_on j : doc_tree j = Some JNull -> fresh_ser (on j).
Proof. done. Qed.

Lemma cpp_member_law j o k : doc_tree j = Some (JObject o) -> lim_key cpp_limits k = true ->
  sm_lookup o k = None ->
  doc_tree (cj_member j k) = Some JNull /\
  forall x v, doc_tree x = Some v -> doc_tree (cj_set_member j k x) = Some (JObject (sm_insert o k v)).
Proof.
  unfold doc_tree. intros [= Hj] Hk Ho. split; [by rewrite (cj_member_spec j o k Hj Ho)|].
  intros x v [= <-]. by rewrite (cj_set_member_spec j o k x Hj Hk).
Qed.

(** Below 2^32 elements the index does not wrap. *)
Lemma ArrayIndex_small i : Z.of_nat i < 2 ^ 32 -> ArrayIndex i = i.
Proof. intros Hi. unfold ArrayIndex. rewrite u32_small by lia. lia. Qed.

#[global] Instance JsonCpp_SerializerContract : SerializerContract (t J) J cpp_limits.
Proof.
  split.
  - apply _.
  - intros b s Hs. by apply cpp_stored, cj_of_bool_spec.
  - intros z s Hs Hz. by apply cpp_stored, cj_of_int64_spec.
  - intros x s Hs. by apply cpp_stored, cj_of_double_spec.
  - intros x s Hs Hx. by apply cpp_stored, cj_of_string_spec.
  - intros rec m o s Hs Hsort HF.
    assert (Hempty : doc_tree (if cj_is_object (json s) then json s else cj_object) = Some (JObject [])).
    { rewrite cj_is_object_spec. destruct Hs as [[[= Hs]|[= Hs]] _]; rewrite Hs.
      - unfold doc_tree. by rewrite cj_object_spec.
      - unfold doc_tree. by rewrite Hs. }
    destruct (object_members_object doc_tree on json (fun _ j => j) cj_member cj_set_member (lim_key cpp_limits)
      cpp_view cpp_on cpp_member_law rec m o _ Hempty Hsort HF) as (j' & Hl & [= Hj']).
    cbn. unfold object. rewrite Hl. by apply cpp_stored.
  - intros rec s Hs. exists s. cbn. split; [done|]. by destruct Hs.
  - intros rec u v j s Hs Hu Hst. cbn.
    by destruct u, v; try discriminate Hu; unfold any, any_cases; cbn;
      repeat rewrite bool_decide_eq_false_2 by done.
  - intros cbs js s Hs Hlen HF. cbn in Hlen.
    destruct (array_elements_stores doc_tree on json (fun j i => cj_index j (ArrayIndex i))
      (fun j i => cj_set_index j (ArrayIndex i)) cpp_view cpp_on
      (fun l rest j => doc_tree j = Some (JArray l) /\ Z.of_nat (length l + length rest) < 2 ^ 32)
      cbs js [] cj_array) as (j' & Hl & [= Hj'] & _).
    + intros l v rest j [[= Hj] Hn]. cbn in Hn. rewrite ArrayIndex_small by lia. unfold doc_tree.
      split; [by rewrite (cj_index_spec j l Hj)|]. intros x [= <-].
      rewrite (cj_set_index_spec j l x Hj), length_app. cbn. split; [done|lia].
    + split; [unfold doc_tree; by rewrite cj_array_spec|cbn; lia].
    + done.
    + cbn in Hl |- *. unfold array. rewrite Hl. by apply cpp_stored.
  - intros s Hs. exists cj_object. cbn. rewrite cj_object_spec. split; [done|].
    intros cb f' o Hcb Ho. unfold struct_. rewrite Hcb. apply cpp_stored; [done|].
    by destruct (cj_tree f'); simplify_eq.
  - intros s [Hc Hr]. by exists (remove s).
  - intros name cb r v f o Hf Ho Hk Hcb. cbn in Hf. destruct (cj_tree f) eqn:Ef; simplify_eq.
    destruct (field_member_stores doc_tree on json removed (fun _ j => j) cj_member cj_set_member
      (lim_key cpp_limits) cpp_view cpp_on cpp_member_law cj_remove_member name cb r v f o)
      as (f' & Hf' & [= Ht']); try done.
    + intros j o' n w [= Hj] _ Hn. unfold doc_tree. by rewrite (cj_remove_member_spec _ _ n Hj), sm_delete_insert.
    + unfold doc_tree. by rewrite Ef.
    + exists f'. cbn. by rewrite Ht'.
Qed.

Lemma cpp_new_fresh : fresh_ser (create : t J).
Proof using HL. split; [|done]. cbn. unfold doc_tree. by rewrite cj_null_spec. Qed.

#[global] Instance JsonCpp_JsonBackendContract :
  JsonBackendContract (JsonCppDeserializer.t J) (t J) J cpp_limits.
Proof.
  split; [apply _..| |].
  - apply fresh_blank, cpp_new_fresh.
  - intros ser v [= <-] Hc Hp Hd. destruct (cj_parse_write _ Hc Hp Hd) as (Hne & Hparse).
    apply fmap_Some_1 in Hparse as (j & Hj & Ht). exists (dump ser), (Some j).
    cbn. unfold JsonCppDeserializer.create, JsonCppDeserializer.parse, dump. rewrite Hj.
    split_and!; try done. cbn. unfold doc_tree. by rewrite Ht.
Qed.
End SerializerFacts.
End JsonCppFacts.
