(* ===== verification/RapidJson.v ===== *)
(** * The RapidJSON backend

    Models [src/rapid_json_serializer.cpp]. The library is not part of the
    repository: the operations of [rapidjson::Value] the code uses are the class
    [RapidJson], their documented behaviour the class [RapidJsonLaws]. A call the
    library asserts against ([Size()] of what is no array, [MemberCount()] of what is
    no object) is [Undefined]. The code passes names and reads strings as C strings,
    reads only 32-bit integers into an [any], and parses doubles in the library's
    normal precision; [rapid_limits] says what it therefore carries, and within these
    limits the two classes keep the contracts of [Json]. *)
From Stdlib Require Import Ascii ZArith Lia.
From stdpp Require Import base list strings.
From S2P Require Import Prelude SMap Types Serialization Json Backend.

(** [std::string::c_str()], and a [std::string] made from a [const char] pointer. *)
Definition c_str (s : string) : string := string_of (cstr (bytes_of s)).

Definition no_nul (s : string) : bool := forallb (fun c => negb (bool_decide (c = NUL))) (bytes_of s).

Lemma c_str_id s : no_nul s = true -> c_str s = s.
Proof.
  intros Hs. unfold c_str. rewrite cstr_id; [apply string_of_bytes_of|].
  unfold no_nul in Hs. rewrite forallb_forall in Hs. intros Hin%list_elem_of_In.
  specialize (Hs _ Hin). by rewrite bool_decide_eq_true_2 in Hs.
Qed.

(** ** The library's operations

    Names and strings are C strings where the code passes them so. [rj_text]: the
    bytes of a string value; [rj_members]: the members from [MemberBegin()] to
    [MemberEnd()]; [rj_add_member j k]: [AddMember] with a null value;
    [rj_member]/[rj_set_member] and [rj_index]/[rj_set_index] read and write through
    the references of [operator\[\]]; [rj_write]: what [Accept] gives a
    [PrettyWriter]. *)
Class RapidJson (J : Type) := {
  rj_null : J;
  rj_object : J;
  rj_array : J;
  rj_parse : string -> J;
  rj_write : J -> string;
  rj_is_bool : J -> bool;
  rj_is_int : J -> bool;
  rj_is_uint : J -> bool;
  rj_is_int64 : J -> bool;
  rj_is_uint64 : J -> bool;
  rj_is_double : J -> bool;
  rj_is_number : J -> bool;
  rj_is_string : J -> bool;
  rj_is_null : J -> bool;
  rj_is_object : J -> bool;
  rj_is_array : J -> bool;
  rj_get_bool : J -> bool;
  rj_get_int : J -> Z;
  rj_get_uint : J -> Z;
  rj_get_int64 : J -> Z;
  rj_get_uint64 : J -> Z;
  rj_get_double : J -> double;
  rj_text : J -> string;
  rj_members : J -> list (string * J);
  rj_size : J -> nat;
  rj_find_member : J -> string -> option J;
  rj_of_bool : bool -> J;
  rj_of_int64 : Z -> J;
  rj_of_double : double -> J;
  rj_of_string : string -> J;
  rj_has_member : J -> string -> bool;
  rj_add_member : J -> string -> J;
  rj_member : J -> string -> J;
  rj_set_member : J -> string -> J -> J;
  rj_remove_member : J -> string -> J;
  rj_push_back_null : J -> J;
  rj_index : J -> nat -> J;
  rj_set_index : J -> nat -> J -> J
}.

(** ** [RapidDeserializer] *)
Module RapidDeserializer.
Section Deserializer.
Context {J : Type} `{RapidJson J}.

(** A [Deserializer*] of this backend: [None] is [NullDeserializer::instance]. *)
Definition t : Type := option J.

Definition create (str : string) : t := Some (rj_parse (c_str str)).

(** [GetString()]: the terminating NUL is all that bounds it. *)
Definition get_string (j : J) : string := c_str (rj_text j).

Definition boolean (j : J) : option bool :=
  if rj_is_bool j then Some (rj_get_bool j) else None.

Definition integer (j : J) : option Z :=
  if rj_is_int j then Some (rj_get_int j)
  else if rj_is_uint j then Some (rj_get_uint j)
  else if rj_is_int64 j then Some (rj_get_int64 j)
  else if rj_is_uint64 j then Some (s64 (rj_get_uint64 j))
  else None.

Definition number (j : J) : option double :=
  if rj_is_number j then Some (rj_get_double j) else None.

Definition string (j : J) : option string :=
  if rj_is_string j then Some (get_string j) else None.

(** [count()]: [Size()] asserts that the value is an array. *)
Definition count (j : J) : outcome nat := if rj_is_array j then Ret (rj_size j) else Undefined.

Definition array (j : J) : option (list J) :=
  if rj_is_array j then Some (rj_index j <$> seq 0 (rj_size j)) else None.

(** [deserialize(object)]: [MemberCount()] and the iterators assert an object. *)
Definition members (j : J) : outcome (list (String.string * J)) :=
  if rj_is_object j then Ret (map (fun m => (c_str m.1, m.2)) (rj_members j)) else Undefined.

(** [deserialize(any)], with [deserialize(object)] and [deserialize(array<any>)]
    for the nested values. *)
Fixpoint any (fuel : nat) (j : J) (v : value) : outcome (bool * value) :=
  match fuel with
  | O => OutOfFuel
  | S fuel =>
    if rj_is_bool j then Ret (true, VAny TBoolean (VBoolean (rj_get_bool j)))
    else if rj_is_double j then Ret (true, VAny TNumber (VNumber (rj_get_double j)))
    else if rj_is_int j then Ret (true, VAny TInteger (VInteger (rj_get_int j)))
    else if rj_is_string j then Ret (true, VAny TString (VString (get_string j)))
    else if rj_is_null j then Ret (true, VAnyEmpty)
    else if rj_is_object j then
      ms ← members j;
      '(ok, obj) ← object_items (any fuel) ms [];
      Ret (if (ok : bool) then (true, VAny TObject (VObject obj)) else (false, v))
    else if rj_is_array j then
      n ← count j;
      '(ok, arr) ← match array j with
                   | None => Ret (false, [])
                   | Some ds => array_loop (any fuel) ds 0 (replicate n VAnyEmpty)
                   end;
      Ret (if (ok : bool) then (true, VAny (TArray TAny) (VArray arr)) else (false, v))
    else Ret (false, v)
  end.

Definition object (fuel : nat) (j : J) (v : smap value) : outcome (bool * smap value) :=
  ms ← members j;
  object_items (any fuel) ms v.

(** [field(name, cb)]: what [cb] is called with. *)
Definition field (j : J) (name : String.string) : option t :=
  if rj_is_object j then
    match rj_find_member j (c_str name) with
    | None => Some None
    | Some value => Some (Some value)
    end
  else None.

#[global] Instance Rapid_Deserializer : Deserializer t := {|
  des_boolean d := match d with Some j => boolean j | None => None end;
  des_integer d := match d with Some j => integer j | None => None end;
  des_number d := match d with Some j => number j | None => None end;
  des_string d := match d with Some j => string j | None => None end;
  des_object fuel d m := match d with Some j => object fuel j m | None => Ret (false, m) end;
  des_any fuel d v := match d with Some j => any fuel j v | None => Ret (false, v) end;
  des_count d := match d with Some j => count j | None => Ret 0%nat end;
  des_array d := match d with Some j => option_map (map Some) (array j) | None => None end;
  des_field d name := match d with Some j => field j name | None => None end
|}.
End Deserializer.
Arguments t : clear implicits.
#[global] Typeclasses Opaque t.
End RapidDeserializer.

(** ** [RapidSerializer] *)
Module RapidSerializer.
Section Serializer.
Context {J : Type} `{RapidJson J}.

(** The value the serializer points to, and its [removed] flag. *)
Record t := { json : J; removed : bool }.

(** A new document is an object, not a null. *)
Definition create : t := {| json := rj_object; removed := false |}.

(** [RapidSerializer s(&member, allocator)]. *)
Definition on (slot : J) : t := {| json := slot; removed := false |}.

Definition dump (s : t) : string := c_str (rj_write s.(json)).

(** A setter: the value becomes [j]. *)
Definition assign (j : J) (s : t) : t := {| json := j; removed := s.(removed) |}.

(** [SetString(data, uint32_t(length))]. *)
Definition string_value (v : string) : J :=
  rj_of_string (string_of (take (Z.to_nat (u32 (size_of (bytes_of v)))) (bytes_of v))).

Definition boolean (v : bool) (s : t) : outcome (bool * t) := Ret (true, assign (rj_of_bool v) s).
Definition integer (v : Z) (s : t) : outcome (bool * t) := Ret (true, assign (rj_of_int64 v) s).
Definition number (v : double) (s : t) : outcome (bool * t) := Ret (true, assign (rj_of_double v) s).
Definition string (v : string) (s : t) : outcome (bool * t) := Ret (true, assign (string_value v) s).

(** A member under a C string, added with a null value when it is not there. *)
Definition prepare (name : String.string) (j : J) : J :=
  if rj_has_member j (c_str name) then j else rj_add_member j (c_str name).

Definition member (j : J) (name : String.string) : J := rj_member j (c_str name).
Definition set_member (j : J) (name : String.string) (x : J) : J := rj_set_member j (c_str name) x.
Definition remove_member (j : J) (name : String.string) : J := rj_remove_member j (c_str name).

(** [serialize(const dap::object&)]. *)
Definition object (rec : serialize_fn t) (v : smap value) (s : t) : outcome (bool * t) :=
  let j := if rj_is_object s.(json) then s.(json) else rj_object in
  '(ok, j) ← object_members on json prepare member set_member rec v j;
  Ret (ok, assign j s).

(** [serialize(const dap::any&)]. *)
Definition any (rec : serialize_fn t) (v : value) (s : t) : outcome (bool * t) :=
  any_cases (fun b => assign (rj_of_bool b)) (fun z => assign (rj_of_int64 z))
    (fun x => assign (rj_of_double x)) (fun x => assign (string_value x)) (object rec) rec v s.

Fixpoint push_nulls (n : nat) (j : J) : J :=
  match n with O => j | S n => push_nulls n (rj_push_back_null j) end.

(** [array(count, cb)]: elements are added until [Size()] is [count]; a count the
    32-bit size does not reach is outside the model. *)
Definition array (cbs : list (t -> outcome (bool * t))) (s : t) : outcome (bool * t) :=
  let j := if rj_is_array s.(json) then s.(json) else rj_array in
  if 2 ^ 32 <=? size_of cbs then Undefined
  else
    '(ok, j) ← array_elements on json rj_index rj_set_index cbs 0 (push_nulls (length cbs - rj_size j) j);
    Ret (ok, assign j s).

(** [FS::field]. *)
Definition field (name : String.string) (cb : t -> outcome (bool * t)) (j : J) : outcome (bool * J) :=
  field_member on json prepare member set_member removed remove_member name cb j.

(** [object(cb)]. *)
Definition struct_ (cb : J -> outcome (bool * J)) (s : t) : outcome (bool * t) :=
  '(ok, j) ← cb (if rj_is_object s.(json) then s.(json) else rj_object);
  Ret (ok, assign j s).

Definition remove (s : t) : t := {| json := s.(json); removed := true |}.

#[global] Instance Rapid_Serializer : Serializer t J := {|
  ser_boolean := boolean;
  ser_integer := integer;
  ser_number := number;
  ser_string := string;
  ser_object := object;
  ser_any := any;
  ser_array := array;
  ser_struct := struct_;
  ser_remove := remove;
  fs_field := field
|}.
End Serializer.
Arguments t : clear implicits.
End RapidSerializer.

#[global] Instance Rapid_JsonBackend {J} `{RapidJson J} :
  JsonBackend (RapidDeserializer.t J) (RapidSerializer.t J) J := {|
  json_parse text := Ret (RapidDeserializer.create text);
  json_new := RapidSerializer.create;
  json_dump s := Ret (RapidSerializer.dump s)
|}.

(** ** The library's documented behaviour

    [rj_tree]: the document a value holds, its members in the order of [smap], those
    of one name in the order the value has them. The sizes are 32-bit, and a name or
    a string the code passes or reads as a C string holds no NUL; an integer is in an
    [any] only when [IsInt()]; [rj_exact]: the doubles that normal precision, which
    the parser uses by default, reads back exactly. *)
Definition in_int32 (z : Z) : bool := (- 2 ^ 31 <=? z) && (z <? 2 ^ 31).

Definition rapid_limits (exact : double -> bool) : limits := {|
  lim_string s := no_nul s && (Z.of_nat (String.length s) <? 2 ^ 32);
  lim_key := no_nul;
  lim_length n := Z.of_nat n <? 2 ^ 32;
  lim_float := exact;
  lim_int := in_int32;
  lim_depth _ := true
|}.

#[global] Instance rapid_limits_ok exact : LimitsOk (rapid_limits exact).
Proof. split; cbn; [unfold plain; intros s; rewrite !andb_true_iff; split; [tauto|lia]|..]; try done.
  unfold plain. intros s. rewrite andb_true_iff. tauto.
Qed.

Class RapidJsonLaws (J : Type) `{RapidJson J} := {
  rj_tree : J -> jtree;
  rj_exact : double -> bool;
  rj_is_bool_spec j : rj_is_bool j = match rj_tree j with JBool _ => true | _ => false end;
  rj_is_int_spec j : rj_is_int j = match rj_tree j with JInt z => in_int32 z | _ => false end;
  rj_is_uint_spec j : rj_is_uint j = match rj_tree j with JInt z => (0 <=? z) && (z <? 2 ^ 32) | _ => false end;
  rj_is_int64_spec j : rj_is_int64 j = match rj_tree j with JInt z => in_int64 z | _ => false end;
  rj_is_uint64_spec j : rj_is_uint64 j = match rj_tree j with JInt z => (0 <=? z) && (z <? 2 ^ 64) | _ => false end;
  rj_is_double_spec j : rj_is_double j = match rj_tree j with JFloat _ => true | _ => false end;
  rj_is_number_spec j : rj_is_number j = match rj_tree j with JInt _ | JFloat _ => true | _ => false end;
  rj_is_string_spec j : rj_is_string j = match rj_tree j with JString _ => true | _ => false end;
  rj_is_null_spec j : rj_is_null j = match rj_tree j with JNull => true | _ => false end;
  rj_is_object_spec j : rj_is_object j = match rj_tree j with JObject _ => true | _ => false end;
  rj_is_array_spec j : rj_is_array j = match rj_tree j with JArray _ => true | _ => false end;
  rj_get_bool_spec j b : rj_tree j = JBool b -> rj_get_bool j = b;
  rj_get_int_spec j z : rj_tree j = JInt z -> rj_is_int j = true -> rj_get_int j = z;
  rj_get_uint_spec j z : rj_tree j = JInt z -> rj_is_uint j = true -> rj_get_uint j = z;
  rj_get_int64_spec j z : rj_tree j = JInt z -> rj_is_int64 j = true -> rj_get_int64 j = z;
  rj_get_uint64_spec j z : rj_tree j = JInt z -> rj_is_uint64 j = true -> rj_get_uint64 j = z;
  rj_get_double_spec j x : rj_tree j = JFloat x -> rj_get_double j = x;
  rj_text_spec j s : rj_tree j = JString s -> rj_text j = s;
  rj_members_spec j o : rj_tree j = JObject o ->
    exists l, l ≡ₚ o /\ Forall2 (fun x y => x.1 = y.1 /\ rj_tree x.2 = y.2) (rj_members j) l;
  rj_size_spec j l : rj_tree j = JArray l -> rj_size j = length l;
  rj_find_member_spec j o name : rj_tree j = JObject o -> no_nul name = true ->
    rj_tree <$> rj_find_member j name = sm_lookup o name;
  rj_null_spec : rj_tree rj_null = JNull;
  rj_object_spec : rj_tree rj_object = JObject [];
  rj_array_spec : rj_tree rj_array = JArray [];
  rj_of_bool_spec b : rj_tree (rj_of_bool b) = JBool b;
  rj_of_int64_spec z : in_int64 z = true -> rj_tree (rj_of_int64 z) = JInt z;
  rj_of_double_spec x : rj_tree (rj_of_double x) = JFloat x;
  rj_of_string_spec s : Z.of_nat (String.length s) < 2 ^ 32 -> rj_tree (rj_of_string s) = JString s;
  rj_has_member_spec j o name : rj_tree j = JObject o -> no_nul name = true ->
    rj_has_member j name = bool_decide (is_Some (sm_lookup o name));
  rj_add_member_spec j o name : rj_tree j = JObject o -> no_nul name = true -> sm_lookup o name = None ->
    rj_tree (rj_add_member j name) = JObject (sm_insert o name JNull);
  rj_member_spec j o name v : rj_tree j = JObject o -> no_nul name = true -> sm_lookup o name = Some v ->
    rj_tree (rj_member j name) = v;
  rj_set_member_spec j o name v x : rj_tree j = JObject o -> no_nul name = true -> sm_lookup o name = Some v ->
    rj_tree (rj_set_member j name x) = JObject (sm_insert o name (rj_tree x));
  rj_remove_member_spec j o name : rj_tree j = JObject o -> no_nul name = true ->
    rj_tree (rj_remove_member j name) = JObject (sm_delete o name);
  rj_push_back_null_spec j l : rj_tree j = JArray l -> Z.of_nat (length l) + 1 < 2 ^ 32 ->
    rj_tree (rj_push_back_null j) = JArray (l ++ [JNull]);
  rj_index_spec j l i v : rj_tree j = JArray l -> l !! i = Some v -> rj_tree (rj_index j i) = v;
  rj_set_index_spec j l i x : rj_tree j = JArray l -> (i < length l)%nat ->
    rj_tree (rj_set_index j i x) = JArray (<[i := rj_tree x]> l);
  rj_parse_write j : canonical (rapid_limits rj_exact) false (rj_tree j) = true -> printable (rj_tree j) = true ->
    rj_write j <> EmptyString /\ no_nul (rj_write j) = true /\ rj_tree (rj_parse (rj_write j)) = rj_tree j
}.

(** ** The deserializer keeps its contract *)
Module RapidFacts.
Section DeserializerFacts.
Import RapidDeserializer.
Context {J : Type} {HJ : RapidJson J} {HL : RapidJsonLaws J}.
Notation L := (rapid_limits rj_exact).

Definition doc_tree (j : J) : option jtree := Some (rj_tree j).

#[global] Instance Rapid_DeserializerView : DeserializerView (t J) := fun d => match d with Some j => doc_tree j | None => None end.

Lemma rapid_array_trees j l : rj_tree j = JArray l ->
  exists ds, array j = Some ds /\ Forall2 (fun d x => doc_tree d = Some x) ds l.
Proof.
  intros Hj. unfold array. rewrite rj_is_array_spec, Hj, (rj_size_spec j l Hj). eexists. split; [done|].
  apply Forall2_same_length_lookup_2; [by rewrite length_fmap, length_seq|].
  intros i d x Hd Hx. apply list_lookup_fmap_Some in Hd as (k & -> & Hk).
  apply lookup_seq in Hk as [-> _]. cbn. unfold doc_tree. by rewrite (rj_index_spec j l i x Hj Hx).
Qed.

(** Members with names of no NUL are all there under their names. *)
Lemma rapid_items j o dyn : rj_tree j = JObject o -> canonical L dyn (JObject o) = true ->
  exists items l, members j = Ret items /\ l ≡ₚ o /\
    Forall2 (fun x y => x.1 = y.1 /\ doc_tree x.2 = Some y.2) items l.
Proof.
  intros Hj Hc. destruct (rj_members_spec j o Hj) as (l & Hl & HF).
  unfold members. rewrite rj_is_object_spec, Hj. eexists _, l. split; [done|]. split; [done|].
  cbn in Hc. apply andb_true_iff in Hc as [_ Hc]. rewrite forallb_forall in Hc.
  assert (Hnames : Forall (fun y => no_nul y.1 = true) l).
  { apply Forall_forall. intros y Hy. rewrite Hl in Hy. apply list_elem_of_In in Hy.
    specialize (Hc _ Hy). by apply andb_true_iff in Hc as [Hc _]. }
  apply Forall2_fmap_l. clear Hl Hc. induction HF as [|x y ms l [Hk Hx] _ IH]; constructor.
  - inversion_clear Hnames. cbn. rewrite Hk, c_str_id by done. split; [done|]. unfold doc_tree. by rewrite Hx.
  - inversion_clear Hnames. by apply IH.
Qed.

Lemma rapid_get_string j s : rj_tree j = JString s -> lim_string L s = true -> get_string j = s.
Proof.
  intros Hj Hs. cbn in Hs. apply andb_true_iff in Hs as [Hs _].
  unfold get_string. by rewrite (rj_text_spec j s Hj), c_str_id.
Qed.

Lemma rapid_any_loads fuel : loads_below doc_tree L fuel (any fuel).
Proof.
  induction fuel as [|fuel IH]; intros j v cur Hj Hc Hf; [lia|]. injection Hj as Hj. cbn [any].
  rewrite rj_is_bool_spec, rj_is_double_spec, rj_is_int_spec, rj_is_string_spec, rj_is_object_spec,
    rj_is_array_spec, rj_is_null_spec, Hj.
  destruct v as [|b|z|x|s|l|o].
  - done.
  - by rewrite (rj_get_bool_spec _ _ Hj).
  - cbn in Hc. apply andb_true_iff in Hc as [_ Hc]. rewrite Hc.
    by rewrite (rj_get_int_spec _ _ Hj) by by rewrite rj_is_int_spec, Hj.
  - by rewrite (rj_get_double_spec _ _ Hj).
  - by rewrite (rapid_get_string j s Hj Hc).
  - destruct (rapid_array_trees j l Hj) as (ds & -> & HF).
    unfold count. rewrite rj_is_array_spec, Hj, (rj_size_spec _ _ Hj). cbn.
    by rewrite (array_any_loads doc_tree L fuel) by (done || lia).
  - destruct (rapid_items j o true Hj Hc) as (items & l & -> & Hl & HF). cbn.
    by rewrite (object_loads doc_tree L fuel (any fuel) o l) by (done || lia).
Qed.

Lemma rapid_integer j z : rj_tree j = JInt z -> in_int64 z = true -> integer j = Some z.
Proof.
  intros Hj Hz. unfold integer.
  destruct (rj_is_int j) eqn:E1; [by rewrite (rj_get_int_spec j z)|].
  destruct (rj_is_uint j) eqn:E2; [by rewrite (rj_get_uint_spec j z)|].
  assert (E3 : rj_is_int64 j = true) by by rewrite rj_is_int64_spec, Hj.
  by rewrite E3, (rj_get_int64_spec j z).
Qed.

#[global] Instance Rapid_DeserializerContract : DeserializerContract (t J) L.
Proof.
  split.
  - apply _.
  - intros [j|]; [|done]. cbn. unfold boolean. rewrite rj_is_bool_spec.
    destruct (rj_tree j) eqn:E; try done. by rewrite (rj_get_bool_spec _ _ E).
  - intros [j|] x Hx Hs; [|done]. injection Hx as Hx. cbn. unfold string.
    by rewrite rj_is_string_spec, Hx, (rapid_get_string _ _ Hx Hs).
  - intros [j|] Hno; [|done]. cbn. unfold string. rewrite rj_is_string_spec.
    destruct (rj_tree j) eqn:E; try done. destruct (Hno s). unfold des_tree, Rapid_DeserializerView, doc_tree.
    cbn. by rewrite E.
  - intros [j|] z Hz Hr; [|done]. injection Hz as Hz. by apply rapid_integer.
  - intros [j|] x Hx; [|done]. injection Hx as Hx. cbn. unfold number.
    by rewrite rj_is_number_spec, Hx, (rj_get_double_spec _ _ Hx).
  - intros fuel [j|] o Ho Hc Hf; [|done]. injection Ho as Ho. cbn [des_object Rapid_Deserializer]. unfold object.
    destruct (rapid_items j o true Ho Hc) as (items & l & -> & Hl & HF).
    apply (object_loads doc_tree L fuel _ o l); try done. apply rapid_any_loads.
  - intros fuel [j|] v cur; [|done]. apply rapid_any_loads.
  - intros [j|] l Hl; [|done]. injection Hl as Hl. cbn. unfold count.
    rewrite rj_is_array_spec, Hl, (rj_size_spec j l Hl). split; [done|].
    destruct (rapid_array_trees j l Hl) as (ds & -> & HF). exists (map Some ds).
    split; [done|]. by apply Forall2_fmap_l.
  - intros [j|] o name Ho Hk; [|done]. injection Ho as Ho. cbn. unfold field. rewrite rj_is_object_spec, Ho.
    rewrite c_str_id by done.
    pose proof (rj_find_member_spec j o name Ho Hk) as Hfind. destruct (rj_find_member j name) as [x|]; cbn in Hfind.
    + exists (Some x). split; [done|]. by rewrite <-Hfind.
    + by exists None.
  - intros [j|] v name Hv Hno; [|done]. injection Hv as Hv. cbn. unfold field. rewrite rj_is_object_spec, Hv.
    destruct v; try by left. by destruct (Hno o).
  - by intros [j|].
  - by intros fuel [j|].
  - by intros fuel [j|].
  - intros [j|]; [done|]. split; [by eexists|done].
  - by intros [j|].
Qed.
End DeserializerFacts.

(** ** The serializer keeps its contract *)
Section SerializerFacts.
Import RapidSerializer.
Context {J : Type} {HJ : RapidJson J} {HL : RapidJsonLaws J}.
Notation L := (rapid_limits rj_exact).

#[global] Instance Rapid_SerializerView : SerializerView (t J) J := {|
  ser_content s := doc_tree s.(json);
  ser_removed s := s.(removed);
  fs_content j := match rj_tree j with JObject o => Some o | _ => None end
|}.

Lemma rapid_stored j v s : blank_ser s -> rj_tree j = v -> stored false v (Ret (true, assign j s)).
Proof. intros [_ Hr] <-. by exists (assign j s). Qed.

Lemma rapid_view (s : t J) : ser_content s = doc_tree (json s).
Proof. done. Qed.

Lemma rapid_on j : doc_tree j = Some JNull -> fresh_ser (on j).
Proof. done. Qed.

Lemma rapid_string_value s : lim_string L s = true -> rj_tree (string_value s) = JString s.
Proof.
  intros [_ Hs]%andb_true_iff. unfold string_value, size_of. rewrite length_bytes_of, u32_small, Nat2Z.id by lia.
  rewrite <-length_bytes_of, firstn_all, string_of_bytes_of. apply rj_of_string_spec. lia.
Qed.

Lemma rapid_member_law j o k : doc_tree j = Some (JObject o) -> lim_key L k = true ->
  sm_lookup o k = None ->
  doc_tree (member (prepare k j) k) = Some JNull /\
  forall x v, doc_tree x = Some v -> doc_tree (set_member (prepare k j) k x) = Some (JObject (sm_insert o k v)).
Proof.
  unfold doc_tree, prepare, member, set_member. intros [= Hj] Hk Ho. rewrite !c_str_id by done.
  rewrite (rj_has_member_spec j o k Hj Hk), Ho, bool_decide_eq_false_2 by by intros [].
  pose proof (rj_add_member_spec j o k Hj Hk Ho) as Hadd. split.
  - by rewrite (rj_member_spec _ _ k JNull Hadd Hk (sm_lookup_insert_eq _ _ _)).
  - intros x v [= <-].
    by rewrite (rj_set_member_spec _ _ k JNull x Hadd Hk (sm_lookup_insert_eq _ _ _)), sm_insert_insert.
Qed.

Lemma push_nulls_tree n j l : rj_tree j = JArray l -> Z.of_nat (n + length l) < 2 ^ 32 ->
  rj_tree (push_nulls n j) = JArray (l ++ replicate n JNull).
Proof.
  revert j l. induction n as [|n IH]; intros j l Hj Hn; cbn [push_nulls replicate]; [by rewrite app_nil_r|].
  rewrite (IH _ (l ++ [JNull])), <-app_assoc; [done| |].
  - apply rj_push_back_null_spec; [done|lia].
  - rewrite length_app. cbn. lia.
Qed.

(** What [SetObject()] and [SetArray()] leave of a blank value. *)
Lemma rapid_blank_object (s : t J) : blank_ser s ->
  doc_tree (if rj_is_object (json s) then json s else rj_object) = Some (JObject []).
Proof.
  rewrite rj_is_object_spec. unfold doc_tree. intros [[[= Hs]|[= Hs]] _]; rewrite Hs; [by rewrite rj_object_spec|].
  by rewrite Hs.
Qed.

Lemma rapid_blank_array (s : t J) : blank_ser s -> rj_is_array (json s) = false.
Proof. rewrite rj_is_array_spec. by intros [[[= ->]|[= ->]] _]. Qed.

#[global] Instance Rapid_SerializerContract : SerializerContract (t J) J L.
Proof.
  split.
  - apply _.
  - intros b s Hs. by apply rapid_stored, rj_of_bool_spec.
  - intros z s Hs Hz. by apply rapid_stored, rj_of_int64_spec.
  - intros x s Hs. by apply rapid_stored, rj_of_double_spec.
  - intros x s Hs Hx. by apply rapid_stored, rapid_string_value.
  - intros rec m o s Hs Hsort HF.
    destruct (object_members_object doc_tree on json prepare member set_member (lim_key L)
      rapid_view rapid_on rapid_member_law rec m o _ (rapid_blank_object s Hs) Hsort HF) as (j' & Hl & [= Hj']).
    cbn. unfold object. rewrite Hl. by apply rapid_stored.
  - intros rec s Hs. exists s. cbn. split; [done|]. by destruct Hs.
  - intros rec u v j s Hs Hu Hst. cbn.
    by destruct u, v; try discriminate Hu; unfold any, any_cases; cbn;
      repeat rewrite bool_decide_eq_false_2 by done.
  - intros cbs js s Hs Hlen HF. cbn in Hlen. pose proof (Forall2_length _ _ _ HF) as Hcbs.
    destruct (array_elements_stores doc_tree on json rj_index rj_set_index rapid_view rapid_on
      (fun l rest j => doc_tree j = Some (JArray (l ++ replicate (length rest) JNull)))
      cbs js [] (push_nulls (length cbs - rj_size rj_array) rj_array)) as (j' & Hl & [= Hj']); [| |done|].
    + intros l v rest j [= Hj]. cbn in Hj. unfold doc_tree. split.
      * rewrite (rj_index_spec j _ (length l) JNull Hj); [done|]. by rewrite list_lookup_middle.
      * intros x [= <-]. rewrite (rj_set_index_spec j _ (length l) x Hj) by (rewrite length_app; cbn; lia).
        by rewrite insert_app_r_alt, Nat.sub_diag, <-app_assoc by lia.
    + unfold doc_tree. rewrite (rj_size_spec _ _ rj_array_spec), (push_nulls_tree _ _ [] rj_array_spec) by (cbn; lia).
      cbn. by rewrite Nat.sub_0_r, Hcbs.
    + cbn. unfold array. rewrite (rapid_blank_array s Hs). unfold size_of.
      rewrite (proj2 (Z.leb_gt _ _)) by lia. cbn in Hl. rewrite Hl. cbn in Hj'. rewrite app_nil_r in Hj'.
      by apply rapid_stored.
  - intros s Hs. exists (if rj_is_object (json s) then json s else rj_object).
    pose proof (rapid_blank_object s Hs) as [= Hj]. cbn. rewrite Hj. split; [done|].
    intros cb f' o Hcb Ho. unfold struct_. rewrite Hcb. apply rapid_stored; [done|].
    by destruct (rj_tree f'); simplify_eq.
  - intros s [Hc Hr]. by exists (remove s).
  - intros name cb r v f o Hf Ho Hk Hcb. cbn in Hf. destruct (rj_tree f) eqn:Ef; simplify_eq.
    destruct (field_member_stores doc_tree on json removed prepare member set_member
      (lim_key L) rapid_view rapid_on rapid_member_law remove_member name cb r v f o)
      as (f' & Hf' & [= Ht']); try done.
    + intros j o' n w [= Hj] Hn Hno. unfold doc_tree, remove_member.
      by rewrite c_str_id, (rj_remove_member_spec _ _ n Hj Hn), sm_delete_insert by done.
    + unfold doc_tree. by rewrite Ef.
    + exists f'. cbn. by rewrite Ht'.
Qed.

(** A new serializer holds an object, which an unset [any] leaves as it is. *)
Lemma rapid_new_blank : blank_ser (create : t J).
Proof using HL. split; [right|done]. cbn. unfold doc_tree. by rewrite rj_object_spec. Qed.

#[global] Instance Rapid_JsonBackendContract :
  JsonBackendContract (RapidDeserializer.t J) (t J) J L.
Proof.
  split; [apply _..| |].
  - apply rapid_new_blank.
  - intros ser v [= <-] Hc Hp _. destruct (rj_parse_write _ Hc Hp) as (Hne & Hnul & Hparse).
    exists (dump ser), (RapidDeserializer.create (dump ser)).
    assert (Hdump : dump ser = rj_write (json ser)) by (unfold dump; by apply c_str_id).
    rewrite Hdump. split_and!; [cbn; by rewrite Hdump|done|done|].
    unfold RapidDeserializer.create. rewrite c_str_id by done. cbn. unfold doc_tree. by rewrite Hparse.
Qed.
End SerializerFacts.
End RapidFacts.
