(* ===== verification/ReferenceJson.v ===== *)
(** * A reference JSON library

    Concrete libraries that obey the laws of [NJsonLaws], [CppJsonLaws] and
    [RapidJsonLaws]: documents are [jtree]s and their text a length-prefixed
    notation. The theorems about the backends hold for every library; these show
    that the laws can be met, and make the model run on concrete messages. *)
From Stdlib Require Import Ascii ZArith Lia.
From stdpp Require Import base list strings.
From S2P Require Import Prelude SMap Types Serialization Json Backend Nlohmann JsonCpp RapidJson.

Open Scope char_scope.

(** ** Text *)
Definition print_nat (n : nat) (stop : ascii) : bytes := bytes_of (to_string (Z.of_nat n)) ++ [stop].

Definition print_Z (pos neg : ascii) (z : Z) : bytes :=
  (if (z <? 0)%Z then neg else pos) :: print_nat (Z.abs_nat z) ";".

Definition print_text (s : string) : bytes := print_nat (String.length s) ":" ++ bytes_of s.

Fixpoint print (j : jtree) : bytes :=
  match j with
  | JNull => ["n"]
  | JBool b => [if b then "t" else "f"]
  | JInt z => print_Z "i" "j" z
  | JFloat x => print_Z "d" "e" x
  | JString s => "s" :: print_text s
  | JArray l => "a" :: print_nat (length l) ":" ++ concat (map print l)
  | JObject o => "o" :: print_nat (length o) ":" ++ concat (map (fun kv => print_text kv.1 ++ print kv.2) o)
  end.

Fixpoint take_digits (l : bytes) : bytes * bytes :=
  match l with
  | c :: l => if is_digit c then let '(ds, rest) := take_digits l in (c :: ds, rest) else ([], l)
  | [] => ([], [])
  end.

(** A number and the character after it. *)
Definition parse_nat (l : bytes) : nat * bytes :=
  let '(ds, rest) := take_digits l in (Z.to_nat (decimal 0 ds), rest).

Definition parse_text (l : bytes) : string * bytes :=
  let '(n, l) := parse_nat l in (string_of (take n l), drop n l).

Fixpoint parse_seq {A} (item : bytes -> option (A * bytes)) (n : nat) (l : bytes)
    : option (list A * bytes) :=
  match n with
  | O => Some ([], l)
  | S n => '(x, l) ← item l; '(xs, l) ← parse_seq item n l; Some (x :: xs, l)
  end.

Fixpoint parse (fuel : nat) (l : bytes) : option (jtree * bytes) :=
  match fuel, l with
  | S fuel, c :: l =>
    let '(n, rest) := parse_nat l in
    if bool_decide (c = "n") then Some (JNull, l)
    else if bool_decide (c = "t") then Some (JBool true, l)
    else if bool_decide (c = "f") then Some (JBool false, l)
    else if bool_decide (c = "i") then Some (JInt (Z.of_nat n), rest)
    else if bool_decide (c = "j") then Some (JInt (- Z.of_nat n)%Z, rest)
    else if bool_decide (c = "d") then Some (JFloat (Z.of_nat n), rest)
    else if bool_decide (c = "e") then Some (JFloat (- Z.of_nat n)%Z, rest)
    else if bool_decide (c = "s") then Some (JString (parse_text l).1, (parse_text l).2)
    else if bool_decide (c = "a") then
      '(xs, rest) ← parse_seq (parse fuel) n rest; Some (JArray xs, rest)
    else if bool_decide (c = "o") then
      '(xs, rest) ← parse_seq (fun l => let '(k, l) := parse_text l in
                                 '(x, l) ← parse fuel l; Some ((k, x), l)) n rest;
      Some (JObject xs, rest)
    else None
  | _, _ => None
  end.

Lemma take_digits_app ds stop rest :
  Forall (fun c => is_digit c = true) ds -> is_digit stop = false ->
  take_digits (ds ++ stop :: rest) = (ds, rest).
Proof. intros HF Hs. induction HF as [|c ds Hc _ IH]; cbn; [by rewrite Hs|]. by rewrite Hc, IH. Qed.

Lemma parse_print_nat n stop rest :
  is_digit stop = false -> parse_nat (print_nat n stop ++ rest) = (n, rest).
Proof.
  intros Hs. unfold parse_nat, print_nat. rewrite <-app_assoc. cbn.
  destruct (to_string_digits (Z.of_nat n)) as [Hd Hv]; [lia|].
  rewrite take_digits_app by done. rewrite Hv. f_equal. lia.
Qed.

Lemma parse_print_text s rest : parse_text (print_text s ++ rest) = (s, rest).
Proof.
  unfold parse_text, print_text. rewrite <-app_assoc, parse_print_nat by done.
  rewrite <-length_bytes_of, take_app_length, drop_app_length, string_of_bytes_of. done.
Qed.

Lemma parse_seq_print {A} (item : bytes -> option (A * bytes)) (out : A -> bytes) xs rest :
  Forall (fun x => forall rest, item (out x ++ rest) = Some (x, rest)) xs ->
  parse_seq item (length xs) (concat (map out xs) ++ rest) = Some (xs, rest).
Proof.
  induction 1 as [|x xs Hx _ IH]; cbn; [done|]. rewrite <-app_assoc, Hx. cbn. by rewrite IH.
Qed.

Lemma parse_print fuel j rest :
  (jheight j < fuel)%nat -> parse fuel (print j ++ rest) = Some (j, rest).
Proof.
  revert fuel rest. induction j as [|b|z|x|s|l IH|o IH] using jtree_nested_ind;
    intros fuel rest Hf; (destruct fuel as [|fuel]; [lia|]).
  - cbn. by destruct (parse_nat rest).
  - destruct b; cbn; by destruct (parse_nat rest).
  - cbn [print]. unfold print_Z. rewrite <-app_comm_cons. cbn [parse]. rewrite parse_print_nat by done.
    destruct (z <? 0)%Z eqn:E; cbn; do 3 f_equal; lia.
  - cbn [print]. unfold print_Z. rewrite <-app_comm_cons. cbn [parse]. rewrite parse_print_nat by done.
    destruct (x <? 0)%Z eqn:E; cbn; do 3 f_equal; lia.
  - cbn [print]. rewrite <-app_comm_cons. cbn [parse]. rewrite parse_print_text.
    by destruct (parse_nat _).
  - cbn [print]. rewrite <-app_comm_cons, <-app_assoc. cbn [parse].
    rewrite parse_print_nat by done. cbn.
    rewrite (parse_seq_print _ print); [done|]. rewrite jheight_array in Hf.
    rewrite Forall_forall in IH |- *. intros x Hx rest'. apply IH; [done|].
    pose proof (jheights_elem _ _ Hx). lia.
  - cbn [print]. rewrite <-app_comm_cons, <-app_assoc. cbn [parse].
    rewrite parse_print_nat by done. cbn.
    rewrite (parse_seq_print _ (fun kv => print_text kv.1 ++ print kv.2)); [done|].
    rewrite jheight_object in Hf. rewrite Forall_forall in IH |- *. intros [k x] Hx rest'.
    rewrite <-app_assoc, parse_print_text, (IH (k, x)); [done..|].
    assert (jheight x <= jheights o.*2)%nat; [|cbn; lia].
    apply jheights_elem, list_elem_of_fmap. by exists (k, x).
Qed.

(** The text is longer than the document is deep. *)
Lemma print_length j : (jheight j < length (print j))%nat.
Proof.
  induction j as [|b|z|x|s|l IH|o IH] using jtree_nested_ind; try (cbn; lia).
  - rewrite jheight_array. cbn [print length]. rewrite length_app.
    assert (jheights l <= length (concat (map print l)))%nat; [|unfold print_nat; rewrite length_app; cbn; lia].
    induction IH as [|j l Hj _ IHl]; cbn; [lia|]. rewrite length_app. unfold jheights in IHl. lia.
  - rewrite jheight_object. cbn [print length]. rewrite length_app.
    assert (jheights o.*2 <= length (concat (map (fun kv => print_text kv.1 ++ print kv.2) o)))%nat;
      [|unfold print_nat; rewrite length_app; cbn; lia].
    induction IH as [|j l Hj _ IHl]; cbn; [lia|]. rewrite !length_app. unfold jheights in IHl. lia.
Qed.

(** Text of strings and names without NUL has none. *)
Lemma print_nat_no_nul n stop : stop <> NUL -> NUL ∉ print_nat n stop.
Proof.
  intros Hs. unfold print_nat. destruct (to_string_digits (Z.of_nat n)) as [Hd _]; [lia|].
  intros [Hin|Hin%list_elem_of_singleton]%elem_of_app; [|done]. rewrite Forall_forall in Hd.
  by specialize (Hd _ Hin).
Qed.

Lemma no_nul_bytes s : no_nul s = true <-> NUL ∉ bytes_of s.
Proof.
  unfold no_nul. rewrite forallb_forall. split.
  - intros Hs Hin%list_elem_of_In. specialize (Hs _ Hin). by rewrite bool_decide_eq_true_2 in Hs.
  - intros Hs c Hin%list_elem_of_In. rewrite negb_true_iff, bool_decide_eq_false. by intros ->.
Qed.

Lemma print_text_no_nul s : no_nul s = true -> NUL ∉ print_text s.
Proof.
  intros Hs%no_nul_bytes. unfold print_text. rewrite elem_of_app. intros [H|H]; [|done].
  revert H. by apply print_nat_no_nul.
Qed.

Lemma print_no_nul exact dyn j : canonical (rapid_limits exact) dyn j = true -> NUL ∉ print j.
Proof.
  induction j as [|b|z|x|s|l IH|o IH] using jtree_nested_ind; intros Hc; cbn [print].
  - by intros H%list_elem_of_singleton.
  - by destruct b; intros H%list_elem_of_singleton.
  - unfold print_Z. rewrite elem_of_cons. intros [H|H]; [by destruct (z <? 0)%Z|].
    revert H. by apply print_nat_no_nul.
  - unfold print_Z. rewrite elem_of_cons. intros [H|H]; [by destruct (x <? 0)%Z|].
    revert H. by apply print_nat_no_nul.
  - cbn in Hc. apply andb_true_iff in Hc as [Hc _]. rewrite elem_of_cons. intros [H|H]; [done|].
    revert H. by apply print_text_no_nul.
  - cbn in Hc. apply andb_true_iff in Hc as [_ Hc]. rewrite elem_of_cons, elem_of_app.
    intros [H|[H|H]]; [done|revert H; by apply print_nat_no_nul|].
    revert Hc H. induction IH as [|j l Hj _ IHl]; cbn; [by intros _ ?%elem_of_nil|].
    rewrite andb_true_iff, elem_of_app. naive_solver.
  - cbn in Hc. apply andb_true_iff in Hc as [_ Hc]. rewrite elem_of_cons, elem_of_app.
    intros [H|[H|H]]; [done|revert H; by apply print_nat_no_nul|].
    revert Hc H. induction IH as [|[k j] o Hj _ IHo]; cbn; [by intros _ ?%elem_of_nil|].
    rewrite !andb_true_iff, !elem_of_app. intros [[Hk Hjc] Ho] [[H|H]|H]; [|by apply Hj|by apply IHo].
    revert H. by apply print_text_no_nul.
Qed.

Close Scope char_scope.

(** ** The library *)
Module ReferenceLibrary.

Definition J : Type := option jtree.

Definition parse_text (s : string) : J :=
  match parse (S (String.length s)) (bytes_of s) with Some (j, []) => Some j | _ => None end.

Definition dump (j : J) : outcome string :=
  match j with
  | Some v => if printable v then Ret (string_of (print v)) else Undefined
  | None => Ret "<discarded>"
  end.

Definition members (j : J) : smap jtree := match j with Some (JObject o) => o | _ => [] end.
Definition elements (j : J) : list jtree := match j with Some (JArray l) => l | _ => [] end.

Definition items (j : J) : list (string * J) :=
  match j with
  | Some JNull => []
  | Some (JObject o) => map (fun kv => (kv.1, Some kv.2)) (reverse o)
  | Some (JArray l) => imap (fun i v => (to_string (Z.of_nat i), Some v)) l
  | _ => [(EmptyString, j)]
  end.

Definition store (slot : J) : jtree := match slot with Some v => v | None => JNull end.

#[global] Instance Reference_NJson : NJson J := {|
  nj_null := Some JNull;
  nj_parse := parse_text;
  nj_dump := dump;
  nj_is_null j := match j with Some JNull => true | _ => false end;
  nj_is_boolean j := match j with Some (JBool _) => true | _ => false end;
  nj_is_number j := match j with Some (JInt _) | Some (JFloat _) => true | _ => false end;
  nj_is_number_integer j := match j with Some (JInt _) => true | _ => false end;
  nj_is_number_float j := match j with Some (JFloat _) => true | _ => false end;
  nj_is_string j := match j with Some (JString _) => true | _ => false end;
  nj_is_array j := match j with Some (JArray _) => true | _ => false end;
  nj_is_object j := match j with Some (JObject _) => true | _ => false end;
  nj_is_structured j := match j with Some (JArray _) | Some (JObject _) => true | _ => false end;
  nj_get_bool j := match j with Some (JBool b) => b | _ => false end;
  nj_get_int64 j := match j with Some (JInt z) => s64 z | _ => 0 end;
  nj_get_double j := match j with Some (JFloat x) => x | _ => 0 end;
  nj_get_string j := match j with Some (JString s) => s | _ => EmptyString end;
  nj_size j := match j with
               | Some JNull => 0%nat
               | Some (JArray l) => length l
               | Some (JObject o) => length o
               | _ => 1%nat
               end;
  nj_items := items;
  nj_at j i := elements j !! i;
  nj_find j name := Some <$> sm_lookup (members j) name;
  nj_of_bool b := Some (JBool b);
  nj_of_int64 z := Some (JInt z);
  nj_of_double x := Some (JFloat x);
  nj_of_string s := Some (JString s);
  nj_array := Some (JArray []);
  nj_object := Some (JObject []);
  nj_index j i := Some (default JNull (elements j !! i));
  nj_set_index j i x :=
    let l := elements j in Some (JArray (take i l ++ replicate (i - length l) JNull ++ store x :: drop (S i) l));
  nj_member j name := Some (default JNull (sm_lookup (members j) name));
  nj_set_member j name x := Some (JObject (sm_insert (members j) name (store x)));
  nj_erase j name := Some (JObject (sm_delete (members j) name))
|}.

Lemma s64_in_int64 z : in_int64 z = true -> s64 z = z.
Proof. unfold in_int64, s64. intros. rewrite Z.mod_small; lia. Qed.

Lemma parse_text_dump v :
  printable v = true ->
  exists text, dump (Some v) = Ret text /\ text <> EmptyString /\ parse_text text = Some v.
Proof.
  intros Hp. exists (string_of (print v)). cbn. rewrite Hp. pose proof (print_length v) as Hl.
  split_and!; [done| |].
  - intros He. assert (Hnil : bytes_of (string_of (print v)) = []) by by rewrite He.
    rewrite bytes_of_string_of in Hnil. rewrite Hnil in Hl. cbn in Hl. lia.
  - unfold parse_text. rewrite <-length_bytes_of, bytes_of_string_of.
    rewrite <-(app_nil_r (print v)) at 2. by rewrite parse_print by lia.
Qed.

#[global] Instance Reference_Laws : NJsonLaws J.
Proof.
  refine {| nj_tree := (fun j : J => j) |}; cbn; try done.
  all: try by intros [[]|].
  all: try by intros; subst; cbn.
  - intros j z -> Hz. by apply s64_in_int64.
  - intros [[]|]; cbn; try done. unfold s64, in_int64. rewrite andb_true_iff.
    pose proof (Z.mod_pos_bound (z + 2 ^ 63) (2 ^ 64)). lia.
  - intros j o ->. exists (reverse o). split; [by rewrite reverse_Permutation|].
    unfold items. apply Forall2_fmap_l. by apply Forall_Forall2_diag, Forall_true.
  - intros j l ->. cbn. rewrite list_fmap_id. apply list_eq. intros i.
    rewrite !list_lookup_fmap, list_lookup_imap. by destruct (l !! i).
  - intros j o name ->. cbn. destruct (sm_lookup o name); cbn; [|done]. by eexists.
  - intros [[]|] name Hno; try done. by destruct (Hno o).
  - intros j l ->. cbn. by rewrite lookup_ge_None_2.
  - intros j l x v -> ->. cbn. rewrite take_ge, drop_ge, Nat.sub_diag by lia. done.
  - intros j v -> Hc Hp. by apply parse_text_dump.
Defined.

End ReferenceLibrary.

(** ** Libraries for the other backends *)
Module TreeLibrary.

Definition write (j : jtree) : string := string_of (print j).

Definition read (s : string) : option jtree :=
  match parse (S (String.length s)) (bytes_of s) with Some (j, []) => Some j | _ => None end.

Definition members (j : jtree) : smap jtree := match j with JObject o => o | _ => [] end.
Definition elements (j : jtree) : list jtree := match j with JArray l => l | _ => [] end.
Definition integer_of (j : jtree) : Z := match j with JInt z => z | _ => 0 end.
Definition is_integer (range : Z -> bool) (j : jtree) : bool := match j with JInt z => range z | _ => false end.
Definition float_of (j : jtree) : double := match j with JFloat x => x | _ => 0 end.
Definition text_of (j : jtree) : string := match j with JString s => s | _ => EmptyString end.
Definition bool_of (j : jtree) : bool := match j with JBool b => b | _ => false end.
Definition is_array (j : jtree) : bool := match j with JArray _ => true | _ => false end.
Definition is_object (j : jtree) : bool := match j with JObject _ => true | _ => false end.
Definition is_string (j : jtree) : bool := match j with JString _ => true | _ => false end.
Definition is_float (j : jtree) : bool := match j with JFloat _ => true | _ => false end.
Definition is_bool (j : jtree) : bool := match j with JBool _ => true | _ => false end.
Definition is_null (j : jtree) : bool := match j with JNull => true | _ => false end.

Lemma read_write j : write j <> EmptyString /\ read (write j) = Some j.
Proof.
  unfold read, write. pose proof (print_length j) as Hl. split.
  - intros He. assert (Hnil : bytes_of (string_of (print j)) = []) by by rewrite He.
    rewrite bytes_of_string_of in Hnil. rewrite Hnil in Hl. cbn in Hl. lia.
  - rewrite <-length_bytes_of, bytes_of_string_of.
    rewrite <-(app_nil_r (print j)) at 2. by rewrite parse_print by lia.
Qed.

#[global] Instance Tree_CppJson : CppJson jtree := {|
  cj_null := JNull;
  cj_parse := read;
  cj_write := write;
  cj_is_bool := is_bool;
  cj_is_real := is_float;
  cj_is_int64 := is_integer in_int64;
  cj_is_numeric j := is_integer (fun _ => true) j || is_float j;
  cj_is_string := is_string;
  cj_is_object := is_object;
  cj_is_array := is_array;
  cj_is_null := is_null;
  cj_as_bool := bool_of;
  cj_as_int64 := integer_of;
  cj_as_double := float_of;
  cj_as_string := text_of;
  cj_size j := length (elements j);
  cj_entries j := if is_array j then map (fun v => (EmptyString, v)) (elements j) else members j;
  cj_find j name := sm_lookup (members j) name;
  cj_of_bool := JBool;
  cj_of_int64 := JInt;
  cj_of_double := JFloat;
  cj_of_string := JString;
  cj_array := JArray [];
  cj_object := JObject [];
  cj_index j i := default JNull (elements j !! i);
  cj_set_index j i x :=
    let l := elements j in JArray (take i l ++ replicate (i - length l) JNull ++ x :: drop (S i) l);
  cj_member j name := default JNull (sm_lookup (members j) name);
  cj_set_member j name x := JObject (sm_insert (members j) name x);
  cj_remove_member j name := JObject (sm_delete (members j) name)
|}.

#[global] Instance Tree_CppJsonLaws : CppJsonLaws jtree.
Proof.
  refine {| cj_tree := (fun j : jtree => j) |}; cbn; try done.
  all: try by intros [].
  all: try by intros; subst; cbn.
  - intros []; try done. intros Hno. by destruct (Hno z).
  - intros j l ->. cbn. rewrite list_fmap_id. induction l as [|v l IH]; cbn; congruence.
  - intros j o ->. exists o. split; [done|]. cbn. by apply Forall_Forall2_diag, Forall_true.
  - intros j o name ->. cbn. by destruct (sm_lookup o name).
  - intros j l ->. cbn. by rewrite lookup_ge_None_2.
  - intros j l x ->. cbn. by rewrite take_ge, drop_ge, Nat.sub_diag by lia.
  - intros j o name -> Ho. cbn. by rewrite Ho.
  - intros j _ _ _. destruct (read_write j) as [Hne ->]. done.
Defined.

#[global] Instance Tree_RapidJson : RapidJson jtree := {|
  rj_null := JNull;
  rj_object := JObject [];
  rj_array := JArray [];
  rj_parse s := default JNull (read s);
  rj_write := write;
  rj_is_bool := is_bool;
  rj_is_int := is_integer in_int32;
  rj_is_uint := is_integer (fun z => (0 <=? z) && (z <? 2 ^ 32));
  rj_is_int64 := is_integer in_int64;
  rj_is_uint64 := is_integer (fun z => (0 <=? z) && (z <? 2 ^ 64));
  rj_is_double := is_float;
  rj_is_number j := is_integer (fun _ => true) j || is_float j;
  rj_is_string := is_string;
  rj_is_null := is_null;
  rj_is_object := is_object;
  rj_is_array := is_array;
  rj_get_bool := bool_of;
  rj_get_int := integer_of;
  rj_get_uint := integer_of;
  rj_get_int64 := integer_of;
  rj_get_uint64 := integer_of;
  rj_get_double := float_of;
  rj_text := text_of;
  rj_members := members;
  rj_size j := length (elements j);
  rj_find_member j name := sm_lookup (members j) name;
  rj_of_bool := JBool;
  rj_of_int64 := JInt;
  rj_of_double := JFloat;
  rj_of_string := JString;
  rj_has_member j name := bool_decide (is_Some (sm_lookup (members j) name));
  rj_add_member j name := JObject (sm_insert (members j) name JNull);
  rj_member j name := default JNull (sm_lookup (members j) name);
  rj_set_member j name x := JObject (sm_insert (members j) name x);
  rj_remove_member j name := JObject (sm_delete (members j) name);
  rj_push_back_null j := JArray (elements j ++ [JNull]);
  rj_index j i := default JNull (elements j !! i);
  rj_set_index j i x := JArray (<[i := x]> (elements j))
|}.

#[global] Instance Tree_RapidJsonLaws : RapidJsonLaws jtree.
Proof.
  refine {| rj_tree := (fun j : jtree => j); rj_exact := (fun _ => true) |}; cbn; try done.
  all: try by intros [].
  all: try by intros; subst; cbn.
  - intros j o ->. exists o. split; [done|]. cbn. by apply Forall_Forall2_diag, Forall_true.
  - intros j o name -> _. cbn. by destruct (sm_lookup o name).
  - intros j o name v -> _ Ho. cbn. by rewrite Ho.
  - intros j l i v -> Hi. cbn. by rewrite Hi.
  - intros j Hc _. destruct (read_write j) as [Hne ->]. split_and!; [done| |done].
    apply no_nul_bytes. unfold write. rewrite bytes_of_string_of. by eapply print_no_nul.
Defined.

End TreeLibrary.
