(* ===== verification/SerializationProps.v ===== *)
(** * Serialization: properties of the three backends

    The theorems about [serialize] and [deserialize] over the serializers and
    deserializers of nlohmann/json, JsonCpp and RapidJSON, for every JSON library
    that obeys the laws of its class, with witnesses that run on the reference
    libraries of [ReferenceJson.v]. *)
From Stdlib Require Import ZArith Lia.
From stdpp Require Import base list strings.
From S2P Require Import Prelude SMap Types Serialization Json Backend Nlohmann JsonCpp RapidJson ReferenceJson.
From S2P Require Import ProtocolTypes ProtocolRequests Protocol.
Import NlohmannDeserializerFacts NlohmannSerializerFacts.

(** A [SetBreakpointsRequest] with an unset optional, a nested struct, an array of
    structs and a variant that holds an object. *)
Definition sample_source : value :=
  VStruct
    [ ("adapterData", VOptional (Some (VVariant (VAny TObject
        (VObject [("k", VAny (TArray TAny) (VArray [VAny TInteger (VInteger 7); VAnyEmpty]))])))))
    ; ("checksums", VOptional (Some (VArray
        [VStruct [("algorithm", VString "SHA1"); ("checksum", VString "ab12")]])))
    ; ("name", VOptional (Some (VString "main.cpp")))
    ; ("origin", VOptional None)
    ; ("path", VOptional (Some (VString "/src/main.cpp")))
    ; ("presentationHint", VOptional None)
    ; ("sourceReference", VOptional (Some (VInteger (-1))))
    ; ("sources", VOptional None) ].

Definition sample_request : value :=
  VStruct
    [ ("breakpoints", VOptional (Some (VArray
        [VStruct [("column", VOptional None); ("condition", VOptional None);
                  ("hitCondition", VOptional None); ("line", VInteger 42);
                  ("logMessage", VOptional None); ("mode", VOptional None)]])))
    ; ("lines", VOptional None)
    ; ("source", sample_source)
    ; ("sourceModified", VOptional (Some (VBoolean true))) ].

(** The encoding of a struct is an object, and the struct is one of the schema. *)
Lemma struct_json env v name j :
  json_of env v (TStruct name) = Some j -> type_ok env protocol_depth (TStruct name) = true /\ exists o, j = JObject o.
Proof.
  intros Hj. destruct v; try discriminate Hj. rewrite json_of_struct in Hj.
  apply bind_Some in Hj as (si & Hs & Hj). apply bind_Some in Hj as (l & _ & Hj). split.
  - cbn. apply bool_decide_eq_true. by exists si.
  - case_bool_decide; [|done]. apply fmap_Some_1 in Hj as (o & _ & ->). by exists o.
Qed.

Module SerializationProps.
(** A value of a struct of the protocol, through the serializer, text and the
    deserializer of a backend into a new object. *)
Definition survives (D Ser FS : Type) `{JsonBackend D Ser FS} (si : struct_info) (v : value)
    (fuel : nat) : Prop :=
  exists (s : Ser) text c (d : D),
    serialize protocol_schema fuel (TStruct si.(si_struct)) v json_new = Ret (true, s) /\
    json_dump s = Ret text /\ json_parse text = Ret d /\
    construct protocol_schema fuel (TStruct si.(si_struct)) = Ret c /\
    deserialize protocol_schema fuel (TStruct si.(si_struct)) d c = Ret (true, v).

(** C5. Every message of the protocol survives the trip, with every JSON backend that
    keeps the contract (all three of the library do): a value of any struct of
    DAP 1.65, encoded, printed, parsed and decoded again, is the value that was
    sent. A value of [StackFrameFormat], or of [StackTraceRequest], which holds one, must
    lose nothing in its encoding: the member [hex] that [StackFrameFormat] inherits is not
    serialized ([protocol_hex_lost]), so it must be unset. *)
Theorem protocol_message_roundtrip {D Ser FS : Type} {HB : JsonBackend D Ser FS} {HD : DeserializerView D}
    {HV : SerializerView Ser FS} {L : limits} {HC : JsonBackendContract D Ser FS L} si v j fuel :
  si ∈ protocol_structs -> natural L false v = true ->
  (loses si.(si_struct) = true -> lossless protocol_schema v (TStruct si.(si_struct)) = true) ->
  json_of protocol_schema v (TStruct si.(si_struct)) = Some j -> printable j = true ->
  lim_depth L (jheight j) = true -> (6 + height v < fuel)%nat ->
  survives D Ser FS si v fuel.
Proof.
  intros Hin Hn Hlo Hj Hp Hd Hf.
  assert (Hca : lossless protocol_schema v (TStruct si.(si_struct)) = true).
  { destruct (loses si.(si_struct)) eqn:E; [by apply Hlo|by eapply protocol_lossless]. }
  destruct (struct_json _ _ _ _ Hj) as (Hty & o & ->).
  pose proof protocol_constructs as Hcs. rewrite forallb_forall in Hcs.
  specialize (Hcs si). apply list_elem_of_In in Hin. specialize (Hcs Hin).
  destruct (returns_construct _ _ fuel _ Hcs) as [c Hc]; [unfold protocol_depth; lia|].
  destruct (backend_roundtrip protocol_schema protocol_depth _ v _ c fuel json_new protocol_schema_ok
    Hty Hn Hca Hj Hp Hd) as (s & text & d & Hs & Ht & Hpa & Hl).
  - by apply backend_ready.
  - eapply construct_fresh; [exact protocol_schema_ok|exact Hc|done].
  - unfold protocol_depth. lia.
  - by exists s, text, c, d.
Qed.

(** A [StackFrameFormat] that asks for hexadecimal values, with nothing else set. *)
Definition frame_format (hex : option value) : value :=
  VStruct [("hex", VOptional hex); ("includeAll", VOptional None); ("line", VOptional None); ("module", VOptional None);
    ("parameterNames", VOptional None); ("parameterTypes", VOptional None); ("parameterValues", VOptional None);
    ("parameters", VOptional None)].

Definition trip (u : ty) (v c : value) : outcome (bool * value) :=
  '(_, s) ← serialize protocol_schema 20 u v (NlohmannSerializer.create : NlohmannSerializer.t ReferenceLibrary.J);
  text ← NlohmannSerializer.dump s;
  deserialize protocol_schema 20 u (NlohmannDeserializer.create text : NlohmannDeserializer.t ReferenceLibrary.J) c.

(** It arrives without: [hex] is lost, while the same member of a [ValueFormat] arrives. *)
Theorem protocol_hex_lost :
  trip (TStruct "StackFrameFormat") (frame_format (Some (VBoolean true))) (frame_format None) = Ret (true, frame_format None) /\
  trip (TStruct "ValueFormat") (VStruct [("hex", VOptional (Some (VBoolean true)))]) (VStruct [("hex", VOptional None)]) =
    Ret (true, VStruct [("hex", VOptional (Some (VBoolean true)))]).
Proof. split; vm_compute; reflexivity. Qed.

Section Nlohmann.
Context {J : Type} {HJ : NJson J} {HL : NJsonLaws J}.

(** C20. What [serialize] stores is the encoding of the value: with a fuel above the
    height of the value, on a new serializer, the call succeeds and the JSON it built
    is [json_of] of the value (members under the names of their fields, unset
    optionals left out, an [any] as the value it holds). *)
Theorem nlohmann_serialize_encodes env t v j fuel :
  names_ok env -> encodable no_limits v = true -> json_of env v t = Some j -> (height v < fuel)%nat ->
  exists s : NlohmannSerializer.t J,
    serialize env fuel t v NlohmannSerializer.create = Ret (true, s) /\
    nj_tree s.(NlohmannSerializer.json) = Some j.
Proof using HL.
  intros Hn He Hj Hf.
  destruct (serialize_stores env Hn v t j fuel NlohmannSerializer.create He Hj Hf) as (s & Hs & Hc & _).
  - apply fresh_ready, nlohmann_new_fresh.
  - by exists s.
Qed.

(** C13. Serializing a value, printing it, parsing the text and deserializing it into
    a default-constructed object gives the value back, for every type of a
    well-formed schema: structs, arrays, optionals, variants, objects and [any]s that
    hold the types JSON has. The encoding must lose nothing: where every member of a
    struct is serialized it never does ([complete_lossless]). *)
Theorem nlohmann_roundtrip env k t v j c fuel :
  schema_ok env k -> type_ok env k t = true -> natural no_limits false v = true -> lossless env v t = true ->
  json_of env v t = Some j -> printable j = true -> construct env k t = Ret c ->
  (2 + k + height v < fuel)%nat ->
  exists (s : NlohmannSerializer.t J) text,
    serialize env fuel t v NlohmannSerializer.create = Ret (true, s) /\
    NlohmannSerializer.dump s = Ret text /\
    deserialize env fuel t (NlohmannDeserializer.create text : NlohmannDeserializer.t J) c = Ret (true, v).
Proof using HL.
  intros Hok Ht Hn Hca Hj Hp Hc Hf.
  destruct (backend_roundtrip (D := NlohmannDeserializer.t J) env k t v j c fuel NlohmannSerializer.create Hok)
    as (s & text & d & Hs & Hd & [= <-] & Hl); try done.
  - apply fresh_ready, nlohmann_new_fresh.
  - eapply construct_fresh; [done..|]. by intros ->.
  - by exists s, text.
Qed.

(** Decoding is lenient where the interface is: a present member of the wrong
    type leaves an optional boolean or string as it was and still succeeds, and a
    variant takes the value of any document, whether or not its type is one of the
    variant's. *)
Theorem nlohmann_lenient_decoding env fuel (d : NlohmannDeserializer.t J) j cur t0 ts a :
  des_tree d = Some j -> canonical no_limits true j = true -> (2 + jheight j < fuel)%nat ->
  ((forall b, j <> JBool b) -> deserialize env fuel (TOptional TBoolean) d cur = Ret (true, cur)) /\
  ((forall s, j <> JString s) -> deserialize env fuel (TOptional TString) d cur = Ret (true, cur)) /\
  deserialize env fuel (TVariant t0 ts) d (VVariant a) = Ret (true, VVariant (any_of_json j)).
Proof using HL.
  intros Hd Hc Hf. destruct fuel as [|[|fuel]]; [lia..|]. split_and!.
  - intros Hj. cbn [deserialize construct]. rewrite dc_boolean, Hd. destruct j; try done. naive_solver.
  - intros Hj. cbn [deserialize construct]. rewrite dc_not_string; [done|]. rewrite Hd. naive_solver.
  - cbn [deserialize]. by rewrite (dc_any (S fuel) d j a Hd Hc ltac:(lia)).
Qed.
End Nlohmann.

(** C15. The same with JsonCpp, within its limits: strings and names of fewer than
    2^30 bytes, arrays of fewer than 2^32 elements, and fewer than 1000 levels. *)
Theorem jsoncpp_roundtrip {J : Type} {HJ : CppJson J} {HL : CppJsonLaws J} env k t v j c fuel :
  schema_ok env k -> type_ok env k t = true -> natural cpp_limits false v = true -> lossless env v t = true ->
  json_of env v t = Some j -> printable j = true -> lim_depth cpp_limits (jheight j) = true ->
  construct env k t = Ret c -> (2 + k + height v < fuel)%nat ->
  exists (s : JsonCppSerializer.t J) (d : JsonCppDeserializer.t J),
    serialize env fuel t v JsonCppSerializer.create = Ret (true, s) /\
    JsonCppDeserializer.create (JsonCppSerializer.dump s) = Ret d /\
    deserialize env fuel t d c = Ret (true, v).
Proof.
  intros Hok Ht Hn Hca Hj Hp Hd Hc Hf.
  destruct (backend_roundtrip (D := JsonCppDeserializer.t J) env k t v j c fuel JsonCppSerializer.create Hok)
    as (s & text & d & Hs & [= <-] & Hr & Hl); try done.
  - apply fresh_ready, JsonCppFacts.cpp_new_fresh.
  - eapply construct_fresh; [done..|]. by intros ->.
  - by exists s, d.
Qed.

(** C14. The same with RapidJSON, within its limits: strings and names without NUL,
    32-bit integers in an [any], doubles that normal precision reads back; and not
    for a value whose encoding is null at the root, since a new serializer holds an
    object. *)
Theorem rapid_roundtrip {J : Type} {HJ : RapidJson J} {HL : RapidJsonLaws J} env k t v j c fuel :
  schema_ok env k -> type_ok env k t = true -> natural (rapid_limits rj_exact) false v = true -> lossless env v t = true ->
  json_of env v t = Some j -> j <> JNull -> printable j = true -> construct env k t = Ret c ->
  (2 + k + height v < fuel)%nat ->
  exists s : RapidSerializer.t J,
    serialize env fuel t v RapidSerializer.create = Ret (true, s) /\
    deserialize env fuel t (RapidDeserializer.create (RapidSerializer.dump s) : RapidDeserializer.t J) c = Ret (true, v).
Proof.
  intros Hok Ht Hn Hca Hj Hnull Hp Hc Hf.
  destruct (backend_roundtrip (D := RapidDeserializer.t J) env k t v j c fuel RapidSerializer.create Hok)
    as (s & text & d & Hs & [= <-] & [= <-] & Hl); try done.
  - split; [apply RapidFacts.rapid_new_blank|done].
  - eapply construct_fresh; [done..|]. by intros ->.
  - by exists s.
Qed.

Lemma nlohmann_lenient_decoding_witness :
  deserialize protocol_schema 5 (TOptional TBoolean)
    (NlohmannDeserializer.create "i7;" : NlohmannDeserializer.t ReferenceLibrary.J) (VOptional None)
    = Ret (true, VOptional None) /\
  deserialize protocol_schema 5 (TVariant TString [TBoolean])
    (NlohmannDeserializer.create "i7;" : NlohmannDeserializer.t ReferenceLibrary.J) (VVariant VAnyEmpty)
    = Ret (true, VVariant (VAny TInteger (VInteger 7))).
Proof.
  assert (Hd : des_tree (NlohmannDeserializer.create "i7;" : NlohmannDeserializer.t ReferenceLibrary.J)
    = Some (JInt 7)) by (vm_compute; reflexivity).
  destruct (nlohmann_lenient_decoding protocol_schema 5 _ (JInt 7) (VOptional None) TString [TBoolean]
    VAnyEmpty Hd eq_refl ltac:(cbn; lia)) as (Hb & _ & Hv).
  split; [apply Hb; discriminate|exact Hv].
Defined.

Lemma nlohmann_serialize_encodes_witness :
  exists s : NlohmannSerializer.t ReferenceLibrary.J,
    serialize protocol_schema 20 (TStruct "SetBreakpointsRequest") sample_request
      NlohmannSerializer.create = Ret (true, s) /\
    nj_tree s.(NlohmannSerializer.json) = Some (JObject
      [("source", JObject
         [("name", JString "main.cpp"); ("path", JString "/src/main.cpp");
          ("checksums", JArray [JObject [("checksum", JString "ab12"); ("algorithm", JString "SHA1")]]);
          ("adapterData", JObject [("k", JArray [JInt 7; JNull])]);
          ("sourceReference", JInt (-1))]);
       ("breakpoints", JArray [JObject [("line", JInt 42)]]);
       ("sourceModified", JBool true)]).
Proof.
  apply (nlohmann_serialize_encodes (J := ReferenceLibrary.J)).
  - exact (schema_ok_names _ _ protocol_schema_ok).
  - vm_compute. reflexivity.
  - vm_compute. reflexivity.
  - vm_compute. lia.
Defined.

(** An object of the type of [sample_request], as it is constructed. *)
Definition blank_request : value :=
  VStruct [("breakpoints", VOptional None); ("lines", VOptional None);
    ("source", VStruct [("adapterData", VOptional None); ("checksums", VOptional None);
      ("name", VOptional None); ("origin", VOptional None); ("path", VOptional None);
      ("presentationHint", VOptional None); ("sourceReference", VOptional None);
      ("sources", VOptional None)]);
    ("sourceModified", VOptional None)].

Lemma nlohmann_roundtrip_witness :
  exists (s : NlohmannSerializer.t ReferenceLibrary.J) text,
    serialize protocol_schema 20 (TStruct "SetBreakpointsRequest") sample_request
      NlohmannSerializer.create = Ret (true, s) /\
    NlohmannSerializer.dump s = Ret text /\
    deserialize protocol_schema 20 (TStruct "SetBreakpointsRequest")
      (NlohmannDeserializer.create text : NlohmannDeserializer.t ReferenceLibrary.J) blank_request
      = Ret (true, sample_request).
Proof.
  eapply (nlohmann_roundtrip protocol_schema protocol_depth (TStruct "SetBreakpointsRequest") sample_request).
  - exact protocol_schema_ok.
  - vm_compute. reflexivity.
  - vm_compute. reflexivity.
  - vm_compute. reflexivity.
  - vm_compute. reflexivity.
  - vm_compute. reflexivity.
  - vm_compute. reflexivity.
  - vm_compute. lia.
Defined.

Lemma jsoncpp_roundtrip_witness :
  exists (s : JsonCppSerializer.t jtree) (d : JsonCppDeserializer.t jtree),
    serialize protocol_schema 20 (TStruct "SetBreakpointsRequest") sample_request
      JsonCppSerializer.create = Ret (true, s) /\
    JsonCppDeserializer.create (JsonCppSerializer.dump s) = Ret d /\
    deserialize protocol_schema 20 (TStruct "SetBreakpointsRequest") d blank_request = Ret (true, sample_request).
Proof.
  eapply (jsoncpp_roundtrip protocol_schema protocol_depth (TStruct "SetBreakpointsRequest") sample_request).
  - exact protocol_schema_ok.
  - vm_compute. reflexivity.
  - vm_compute. reflexivity.
  - vm_compute. reflexivity.
  - vm_compute. reflexivity.
  - vm_compute. reflexivity.
  - vm_compute. reflexivity.
  - vm_compute. reflexivity.
  - vm_compute. lia.
Defined.

Lemma rapid_roundtrip_witness :
  exists s : RapidSerializer.t jtree,
    serialize protocol_schema 20 (TStruct "SetBreakpointsRequest") sample_request
      RapidSerializer.create = Ret (true, s) /\
    deserialize protocol_schema 20 (TStruct "SetBreakpointsRequest")
      (RapidDeserializer.create (RapidSerializer.dump s) : RapidDeserializer.t jtree) blank_request
      = Ret (true, sample_request).
Proof.
  eapply (rapid_roundtrip protocol_schema protocol_depth (TStruct "SetBreakpointsRequest") sample_request).
  - exact protocol_schema_ok.
  - vm_compute. reflexivity.
  - vm_compute. reflexivity.
  - vm_compute. reflexivity.
  - vm_compute. reflexivity.
  - discriminate.
  - vm_compute. reflexivity.
  - vm_compute. reflexivity.
  - vm_compute. lia.
Defined.

Lemma protocol_message_roundtrip_witness :
  survives (NlohmannDeserializer.t ReferenceLibrary.J) (NlohmannSerializer.t ReferenceLibrary.J)
    ReferenceLibrary.J SetBreakpointsRequest_info sample_request 20.
Proof.
  eapply (protocol_message_roundtrip SetBreakpointsRequest_info sample_request).
  - apply (find_struct_elem _ "SetBreakpointsRequest"). vm_compute. reflexivity.
  - vm_compute. reflexivity.
  - intros _. vm_compute. reflexivity.
  - vm_compute. reflexivity.
  - vm_compute. reflexivity.
  - vm_compute. reflexivity.
  - vm_compute. lia.
Defined.

End SerializationProps.
