(* ===== verification/Session.v ===== *)
(** * The session

    Models [src/session.cpp] and the templates of [include/dap/session.h]: the
    endpoint that turns requests, responses and events into messages and back. It
    is built on the content streams ([ContentStream.v]), the channel ([Chan.v]) and a
    JSON backend ([Serialization.v], with the contracts of [Json.v]).

    A [TypeInfo*] is a [ty]. The user's callbacks are not part of the library: a
    request handler is a function to the replies it makes before it returns (a
    handler may also keep the callbacks and reply later, [reply]); the other
    callbacks are opaque, and calling one adds an [action] to the log. *)
From Stdlib Require Import Ascii ZArith Lia.
From stdpp Require Import base list strings gmap.
From S2P Require Import Prelude IO ContentStream Monitor Chan SMap Types Serialization Json Backend.

(** [ResponseOrError<T>]: the response and the error, of which an empty message
    means success. *)
Record ResponseOrError := { roe_response : value; roe_error : string }.

Definition is_error (r : ResponseOrError) : bool := negb (bool_decide (r.(roe_error) = EmptyString)).

(** A call of [onSuccess] or [onError] with the response's type. *)
Inductive reply_call :=
| OnSuccess (typeinfo : ty) (data : value)
| OnError (typeinfo : ty) (message : string).

Definition GenericRequestHandler : Type := value -> list reply_call.

(** [registerHandler(F)] for [F : Request -> ResponseOrError] and for the two forms
    with a callback: the responses passed to the callback, as replies. *)
Definition reply_of (response_type : ty) (res : ResponseOrError) : reply_call :=
  if is_error res then OnError response_type res.(roe_error)
  else OnSuccess response_type res.(roe_response).

Definition request_handler (response_type : ty) (F : value -> ResponseOrError) : GenericRequestHandler :=
  fun args => [reply_of response_type (F args)].

Definition callback_handler (response_type : ty) (F : value -> list value) : GenericRequestHandler :=
  fun args => OnSuccess response_type <$> F args.

Definition callback_error_handler (response_type : ty) (F : value -> list ResponseOrError)
    : GenericRequestHandler :=
  fun args => reply_of response_type <$> F args.

(** [%d] of an [int] argument. *)
Definition int_text (z : Z) : string :=
  if z <? 0 then String "-" (to_string (- z)) else to_string z.

(** A formatted error message, in the buffer of 2048 bytes. *)
Definition error_text (parts : list string) : string :=
  string_of (snprintf 2048 (mjoin (cstr ∘ bytes_of <$> parts))).

Module Session.
Section Session.
Context {D Ser FS R W : Type} `{JsonBackend D Ser FS} `{!Reader R} `{!Writer W}.
(** The callbacks for errors, responses, events and sent responses. *)
Context {ErrorHandler ResponseHandler EventHandler SentHandler : Type}.
Context (env : schema) (fuel : nat).

Inductive action :=
| ErrorReported (h : ErrorHandler) (message : string)
| ResponseHandled (h : ResponseHandler) (result : value + string)
| EventHandled (h : EventHandler) (event : value)
| ResponseSent (h : SentHandler) (result : value + string).

(** [class EventHandlers]; [emplace] keeps the entry that is there. *)
Record handlers := {
  errorHandler : option ErrorHandler;
  requestMap : gmap string (ty * GenericRequestHandler);
  responseMap : gmap Z (ty * ResponseHandler);
  eventMap : gmap string (ty * EventHandler);
  responseSentMap : list (ty * SentHandler)
}.

(** A [Payload]: what [processMessage] returns for the dispatch thread to run. *)
Inductive payload :=
| RequestPayload (handler : GenericRequestHandler) (data : value) (sequence : Z) (command : string)
| EventPayload (handler : EventHandler) (data : value).

Record t := {
  isBound : bool;
  isProcessingMessages : bool;
  reader : ContentReader.t R;
  writer : ContentWriter.t W;
  hs : handlers;
  inbox : Chan.t payload;
  nextSeq : Z;
  onInvalidData : OnInvalidData;
  log : list action
}.

(** [Session::create()]: streams without a transport. *)
Definition create : t := {|
  isBound := false;
  isProcessingMessages := false;
  reader := ContentReader.mk None [] kIgnore;
  writer := ContentWriter.mk None;
  hs := {| errorHandler := None; requestMap := ∅; responseMap := ∅; eventMap := ∅; responseSentMap := [] |};
  inbox := Chan.create;
  nextSeq := 1;
  onInvalidData := kIgnore;
  log := []
|}.

(** ** Updates of one member *)
Definition set_isBound (b : bool) (s : t) : t :=
  {| isBound := b; isProcessingMessages := s.(isProcessingMessages); reader := s.(reader);
     writer := s.(writer); hs := s.(hs); inbox := s.(inbox); nextSeq := s.(nextSeq);
     onInvalidData := s.(onInvalidData); log := s.(log) |}.
Definition set_isProcessing (b : bool) (s : t) : t :=
  {| isBound := s.(isBound); isProcessingMessages := b; reader := s.(reader);
     writer := s.(writer); hs := s.(hs); inbox := s.(inbox); nextSeq := s.(nextSeq);
     onInvalidData := s.(onInvalidData); log := s.(log) |}.
Definition set_reader (r : ContentReader.t R) (s : t) : t :=
  {| isBound := s.(isBound); isProcessingMessages := s.(isProcessingMessages); reader := r;
     writer := s.(writer); hs := s.(hs); inbox := s.(inbox); nextSeq := s.(nextSeq);
     onInvalidData := s.(onInvalidData); log := s.(log) |}.
Definition set_writer (w : ContentWriter.t W) (s : t) : t :=
  {| isBound := s.(isBound); isProcessingMessages := s.(isProcessingMessages); reader := s.(reader);
     writer := w; hs := s.(hs); inbox := s.(inbox); nextSeq := s.(nextSeq);
     onInvalidData := s.(onInvalidData); log := s.(log) |}.
Definition set_hs (h : handlers) (s : t) : t :=
  {| isBound := s.(isBound); isProcessingMessages := s.(isProcessingMessages); reader := s.(reader);
     writer := s.(writer); hs := h; inbox := s.(inbox); nextSeq := s.(nextSeq);
     onInvalidData := s.(onInvalidData); log := s.(log) |}.
Definition set_inbox (q : Chan.t payload) (s : t) : t :=
  {| isBound := s.(isBound); isProcessingMessages := s.(isProcessingMessages); reader := s.(reader);
     writer := s.(writer); hs := s.(hs); inbox := q; nextSeq := s.(nextSeq);
     onInvalidData := s.(onInvalidData); log := s.(log) |}.
Definition set_nextSeq (n : Z) (s : t) : t :=
  {| isBound := s.(isBound); isProcessingMessages := s.(isProcessingMessages); reader := s.(reader);
     writer := s.(writer); hs := s.(hs); inbox := s.(inbox); nextSeq := n;
     onInvalidData := s.(onInvalidData); log := s.(log) |}.
Definition add_log (a : action) (s : t) : t :=
  {| isBound := s.(isBound); isProcessingMessages := s.(isProcessingMessages); reader := s.(reader);
     writer := s.(writer); hs := s.(hs); inbox := s.(inbox); nextSeq := s.(nextSeq);
     onInvalidData := s.(onInvalidData); log := s.(log) ++ [a] |}.
Definition set_responseMap (m : gmap Z (ty * ResponseHandler)) (h : handlers) : handlers :=
  {| errorHandler := h.(errorHandler); requestMap := h.(requestMap); responseMap := m;
     eventMap := h.(eventMap); responseSentMap := h.(responseSentMap) |}.

(** [typeinfo->name()]. *)
Definition name_of (typeinfo : ty) : string :=
  type_name (fun s => match env s with Some si => si.(si_name) | None => EmptyString end) typeinfo.

(** ** [EventHandlers] *)

(** [error] and [errorfLocked]: the handler, if there is one, gets the text. *)
Definition error (message : list string) (s : t) : t :=
  match s.(hs).(errorHandler) with
  | Some h => add_log (ErrorReported h (error_text message)) s
  | None => s
  end.

Definition put_error (handler : ErrorHandler) (s : t) : t :=
  set_hs {| errorHandler := Some handler; requestMap := s.(hs).(requestMap);
            responseMap := s.(hs).(responseMap); eventMap := s.(hs).(eventMap);
            responseSentMap := s.(hs).(responseSentMap) |} s.

Definition put_request (typeinfo : ty) (handler : GenericRequestHandler) (s : t) : t :=
  match s.(hs).(requestMap) !! name_of typeinfo with
  | Some _ => error ["Request handler for '"; name_of typeinfo; "' already registered"] s
  | None =>
    set_hs {| errorHandler := s.(hs).(errorHandler);
              requestMap := <[name_of typeinfo := (typeinfo, handler)]> s.(hs).(requestMap);
              responseMap := s.(hs).(responseMap); eventMap := s.(hs).(eventMap);
              responseSentMap := s.(hs).(responseSentMap) |} s
  end.

Definition put_response (seq : Z) (typeinfo : ty) (handler : ResponseHandler) (s : t) : t :=
  match s.(hs).(responseMap) !! seq with
  | Some _ => error ["Response handler for sequence "; int_text seq; " already registered"] s
  | None => set_hs (set_responseMap (<[seq := (typeinfo, handler)]> s.(hs).(responseMap)) s.(hs)) s
  end.

(** [response(seq)]: the entry, taken out of the map. *)
Definition response (seq : Z) (s : t) : option (ty * ResponseHandler) * t :=
  match s.(hs).(responseMap) !! seq with
  | None => (None, error ["Unknown response with sequence "; int_text (s32 seq)] s)
  | Some out => (Some out, set_hs (set_responseMap (delete seq s.(hs).(responseMap)) s.(hs)) s)
  end.

Definition put_event (typeinfo : ty) (handler : EventHandler) (s : t) : t :=
  match s.(hs).(eventMap) !! name_of typeinfo with
  | Some _ => error ["Event handler for '"; name_of typeinfo; "' already registered"] s
  | None =>
    set_hs {| errorHandler := s.(hs).(errorHandler); requestMap := s.(hs).(requestMap);
              responseMap := s.(hs).(responseMap);
              eventMap := <[name_of typeinfo := (typeinfo, handler)]> s.(hs).(eventMap);
              responseSentMap := s.(hs).(responseSentMap) |} s
  end.

Fixpoint sent_lookup (l : list (ty * SentHandler)) (typeinfo : ty) : option SentHandler :=
  match l with
  | [] => None
  | (u, h) :: l => if bool_decide (u = typeinfo) then Some h else sent_lookup l typeinfo
  end.

Definition put_sent (typeinfo : ty) (handler : SentHandler) (s : t) : t :=
  match sent_lookup s.(hs).(responseSentMap) typeinfo with
  | Some _ => error ["Response sent handler for '"; name_of typeinfo; "' already registered"] s
  | None =>
    set_hs {| errorHandler := s.(hs).(errorHandler); requestMap := s.(hs).(requestMap);
              responseMap := s.(hs).(responseMap); eventMap := s.(hs).(eventMap);
              responseSentMap := (typeinfo, handler) :: s.(hs).(responseSentMap) |} s
  end.

(** ** Sending *)

(** [send(const std::string&)]. *)
Definition send_text (text : string) (s : t) : outcome (bool * t) :=
  if negb (ContentWriter.isOpen s.(writer)) then
    Ret (false, error ["Send failed as the writer is closed"] s)
  else
    '(ok, w) ← ContentWriter.write s.(writer) text;
    Ret (ok, set_writer w s).

(** [fs->field(name, value)] for an integer, a string, a boolean. *)
Definition field_integer (name : string) (z : Z) : FS -> outcome (bool * FS) := fs_field name (ser_integer z).
Definition field_string (name v : string) : FS -> outcome (bool * FS) := fs_field name (ser_string v).
Definition field_boolean (name : string) (b : bool) : FS -> outcome (bool * FS) := fs_field name (ser_boolean b).

(** [fields a && b && ...]: the body of the function given to [object]. *)
Fixpoint all_fields (calls : list (FS -> outcome (bool * FS))) (fs : FS) : outcome (bool * FS) :=
  match calls with
  | [] => Ret (true, fs)
  | c :: calls => and_then (c fs) (all_fields calls)
  end.

(** [json::Serializer s; s.object(...)]. *)
Definition build (calls : list (FS -> outcome (bool * FS))) : outcome (bool * Ser) :=
  ser_struct (all_fields calls) json_new.

(** [nextSeq++]. *)
Definition next_seq (s : t) : Z * t := (s.(nextSeq), set_nextSeq (u32 (s.(nextSeq) + 1)) s).

Definition request_fields (seq : Z) (requestType : ty) (request : value) : list (FS -> outcome (bool * FS)) :=
  [ field_integer "seq" seq;
    field_string "type" "request";
    field_string "command" (name_of requestType);
    fs_field "arguments" (serialize env fuel requestType request) ].

(** [send(requestTypeInfo, responseTypeInfo, request, responseHandler)]. *)
Definition send_request (requestType responseType : ty) (request : value) (handler : ResponseHandler)
    (s : t) : outcome (bool * t) :=
  let '(n, s) := next_seq s in
  let seq := s32 n in
  let s := put_response seq responseType handler s in
  '(ok, ser) ← build (request_fields seq requestType request);
  if negb ok then Ret (false, s)
  else text ← json_dump ser; send_text text s.

(** The template [send(const T& request)]: the handler is the promise of the future
    it returns. The result is the value the promise is given at once, if any. *)
Definition send_future (requestType responseType : ty) (request : value) (promise : ResponseHandler)
    (s : t) : outcome (option ResponseOrError * t) :=
  '(sent, s) ← send_request requestType responseType request promise s;
  if (sent : bool) then Ret (None, s)
  else
    response ← construct env fuel responseType;
    Ret (Some {| roe_response := response; roe_error := "Failed to send request" |}, s).

(** What the response handler of that template gives the promise. *)
Definition promise_value (responseType : ty) (result : value + string) : outcome ResponseOrError :=
  match result with
  | inr error =>
    response ← construct env fuel responseType;
    Ret {| roe_response := response; roe_error := error |}
  | inl response => Ret {| roe_response := response; roe_error := EmptyString |}
  end.

Definition event_fields (seq : Z) (typeinfo : ty) (event : value) : list (FS -> outcome (bool * FS)) :=
  [ field_integer "seq" seq;
    field_string "type" "event";
    field_string "event" (name_of typeinfo);
    fs_field "body" (serialize env fuel typeinfo event) ].

(** [send(typeinfo, event)]. *)
Definition send_event (typeinfo : ty) (event : value) (s : t) : outcome (bool * t) :=
  let '(n, s) := next_seq s in
  '(ok, ser) ← build (event_fields n typeinfo event);
  if negb ok then Ret (false, s)
  else text ← json_dump ser; send_text text s.

(** ** Replies: the [onSuccess] and [onError] functions of [processRequest] *)
Definition success_fields (seq sequence : Z) (command : string) (typeinfo : ty) (data : value)
    : list (FS -> outcome (bool * FS)) :=
  [ field_integer "seq" seq;
    field_string "type" "response";
    field_integer "request_seq" sequence;
    field_boolean "success" true;
    field_string "command" command;
    fs_field "body" (serialize env fuel typeinfo data) ].

Definition error_fields (seq sequence : Z) (command message : string)
    : list (FS -> outcome (bool * FS)) :=
  [ field_integer "seq" seq;
    field_string "type" "response";
    field_integer "request_seq" sequence;
    field_boolean "success" false;
    field_string "command" command;
    field_string "message" message ].

(** The results of [object] and of [send] are ignored. The handler of sent responses is
    called once [send] has returned; [called] is what it does. *)
Definition reply_with (called : SentHandler -> value + string -> t -> outcome t)
    (sequence : Z) (command : string) (call : reply_call) (s : t) : outcome t :=
  let '(n, s) := next_seq s in
  let '(fields, typeinfo, result) :=
    match call with
    | OnSuccess typeinfo data =>
        (success_fields n sequence command typeinfo data, typeinfo, inl data)
    | OnError typeinfo message =>
        (error_fields n sequence command message, typeinfo, inr message)
    end in
  '(_, ser) ← build fields;
  text ← json_dump ser;
  '(_, s) ← send_text text s;
  match sent_lookup s.(hs).(responseSentMap) typeinfo with
  | Some handler => called handler result (add_log (ResponseSent handler result) s)
  | None => Ret s
  end.

(** A handler of sent responses that does not use the session. *)
Definition reply : Z -> string -> reply_call -> t -> outcome t := reply_with (fun _ _ s => Ret s).

Fixpoint replies (sequence : Z) (command : string) (calls : list reply_call) (s : t) : outcome t :=
  match calls with
  | [] => Ret s
  | c :: calls => s ← reply sequence command c s; replies sequence command calls s
  end.

(** Calling a payload. *)
Definition run_payload (p : payload) (s : t) : outcome t :=
  match p with
  | RequestPayload handler data sequence command => replies sequence command (handler data) s
  | EventPayload handler data => Ret (add_log (EventHandled handler data) s)
  end.

(** ** Receiving *)

(** [d.field(name, &v)] for a string, an integer and a boolean. *)
Definition get_string (d : D) (name : string) : option string := d ← des_field d name; des_string d.
Definition get_integer (d : D) (name : string) : option Z := d ← des_field d name; des_integer d.
Definition get_boolean (d : D) (name : string) : option bool := d ← des_field d name; des_boolean d.

Definition processRequest (d : D) (sequence : Z) (s : t) : outcome (option payload * t) :=
  match get_string d "command" with
  | None => Ret (None, error ["Request missing string 'command' field"] s)
  | Some command =>
    match s.(hs).(requestMap) !! command with
    | None => Ret (None, error ["No request handler registered for command '"; command; "'"] s)
    | Some (typeinfo, handler) =>
      data ← construct env fuel typeinfo;
      '(ok, data) ← match des_field d "arguments" with
                    | None => Ret (false, data)
                    | Some d => deserialize env fuel typeinfo d data
                    end;
      if negb ok then Ret (None, error ["Failed to deserialize request"] s)
      else Ret (Some (RequestPayload handler data sequence command), s)
    end
  end.

Definition processEvent (d : D) (s : t) : outcome (option payload * t) :=
  match get_string d "event" with
  | None => Ret (None, error ["Event missing string 'event' field"] s)
  | Some event =>
    match s.(hs).(eventMap) !! event with
    | None => Ret (None, error ["No event handler registered for event '"; event; "'"] s)
    | Some (typeinfo, handler) =>
      data ← construct env fuel typeinfo;
      '(body_ok, data) ← match des_field d "body" with
                         | None => Ret (true, data)
                         | Some d => deserialize env fuel typeinfo d data
                         end;
      if negb body_ok then Ret (None, error ["Failed to deserialize event '"; event; "' body"] s)
      else Ret (Some (EventPayload handler data), s)
    end
  end.

Definition processResponse (d : D) (s : t) : outcome t :=
  match get_integer d "request_seq" with
  | None => Ret (error ["Response missing int 'request_seq' field"] s)
  | Some requestSeq =>
    let '(entry, s) := response requestSeq s in
    match entry with
    | None => Ret (error ["Unknown response with sequence "; int_text (s32 requestSeq)] s)
    | Some (typeinfo, handler) =>
      match get_boolean d "success" with
      | None => Ret (error ["Response missing int 'success' field"] s)
      | Some true =>
        data ← construct env fuel typeinfo;
        '(_, data) ← match des_field d "body" with
                     | None => Ret (false, data)
                     | Some d => deserialize env fuel typeinfo d data
                     end;
        Ret (add_log (ResponseHandled handler (inl data)) s)
      | Some false =>
        match get_string d "message" with
        | None => Ret (error ["Failed to deserialize message"] s)
        | Some message => Ret (add_log (ResponseHandled handler (inr (error_text [message]))) s)
        end
      end
    end
  end.

Definition processMessage (str : string) (s : t) : outcome (option payload * t) :=
  d ← json_parse str;
  match get_string d "type" with
  | None => Ret (None, error ["Message missing string 'type' field"] s)
  | Some type =>
    match get_integer d "seq" with
    | None => Ret (None, error ["Message missing number 'seq' field"] s)
    | Some sequence =>
      if bool_decide (type = "request") then processRequest d sequence s
      else if bool_decide (type = "event") then processEvent d s
      else if bool_decide (type = "response") then
        s ← processResponse d s; Ret (None, s)
      else Ret (None, error ["Unknown message type '"; type; "'"] s)
    end
  end.

(** [getPayload()]. *)
Definition getPayload (s : t) : outcome (option payload * t) :=
  '(request, r) ← ContentReader.read fuel s.(reader);
  let s := set_reader r s in
  if size_of (bytes_of request) >? 0 then processMessage request s
  else Ret (None, s).

(** ** Connecting, processing and closing *)
Definition setOnInvalidData (m : OnInvalidData) (s : t) : t :=
  {| isBound := s.(isBound); isProcessingMessages := s.(isProcessingMessages); reader := s.(reader);
     writer := s.(writer); hs := s.(hs); inbox := s.(inbox); nextSeq := s.(nextSeq);
     onInvalidData := m; log := s.(log) |}.

Definition connect (r : R) (w : W) (s : t) : t :=
  if s.(isBound) then error ["Session::connect called twice"] s
  else set_writer (ContentWriter.create w)
         (set_reader (ContentReader.create r s.(onInvalidData)) (set_isBound true s)).

(** [startProcessingMessages]: whether the two threads are started. *)
Definition startProcessingMessages (s : t) : bool * t :=
  if s.(isProcessingMessages) then
    (false, error ["Session::startProcessingMessages() called twice"] s)
  else (true, set_isProcessing true s).

(** [bind(reader, writer, onClose)]. *)
Definition bind (r : R) (w : W) (s : t) : bool * t := startProcessingMessages (connect r w s).

(** One turn of the receiving thread: [None] when the loop ends. *)
Definition recv_turn (s : t) : outcome (option t) :=
  if negb (ContentReader.isOpen s.(reader)) then Ret None
  else
    '(p, s) ← getPayload s;
    Ret (Some match p with
              | Some p => set_inbox (Chan.put s.(inbox) p).2 s
              | None => s
              end).

(** One turn of the dispatching thread; it waits while the inbox is empty. *)
Definition dispatch_turn (s : t) : outcome (option t) :=
  if negb (Chan.take_ready s.(inbox)) then Blocks
  else
    let '(p, q) := Chan.take s.(inbox) in
    let s := set_inbox q s in
    match p with
    | Some p => s ← run_payload p s; Ret (Some s)
    | None => Ret None
    end.

(** [~Impl()], up to the joins. *)
Definition shutdown (s : t) : t :=
  set_writer (ContentWriter.close s.(writer))
    (set_reader (ContentReader.close s.(reader)) (set_inbox (Chan.close s.(inbox)) s)).
End Session.
Arguments action : clear implicits.
Arguments handlers : clear implicits.
Arguments payload : clear implicits.
Arguments t : clear implicits.
End Session.

(** ** Messages *)
Section Messages.
Context {D Ser FS : Type} {HB : JsonBackend D Ser FS} {HD : DeserializerView D} {HV : SerializerView Ser FS}.
Context {L : limits} {HC : JsonBackendContract D Ser FS L}.

(** The object with the given fields. *)
Definition doc (kvs : list (string * jtree)) : jtree := JObject (sm_insert_all [] kvs).

(** The members of a parsed message. *)
Definition message (d : D) (kvs : list (string * jtree)) : Prop :=
  des_tree d = Some (doc kvs) /\ NoDup kvs.*1.

Definition parsed (text : string) (kvs : list (string * jtree)) : Prop :=
  exists d, json_parse text = Ret d /\ message d kvs.

(** Text that is printed and stored unchanged. *)
Definition text_ok (s : string) : bool := utf8 (bytes_of s) && lim_string L s.

(** A field call that stores [kv]. *)
Definition stores_field (call : FS -> outcome (bool * FS)) (kv : string * jtree) : Prop :=
  exists cb, call = fs_field kv.1 cb /\ forall s : Ser, fresh_ser s -> stored false kv.2 (cb s).

Lemma all_fields_store calls kvs f o :
  Forall2 stores_field calls kvs -> NoDup kvs.*1 -> Forall (fun kv => plain kv.1 = true) kvs ->
  (forall n, n ∈ kvs.*1 -> sm_lookup o n = None) ->
  fs_content f = Some o ->
  exists f', Session.all_fields calls f = Ret (true, f') /\ fs_content f' = Some (sm_insert_all o kvs).
Proof using HC.
  intros HF. revert f o. induction HF as [|call [n j] calls kvs (cb & -> & Hcb) _ IH]; intros f o Hnd Hp Hfree Hf.
  { by exists f. }
  apply Forall_cons in Hp as [Hp Hps]. cbn in Hnd. apply NoDup_cons in Hnd as [Hn Hnd].
  destruct (sc_field n cb false j f o Hf) as (f1 & H1 & Hf1).
  { apply Hfree. by left. }
  { by apply plain_key. }
  { intros s' Hs'. destruct (Hcb s' Hs') as (s'' & ? & ? & ?). by exists s''. }
  cbn [Session.all_fields fst]. rewrite H1. unfold and_then. rewrite outcome_bind_ret_l.
  apply IH; [done|done| |done]. intros x Hx. rewrite sm_lookup_insert_ne; [apply Hfree; by right|].
  cbn. intros He. rewrite <-He in Hx. done.
Qed.

Lemma sm_insert_all_canonical kvs :
  Forall (fun kv => plain kv.1 = true) kvs -> Forall (fun kv => canonical L false kv.2 = true) kvs ->
  canonical L false (doc kvs) = true.
Proof using HC.
  intros Hp HF. unfold doc. cbn. apply andb_true_iff. split.
  - apply sortedb_sorted. by apply sm_insert_all_sorted.
  - apply forallb_forall. intros kv Hkv%list_elem_of_In.
    assert (Hall : Forall (fun kv => lim_key L kv.1 && canonical L false kv.2 = true) (sm_insert_all [] kvs)).
    { apply (sm_insert_all_forall (fun kv : string * jtree => lim_key L kv.1 && canonical L false kv.2 = true)); [|done].
      rewrite Forall_forall in *. intros x Hx. rewrite plain_key, HF; auto. }
    rewrite Forall_forall in Hall. by apply Hall.
Qed.

Lemma doc_height kvs h : Forall (fun kv => jheight kv.2 <= h)%nat kvs -> (jheight (doc kvs) <= S h)%nat.
Proof.
  intros HF. unfold doc. rewrite jheight_object.
  assert (Hall : Forall (fun kv => jheight kv.2 <= h)%nat (sm_insert_all [] kvs))
    by by apply (sm_insert_all_forall (fun kv : string * jtree => jheight kv.2 <= h)%nat).
  unfold jheights. induction Hall as [|kv o Hkv _ IH]; cbn -[jheight] in *; lia.
Qed.

Lemma sm_insert_all_printable kvs :
  Forall (fun kv => utf8 (bytes_of kv.1) && printable kv.2 = true) kvs -> printable (doc kvs) = true.
Proof.
  intros HF. unfold doc. cbn. apply forallb_forall. intros kv Hkv%list_elem_of_In.
  assert (Hall : Forall (fun kv => utf8 (bytes_of kv.1) && printable kv.2 = true) (sm_insert_all [] kvs)).
  { by apply (sm_insert_all_forall (fun kv : string * jtree => utf8 (bytes_of kv.1) && printable kv.2 = true)). }
  rewrite Forall_forall in Hall. by apply Hall.
Qed.

(** What [build] and [dump] make of such fields, the other side parses. *)
Lemma message_text calls kvs h :
  Forall2 stores_field calls kvs -> NoDup kvs.*1 -> Forall (fun kv => plain kv.1 = true) kvs ->
  Forall (fun kv => canonical L false kv.2 = true) kvs ->
  Forall (fun kv => utf8 (bytes_of kv.1) && printable kv.2 = true) kvs ->
  Forall (fun kv => jheight kv.2 <= h)%nat kvs -> lim_depth L (S h) = true ->
  exists ser text, Session.build calls = Ret (true, ser) /\ json_dump ser = Ret text /\
    text <> EmptyString /\ parsed text kvs.
Proof using HC.
  intros HF Hnd Hk Hc Hp Hh Hd. destruct (sc_struct json_new backend_new) as (f & Hf & Hlaw).
  destruct (all_fields_store calls kvs f [] HF Hnd Hk) as (f' & Hr & Hf'); [done..|].
  destruct (Hlaw _ _ _ Hr Hf') as (ser & Hser & Hcont & _).
  destruct (backend_text ser _ Hcont) as (text & d & ? & ? & ? & ?).
  - by apply (sm_insert_all_canonical kvs).
  - by apply (sm_insert_all_printable kvs).
  - eapply lim_depth_le; [by apply doc_height|done].
  - exists ser, text. split_and!; [done..|]. by exists d.
Qed.

Lemma message_field d kvs n :
  message d kvs -> plain n = true -> exists d', des_field d n = Some d' /\ des_tree d' = sm_lookup kvs n.
Proof using HC.
  intros [Hd Hnd] Hn. destruct (dc_field d _ n Hd) as (d' & Hd' & Ht); [by apply plain_key|]. exists d'.
  by rewrite sm_lookup_doc in Ht.
Qed.

Lemma get_string_is d kvs n x :
  message d kvs -> plain n = true -> sm_lookup kvs n = Some (JString x) -> lim_string L x = true ->
  Session.get_string d n = Some x.
Proof using HC.
  intros Hm Hn Hx Hl. destruct (message_field _ _ n Hm Hn) as (d' & Hd' & Ht). unfold Session.get_string.
  rewrite Hd'. cbn. apply dc_string; [by rewrite Ht|done].
Qed.

Lemma get_boolean_message d kvs n :
  message d kvs -> plain n = true ->
  Session.get_boolean d n = match sm_lookup kvs n with Some (JBool s) => Some s | _ => None end.
Proof using HC.
  intros Hm Hn. destruct (message_field _ _ n Hm Hn) as (d' & Hd' & Ht). unfold Session.get_boolean.
  rewrite Hd'. cbn. by rewrite dc_boolean, Ht.
Qed.

Lemma get_boolean_is d kvs n b :
  message d kvs -> plain n = true -> sm_lookup kvs n = Some (JBool b) -> Session.get_boolean d n = Some b.
Proof using HC. intros Hm Hn Hx. by rewrite (get_boolean_message _ _ n Hm Hn), Hx. Qed.

Lemma get_integer_message d kvs n z :
  message d kvs -> plain n = true -> sm_lookup kvs n = Some (JInt z) -> in_int64 z = true ->
  Session.get_integer d n = Some z.
Proof using HC.
  intros Hm Hn Hz Hr. destruct (message_field _ _ n Hm Hn) as (d' & Hd' & Ht). unfold Session.get_integer.
  rewrite Hd'. cbn. apply dc_integer; [by rewrite Ht|done].
Qed.

(** Dispatch on the type of a message. *)
Section Dispatch.
Context {R W : Type} {HR : Reader R} {HW : Writer W} {EH RH VH SH : Type} (env : schema) (fuel : nat).
Implicit Types s : Session.t R W EH RH VH SH.

Lemma dispatch_request str d kvs seq s :
  json_parse str = Ret d -> message d kvs -> sm_lookup kvs "type" = Some (JString "request") ->
  sm_lookup kvs "seq" = Some (JInt seq) -> in_int64 seq = true ->
  Session.processMessage env fuel str s = Session.processRequest env fuel d seq s.
Proof using HC.
  intros Hp Hm Ht Hs Hr. unfold Session.processMessage. rewrite Hp, outcome_bind_ret_l.
  rewrite (get_string_is _ _ "type" _ Hm eq_refl Ht) by by apply plain_string.
  by rewrite (get_integer_message _ _ "seq" _ Hm eq_refl Hs Hr).
Qed.

Lemma dispatch_event str d kvs seq s :
  json_parse str = Ret d -> message d kvs -> sm_lookup kvs "type" = Some (JString "event") ->
  sm_lookup kvs "seq" = Some (JInt seq) -> in_int64 seq = true ->
  Session.processMessage env fuel str s = Session.processEvent env fuel d s.
Proof using HC.
  intros Hp Hm Ht Hs Hr. unfold Session.processMessage. rewrite Hp, outcome_bind_ret_l.
  rewrite (get_string_is _ _ "type" _ Hm eq_refl Ht) by by apply plain_string.
  by rewrite (get_integer_message _ _ "seq" _ Hm eq_refl Hs Hr).
Qed.

Lemma dispatch_response str d kvs seq s :
  json_parse str = Ret d -> message d kvs -> sm_lookup kvs "type" = Some (JString "response") ->
  sm_lookup kvs "seq" = Some (JInt seq) -> in_int64 seq = true ->
  Session.processMessage env fuel str s = (s ← Session.processResponse env fuel d s; Ret (None, s)).
Proof using HC.
  intros Hp Hm Ht Hs Hr. unfold Session.processMessage. rewrite Hp, outcome_bind_ret_l.
  rewrite (get_string_is _ _ "type" _ Hm eq_refl Ht) by by apply plain_string.
  by rewrite (get_integer_message _ _ "seq" _ Hm eq_refl Hs Hr).
Qed.

End Dispatch.
End Messages.
