(* ===== verification/SessionThreads.v ===== *)
(** * The threads of a session

    [startProcessingMessages] starts a receiving thread, which reads messages and puts
    their payloads in the inbox, and a dispatching thread, which takes payloads out and
    calls them; [~Impl] closes the inbox and the streams and joins both. The machine
    interleaves the two threads, the thread that owns the session and the other end of
    the connection; the inbox is the channel of [Chan.v], the turns of the threads are
    those of [Session.v] with a payload abstracted to a value. A payload that is called
    returns. As in [bind], [connect] comes before the threads are started. *)
From Stdlib Require Import ZArith Lia.
From stdpp Require Import base list relations.
From S2P Require Import Prelude Monitor Chan.

Module SessionThreads.
Section Threads.
Context {P : Type}.
(** Whether closing the transport ends a read that waits for data: so it is for pipes
    and sockets, not for a file on a terminal. *)
Context (wakes : bool).

(** The receiving thread: at the test of its loop, in [getPayload], with a payload to
    put, past the loop, at its end. *)
Inductive receiver := Testing | Reading | Putting (p : P) | Leaving | RecvEnded.

(** The dispatching thread: in [take], in a payload, at its end. *)
Inductive dispatcher := Taking | Calling (p : P) | DispatchEnded.

(** The owner: outside, between the two thread constructors, in the destructor. *)
Inductive owner :=
| Outside | Spawning | InboxClosing | ReaderClosing | WriterClosing | RecvJoining | DispatchJoining | Destroyed.

(** A thread object that is not joinable is [None]. [puts] and [called] are the payloads
    put and called so far, [atClose] the number put when the inbox was closed. *)
Record t := mk {
  isBound : bool;
  isProcessingMessages : bool;
  open : bool;
  inbox : Chan.t P;
  recvThread : option receiver;
  dispatchThread : option dispatcher;
  control : owner;
  puts : list P;
  called : list P;
  atClose : nat;
  closedCalls : nat
}.

Definition create : t := mk false false false Chan.create None None Outside [] [] 0 0.

Definition set_recv (r : option receiver) (s : t) : t :=
  mk s.(isBound) s.(isProcessingMessages) s.(open) s.(inbox) r s.(dispatchThread) s.(control)
    s.(puts) s.(called) s.(atClose) s.(closedCalls).

Definition set_control (o : owner) (s : t) : t :=
  mk s.(isBound) s.(isProcessingMessages) s.(open) s.(inbox) s.(recvThread) s.(dispatchThread) o
    s.(puts) s.(called) s.(atClose) s.(closedCalls).

Definition set_dispatch (d : option dispatcher) (q : Chan.t P) (ps : list P) (s : t) : t :=
  mk s.(isBound) s.(isProcessingMessages) s.(open) q s.(recvThread) d s.(control)
    s.(puts) ps s.(atClose) s.(closedCalls).

Definition set_open (b : bool) (s : t) : t :=
  mk s.(isBound) s.(isProcessingMessages) b s.(inbox) s.(recvThread) s.(dispatchThread) s.(control)
    s.(puts) s.(called) s.(atClose) s.(closedCalls).

(** [connect]: the streams are replaced once. *)
Definition connect (s : t) : t :=
  if s.(isBound) then s
  else mk true s.(isProcessingMessages) true s.(inbox) s.(recvThread) s.(dispatchThread) s.(control)
    s.(puts) s.(called) s.(atClose) s.(closedCalls).

(** [startProcessingMessages], up to the construction of [recvThread]. *)
Definition start (s : t) : t :=
  if s.(isProcessingMessages) then s
  else mk s.(isBound) true s.(open) s.(inbox) (Some Testing) s.(dispatchThread) Spawning
    s.(puts) s.(called) s.(atClose) s.(closedCalls).

Definition spawn_dispatch (s : t) : t := set_control Outside (set_dispatch (Some Taking) s.(inbox) s.(called) s).

(** [while (reader.isOpen())]. *)
Definition recv_test (s : t) : t := set_recv (Some (if s.(open) then Reading else Leaving)) s.

(** [inbox.put(std::move(payload))]. *)
Definition recv_put (p : P) (s : t) : t :=
  mk s.(isBound) s.(isProcessingMessages) s.(open) (Chan.put s.(inbox) p).2 (Some Testing)
    s.(dispatchThread) s.(control) (s.(puts) ++ [p]) s.(called) s.(atClose) s.(closedCalls).

(** [onClose()], then the end of the thread. *)
Definition recv_leave (s : t) : t :=
  mk s.(isBound) s.(isProcessingMessages) s.(open) s.(inbox) (Some RecvEnded)
    s.(dispatchThread) s.(control) s.(puts) s.(called) s.(atClose) (S s.(closedCalls)).

(** [while (auto payload = inbox.take())]. *)
Definition dispatch_take (s : t) : t :=
  let '(p, q) := Chan.take s.(inbox) in
  set_dispatch (Some match p with Some p => Calling p | None => DispatchEnded end) q s.(called) s.

Definition dispatch_call (p : P) (s : t) : t := set_dispatch (Some Taking) s.(inbox) (s.(called) ++ [p]) s.

(** [inbox.close()], the first call of the destructor. *)
Definition close_inbox (s : t) : t :=
  mk s.(isBound) s.(isProcessingMessages) s.(open) (Chan.close s.(inbox)) s.(recvThread)
    s.(dispatchThread) ReaderClosing s.(puts) s.(called) (length s.(puts)) s.(closedCalls).

(** [if (thread.joinable()) thread.join()] can pass. *)
Definition recv_joinable (s : t) : bool :=
  match s.(recvThread) with None | Some RecvEnded => true | _ => false end.

Definition dispatch_joinable (s : t) : bool :=
  match s.(dispatchThread) with None | Some DispatchEnded => true | _ => false end.

(** A call of [reader.read()] returns: data arrived, or the transport was closed. *)
Definition read_returns (s : t) : bool := s.(open) || wakes.

Inductive step : t -> t -> Prop :=
| step_connect s : s.(control) = Outside -> s.(isProcessingMessages) = false -> step s (connect s)
| step_start s : s.(control) = Outside -> step s (start s)
| step_spawn s : s.(control) = Spawning -> step s (spawn_dispatch s)
| step_peer_closes s : s.(open) = true -> step s (set_open false s)
| step_test s : s.(recvThread) = Some Testing -> step s (recv_test s)
| step_read_payload s p : s.(recvThread) = Some Reading -> read_returns s = true ->
    step s (set_recv (Some (Putting p)) s)
| step_read_nothing s : s.(recvThread) = Some Reading -> read_returns s = true ->
    step s (set_recv (Some Testing) s)
| step_put s p : s.(recvThread) = Some (Putting p) -> step s (recv_put p s)
| step_leave s : s.(recvThread) = Some Leaving -> step s (recv_leave s)
| step_take s : s.(dispatchThread) = Some Taking -> Chan.take_ready s.(inbox) = true -> step s (dispatch_take s)
| step_called s p : s.(dispatchThread) = Some (Calling p) -> step s (dispatch_call p s)
| step_destroy s : s.(control) = Outside -> step s (set_control InboxClosing s)
| step_close_inbox s : s.(control) = InboxClosing -> step s (close_inbox s)
| step_close_reader s : s.(control) = ReaderClosing -> step s (set_control WriterClosing (set_open false s))
| step_close_writer s : s.(control) = WriterClosing -> step s (set_control RecvJoining s)
| step_join_recv s : s.(control) = RecvJoining -> recv_joinable s = true ->
    step s (set_control DispatchJoining (set_recv None s))
| step_join_dispatch s : s.(control) = DispatchJoining -> dispatch_joinable s = true ->
    step s (set_control Destroyed (set_dispatch None s.(inbox) s.(called) s)).

(** ** Invariants *)

(** What the destructor has done so far. *)
Definition inbox_closed (o : owner) : bool :=
  match o with Outside | Spawning | InboxClosing => false | _ => true end.

Definition reader_closed (o : owner) : bool :=
  match o with WriterClosing | RecvJoining | DispatchJoining | Destroyed => true | _ => false end.

Definition recv_joined (o : owner) : bool :=
  match o with DispatchJoining | Destroyed => true | _ => false end.

(** The payload a thread has in hand. *)
Definition in_call (s : t) : list P :=
  match s.(dispatchThread) with Some (Calling p) => [p] | _ => [] end.

Record threads_ok (s : t) : Prop := {
  ok_order : s.(puts) = s.(called) ++ in_call s ++ s.(inbox).(Chan.queue);
  ok_inbox : s.(inbox).(Chan.closed) = inbox_closed s.(control);
  ok_reader : reader_closed s.(control) = true -> s.(open) = false;
  ok_recv : recv_joined s.(control) = true -> s.(recvThread) = None;
  ok_idle : s.(isProcessingMessages) = false ->
    s.(recvThread) = None /\ s.(dispatchThread) = None /\ s.(puts) = [] /\ s.(control) <> Spawning;
  ok_drained : s.(dispatchThread) = Some DispatchEnded \/
      s.(isProcessingMessages) = true /\ s.(dispatchThread) = None /\ s.(control) <> Spawning ->
    inbox_closed s.(control) = true /\ (s.(atClose) <= length s.(called))%nat;
  ok_spawning : s.(control) = Spawning -> s.(isProcessingMessages) = true /\ s.(dispatchThread) = None;
  ok_destroyed : s.(control) = Destroyed -> s.(dispatchThread) = None;
  ok_close : inbox_closed s.(control) = true -> (s.(atClose) <= length s.(puts))%nat
}.

Lemma create_ok : threads_ok create.
Proof. split; cbn; try done. intros [?|(? & ?)]; done. Qed.

Lemma connect_ok s : threads_ok s -> s.(control) = Outside -> threads_ok (connect s).
Proof.
  intros [] Hc. unfold connect. destruct (isBound s); split; cbn; try done; by rewrite Hc.
Qed.

Lemma start_ok s : threads_ok s -> s.(control) = Outside -> threads_ok (start s).
Proof.
  intros [Ho Hi Hr Hv Hid Hd Hs Hx Hk] Hc. unfold start. destruct (isProcessingMessages s) eqn:E; [by split; rewrite ?E|].
  destruct (Hid eq_refl) as (Hrt & Hdt & Hp & _). rewrite Hc in *.
  split; cbn; try done. rewrite Hdt. intros [?|(_ & _ & ?)]; done.
Qed.

Lemma spawn_ok s : threads_ok s -> s.(control) = Spawning -> threads_ok (spawn_dispatch s).
Proof.
  intros [Ho Hi Hr Hv Hid Hd Hs Hx Hk] Hc. destruct (Hs Hc) as [Hp Hdt]. rewrite Hc in *.
  unfold in_call in Ho. rewrite Hdt in Ho. split; cbn; try done.
  - by rewrite Hp.
  - intros [?|(_ & ? & _)]; done.
Qed.

Lemma recv_ok r s : threads_ok s -> is_Some s.(recvThread) -> threads_ok (set_recv (Some r) s).
Proof.
  intros [Ho Hi Hr Hv Hid Hd Hs Hx Hk] [r' Hrt]. split; cbn; try done.
  - intros H. specialize (Hv H). congruence.
  - intros H. destruct (Hid H). congruence.
Qed.

Lemma recv_put_ok p s : threads_ok s -> s.(recvThread) = Some (Putting p) -> threads_ok (recv_put p s).
Proof.
  intros [Ho Hi Hr Hv Hid Hd Hs Hx Hk] Hrt. split; cbn; try done.
  - rewrite Ho, <-!app_assoc. done.
  - intros H. specialize (Hv H). congruence.
  - intros H. destruct (Hid H). congruence.
  - intros H. rewrite length_app. specialize (Hk H). lia.
Qed.

Lemma recv_leave_ok s : threads_ok s -> s.(recvThread) = Some Leaving -> threads_ok (recv_leave s).
Proof.
  intros [Ho Hi Hr Hv Hid Hd Hs Hx Hk] Hrt. split; cbn; try done.
  - intros H. specialize (Hv H). congruence.
  - intros H. destruct (Hid H). congruence.
Qed.

Lemma take_ok s :
  threads_ok s -> s.(dispatchThread) = Some Taking -> Chan.take_ready s.(inbox) = true -> threads_ok (dispatch_take s).
Proof.
  intros [Ho Hi Hr Hv Hid Hd Hs Hx Hk] Hdt Ht. rewrite Chan.take_ready_spec in Ht.
  unfold in_call in Ho. rewrite Hdt in *. unfold dispatch_take, Chan.take. cbn in Ho.
  destruct (Chan.queue (inbox s)) as [|p q] eqn:Eq.
  - split; cbn; try done.
    + by rewrite Eq.
    + intros H. by destruct (Hid H) as (_ & ? & _).
    + intros _. rewrite Hi in Ht. split; [done|]. rewrite app_nil_r in Ho. rewrite <-Ho. auto.
    + intros H. by destruct (Hs H).
    + intros H. by specialize (Hx H).
  - split; cbn; try done.
    + intros H. by destruct (Hid H) as (_ & ? & _).
    + intros [?|(_ & ? & _)]; done.
    + intros H. by destruct (Hs H).
    + intros H. by specialize (Hx H).
Qed.

Lemma call_ok p s : threads_ok s -> s.(dispatchThread) = Some (Calling p) -> threads_ok (dispatch_call p s).
Proof.
  intros [Ho Hi Hr Hv Hid Hd Hs Hx Hk] Hdt. unfold in_call in Ho. rewrite Hdt in *. split; cbn; try done.
  - by rewrite Ho, <-app_assoc.
  - intros H. by destruct (Hid H) as (_ & ? & _).
  - intros [?|(_ & ? & _)]; done.
  - intros H. by destruct (Hs H).
  - intros H. by specialize (Hx H).
Qed.

Lemma set_open_ok s : threads_ok s -> threads_ok (set_open false s).
Proof. intros [Ho Hi Hr Hv Hid Hd Hs Hx Hk]. by split. Qed.

Lemma no_recv_ok s : threads_ok s -> threads_ok (set_recv None s).
Proof.
  intros [Ho Hi Hr Hv Hid Hd Hs Hx Hk]. split; cbn; try done.
  intros H. destruct (Hid H) as (_ & ?). done.
Qed.

(** The owner moves on without closing the inbox. *)
Lemma move_ok o s :
  threads_ok s -> s.(control) <> Spawning -> o <> Spawning -> inbox_closed o = inbox_closed s.(control) ->
  (reader_closed o = true -> s.(open) = false) -> (recv_joined o = true -> s.(recvThread) = None) ->
  (o = Destroyed -> s.(dispatchThread) = None) -> threads_ok (set_control o s).
Proof.
  intros [Ho Hi Hr Hv Hid Hd Hs Hx Hk] Hc Hsp He Hop Hrc Hds. split; cbn; try done.
  - by rewrite He.
  - intros H. by destruct (Hid H) as (? & ? & ? & _).
  - intros H. rewrite He. apply Hd. destruct H as [?|(? & ? & _)]; [by left|by right].
  - by rewrite He.
Qed.

Lemma close_inbox_ok s : threads_ok s -> s.(control) = InboxClosing -> threads_ok (close_inbox s).
Proof.
  intros [Ho Hi Hr Hv Hid Hd Hs Hx Hk] Hc. rewrite Hc in *. split; cbn; try done.
  - intros H. by destruct (Hid H) as (? & ? & ? & _).
  - intros [?|(? & ? & _)]; [by destruct Hd; [left|]|by destruct Hd; [right|]].
Qed.

Lemma join_dispatch_ok s :
  threads_ok s -> s.(control) = DispatchJoining -> dispatch_joinable s = true ->
  threads_ok (set_dispatch None s.(inbox) s.(called) s).
Proof.
  intros [Ho Hi Hr Hv Hid Hd Hs Hx Hk] Hc Hj. unfold dispatch_joinable in Hj. split; cbn; try done.
  - rewrite Ho. unfold in_call. by destruct (dispatchThread s) as [[]|].
  - intros H. by destruct (Hid H) as (? & ? & ? & ?).
  - intros [?|(? & _ & _)]; [done|]. apply Hd. rewrite Hc. destruct (dispatchThread s) as [[]|]; [done..|by left|by right].
  - rewrite Hc. done.
Qed.

Lemma step_ok s s' : threads_ok s -> step s s' -> threads_ok s'.
Proof.
  intros Hok Hs. destruct Hs as [s Hc _|s Hc|s Hc|s _|s Hr|s p Hr _|s Hr _|s p Hr|s Hr|s Hd Ht|s p Hd|s Hc|s Hc|s Hc|s Hc
    |s Hc Hj|s Hc Hj];
    eauto using connect_ok, start_ok, spawn_ok, recv_put_ok, recv_leave_ok, take_ok, call_ok, set_open_ok, close_inbox_ok.
  - by apply recv_ok; [|rewrite Hr].
  - by apply recv_ok; [|rewrite Hr].
  - by apply recv_ok; [|rewrite Hr].
  - by apply move_ok; rewrite ?Hc.
  - by apply move_ok; [by apply set_open_ok|cbn; rewrite ?Hc..].
  - apply move_ok; rewrite ?Hc; try done. intros _. apply (ok_reader _ Hok). by rewrite Hc.
  - apply move_ok; cbn; rewrite ?Hc; try done; [by apply no_recv_ok|]. intros _. apply (ok_reader _ Hok). by rewrite Hc.
  - apply move_ok; cbn; rewrite ?Hc; try done; [by apply join_dispatch_ok|intros _..].
    + apply (ok_reader _ Hok). by rewrite Hc.
    + apply (ok_recv _ Hok). by rewrite Hc.
Qed.

Lemma reachable_ok s : rtc step create s -> threads_ok s.
Proof. apply (rtc_ind_r threads_ok); [exact create_ok|]. intros. by eapply step_ok. Qed.

(** ** Termination of the destructor

    Once the reader is closed every step of any thread takes this measure down: a message
    in hand is put and called, and both loops end. *)
Definition owner_work (o : owner) : nat :=
  match o with
  | WriterClosing => 3 | RecvJoining => 2 | DispatchJoining => 1 | Destroyed => 0
  | _ => 4
  end.

Definition recv_work (r : option receiver) : nat :=
  match r with
  | Some Reading => 6 | Some (Putting _) => 5 | Some Testing => 2 | Some Leaving => 1
  | Some RecvEnded | None => 0
  end.

Definition dispatch_work (d : option dispatcher) : nat :=
  match d with Some (Calling _) => 2 | Some Taking => 1 | Some DispatchEnded | None => 0 end.

Definition work (s : t) : nat :=
  (owner_work s.(control) + recv_work s.(recvThread) + dispatch_work s.(dispatchThread)
   + 2 * length s.(inbox).(Chan.queue))%nat.

Lemma step_work s s' :
  threads_ok s -> reader_closed s.(control) = true -> step s s' ->
  (work s' < work s)%nat /\ reader_closed s'.(control) = true.
Proof.
  intros Hok Hrc Hs. pose proof (ok_reader _ Hok Hrc) as Hop. unfold work.
  destruct Hs as [s Hc _|s Hc|s Hc|s Ho|s Hr|s p Hr _|s Hr _|s p Hr|s Hr|s Hd Ht|s p Hd|s Hc|s Hc|s Hc|s Hc
    |s Hc Hj|s Hc Hj]; try (by rewrite Hc in Hrc); try congruence.
  - unfold recv_test. cbn. rewrite Hr, Hop. cbn. split; [lia|done].
  - cbn. rewrite Hr. cbn. split; [lia|done].
  - cbn. rewrite Hr. cbn. split; [lia|done].
  - cbn. rewrite Hr, length_app. cbn. split; [lia|done].
  - cbn. rewrite Hr. cbn. split; [lia|done].
  - unfold dispatch_take, Chan.take. rewrite Hd. destruct (Chan.queue (inbox s)) as [|p q] eqn:Eq; cbn; rewrite ?Eq; cbn;
      (split; [lia|done]).
  - cbn. rewrite Hd. cbn. split; [lia|done].
  - cbn. rewrite Hc. cbn. split; [lia|done].
  - cbn. rewrite Hc. cbn. unfold recv_joinable in Hj. destruct (recvThread s) as [[]|]; cbn; (split; [lia|done]).
  - cbn. rewrite Hc. cbn. unfold dispatch_joinable in Hj. destruct (dispatchThread s) as [[]|]; cbn; (split; [lia|done]).
Qed.

(** As long as the destructor has not returned, some thread can move. *)
Lemma destructor_progress s :
  wakes = true -> threads_ok s -> reader_closed s.(control) = true -> s.(control) <> Destroyed -> exists s', step s s'.
Proof.
  intros Hw Hok Hrc Hd. destruct (control s) eqn:Hc; try done.
  - eexists. by apply step_close_writer.
  - assert (Hrr : read_returns s = true) by (unfold read_returns; rewrite Hw; apply orb_true_r).
    destruct (recvThread s) as [[]|] eqn:Hr.
    + eexists. by apply step_test.
    + eexists. by apply step_read_nothing.
    + eexists. by eapply step_put.
    + eexists. by apply step_leave.
    + eexists. apply step_join_recv; [done|]. unfold recv_joinable. by rewrite Hr.
    + eexists. apply step_join_recv; [done|]. unfold recv_joinable. by rewrite Hr.
  - assert (Ht : Chan.take_ready s.(inbox) = true).
    { rewrite Chan.take_ready_spec, (ok_inbox _ Hok), Hc. by destruct (Chan.queue (inbox s)). }
    destruct (dispatchThread s) as [[]|] eqn:Hdt.
    + eexists. by apply step_take.
    + eexists. by eapply step_called.
    + eexists. apply step_join_dispatch; [done|]. unfold dispatch_joinable. by rewrite Hdt.
    + eexists. apply step_join_dispatch; [done|]. unfold dispatch_joinable. by rewrite Hdt.
Qed.

Lemma destructor_bounded n s s' :
  threads_ok s -> reader_closed s.(control) = true -> nsteps step n s s' ->
  (n + work s' <= work s)%nat /\ threads_ok s' /\ reader_closed s'.(control) = true.
Proof.
  intros Hok Hrc Hn. revert Hok Hrc. induction Hn as [s|n s s1 s2 Hs _ IH]; intros Hok Hrc; [done|].
  destruct (step_work _ _ Hok Hrc Hs). destruct IH as (? & ? & ?); [by eapply step_ok|done|]. split; [lia|done].
Qed.
End Threads.
Arguments t : clear implicits.
End SessionThreads.

Module SessionThreadsProps.
Import SessionThreads.
Section Props.
Context {P : Type} (wakes : bool).
Implicit Types s : SessionThreads.t P.

(** C16. Payloads are called in the order in which the receiving thread put them and each
    once, in every interleaving; when the destructor has returned no thread of the
    session is left, and every payload put before the destructor closed the inbox has
    been called. *)
Theorem session_payloads_in_order s :
  rtc (step wakes) create s ->
  s.(called) `prefix_of` s.(puts) /\
  (s.(control) = Destroyed ->
   s.(recvThread) = None /\ s.(dispatchThread) = None /\ firstn s.(atClose) s.(puts) `prefix_of` s.(called)).
Proof.
  intros Hr%reachable_ok. destruct Hr as [Ho Hi Hrd Hv Hid Hd Hs Hx Hk]. split; [by eexists|].
  intros Hc. split_and!; [apply Hv; by rewrite Hc|by apply Hx|].
  destruct (isProcessingMessages s) eqn:Ep.
  - destruct Hd as [_ Hle]; [right; split_and!; [done|by apply Hx|by rewrite Hc]|].
    rewrite Ho, take_app_le by done. apply prefix_take.
  - destruct (Hid eq_refl) as (_ & _ & Hp & _). rewrite Hp, take_nil. apply prefix_nil.
Qed.

(** C17. The destructor returns: once it has closed the reader, and if closing the
    transport ends a waiting read, no run of the threads is longer than the work they have
    in hand, and a run that stops has come to the end of the destructor. *)
Theorem session_destructor_returns s n s' :
  wakes = true -> rtc (step wakes) create s -> reader_closed s.(control) = true -> nsteps (step wakes) n s s' ->
  (n <= work s)%nat /\ ((forall s2, step wakes s' s2 -> False) -> s'.(control) = Destroyed).
Proof.
  intros Hw Hr%reachable_ok Hc Hn. destruct (destructor_bounded _ _ _ _ Hr Hc Hn) as (Hle & Hok & Hc').
  split; [lia|]. intros Hstuck.
  destruct (control s') eqn:E; try done;
    (destruct (destructor_progress wakes s') as [s2 H2]; [done|done|by rewrite E|by rewrite E|by destruct (Hstuck s2)]).
Qed.
End Props.

(** A session that receives one message and is destroyed before it is dispatched. *)
Definition closing : SessionThreads.t Z :=
  mk true true false (Chan.mk true [7]) (Some Testing) (Some Taking) WriterClosing [7] [] 1 0.

Definition destroyed : SessionThreads.t Z := mk true true false (Chan.mk true []) None None Destroyed [7] [7] 1 1.

Lemma closing_reachable : rtc (step true) create closing.
Proof.
  eapply rtc_l; [by apply step_connect|]. eapply rtc_l; [by apply step_start|].
  eapply rtc_l; [by apply step_spawn|]. eapply rtc_l; [by apply step_test|].
  eapply rtc_l; [by apply (step_read_payload _ _ 7)|]. eapply rtc_l; [by apply (step_put _ _ 7)|].
  eapply rtc_l; [by apply step_destroy|]. eapply rtc_l; [by apply step_close_inbox|].
  eapply rtc_l; [by apply step_close_reader|]. apply rtc_refl.
Qed.

Lemma closing_ends : nsteps (step true) 8 closing destroyed.
Proof.
  eapply nsteps_l; [by apply step_close_writer|]. eapply nsteps_l; [by apply step_test|].
  eapply nsteps_l; [by apply step_leave|]. eapply nsteps_l; [by apply step_join_recv|].
  eapply nsteps_l; [by apply step_take|]. eapply nsteps_l; [by apply (step_called _ _ 7)|].
  eapply nsteps_l; [by apply step_take|]. eapply nsteps_l; [by apply step_join_dispatch|]. apply nsteps_O.
Qed.

Lemma session_payloads_in_order_witness : firstn 1 [7] `prefix_of` destroyed.(called).
Proof.
  apply (session_payloads_in_order true destroyed); [|reflexivity].
  transitivity closing; [exact closing_reachable|]. apply rtc_nsteps_2 with 8%nat. exact closing_ends.
Defined.

Lemma session_destructor_returns_witness : (8 <= work closing)%nat.
Proof.
  exact (proj1 (session_destructor_returns true closing 8 destroyed eq_refl closing_reachable eq_refl closing_ends)).
Defined.

(** A transport whose reads are not woken: the receiving thread stays in its read, and
    the destructor never returns. *)
Definition hanging : SessionThreads.t Z :=
  mk true true false (Chan.mk true []) (Some Reading) (Some DispatchEnded) RecvJoining [] [] 0 0.

(** A session on a transport that does not end a waiting read when it is closed, such as
    a file, can hang in its destructor: the state in which both threads are stuck is
    reachable. *)
Theorem session_destructor_hangs :
  rtc (step false) create hanging /\ forall s, step false hanging s -> False.
Proof.
  split.
  - eapply rtc_l; [by apply step_connect|]. eapply rtc_l; [by apply step_start|].
    eapply rtc_l; [by apply step_spawn|]. eapply rtc_l; [by apply step_test|].
    eapply rtc_l; [by apply step_destroy|]. eapply rtc_l; [by apply step_close_inbox|].
    eapply rtc_l; [by apply step_close_reader|]. eapply rtc_l; [by apply step_close_writer|].
    eapply rtc_l; [by apply step_take|]. apply rtc_refl.
  - intros s Hs. inversion Hs; subst; cbn in *; discriminate.
Qed.

(** A payload put after the dispatching thread has ended is dropped with the inbox. *)
Definition dropped : SessionThreads.t Z := mk true true false (Chan.mk true [7]) None None Destroyed [7] [] 0 1.

(** Between the closing of the inbox and that of the reader the receiving thread may
    still accept a message: its payload is never called, the request never answered. *)
Theorem session_late_payload_dropped : rtc (step true) create dropped /\ dropped.(called) <> dropped.(puts).
Proof.
  split; [|done]. eapply rtc_l; [by apply step_connect|]. eapply rtc_l; [by apply step_start|].
  eapply rtc_l; [by apply step_spawn|]. eapply rtc_l; [by apply step_test|].
  eapply rtc_l; [by apply step_destroy|]. eapply rtc_l; [by apply step_close_inbox|].
  eapply rtc_l; [by apply step_take|].
  eapply rtc_l; [by apply (step_read_payload _ _ 7)|]. eapply rtc_l; [by apply (step_put _ _ 7)|].
  eapply rtc_l; [by apply step_close_reader|]. eapply rtc_l; [by apply step_close_writer|].
  eapply rtc_l; [by apply step_test|]. eapply rtc_l; [by apply step_leave|].
  eapply rtc_l; [by apply step_join_recv|]. eapply rtc_l; [by apply step_join_dispatch|]. apply rtc_refl.
Qed.
End SessionThreadsProps.
