(* ===== verification/SessionLocks.v ===== *)
(** * The locks of a session

    The members of [EventHandlers] and the writer of [src/session.cpp] have six mutexes
    to guard them; [connect], [setOnInvalidData], [startProcessingMessages], the
    receiving side and the destructor use the members of [Impl] with no mutex at all.
    Here a method is the sequence of its lock, unlock and member accesses, on each of
    its branches (the data is in [Session.v]; [nextSeq], [isBound] and
    [isProcessingMessages] are atomic and [inbox] has its own mutex, [Chan.v], so they
    are no accesses here). [getPayload] is [Read] followed by the methods that the
    message asks for, a request sent is [PutResponse] followed by [Send]. Any number of
    threads call methods in any order, and their instructions interleave; nothing
    orders the calls of two threads but the mutexes. The error handler of the user is
    called while locks are held, so what it calls is a parameter. *)
From Stdlib Require Import ZArith Lia.
From stdpp Require Import base list relations.
From S2P Require Import Prelude.

Module SessionLocks.

Inductive mutex := errorMutex | requestMutex | responseMutex | eventMutex | responseSentMutex | sendMutex.

Inductive member :=
| errorHandler | requestMap | responseMap | eventMap | responseSentMap
| reader | writer | onInvalidData | recvThread | dispatchThread.

#[global] Instance mutex_eq_dec : EqDecision mutex.
Proof. solve_decision. Defined.
#[global] Instance member_eq_dec : EqDecision member.
Proof. solve_decision. Defined.

(** [Touch x w]: an access of the member, a write if [w]. *)
Inductive instr := Lock (m : mutex) | Unlock (m : mutex) | Touch (x : member) (w : bool).

Section Methods.
(** What the error handler does, if one is set. *)
Context (onErrorHandler : list instr).

(** [std::unique_lock<std::mutex> lock(m)] for the rest of the block. *)
Definition locked (m : mutex) (body : list instr) : list instr := Lock m :: body ++ [Unlock m].

(** [errorLocked] and [errorfLocked] take no lock of their own. *)
Definition errorLocked : list instr := Touch errorHandler false :: onErrorHandler.

Definition error : list instr := locked errorMutex errorLocked.

Definition put_error : list instr := locked errorMutex [Touch errorHandler true].

(** [emplace], and the error when the key was there. *)
Definition emplace (m : mutex) (x : member) (added : bool) : list instr :=
  locked m (Touch x true :: if added then [] else errorLocked).

(** [find], and the copy of what was found. *)
Definition find (m : mutex) (x : member) : list instr := locked m [Touch x false].

Definition response (found : bool) : list instr :=
  locked responseMutex (Touch responseMap false :: if found then [Touch responseMap true] else errorLocked).

Definition send (isOpen : bool) : list instr :=
  locked sendMutex (Touch writer false :: if isOpen then [Touch writer true] else error).

(** [connect], by the value [isBound] had. *)
Definition connect (isBound : bool) : list instr :=
  if isBound then error else [Touch onInvalidData false; Touch reader true; Touch writer true].

Definition setOnInvalidData : list instr := [Touch onInvalidData true].

(** [reader.isOpen()] and [reader.read()] of the receiving side. *)
Definition readerIsOpen : list instr := [Touch reader false].

Definition read : list instr := [Touch reader true].

(** [startProcessingMessages], by the value [isProcessingMessages] had. *)
Definition startProcessingMessages (isProcessingMessages : bool) : list instr :=
  if isProcessingMessages then error else [Touch recvThread true; Touch dispatchThread true].

(** [~Impl]: closing the streams, then [joinable] and [join] of each thread. *)
Definition destroy : list instr :=
  [Touch reader true; Touch writer true;
   Touch recvThread false; Touch recvThread true; Touch dispatchThread false; Touch dispatchThread true].

(** The methods, with the branch they take. *)
Inductive method :=
| OnError | Error
| Request | PutRequest (added : bool)
| Response (found : bool) | PutResponse (added : bool)
| Event | PutEvent (added : bool)
| Sent | PutSent (added : bool)
| Send (isOpen : bool)
| Connect (isBound : bool) | SetOnInvalidData
| ReaderIsOpen | Read | StartProcessingMessages (isProcessingMessages : bool)
| Destroy.

Definition body (f : method) : list instr :=
  match f with
  | OnError => put_error
  | Error => error
  | Request => find requestMutex requestMap
  | PutRequest added => emplace requestMutex requestMap added
  | Response found => response found
  | PutResponse added => emplace responseMutex responseMap added
  | Event => find eventMutex eventMap
  | PutEvent added => emplace eventMutex eventMap added
  | Sent => find responseSentMutex responseSentMap
  | PutSent added => emplace responseSentMutex responseSentMap added
  | Send isOpen => send isOpen
  | Connect isBound => connect isBound
  | SetOnInvalidData => setOnInvalidData
  | ReaderIsOpen => readerIsOpen
  | Read => read
  | StartProcessingMessages isProcessingMessages => startProcessingMessages isProcessingMessages
  | Destroy => destroy
  end.

Definition calls (fs : list method) : list instr := mjoin (body <$> fs).
End Methods.

(** ** Threads *)

(** The mutexes a thread holds, the last one first, and what it has left to do. *)
Record thread := Thread { held : list mutex; rest : list instr }.

Abbreviation config := (list thread).

Definition free (m : mutex) (c : config) : Prop := forall t, t ∈ c -> m ∉ t.(held).

(** A [std::mutex] is not recursive: locking one that is held waits, whoever holds it. *)
Inductive step : config -> config -> Prop :=
| step_lock c i m h p :
    c !! i = Some (Thread h (Lock m :: p)) -> free m c -> step c (<[i := Thread (m :: h) p]> c)
| step_unlock c i m h p :
    c !! i = Some (Thread (m :: h) (Unlock m :: p)) -> step c (<[i := Thread h p]> c)
| step_touch c i x w h p :
    c !! i = Some (Thread h (Touch x w :: p)) -> step c (<[i := Thread h p]> c).

Definition start (onErrorHandler : list instr) (fss : list (list method)) : config :=
  (fun fs => Thread [] (calls onErrorHandler fs)) <$> fss.

(** Two threads are about to access the same member, one of them to write. *)
Definition race (c : config) (x : member) : Prop :=
  exists i j t u w v p q, i <> j /\ c !! i = Some t /\ c !! j = Some u /\
    t.(rest) = Touch x w :: p /\ u.(rest) = Touch x v :: q /\ w || v = true.

Definition finished (c : config) : Prop := Forall (fun t => t.(rest) = []) c.

Definition stuck (c : config) : Prop := ~ finished c /\ forall c', step c c' -> False.

(** ** The discipline *)

(** The mutex a member is declared beside; the others of [Impl] have none. *)
Definition guard (x : member) : option mutex :=
  match x with
  | errorHandler => Some errorMutex
  | requestMap => Some requestMutex
  | responseMap => Some responseMutex
  | eventMap => Some eventMutex
  | responseSentMap => Some responseSentMutex
  | writer => Some sendMutex
  | reader | onInvalidData | recvThread | dispatchThread => None
  end.

Definition guarded (h : list mutex) (x : member) : bool :=
  match guard x with None => false | Some m => bool_decide (m ∈ h) end.

(** [errorMutex] is taken last. *)
Definition rank (m : mutex) : nat := match m with errorMutex => 1 | _ => 0 end.

Fixpoint disciplined (h : list mutex) (p : list instr) : bool :=
  match p with
  | [] => bool_decide (h = [])
  | Lock m :: p => forallb (fun k => rank k <? rank m)%nat h && disciplined (m :: h) p
  | Unlock m :: p => match h with [] => false | k :: h => bool_decide (k = m) && disciplined h p end
  | Touch _ _ :: p => disciplined h p
  end.

(** Does a thread that holds [h] access [x] without the mutex of [x]? *)
Fixpoint exposed (x : member) (h : list mutex) (p : list instr) : bool :=
  match p with
  | [] => false
  | Lock m :: p => exposed x (m :: h) p
  | Unlock _ :: p => exposed x (tail h) p
  | Touch y _ :: p => bool_decide (y = x) && negb (guarded h x) || exposed x h p
  end.

Definition accesses (x : member) (p : list instr) : bool :=
  existsb (fun o => match o with Touch y _ => bool_decide (y = x) | _ => false end) p.

(** The methods that access a member without its mutex: none for the handler maps; for
    the error handler the ones that report a second handler or an unknown response; for
    the writer the [connect] that binds the session and the destructor. *)
Definition exposes (f : method) (x : member) : bool :=
  match x, f with
  | errorHandler, (PutRequest false | PutResponse false | PutEvent false | PutSent false | Response false) => true
  | writer, (Connect false | Destroy) => true
  | reader, (Connect false | ReaderIsOpen | Read | Destroy) => true
  | onInvalidData, (Connect false | SetOnInvalidData) => true
  | (recvThread | dispatchThread), (StartProcessingMessages false | Destroy) => true
  | _, _ => false
  end.

Lemma disciplined_app h p q : disciplined h p = true -> disciplined [] q = true -> disciplined h (p ++ q) = true.
Proof.
  revert h. induction p as [|[m|m|x w] p IH]; intros h Hp Hq; cbn in *.
  - apply bool_decide_eq_true in Hp. by subst.
  - apply andb_true_iff in Hp as [-> ?]. cbn. auto.
  - destruct h; [done|]. apply andb_true_iff in Hp as [-> ?]. cbn. auto.
  - auto.
Qed.

Lemma exposed_app x h p q : disciplined h p = true -> exposed x h (p ++ q) = exposed x h p || exposed x [] q.
Proof.
  revert h. induction p as [|[m|m|y w] p IH]; intros h Hp; cbn in *.
  - apply bool_decide_eq_true in Hp. by subst.
  - apply andb_true_iff in Hp as [_ ?]. auto.
  - destruct h; [done|]. apply andb_true_iff in Hp as [_ ?]. cbn. auto.
  - by rewrite IH, orb_assoc.
Qed.

(** Every method keeps it, if the error handler calls none. *)
Lemma method_disciplined f : disciplined [] (body [] f) = true.
Proof. destruct f as [| | |[]|[]|[]| |[]| |[]|[]|[]| | | |[]|]; reflexivity. Qed.

Lemma method_exposes f x : exposed x [] (body [] f) = exposes f x.
Proof. destruct f as [| | |[]|[]|[]| |[]| |[]|[]|[]| | | |[]|], x; reflexivity. Qed.

Lemma calls_disciplined fs : disciplined [] (calls [] fs) = true.
Proof.
  induction fs as [|f fs IH]; [done|]. change (calls [] (f :: fs)) with (body [] f ++ calls [] fs).
  apply disciplined_app; [apply method_disciplined|done].
Qed.

Lemma calls_exposed x fs : exposed x [] (calls [] fs) = true -> exists f, f ∈ fs /\ exposes f x = true.
Proof.
  induction fs as [|f fs IH]; [done|]. change (calls [] (f :: fs)) with (body [] f ++ calls [] fs).
  rewrite exposed_app by apply method_disciplined. rewrite method_exposes. intros [Hf|Hr]%orb_true_iff.
  - exists f. split; [by left|done].
  - destruct (IH Hr) as (g & Hg & ?). exists g. split; [by right|done].
Qed.

Lemma calls_accesses x fs : accesses x (calls [] fs) = true -> exists f, f ∈ fs /\ accesses x (body [] f) = true.
Proof.
  induction fs as [|f fs IH]; [done|]. change (calls [] (f :: fs)) with (body [] f ++ calls [] fs).
  unfold accesses in *. rewrite existsb_app. intros [Hf|Hr]%orb_true_iff.
  - exists f. split; [by left|done].
  - destruct (IH Hr) as (g & Hg & ?). exists g. split; [by right|done].
Qed.

(** ** The invariant: every thread is disciplined, no mutex is held twice *)
Record locks_ok (c : config) : Prop := {
  lk_disciplined i t : c !! i = Some t -> disciplined t.(held) t.(rest) = true;
  lk_exclusive i j t u m :
    c !! i = Some t -> c !! j = Some u -> m ∈ t.(held) -> m ∈ u.(held) -> i = j
}.

Lemma locks_start fss : locks_ok (start [] fss).
Proof.
  split.
  - intros i t. unfold start. rewrite list_lookup_fmap. intros (fs & _ & ->)%fmap_Some. apply calls_disciplined.
  - intros i j t u m. unfold start. rewrite list_lookup_fmap. intros (fs & _ & ->)%fmap_Some _ []%elem_of_nil.
Qed.

(** A thread whose mutexes no other thread holds is replaced. *)
Lemma insert_ok c i t t' :
  locks_ok c -> c !! i = Some t -> disciplined t'.(held) t'.(rest) = true ->
  (forall m, m ∈ t'.(held) -> m ∈ t.(held) \/ free m c) -> locks_ok (<[i := t']> c).
Proof.
  intros [Hd He] Hi Hd' Hm. assert (Hl : (i < length c)%nat) by (eapply lookup_lt_Some; done). split.
  - intros j u. destruct (decide (i = j)) as [<-|Hne]; [rewrite list_lookup_insert_eq by done; by intros [= <-]|].
    rewrite list_lookup_insert_ne by done. apply Hd.
  - assert (Hone : forall j u m, i <> j -> c !! j = Some u -> m ∈ held t' -> m ∈ held u -> False).
    { intros j u m Hne Hj Ht Hu. destruct (Hm m Ht) as [Hin|Hf]; [by eapply Hne, (He i j t u m)|].
      eapply Hf; [by eapply list_elem_of_lookup_2|done]. }
    intros j k u v m. destruct (decide (i = j)) as [<-|Hj], (decide (i = k)) as [<-|Hk]; try done;
      rewrite ?list_lookup_insert_eq, ?list_lookup_insert_ne by done.
    + intros [= <-] Hv Ht Hu. by destruct (Hone k v m).
    + intros Hu [= <-] Ht Hv. by destruct (Hone j u m).
    + apply He.
Qed.

Lemma locks_step c c' : locks_ok c -> step c c' -> locks_ok c'.
Proof.
  intros Hok Hs. destruct Hs as [c i m h p Hi Hf|c i m h p Hi|c i x w h p Hi];
    pose proof (lk_disciplined _ Hok _ _ Hi) as Hd; cbn in Hd; try apply andb_true_iff in Hd as [? Hd];
    (eapply insert_ok; [done|exact Hi|exact Hd|]); cbn; intros k Hk.
  - apply elem_of_cons in Hk as [->|Hk]; [by right|by left].
  - left. by right.
  - by left.
Qed.

(** What a thread has left to do is part of its calls. *)
Definition of_calls (fss : list (list method)) (c : config) : Prop :=
  forall i t, c !! i = Some t -> exists fs, fss !! i = Some fs /\
    (forall x, exposed x t.(held) t.(rest) = true -> exposed x [] (calls [] fs) = true) /\
    (forall x, accesses x t.(rest) = true -> accesses x (calls [] fs) = true).

Lemma calls_start fss : of_calls fss (start [] fss).
Proof. intros i t. unfold start. rewrite list_lookup_fmap. intros (fs & -> & ->)%fmap_Some. by exists fs. Qed.

Lemma calls_step fss c c' : of_calls fss c -> step c c' -> of_calls fss c'.
Proof.
  intros Hc Hs. destruct Hs as [c i m h p Hi Hf|c i m h p Hi|c i x w h p Hi];
    destruct (Hc _ _ Hi) as (fs & Hfs & Hx & Ha); intros j t;
    (destruct (decide (i = j)) as [<-|Hne]; [|rewrite list_lookup_insert_ne by done; apply Hc]);
    rewrite list_lookup_insert_eq by (by eapply lookup_lt_Some); intros [= <-]; exists fs;
    (split; [done|]); (split; intros y Hy; [apply Hx|apply Ha]); cbn in *; try done.
  - rewrite Hy. by rewrite orb_true_r.
  - unfold accesses in Hy. rewrite Hy. by rewrite orb_true_r.
Qed.

Lemma locks_reachable fss c : rtc step (start [] fss) c -> locks_ok c /\ of_calls fss c.
Proof.
  apply (rtc_ind_r (fun c => locks_ok c /\ of_calls fss c)); [split; [apply locks_start|apply calls_start]|].
  intros ? ? _ ? [? ?]. split; [by eapply locks_step|by eapply calls_step].
Qed.

(** ** Consequences *)

(** A call of [f] by one thread accesses [x] without its mutex, a call of [g] by
    another accesses [x] too. *)
Definition conflict (fss : list (list method)) (x : member) : Prop :=
  exists i j fs gs f g, i <> j /\ fss !! i = Some fs /\ fss !! j = Some gs /\ f ∈ fs /\ g ∈ gs /\
    exposes f x = true /\ accesses x (body [] g) = true.

Lemma unguarded_conflict fss c i j t u x w v p q :
  of_calls fss c -> i <> j -> c !! i = Some t -> c !! j = Some u -> t.(rest) = Touch x w :: p ->
  u.(rest) = Touch x v :: q -> guarded t.(held) x = false -> conflict fss x.
Proof.
  intros Hc Hne Hi Hj Ht Hu Hg. destruct (Hc _ _ Hi) as (fs & Hfs & Hx & _), (Hc _ _ Hj) as (gs & Hgs & _ & Ha).
  destruct (calls_exposed x fs) as (f & Hf & Hfx); [apply Hx; rewrite Ht; cbn; by rewrite bool_decide_eq_true_2, Hg|].
  destruct (calls_accesses x gs) as (g & Hg' & Hgx); [apply Ha; rewrite Hu; cbn; by rewrite bool_decide_eq_true_2|].
  exists i, j, fs, gs, f, g. by split_and!.
Qed.

Lemma race_conflict fss c x : locks_ok c -> of_calls fss c -> race c x -> conflict fss x.
Proof.
  intros [_ He] Hc (i & j & t & u & w & v & p & q & Hne & Hi & Hj & Ht & Hu & _).
  destruct (guarded (held t) x) eqn:Et; [|by apply (unguarded_conflict fss c i j t u x w v p q)].
  destruct (guarded (held u) x) eqn:Eu; [|by apply (unguarded_conflict fss c j i u t x v w q p)].
  unfold guarded in *. destruct (guard x) as [m|]; [|done]. rewrite bool_decide_eq_true in Et, Eu.
  by destruct (He i j t u m).
Qed.

(** A thread that holds [errorMutex] can move: it never waits for another one. *)
Lemma error_holder_moves c i t :
  locks_ok c -> c !! i = Some t -> errorMutex ∈ t.(held) -> exists c', step c c'.
Proof.
  intros Hok Hi Hm. pose proof (lk_disciplined _ Hok _ _ Hi) as Hd. destruct t as [h [|[m|m|x w] p]]; cbn in *.
  - apply bool_decide_eq_true in Hd. subst h. by apply elem_of_nil in Hm.
  - apply andb_true_iff in Hd as [Hr _]. rewrite forallb_forall in Hr.
    specialize (Hr errorMutex (proj1 (list_elem_of_In _ _) Hm)). by destruct m.
  - destruct h as [|k h]; [done|]. apply andb_true_iff in Hd as [->%bool_decide_eq_true _]. eexists. by eapply step_unlock.
  - eexists. by eapply step_touch.
Qed.

(** A thread that waits, or has a mutex, can move or waits for [errorMutex]. *)
Lemma lock_or_moves c i t :
  locks_ok c -> c !! i = Some t -> t.(rest) <> [] ->
  (exists c', step c c') \/ exists m p, t.(rest) = Lock m :: p /\ exists j u, c !! j = Some u /\ m ∈ u.(held).
Proof.
  intros Hok Hi Hp. pose proof (lk_disciplined _ Hok _ _ Hi) as Hd. destruct t as [h [|[m|m|x w] p]]; cbn in *; [done|..].
  - destruct (decide (Exists (fun u => m ∈ u.(held)) c)) as [Hx|Hx].
    + right. exists m, p. split; [done|]. apply Exists_exists in Hx as (u & (j & Hj)%list_elem_of_lookup_1 & Hm). eauto.
    + left. eexists. apply step_lock; [exact Hi|]. intros u Hu Hm. apply Hx, Exists_exists. eauto.
  - left. destruct h as [|k h]; [done|]. apply andb_true_iff in Hd as [->%bool_decide_eq_true _].
    eexists. by eapply step_unlock.
  - left. eexists. by eapply step_touch.
Qed.

Lemma holder_unfinished c j u m : locks_ok c -> c !! j = Some u -> m ∈ u.(held) -> u.(rest) <> [].
Proof.
  intros Hok Hj Hm Hr. pose proof (lk_disciplined _ Hok _ _ Hj) as Hd. rewrite Hr in Hd. cbn in Hd.
  apply bool_decide_eq_true in Hd. rewrite Hd in Hm. by apply elem_of_nil in Hm.
Qed.

Lemma progress c : locks_ok c -> ~ finished c -> exists c', step c c'.
Proof.
  intros Hok Hnf. apply not_Forall_Exists in Hnf; [|intros t; destruct (rest t); [by left|by right]].
  apply Exists_exists in Hnf as (t & (i & Hi)%list_elem_of_lookup_1 & Hp).
  destruct (lock_or_moves c i t) as [?|(m & p & _ & j & u & Hj & Hm)]; [done..|].
  destruct (lock_or_moves c j u) as [?|(m' & p' & Hl & k & v & Hk & Hm')];
    [done|done|by eapply holder_unfinished|done|].
  apply (error_holder_moves c k v); [done..|].
  pose proof (lk_disciplined _ Hok _ _ Hj) as Hd. rewrite Hl in Hd. cbn in Hd.
  apply andb_true_iff in Hd as [Hr _]. rewrite forallb_forall in Hr.
  specialize (Hr m (proj1 (list_elem_of_In _ _) Hm)). by destruct m', m.
Qed.
End SessionLocks.

Module SessionLocksProps.
Import SessionLocks.


(** Two threads, one that registers a handler and one that sends. *)
Definition two_threads : list (list method) := [[PutRequest false]; [Send false]].


(** [connect] assigns the reader and the writer with no lock, and the destructor closes
    them with no lock: both race with a thread that sends, and the destructor with the
    receiving thread ([reader] and [writer] themselves leave that to the transport). *)
Theorem session_unlocked_races :
  (exists c, rtc step (start [] [[Connect false]; [Send true]]) c /\ race c writer) /\
  (exists c, rtc step (start [] [[Destroy]; [Send true]]) c /\ race c writer) /\
  race (start [] [[Destroy]; [Read]]) reader /\
  race (start [] [[SetOnInvalidData]; [Connect false]]) onInvalidData.
Proof.
  split_and!.
  - exists [Thread [] [Touch writer true]; Thread [sendMutex] [Touch writer false; Touch writer true; Unlock sendMutex]].
    split; [|by exists 0%nat, 1%nat; eexists _, _, true, false, _, _; split_and!].
    eapply rtc_l; [by apply (step_touch _ 0%nat onInvalidData false)|].
    eapply rtc_l; [by apply (step_touch _ 0%nat reader true)|].
    eapply rtc_l; [apply (step_lock _ 1%nat sendMutex []); [reflexivity|]|apply rtc_refl].
    by intros t [->|[->|[]%elem_of_nil]%elem_of_cons]%elem_of_cons []%elem_of_nil.
  - eexists [Thread [] (tail destroy); Thread [sendMutex] [Touch writer false; Touch writer true; Unlock sendMutex]].
    split; [|by exists 0%nat, 1%nat; eexists _, _, true, false, _, _; split_and!].
    eapply rtc_l; [by apply (step_touch _ 0%nat reader true)|].
    eapply rtc_l; [apply (step_lock _ 1%nat sendMutex []); [reflexivity|]|apply rtc_refl].
    by intros t [->|[->|[]%elem_of_nil]%elem_of_cons]%elem_of_cons []%elem_of_nil.
  - by exists 0%nat, 1%nat; eexists _, _, true, true, _, _; split_and!.
  - by exists 0%nat, 1%nat; eexists _, _, true, false, _, _; split_and!.
Qed.

(** The error handler itself is read without its mutex when a second handler is
    registered, so that this races with [onError]. *)
Theorem session_error_handler_races :
  exists c, rtc step (start [] [[PutRequest false]; [OnError]]) c /\ race c errorHandler.
Proof.
  exists [Thread [requestMutex] [Touch errorHandler false; Unlock requestMutex];
          Thread [errorMutex] [Touch errorHandler true; Unlock errorMutex]].
  split.
  - eapply rtc_l; [apply (step_lock _ 0%nat requestMutex []); [reflexivity|]|].
    { by intros t [->|[->|[]%elem_of_nil]%elem_of_cons]%elem_of_cons []%elem_of_nil. }
    eapply rtc_l; [by apply (step_touch _ 0%nat requestMap true)|].
    eapply rtc_l; [apply (step_lock _ 1%nat errorMutex []); [reflexivity|]|apply rtc_refl].
    intros t [->|[->|[]%elem_of_nil]%elem_of_cons]%elem_of_cons; cbn; [|by intros []%elem_of_nil].
    by intros [?|[]%elem_of_nil]%elem_of_cons.
  - exists 0%nat, 1%nat. eexists _, _, false, true, _, _. by split_and!.
Qed.

(** An error handler that sends an event deadlocks with another thread that sends on a
    closed writer: one has [errorMutex] and waits for [sendMutex], the other the reverse.
    One that sets another error handler deadlocks by itself. *)
Theorem session_error_handler_deadlocks :
  (exists c, rtc step (start (send [] true) [[Error]; [Send false]]) c /\ stuck c) /\
  (exists c, rtc step (start put_error [[Error]]) c /\ stuck c).
Proof.
  split.
  - exists [Thread [errorMutex] (send [] true ++ [Unlock errorMutex]);
            Thread [sendMutex] (error (send [] true) ++ [Unlock sendMutex])].
    split.
    + eapply rtc_l; [apply (step_lock _ 0%nat errorMutex []); [reflexivity|]|].
      { by intros t [->|[->|[]%elem_of_nil]%elem_of_cons]%elem_of_cons []%elem_of_nil. }
      eapply rtc_l; [by apply (step_touch _ 0%nat errorHandler false)|].
      eapply rtc_l; [apply (step_lock _ 1%nat sendMutex []); [reflexivity|]|].
      { intros t [->|[->|[]%elem_of_nil]%elem_of_cons]%elem_of_cons; cbn; [|by intros []%elem_of_nil].
        by intros [?|[]%elem_of_nil]%elem_of_cons. }
      eapply rtc_l; [by apply (step_touch _ 1%nat writer false)|]. apply rtc_refl.
    + split; [by inversion 1|]. intros c' Hs.
      inversion Hs as [? i m h p Hi Hf|? i m h p Hi|? i x w h p Hi]; subst;
        destruct i as [|[|i]]; cbn in Hi; simplify_eq.
      * apply (Hf (Thread [sendMutex] (error (send [] true) ++ [Unlock sendMutex]))); [right; by left|by left].
      * apply (Hf (Thread [errorMutex] (send [] true ++ [Unlock errorMutex]))); by left.
  - exists [Thread [errorMutex] (put_error ++ [Unlock errorMutex])]. split.
    + eapply rtc_l; [apply (step_lock _ 0%nat errorMutex []); [reflexivity|]|].
      { by intros t [->|[]%elem_of_nil]%elem_of_cons []%elem_of_nil. }
      eapply rtc_l; [by apply (step_touch _ 0%nat errorHandler false)|]. apply rtc_refl.
    + split; [by inversion 1|]. intros c' Hs.
      inversion Hs as [? i m h p Hi Hf|? i m h p Hi|? i x w h p Hi]; subst;
        destruct i as [|i]; cbn in Hi; simplify_eq.
      apply (Hf (Thread [errorMutex] (put_error ++ [Unlock errorMutex]))); by left.
Qed.
End SessionLocksProps.
