(* ===== verification/SessionProps.v ===== *)
(** * Session: properties

    The theorems about [Session.v], proved against the contracts of the JSON backend
    and of the writer; the witnesses run on the nlohmann backend over the
    reference library and on string buffers. *)
From Stdlib Require Import Ascii ZArith Lia.
From stdpp Require Import base list strings gmap.
From S2P Require Import Prelude IO ContentStream Monitor Chan SMap Types Serialization Json Backend.
From S2P Require Import Nlohmann ReferenceJson ProtocolTypes ProtocolRequests ProtocolResponses.
From S2P Require Import ProtocolEvents Protocol SerializationProps Session.
Import NlohmannDeserializerFacts NlohmannSerializerFacts.

(** ** Lemmas *)
Section Facts.
Context {D Ser FS : Type} {HB : JsonBackend D Ser FS} {HD : DeserializerView D} {HV : SerializerView Ser FS}.
Context {L : limits} {HC : JsonBackendContract D Ser FS L}.
Context {R W : Type} {HR : Reader R} {HW : Writer W} {HWC : WriterContract W}.
Context {EH RH VH SH : Type}.
Context (env : schema) (k fuel : nat) (Hok : schema_ok env k).

Abbreviation session := (Session.t R W EH RH VH SH).

(** A writer that takes whatever is written. *)
Definition writes_to (s : session) (w : W) : Prop :=
  s.(Session.writer) = ContentWriter.create w /\ IO.isOpen w = true /\ forall n, 0 <= n -> wr_ready w n.

(** What one message leaves behind: its frame, and a writer that takes more. *)
Definition wrote (w w' : W) (text : string) : Prop :=
  wr_sent w' = wr_sent w ++ encode text /\ text <> EmptyString /\ IO.isOpen w' = true /\ forall n, 0 <= n -> wr_ready w' n.

Lemma write_message (w : W) text :
  (forall n, 0 <= n -> wr_ready w n) -> text <> EmptyString ->
  exists w', ContentWriter.write (ContentWriter.create w) text = Ret (true, ContentWriter.create w') /\ wrote w w' text.
Proof.
  intros Hr Hne. pose proof (MessageFacts.encode_nonempty text) as Hh.
  assert (Ht : 0 < size_of (bytes_of text)).
  { destruct text as [|a text]; [done|]. change (bytes_of (String a text)) with (a :: bytes_of text).
    rewrite size_of_cons. pose proof (size_of_nonneg (bytes_of text)). lia. }
  assert (Hw : forall n, 0 <= n -> exists w1 w2, IO.write w (ContentWriter.header text) = Ret (true, w1) /\
    IO.write w1 (bytes_of text) = Ret (true, w2) /\ wr_sent w2 = wr_sent w ++ encode text /\ wr_ready w2 n).
  { intros n Hn. set (m := n + size_of (ContentWriter.header text) + size_of (bytes_of text)).
    destruct (write_ready w m (ContentWriter.header text)) as (w1 & H1 & S1 & R1); [apply Hr; lia|lia|].
    destruct (write_ready w1 _ (bytes_of text) R1) as (w2 & H2 & S2 & R2); [lia|].
    exists w1, w2. split_and!; [done..| |]; [unfold encode; by rewrite S2, S1, <-app_assoc|].
    by replace n with (m - size_of (ContentWriter.header text) - size_of (bytes_of text)) by lia. }
  destruct (Hw 0) as (w1 & w2 & H1 & H2 & S2 & R2); [lia|]. exists w2. split.
  - unfold ContentWriter.write. cbn. rewrite H1. cbn. by rewrite H2.
  - split; [done|]. split; [done|]. split; [by apply (ready_open _ 0)|]. intros n Hn.
    destruct (Hw n Hn) as (w1' & w2' & H1' & H2' & _ & R2'). congruence.
Qed.

Lemma send_text_writes (s : session) w text :
  writes_to s w -> text <> EmptyString ->
  exists w', Session.send_text text s = Ret (true, Session.set_writer (ContentWriter.create w') s) /\ wrote w w' text.
Proof.
  intros (Hw & Ho & Hr) Hne. destruct (write_message w text Hr Hne) as (w' & Hwr & Hs).
  exists w'. split; [|done]. unfold Session.send_text. rewrite Hw.
  change (ContentWriter.isOpen (ContentWriter.create w)) with (IO.isOpen w). rewrite Ho. cbn [negb]. by rewrite Hwr.
Qed.

(** A value that can be sent: of the type, with an encoding that loses
    nothing and can be printed. *)
Record sendable (u : ty) (v : value) (j : jtree) : Prop := {
  sd_type : type_ok env k u = true;
  sd_natural : natural L false v = true;
  sd_lossless : lossless env v u = true;
  sd_json : json_of env v u = Some j;
  sd_print : printable j = true;
  sd_depth : lim_depth L (S (jheight j)) = true;
  sd_construct : returns (construct env k u) = true;
  sd_fuel : (2 + k + height v < fuel)%nat
}.

Lemma sendable_canonical u v j : sendable u v j -> canonical L false j = true.
Proof using HC Hok.
  intros []. eapply (json_of_canonical L); [by eapply schema_ok_names|by eapply natural_encodable|done].
Qed.

Lemma sendable_stores u v j (ser : Ser) :
  sendable u v j -> fresh_ser ser -> stored false j (serialize env fuel u v ser).
Proof using HC Hok.
  intros [] Hs. apply serialize_stores; [by eapply schema_ok_names|by eapply natural_encodable|done|lia|by apply fresh_ready].
Qed.

(** The receiving side: the object is constructed and filled with the value. *)
Lemma sendable_loads u v j (d : D) :
  sendable u v j -> des_tree d = Some j ->
  exists c, construct env fuel u = Ret c /\ deserialize env fuel u d c = Ret (true, v).
Proof using HC Hok.
  intros [Ht Hn Hca Hj Hp Hdep Hc Hf] Hd. destruct (returns_construct env k fuel u Hc) as [c Hcc]; [lia|].
  exists c. split; [done|]. eapply deserialize_loads; [done..| |done].
  eapply construct_fresh; [done..|]. by intros ->.
Qed.

Lemma stores_integer n z : in_int64 z = true -> stores_field (Session.field_integer n z) (n, JInt z).
Proof using HC. intros. eexists. split; [done|]. intros ser Hs. by apply sc_integer; [apply fresh_blank|]. Qed.

Lemma stores_string n x : lim_string L x = true -> stores_field (Session.field_string n x) (n, JString x).
Proof using HC. intros. eexists. split; [done|]. intros ser Hs. by apply sc_string; [apply fresh_blank|]. Qed.

Lemma text_ok_inv x : text_ok (L := L) x = true -> utf8 (bytes_of x) = true /\ lim_string L x = true.
Proof. apply andb_true_iff. Qed.

Lemma stores_boolean n b : stores_field (Session.field_boolean n b) (n, JBool b).
Proof using HC. eexists. split; [done|]. intros ser Hs. by apply sc_boolean, fresh_blank. Qed.

Lemma stores_value n u v j :
  sendable u v j -> stores_field (fs_field n (serialize env fuel u v)) (n, j).
Proof using HC Hok. intros. eexists. split; [done|]. intros ser Hs. by apply sendable_stores. Qed.

(** The documents of the messages. *)
Definition request_doc (seq : Z) (command : string) (arguments : jtree) : list (string * jtree) :=
  [("seq", JInt seq); ("type", JString "request"); ("command", JString command); ("arguments", arguments)].

Definition event_doc (seq : Z) (event : string) (body : jtree) : list (string * jtree) :=
  [("seq", JInt seq); ("type", JString "event"); ("event", JString event); ("body", body)].

Definition success_doc (seq request_seq : Z) (command : string) (body : jtree) : list (string * jtree) :=
  [("seq", JInt seq); ("type", JString "response"); ("request_seq", JInt request_seq);
       ("success", JBool true); ("command", JString command); ("body", body)].

Definition error_doc (seq request_seq : Z) (command message : string) : list (string * jtree) :=
  [("seq", JInt seq); ("type", JString "response"); ("request_seq", JInt request_seq);
       ("success", JBool false); ("command", JString command); ("message", JString message)].

Ltac nodup_keys := apply (bool_decide_unpack _); vm_compute; exact I.

(** A message from its fields: each stored, plain names, within the limits. *)
Ltac build_message h Hcan :=
  pose proof Hcan;
  match goal with
  | Hs : sendable _ _ _ |- _ => pose proof (sd_print _ _ _ Hs); pose proof (sd_depth _ _ _ Hs)
  | _ => pose proof (lim_depth_one (L := L))
  end;
  apply (message_text _ _ h);
  [ repeat constructor; first [by apply stores_integer | by apply stores_string | by apply stores_boolean
      | by apply stores_value | by apply stores_string, plain_string]
  | nodup_keys
  | repeat constructor; reflexivity
  | repeat constructor; cbn; rewrite ?andb_true_r; first [done | by apply plain_string]
  | repeat constructor; cbn; repeat match goal with H : utf8 _ = true |- _ => rewrite H end; done
  | repeat constructor; cbn; lia
  | done ].

Lemma request_message seq u v j :
  sendable u v j -> in_int64 seq = true -> text_ok (L := L) (Session.name_of env u) = true ->
  exists ser text, Session.build (Session.request_fields env fuel seq u v) = Ret (true, ser) /\
    json_dump ser = Ret text /\ text <> EmptyString /\
    parsed text (request_doc seq (Session.name_of env u) j).
Proof using HC Hok.
  intros Hs Hseq [Hu Hl]%text_ok_inv. build_message (jheight j) (sendable_canonical _ _ _ Hs).
Qed.

Lemma event_message seq u v j :
  sendable u v j -> in_int64 seq = true -> text_ok (L := L) (Session.name_of env u) = true ->
  exists ser text, Session.build (Session.event_fields env fuel seq u v) = Ret (true, ser) /\
    json_dump ser = Ret text /\ text <> EmptyString /\
    parsed text (event_doc seq (Session.name_of env u) j).
Proof using HC Hok.
  intros Hs Hseq [Hu Hl]%text_ok_inv. build_message (jheight j) (sendable_canonical _ _ _ Hs).
Qed.

Lemma success_message seq rseq command u v j :
  sendable u v j -> in_int64 seq = true -> in_int64 rseq = true -> text_ok (L := L) command = true ->
  exists ser text, Session.build (Session.success_fields env fuel seq rseq command u v) = Ret (true, ser) /\
    json_dump ser = Ret text /\ text <> EmptyString /\
    parsed text (success_doc seq rseq command j).
Proof using HC Hok.
  intros Hs Hseq Hr [Hu Hl]%text_ok_inv. build_message (jheight j) (sendable_canonical _ _ _ Hs).
Qed.

Lemma error_message seq rseq command what :
  in_int64 seq = true -> in_int64 rseq = true -> text_ok (L := L) command = true ->
  text_ok (L := L) what = true ->
  exists ser text, Session.build (Session.error_fields seq rseq command what) = Ret (true, ser) /\
    json_dump ser = Ret text /\ text <> EmptyString /\
    parsed text (error_doc seq rseq command what).
Proof using HC.
  intros Hseq Hr [Hu Hl]%text_ok_inv [Hm Hlm]%text_ok_inv. build_message 0%nat I.
Qed.


Lemma process_request (s : session) text seq command u v j handler :
  parsed text (request_doc seq command j) -> in_int64 seq = true -> lim_string L command = true ->
  sendable u v j -> s.(Session.hs).(Session.requestMap) !! command = Some (u, handler) ->
  Session.processMessage env fuel text s =
    Ret (Some (Session.RequestPayload handler v seq command), s).
Proof using HC Hok.
  intros (d0 & Hp & Hm) Hseq Hlim Hs Hh. rewrite (dispatch_request _ _ _ _ _ _ _ Hp Hm eq_refl eq_refl Hseq).
  unfold Session.processRequest. rewrite (get_string_is _ _ "command" command Hm eq_refl eq_refl Hlim), Hh.
  destruct (message_field _ _ "arguments" Hm eq_refl) as (d & -> & Hd).
  destruct (sendable_loads u v j d Hs Hd) as (c & -> & Hl).
  rewrite outcome_bind_ret_l, Hl. done.
Qed.

Lemma process_event (s : session) text seq event u v j handler :
  parsed text (event_doc seq event j) -> in_int64 seq = true -> lim_string L event = true ->
  sendable u v j -> s.(Session.hs).(Session.eventMap) !! event = Some (u, handler) ->
  Session.processMessage env fuel text s = Ret (Some (Session.EventPayload handler v), s).
Proof using HC Hok.
  intros (d0 & Hp & Hm) Hseq Hlim Hs Hh. rewrite (dispatch_event _ _ _ _ _ _ _ Hp Hm eq_refl eq_refl Hseq).
  unfold Session.processEvent. rewrite (get_string_is _ _ "event" event Hm eq_refl eq_refl Hlim), Hh.
  destruct (message_field _ _ "body" Hm eq_refl) as (d & -> & Hd).
  destruct (sendable_loads u v j d Hs Hd) as (c & -> & Hl).
  rewrite outcome_bind_ret_l, Hl. done.
Qed.

(** The session after the entry of a response is taken. *)
Definition taken (seq : Z) (s : session) : session :=
  Session.set_hs (Session.set_responseMap (delete seq s.(Session.hs).(Session.responseMap)) s.(Session.hs)) s.

Lemma response_found seq entry (s : session) :
  s.(Session.hs).(Session.responseMap) !! seq = Some entry ->
  Session.response seq s = (Some entry, taken seq s).
Proof. intros He. unfold Session.response. by rewrite He. Qed.

Lemma process_success (s : session) text seq rseq command u v j handler :
  parsed text (success_doc seq rseq command j) -> in_int64 seq = true ->
  in_int64 rseq = true -> sendable u v j ->
  s.(Session.hs).(Session.responseMap) !! rseq = Some (u, handler) ->
  Session.processMessage env fuel text s =
    Ret (None, Session.add_log (Session.ResponseHandled handler (inl v)) (taken rseq s)).
Proof using HC Hok.
  intros (d0 & Hp & Hm) Hseq Hr Hs Hh.
  rewrite (dispatch_response _ _ _ _ _ _ _ Hp Hm eq_refl eq_refl Hseq).
  unfold Session.processResponse. rewrite (get_integer_message _ _ "request_seq" rseq Hm eq_refl eq_refl Hr),
    (response_found _ _ _ Hh), (get_boolean_is _ _ "success" true Hm eq_refl eq_refl).
  destruct (message_field _ _ "body" Hm eq_refl) as (d & -> & Hd).
  destruct (sendable_loads u v j d Hs Hd) as (c & -> & Hl).
  rewrite outcome_bind_ret_l, Hl. done.
Qed.

Lemma process_error (s : session) text seq rseq command what u handler :
  parsed text (error_doc seq rseq command what) -> in_int64 seq = true ->
  in_int64 rseq = true -> lim_string L what = true ->
  s.(Session.hs).(Session.responseMap) !! rseq = Some (u, handler) ->
  Session.processMessage env fuel text s =
    Ret (None, Session.add_log (Session.ResponseHandled handler (inr (error_text [what]))) (taken rseq s)).
Proof using HC.
  intros (d0 & Hp & Hm) Hseq Hr Hl Hh.
  rewrite (dispatch_response _ _ _ _ _ _ _ Hp Hm eq_refl eq_refl Hseq).
  unfold Session.processResponse. rewrite (get_integer_message _ _ "request_seq" rseq Hm eq_refl eq_refl Hr),
    (response_found _ _ _ Hh), (get_boolean_is _ _ "success" false Hm eq_refl eq_refl),
    (get_string_is _ _ "message" what Hm eq_refl eq_refl Hl). done.
Qed.

Lemma in_int64_u32 n : 0 <= n < 2 ^ 32 -> in_int64 n = true.
Proof. unfold in_int64. lia. Qed.

Lemma in_int64_s32 n : in_int64 (s32 n) = true.
Proof. unfold in_int64. pose proof (s32_range n). lia. Qed.

(** The session after a request was sent: the next sequence number, the handler
    under the old one, the writer moved on. *)
Definition requested (seq : Z) (u : ty) (handler : RH) (w : W) (s : session) : session :=
  Session.set_writer (ContentWriter.create w)
    (Session.set_hs (Session.set_responseMap (<[seq := (u, handler)]> s.(Session.hs).(Session.responseMap)) s.(Session.hs))
      (Session.set_nextSeq (u32 (s.(Session.nextSeq) + 1)) s)).

Lemma send_request_writes (s : session) w u ur v j handler :
  writes_to s w -> sendable u v j -> text_ok (L := L) (Session.name_of env u) = true ->
  s.(Session.hs).(Session.responseMap) !! s32 s.(Session.nextSeq) = None ->
  exists text w', Session.send_request env fuel u ur v handler s =
      Ret (true, requested (s32 s.(Session.nextSeq)) ur handler w' s) /\
    wrote w w' text /\
    parsed text (request_doc (s32 s.(Session.nextSeq)) (Session.name_of env u) j).
Proof using HC HWC Hok.
  intros (Hw & Ho & Hr) Hs Hu Hfree.
  destruct (request_message (s32 s.(Session.nextSeq)) u v j Hs (in_int64_s32 _) Hu)
    as (ser & text & Hb & Hd & Hne & Hm).
  unfold Session.send_request. cbn [Session.next_seq]. unfold Session.put_response. cbn.
  rewrite Hfree, Hb. cbn. rewrite Hd. cbn.
  match goal with |- context [Session.send_text _ ?s0] =>
    destruct (send_text_writes s0 w text) as (w' & -> & Hs') end; [by split_and!|done|].
  by exists text, w'.
Qed.

(** The session after a reply was sent. *)
Definition replied (u : ty) (result : value + string) (w : W) (s : session) : session :=
  let s := Session.set_writer (ContentWriter.create w) (Session.set_nextSeq (u32 (s.(Session.nextSeq) + 1)) s) in
  match Session.sent_lookup s.(Session.hs).(Session.responseSentMap) u with
  | Some h => Session.add_log (Session.ResponseSent h result) s
  | None => s
  end.

(** The call of the handler of sent responses, when there is one, after the message. *)
Definition sent_then called (u : ty) (result : value + string) (w : W) (s : session) : outcome session :=
  match Session.sent_lookup s.(Session.hs).(Session.responseSentMap) u with
  | Some h => called h result (replied u result w s)
  | None => Ret (replied u result w s)
  end.

Lemma sent_then_ret u result w (s : session) : sent_then (fun _ _ s => Ret s) u result w s = Ret (replied u result w s).
Proof. unfold sent_then. by destruct (Session.sent_lookup _ _). Qed.

(** For every handler of sent responses. *)
Lemma reply_success_with (s : session) w rseq command u v j :
  writes_to s w -> sendable u v j -> 0 <= s.(Session.nextSeq) < 2 ^ 32 -> in_int64 rseq = true ->
  text_ok (L := L) command = true ->
  exists text w', (forall called, Session.reply_with env fuel called rseq command (OnSuccess u v) s
      = sent_then called u (inl v) w' s) /\
    wrote w w' text /\
    parsed text (success_doc s.(Session.nextSeq) rseq command j).
Proof using HC HWC Hok.
  intros (Hw & Ho & Hr) Hs Hn Hrs Hu.
  destruct (success_message s.(Session.nextSeq) rseq command u v j Hs (in_int64_u32 _ Hn) Hrs Hu)
    as (ser & text & Hb & Hd & Hne & Hm).
  destruct (send_text_writes (Session.set_nextSeq (u32 (s.(Session.nextSeq) + 1)) s) w text) as (w' & He & Hs');
    [by split_and!|done|].
  exists text, w'. split; [|done]. intros called. unfold Session.reply_with. cbn [Session.next_seq].
  rewrite Hb, outcome_bind_ret_l, Hd, outcome_bind_ret_l, He, outcome_bind_ret_l. unfold sent_then, replied.
  cbn [Session.hs Session.set_writer Session.set_nextSeq]. by destruct (Session.sent_lookup _ _).
Qed.

Lemma reply_success (s : session) w rseq command u v j :
  writes_to s w -> sendable u v j -> 0 <= s.(Session.nextSeq) < 2 ^ 32 -> in_int64 rseq = true ->
  text_ok (L := L) command = true ->
  exists text w', Session.reply env fuel rseq command (OnSuccess u v) s = Ret (replied u (inl v) w' s) /\
    wrote w w' text /\
    parsed text (success_doc s.(Session.nextSeq) rseq command j).
Proof using HC HWC Hok.
  intros Hw Hs Hn Hr Hc. destruct (reply_success_with s w rseq command u v j Hw Hs Hn Hr Hc) as (text & w' & Hrep & ?).
  exists text, w'. split; [|done]. rewrite <-sent_then_ret. apply Hrep.
Qed.

Lemma reply_error (s : session) w rseq command u what :
  writes_to s w -> 0 <= s.(Session.nextSeq) < 2 ^ 32 -> in_int64 rseq = true ->
  text_ok (L := L) command = true -> text_ok (L := L) what = true ->
  exists text w', Session.reply env fuel rseq command (OnError u what) s = Ret (replied u (inr what) w' s) /\
    wrote w w' text /\
    parsed text (error_doc s.(Session.nextSeq) rseq command what).
Proof using HC HWC.
  intros (Hw & Ho & Hr) Hn Hrs Hu Hwh.
  destruct (error_message s.(Session.nextSeq) rseq command what (in_int64_u32 _ Hn) Hrs Hu Hwh)
    as (ser & text & Hb & Hd & Hne & Hm).
  unfold Session.reply, Session.reply_with. cbn [Session.next_seq]. rewrite Hb, outcome_bind_ret_l, Hd, outcome_bind_ret_l.
  match goal with |- context [Session.send_text _ ?s0] =>
    destruct (send_text_writes s0 w text) as (w' & -> & Hs') end; [by split_and!|done|].
  exists text, w'. split; [|done]. rewrite outcome_bind_ret_l. unfold replied.
  cbn [Session.hs Session.set_writer Session.set_nextSeq]. by destruct (Session.sent_lookup _ _).
Qed.

Lemma send_event_writes (s : session) w u v j :
  writes_to s w -> sendable u v j -> text_ok (L := L) (Session.name_of env u) = true ->
  0 <= s.(Session.nextSeq) < 2 ^ 32 ->
  exists text w', Session.send_event env fuel u v s =
      Ret (true, Session.set_writer (ContentWriter.create w')
        (Session.set_nextSeq (u32 (s.(Session.nextSeq) + 1)) s)) /\
    wrote w w' text /\
    parsed text (event_doc s.(Session.nextSeq) (Session.name_of env u) j).
Proof using HC HWC Hok.
  intros (Hw & Ho & Hr) Hs Hu Hn.
  destruct (event_message s.(Session.nextSeq) u v j Hs (in_int64_u32 _ Hn) Hu)
    as (ser & text & Hb & Hd & Hne & Hm).
  unfold Session.send_event. cbn [Session.next_seq].
  rewrite Hb, outcome_bind_ret_l. cbn [negb]. rewrite Hd, outcome_bind_ret_l.
  match goal with |- context [Session.send_text _ ?s0] =>
    destruct (send_text_writes s0 w text) as (w' & -> & Hs') end; [by split_and!|done|].
  by exists text, w'.
Qed.

Lemma taken_requested seq u h w (s : session) :
  s.(Session.hs).(Session.responseMap) !! seq = None ->
  (taken seq (requested seq u h w s)).(Session.hs).(Session.responseMap) = s.(Session.hs).(Session.responseMap).
Proof. intros Hfree. cbn. by rewrite delete_insert_id. Qed.

End Facts.

(** ** Properties *)
Module SessionProps.
Section Props.
Context {D Ser FS : Type} {HB : JsonBackend D Ser FS} {HD : DeserializerView D} {HV : SerializerView Ser FS}.
Context {L : limits} {HC : JsonBackendContract D Ser FS L}.
Context {R W : Type} {HR : Reader R} {HW : Writer W} {HWC : WriterContract W}.
Context {EH RH VH SH : Type}.
Abbreviation session := (Session.t R W EH RH VH SH).

(** C4. A request makes a round trip. The client's [send] writes one message; the
    server, whose handler for that request type computes [F], turns the message into
    a payload that holds exactly the value sent; running the payload writes one
    response; and the client, given that response, calls the handler registered for
    this request with exactly the response [F] returned and forgets the request,
    leaving its table of pending requests as before the call. *)
Theorem session_rpc env k fuel (client server : session) wc ws u ur v jv F jr handler :
  schema_ok env k ->
  writes_to client wc -> writes_to server ws ->
  0 <= server.(Session.nextSeq) < 2 ^ 32 ->
  text_ok (L := L) (Session.name_of env u) = true ->
  sendable (L := L) env k fuel u v jv -> sendable (L := L) env k fuel ur (F v).(roe_response) jr ->
  (F v).(roe_error) = EmptyString ->
  server.(Session.hs).(Session.requestMap) !! Session.name_of env u = Some (u, request_handler ur F) ->
  client.(Session.hs).(Session.responseMap) !! s32 client.(Session.nextSeq) = None ->
  exists client1 client2 server1 wc1 ws1 request response,
    Session.send_request env fuel u ur v handler client = Ret (true, client1) /\
    client1.(Session.writer) = ContentWriter.create wc1 /\ wr_sent wc1 = wr_sent wc ++ encode request /\
    Session.processMessage env fuel request server =
      Ret (Some (Session.RequestPayload (request_handler ur F) v (s32 client.(Session.nextSeq))
             (Session.name_of env u)), server) /\
    Session.run_payload env fuel (Session.RequestPayload (request_handler ur F) v
      (s32 client.(Session.nextSeq)) (Session.name_of env u)) server = Ret server1 /\
    server1.(Session.writer) = ContentWriter.create ws1 /\ wr_sent ws1 = wr_sent ws ++ encode response /\
    Session.processMessage env fuel response client1 = Ret (None, client2) /\
    client2.(Session.log) = client.(Session.log) ++ [Session.ResponseHandled handler (inl (F v).(roe_response))] /\
    client2.(Session.hs).(Session.responseMap) = client.(Session.hs).(Session.responseMap).
Proof using HC HWC.
  intros Hok Hwc Hws Hn Hu Hv Hr He Hreq Hfree.
  destruct (send_request_writes env k fuel Hok client wc u ur v jv handler Hwc Hv Hu Hfree)
    as (request & wc1 & Hsend & Hsent & Hm).
  destruct (reply_success env k fuel Hok server ws (s32 client.(Session.nextSeq)) (Session.name_of env u)
    ur _ jr Hws Hr Hn (in_int64_s32 _) Hu) as (response & ws1 & Hrep & Hsent' & Hm').
  pose proof (process_request env k fuel Hok server request _ _ u v jv _ Hm (in_int64_s32 _)
    (proj2 (text_ok_inv _ Hu)) Hv Hreq) as Hp.
  pose proof (process_success env k fuel Hok
    (requested (s32 client.(Session.nextSeq)) ur handler wc1 client) response _ _ _ ur _ jr handler
    Hm' (in_int64_u32 _ Hn) (in_int64_s32 _) Hr (lookup_insert_eq _ _ _)) as Hp'.
  do 7 eexists. split_and!; [exact Hsend|done|exact (proj1 Hsent)|exact Hp| | |exact (proj1 Hsent')|exact Hp'|done|].
  - unfold Session.run_payload, request_handler, reply_of, is_error.
    rewrite (bool_decide_eq_true_2 _ He). cbn [negb Session.replies]. by rewrite Hrep.
  - unfold replied. by destruct (Session.sent_lookup _ _).
  - by apply taken_requested.
Qed.
(** C19. An error makes the same trip: when the server's handler returns an error, the
    client's handler for that request is called with the error's text (as [Error]
    formats it, in 2048 bytes), and the request is forgotten. *)
Theorem session_rpc_error env k fuel (client server : session) wc ws u ur v jv F handler :
  schema_ok env k ->
  writes_to client wc -> writes_to server ws ->
  0 <= server.(Session.nextSeq) < 2 ^ 32 ->
  text_ok (L := L) (Session.name_of env u) = true ->
  sendable (L := L) env k fuel u v jv ->
  (F v).(roe_error) <> EmptyString -> text_ok (L := L) (F v).(roe_error) = true ->
  server.(Session.hs).(Session.requestMap) !! Session.name_of env u = Some (u, request_handler ur F) ->
  client.(Session.hs).(Session.responseMap) !! s32 client.(Session.nextSeq) = None ->
  exists client1 client2 server1 p request response wc1 ws1,
    Session.send_request env fuel u ur v handler client = Ret (true, client1) /\
    client1.(Session.writer) = ContentWriter.create wc1 /\ wr_sent wc1 = wr_sent wc ++ encode request /\
    Session.processMessage env fuel request server = Ret (Some p, server) /\
    Session.run_payload env fuel p server = Ret server1 /\
    server1.(Session.writer) = ContentWriter.create ws1 /\ wr_sent ws1 = wr_sent ws ++ encode response /\
    Session.processMessage env fuel response client1 = Ret (None, client2) /\
    client2.(Session.log) = client.(Session.log) ++
      [Session.ResponseHandled handler (inr (error_text [(F v).(roe_error)]))] /\
    client2.(Session.hs).(Session.responseMap) = client.(Session.hs).(Session.responseMap).
Proof using HC HWC.
  intros Hok Hwc Hws Hn Hu Hv He Hue Hreq Hfree.
  destruct (send_request_writes env k fuel Hok client wc u ur v jv handler Hwc Hv Hu Hfree)
    as (request & wc1 & Hsend & Hsent & Hm).
  destruct (reply_error env fuel server ws (s32 client.(Session.nextSeq)) (Session.name_of env u)
    ur (F v).(roe_error) Hws Hn (in_int64_s32 _) Hu Hue) as (response & ws1 & Hrep & Hsent' & Hm').
  pose proof (process_request env k fuel Hok server request _ _ u v jv _ Hm (in_int64_s32 _)
    (proj2 (text_ok_inv _ Hu)) Hv Hreq) as Hp.
  pose proof (process_error env fuel
    (requested (s32 client.(Session.nextSeq)) ur handler wc1 client) response _ _ _ _ ur handler
    Hm' (in_int64_u32 _ Hn) (in_int64_s32 _) (proj2 (text_ok_inv _ Hue)) (lookup_insert_eq _ _ _)) as Hp'.
  do 8 eexists. split_and!; [exact Hsend|done|exact (proj1 Hsent)|exact Hp| | |exact (proj1 Hsent')|exact Hp'|done|].
  - unfold Session.run_payload, request_handler, reply_of, is_error.
    rewrite (bool_decide_eq_false_2 _ He). cbn [negb Session.replies]. by rewrite Hrep.
  - unfold replied. by destruct (Session.sent_lookup _ _).
  - by apply taken_requested.
Qed.

(** An event reaches the handler of its type with the value that was sent. *)
Theorem session_event env k fuel (sender receiver : session) ws u v j handler :
  schema_ok env k -> writes_to sender ws -> 0 <= sender.(Session.nextSeq) < 2 ^ 32 ->
  text_ok (L := L) (Session.name_of env u) = true -> sendable (L := L) env k fuel u v j ->
  receiver.(Session.hs).(Session.eventMap) !! Session.name_of env u = Some (u, handler) ->
  exists sender1 ws1 text p receiver1,
    Session.send_event env fuel u v sender = Ret (true, sender1) /\
    sender1.(Session.writer) = ContentWriter.create ws1 /\ wr_sent ws1 = wr_sent ws ++ encode text /\
    Session.processMessage env fuel text receiver = Ret (Some p, receiver) /\
    Session.run_payload env fuel p receiver = Ret receiver1 /\
    receiver1.(Session.log) = receiver.(Session.log) ++ [Session.EventHandled handler v].
Proof using HC HWC.
  intros Hok Hws Hn Hu Hv Hh.
  destruct (send_event_writes env k fuel Hok sender ws u v j Hws Hv Hu Hn) as (text & ws1 & Hsend & Hsent & Hm).
  pose proof (process_event env k fuel Hok receiver text _ _ u v j handler Hm (in_int64_u32 _ Hn)
    (proj2 (text_ok_inv _ Hu)) Hv Hh) as Hp.
  do 5 eexists. split_and!; [exact Hsend|done|exact (proj1 Hsent)|exact Hp|done|done].
Qed.

(** The log entries that are calls of a response handler. *)
Definition responses_handled (l : list (Session.action EH RH VH SH)) : list RH :=
  omap (fun a => match a with Session.ResponseHandled h _ => Some h | _ => None end) l.

Lemma error_response_log m (s : session) :
  responses_handled (Session.error m s).(Session.log) = responses_handled s.(Session.log).
Proof.
  unfold Session.error. destruct (Session.errorHandler _); [|done]. cbn.
  unfold responses_handled. rewrite omap_app. apply app_nil_r.
Qed.

Lemma error_hs m (s : session) : (Session.error m s).(Session.hs) = s.(Session.hs).
Proof. unfold Session.error. by destruct (Session.errorHandler _). Qed.

(** C12. A response is delivered at most once, and only to the handler registered for
    the request it answers: whatever a response with sequence [q] holds, processing
    it takes the entry of [q] out of the table of pending requests and leaves the
    other entries alone, and the response handlers called are at most the one of that
    entry, called once. In particular a second response with the same sequence calls
    no handler. *)
Theorem session_response_at_most_once env fuel (s s' : session) (d : D) q :
  Session.get_integer d "request_seq" = Some q ->
  Session.processResponse env fuel d s = Ret s' ->
  s'.(Session.hs).(Session.responseMap) = delete q s.(Session.hs).(Session.responseMap) /\
  exists called, responses_handled s'.(Session.log) = responses_handled s.(Session.log) ++ called /\
    match s.(Session.hs).(Session.responseMap) !! q with
    | None => called = []
    | Some (_, h) => called = [] \/ called = [h]
    end.
Proof.
  intros Hq Hp. unfold Session.processResponse in Hp. rewrite Hq in Hp. unfold Session.response in Hp.
  assert (Hnone : forall m (s0 : session), responses_handled (Session.error m s0).(Session.log) =
    responses_handled s0.(Session.log) ++ []) by (intros; by rewrite error_response_log, app_nil_r).
  assert (Hone : forall h r (s0 : session),
    responses_handled (Session.add_log (Session.ResponseHandled h r) s0).(Session.log) =
    responses_handled s0.(Session.log) ++ [h]).
  { intros. cbn. unfold responses_handled. by rewrite omap_app. }
  destruct (s.(Session.hs).(Session.responseMap) !! q) as [[u h]|] eqn:E.
  - destruct (Session.get_boolean d "success") as [[]|].
    + apply outcome_bind_inv in Hp as (c & _ & Hp). apply outcome_bind_inv in Hp as ([ok c'] & _ & Hp).
      injection Hp as <-. split; [done|]. exists [h]. rewrite Hone. split; [done|by right].
    + destruct (Session.get_string d "message"); injection Hp as <-.
      * split; [done|]. exists [h]. rewrite Hone. split; [done|by right].
      * rewrite error_hs, Hnone. split; [done|]. exists []. split; [done|by left].
    + injection Hp as <-. rewrite error_hs, Hnone. split; [done|]. exists []. split; [done|by left].
  - injection Hp as <-. rewrite !error_hs, Hnone, app_nil_r, error_response_log.
    split; [by rewrite delete_id|]. exists []. by rewrite app_nil_r.
Qed.
(** The session after [n] sequence numbers were taken. *)
Definition after_seqs (n : nat) (s : session) : session := Nat.iter n (fun s => (Session.next_seq s).2) s.

Lemma after_seqs_next n (s : session) :
  0 <= s.(Session.nextSeq) < 2 ^ 32 ->
  (after_seqs n s).(Session.nextSeq) = u32 (s.(Session.nextSeq) + Z.of_nat n).
Proof.
  intros Hs. induction n as [|n IH].
  - rewrite Z.add_0_r. by rewrite u32_small.
  - change (Session.nextSeq (after_seqs (S n) s)) with (u32 (Session.nextSeq (after_seqs n s) + 1)). rewrite IH. unfold u32. rewrite Zplus_mod_idemp_l. f_equal. lia.
Qed.

(** C40. Sequence numbers do not repeat before the 32-bit counter wraps: two requests
    of one session with fewer than 2^32 numbers taken between them are registered
    under different keys, although the counter is converted to a signed [int]; the
    number 2^32 further is the same again. *)
Theorem session_seq_fresh (s : session) i j :
  0 <= s.(Session.nextSeq) < 2 ^ 32 -> (i < j)%nat -> Z.of_nat j - Z.of_nat i < 2 ^ 32 ->
  s32 (Session.next_seq (after_seqs i s)).1 <> s32 (Session.next_seq (after_seqs j s)).1 /\
  forall m, Z.of_nat m = Z.of_nat i + 2 ^ 32 ->
    (Session.next_seq (after_seqs m s)).1 = (Session.next_seq (after_seqs i s)).1.
Proof.
  intros Hs Hij Hd. cbn [Session.next_seq fst]. rewrite !after_seqs_next by done. split.
  - intros He. apply s32_inj in He; [|apply u32_range..]. unfold u32 in He.
    pose proof (Z.div_mod (Session.nextSeq s + Z.of_nat i) (2 ^ 32)).
    pose proof (Z.div_mod (Session.nextSeq s + Z.of_nat j) (2 ^ 32)). nia.
  - intros m Hm. rewrite after_seqs_next, Hm by done. unfold u32.
    replace (Session.nextSeq s + (Z.of_nat i + 2 ^ 32)) with (Session.nextSeq s + Z.of_nat i + 1 * 2 ^ 32) by lia.
    apply Z_mod_plus_full.
Qed.

Lemma get_string_none (d : D) n :
  (des_tree d = None \/ (exists j, des_tree d = Some j /\ forall o, j <> JObject o) \/
   exists o, des_tree d = Some (JObject o) /\ forall x, sm_lookup o n <> Some (JString x)) ->
  plain n = true -> Session.get_string d n = None.
Proof using HC.
  unfold Session.get_string. intros [Hd|[(j & Hd & Hj)|(o & Hd & Ho)]] Hn.
  - by rewrite dc_missing_field.
  - destruct (dc_field_other d j n Hd Hj) as [->|(d' & -> & Ht)]; [done|].
    cbn. apply dc_not_string. by rewrite Ht.
  - destruct (dc_field d o n Hd) as (d' & -> & Ht); [by apply plain_key|].
    cbn. apply dc_not_string. by rewrite Ht.
Qed.

(** A message that is not JSON, or not an object, or has no string member
    ['type'], is reported once and otherwise ignored: no payload, no handler called,
    nothing of the session changed but the log. *)
Theorem session_rejects_untyped env fuel (s : session) text d :
  json_parse text = Ret d ->
  (des_tree d = None \/ (exists j, des_tree d = Some j /\ forall o, j <> JObject o) \/
   exists o, des_tree d = Some (JObject o) /\ forall x, sm_lookup o "type" <> Some (JString x)) ->
  Session.processMessage env fuel text s =
    Ret (None, match s.(Session.hs).(Session.errorHandler) with
               | Some h => Session.add_log (Session.ErrorReported h "Message missing string 'type' field") s
               | None => s
               end).
Proof using HC.
  intros Hp Hd. unfold Session.processMessage. rewrite Hp, outcome_bind_ret_l, get_string_none by done.
  unfold Session.error. by destruct (Session.errorHandler _).
Qed.

(** A response without the member ['success'] loses the request: the handler is
    taken out of the table but never called, so the caller waits for ever; the error
    handler is all that is told. *)
Theorem session_response_without_success_lost env fuel (s : session) text kvs seq q u h :
  parsed text kvs ->
  sm_lookup kvs "type" = Some (JString "response") ->
  sm_lookup kvs "seq" = Some (JInt seq) -> in_int64 seq = true ->
  sm_lookup kvs "request_seq" = Some (JInt q) -> in_int64 q = true ->
  sm_lookup kvs "success" = None ->
  s.(Session.hs).(Session.responseMap) !! q = Some (u, h) ->
  exists s', Session.processMessage env fuel text s = Ret (None, s') /\
    s'.(Session.hs).(Session.responseMap) !! q = None /\
    responses_handled s'.(Session.log) = responses_handled s.(Session.log).
Proof using HC.
  intros (d0 & Hp & Hm) Ht Hs Hsr Hq Hqr Hsu Hh. rewrite (dispatch_response _ _ _ _ _ _ _ Hp Hm Ht Hs Hsr).
  unfold Session.processResponse. rewrite (get_integer_message _ _ "request_seq" _ Hm eq_refl Hq Hqr), (response_found _ _ _ Hh).
  rewrite (get_boolean_message _ _ "success" Hm eq_refl), Hsu. eexists. split; [done|].
  rewrite error_hs, error_response_log. split; [|done]. cbn. apply lookup_delete_eq.
Qed.

(** An event whose message has no ['body'] is rejected when its type has a
    field: the missing body is handed to the struct as a null deserializer, whose
    first field fails. (A comment at that place says the body is optional.) *)
Theorem session_event_without_body_rejected env k fuel (s : session) text kvs seq event name si l h :
  schema_ok env k -> (2 + k < fuel)%nat ->
  parsed text kvs ->
  sm_lookup kvs "type" = Some (JString "event") ->
  sm_lookup kvs "seq" = Some (JInt seq) -> in_int64 seq = true ->
  sm_lookup kvs "event" = Some (JString event) -> lim_string L event = true -> sm_lookup kvs "body" = None ->
  s.(Session.hs).(Session.eventMap) !! event = Some (TStruct name, h) ->
  env name = Some si -> resolved_fields env si = Some l -> l <> [] ->
  returns (construct env k (TStruct name)) = true ->
  Session.processMessage env fuel text s =
    Ret (None, Session.error ["Failed to deserialize event '"; event; "' body"] s).
Proof using HC.
  intros Hok Hf (d0 & Hp & Hm) Ht Hs Hsr He Hle Hb Hh Hsi Hl Hne Hc.
  rewrite (dispatch_event _ _ _ _ _ _ _ Hp Hm Ht Hs Hsr). unfold Session.processEvent.
  rewrite (get_string_is _ _ "event" _ Hm eq_refl He Hle), Hh.
  destruct (message_field _ _ "body" Hm eq_refl) as (d & -> & Hd). rewrite Hb in Hd.
  destruct (returns_construct env k fuel _ Hc ltac:(lia)) as [c Hcc]. rewrite Hcc, outcome_bind_ret_l.
  destruct (deserialize_missing env k Hok fuel (TStruct name) d c) as [c' ->]; [lia|done|..|done].
  - cbn. by rewrite Hsi.
  - cbn. rewrite Hsi, Hl. by destruct l.
  - eapply construct_fresh; [done..|done].
Qed.
(** [getPayload] takes one frame from the transport and processes the message in
    it: with the bytes of a message next on the stream (in any chunks), the result is
    that of [processMessage] on this message, on the session whose reader has consumed
    exactly the frame. *)
Theorem session_get_payload {HRC : ReaderContract R} env fuel (s : session) msg rest :
  Refinement.connected s.(Session.reader) -> (length (Refinement.stream s.(Session.reader)) < fuel)%nat ->
  carried msg -> Refinement.stream s.(Session.reader) = encode msg ++ rest ->
  exists r, Refinement.stream r = rest /\
    ContentReader.isOpen r = ContentReader.isOpen s.(Session.reader) /\
    Session.getPayload env fuel s = Session.processMessage env fuel msg (Session.set_reader r s).
Proof.
  intros Hc Hf Hm Hs.
  destruct (MessageFacts.read_frame fuel s.(Session.reader) msg rest Hc Hf) as (r & Hr & Hst & Hk).
  { rewrite Hs. by apply FrameFacts.frame_encode. }
  exists r. split; [done|]. split; [apply Hk|]. unfold Session.getPayload.
  rewrite Hr, outcome_bind_ret_l. destruct Hm as [Hm _].
  destruct (Z.gtb_spec (size_of (bytes_of msg)) 0); [done|lia].
Qed.

(** Registering a second handler for a request type, or for another type with the
    same name, reports an error and keeps the first; so it is with events. *)
Theorem session_first_handler_wins env (s : session) u v hr1 hr2 he1 he2 :
  Session.name_of env u = Session.name_of env v ->
  s.(Session.hs).(Session.requestMap) !! Session.name_of env u = None ->
  s.(Session.hs).(Session.eventMap) !! Session.name_of env u = None ->
  let s1 := Session.put_request env v hr2 (Session.put_request env u hr1 s) in
  let s2 := Session.put_event env v he2 (Session.put_event env u he1 s) in
  s1.(Session.hs).(Session.requestMap) !! Session.name_of env u = Some (u, hr1) /\
  s2.(Session.hs).(Session.eventMap) !! Session.name_of env u = Some (u, he1) /\
  forall h, s.(Session.hs).(Session.errorHandler) = Some h ->
    length s1.(Session.log) = S (length s.(Session.log)) /\
    length s2.(Session.log) = S (length s.(Session.log)).
Proof.
  intros He Hr Hv. cbn zeta. unfold Session.put_request, Session.put_event. rewrite <-He, Hr, Hv.
  cbn [Session.hs Session.requestMap Session.eventMap Session.set_hs]. rewrite !lookup_insert_eq, !error_hs.
  cbn [Session.hs Session.requestMap Session.eventMap Session.set_hs]. rewrite !lookup_insert_eq.
  split_and!; [done..|]. intros h Hh. unfold Session.error. cbn. rewrite Hh. cbn.
  rewrite !length_app. cbn. lia.
Qed.

(** A request that cannot be sent stays registered: when the writer is closed the
    future is given an error at once, but its promise remains in the table of pending
    requests, and a response with that sequence number would set it a second time. *)
Theorem session_failed_send_keeps_handler env k fuel (s : session) u ur v j promise :
  schema_ok env k -> sendable (L := L) env k fuel u v j -> text_ok (L := L) (Session.name_of env u) = true ->
  returns (construct env k ur) = true ->
  ContentWriter.isOpen s.(Session.writer) = false ->
  s.(Session.hs).(Session.responseMap) !! s32 s.(Session.nextSeq) = None ->
  exists s' c, Session.send_future env fuel u ur v promise s =
      Ret (Some {| roe_response := c; roe_error := "Failed to send request" |}, s') /\
    s'.(Session.hs).(Session.responseMap) !! s32 s.(Session.nextSeq) = Some (ur, promise) /\
    forall text n command r jr,
      parsed text (success_doc n (s32 s.(Session.nextSeq)) command jr) ->
      in_int64 n = true -> sendable (L := L) env k fuel ur r jr ->
      exists s'', Session.processMessage env fuel text s' = Ret (None, s'') /\
        s''.(Session.log) = s'.(Session.log) ++ [Session.ResponseHandled promise (inl r)].
Proof using HC.
  intros Hok Hs Hu Hc Hcl Hfree.
  destruct (request_message env k fuel Hok (s32 s.(Session.nextSeq)) u v j Hs (in_int64_s32 _) Hu)
    as (ser & text & Hb & Hd & _ & _).
  destruct (returns_construct env k fuel ur Hc) as [c Hcc]; [destruct Hs; lia|].
  unfold Session.send_future, Session.send_request. cbn [Session.next_seq]. unfold Session.put_response.
  cbn [Session.hs Session.set_nextSeq]. rewrite Hfree, Hb, outcome_bind_ret_l. cbn [negb].
  rewrite Hd, outcome_bind_ret_l. unfold Session.send_text. cbn [Session.writer Session.set_hs Session.set_nextSeq].
  rewrite Hcl. cbn [negb]. rewrite outcome_bind_ret_l, Hcc, outcome_bind_ret_l.
  do 2 eexists. split; [done|]. rewrite error_hs. split; [apply lookup_insert_eq|].
  intros text' n command r jr Hm Hn Hr. eexists. split.
  - eapply (process_success env k fuel Hok); [exact Hm|exact Hn|apply in_int64_s32|exact Hr|].
    rewrite error_hs. apply lookup_insert_eq.
  - done.
Qed.

(** [connect] takes effect once: a second call reports an error and leaves the
    streams of the first, whatever mode was set in between, and so does a second
    [startProcessingMessages], which starts no threads. *)
Theorem session_connects_once (s : session) r1 w1 r2 w2 m :
  s.(Session.isBound) = false -> s.(Session.isProcessingMessages) = false ->
  let s1 := Session.bind r1 w1 s in
  let s2 := Session.bind r2 w2 (Session.setOnInvalidData m s1.2) in
  s1.1 = true /\ s2.1 = false /\
  s2.2.(Session.reader) = ContentReader.create r1 s.(Session.onInvalidData) /\
  s2.2.(Session.writer) = ContentWriter.create w1 /\
  forall h, s.(Session.hs).(Session.errorHandler) = Some h ->
    s2.2.(Session.log) = s.(Session.log) ++
      [Session.ErrorReported h "Session::connect called twice";
       Session.ErrorReported h "Session::startProcessingMessages() called twice"].
Proof.
  intros Hb Hp. cbn zeta. unfold Session.bind, Session.connect, Session.startProcessingMessages.
  rewrite Hb. cbn. rewrite Hp. cbn. unfold Session.error. cbn.
  destruct (Session.errorHandler (Session.hs s)) as [h|] eqn:E; cbn; rewrite ?E; cbn.
  - split_and!; [done..|]. intros h' [= <-]. by rewrite <-app_assoc.
  - split_and!; [done..|]. by intros h'.
Qed.
(** [n] turns of the receiving thread. *)
Fixpoint recv_turns (env : schema) (fuel n : nat) (s : session) : outcome session :=
  match n with
  | O => Ret s
  | S n =>
    o ← Session.recv_turn env fuel s;
    match o with Some s => recv_turns env fuel n s | None => Ret s end
  end.

Lemma recv_turn_message {HRC : ReaderContract R} env fuel (s : session) msg rest p :
  Refinement.connected s.(Session.reader) -> (length (Refinement.stream s.(Session.reader)) < fuel)%nat ->
  ContentReader.isOpen s.(Session.reader) = true -> carried msg ->
  Refinement.stream s.(Session.reader) = encode msg ++ rest ->
  (forall s' : session, s'.(Session.hs) = s.(Session.hs) ->
    Session.processMessage env fuel msg s' = Ret (Some p, s')) ->
  exists r, Refinement.stream r = rest /\ Refinement.keeps s.(Session.reader) r /\
    Session.recv_turn env fuel s =
      Ret (Some (Session.set_inbox (Chan.put s.(Session.inbox) p).2 (Session.set_reader r s))).
Proof.
  intros Hc Hf Ho Hm Hs Hp.
  destruct (MessageFacts.read_frame fuel s.(Session.reader) msg rest Hc Hf) as (r & Hr & Hst & Hk).
  { rewrite Hs. by apply FrameFacts.frame_encode. }
  exists r. split; [done|]. split; [done|]. unfold Session.recv_turn. rewrite Ho. cbn [negb].
  unfold Session.getPayload. rewrite Hr, outcome_bind_ret_l. destruct Hm as [Hm _].
  destruct (Z.gtb_spec (size_of (bytes_of msg)) 0); [|lia]. by rewrite Hp.
Qed.

(** Messages are dispatched in the order they arrive: when the transport holds the
    frames of the messages [msgs], and each of them yields a payload, the receiving
    thread appends exactly these payloads, in order, to the inbox the dispatching
    thread takes from, and consumes exactly the frames. *)
Theorem session_inbox_order {HRC : ReaderContract R} env fuel (s : session) msgs ps rest :
  Refinement.connected s.(Session.reader) -> (length (Refinement.stream s.(Session.reader)) < fuel)%nat ->
  ContentReader.isOpen s.(Session.reader) = true -> Forall carried msgs ->
  Refinement.stream s.(Session.reader) = encode_all msgs ++ rest ->
  Forall2 (fun msg p => forall s' : session, s'.(Session.hs) = s.(Session.hs) ->
    Session.processMessage env fuel msg s' = Ret (Some p, s')) msgs ps ->
  exists s', recv_turns env fuel (length msgs) s = Ret s' /\
    s'.(Session.inbox).(Chan.queue) = s.(Session.inbox).(Chan.queue) ++ ps /\
    Refinement.stream s'.(Session.reader) = rest /\
    s'.(Session.hs) = s.(Session.hs) /\ s'.(Session.log) = s.(Session.log).
Proof.
  intros Hc Hf Ho Hm Hs HF. revert s Hc Hf Ho Hs HF. revert ps.
  induction Hm as [|m msgs Hm _ IH]; intros ps s Hc Hf Ho Hs HF; inversion HF as [|? p ? ps' Hp HF']; subst.
  { exists s. rewrite app_nil_r. done. }
  rewrite MessageFacts.encode_all_cons, <-app_assoc in Hs.
  destruct (recv_turn_message env fuel s m _ p Hc Hf Ho Hm Hs Hp) as (r & Hst & Hk & Ht).
  cbn [recv_turns length]. rewrite Ht, outcome_bind_ret_l.
  destruct (IH ps' (Session.set_inbox (Chan.put s.(Session.inbox) p).2 (Session.set_reader r s)))
    as (s' & -> & Hq & Hst' & Hh & Hl).
  - by eapply Refinement.keeps_connected.
  - by eapply Refinement.keeps_fuel.
  - cbn. destruct Hk as (_ & _ & _ & Hk). cbn in Hk |- *. rewrite <-Ho. apply Hk.
  - done.
  - done.
  - exists s'. split; [done|]. rewrite Hq. cbn. rewrite <-app_assoc. done.
Qed.
End Props.
(** ** Witnesses: two sessions over string buffers *)
Abbreviation endpoint := (Session.t StringBuffer.t StringBuffer.t unit nat nat nat).
Abbreviation lib_des := (NlohmannDeserializer.t ReferenceLibrary.J).
Abbreviation lib_ser := (NlohmannSerializer.t ReferenceLibrary.J).
Abbreviation lib_fs := ReferenceLibrary.J.

Definition set_breakpoints : ty := TStruct "SetBreakpointsRequest".
Definition set_breakpoints_response : ty := TStruct "SetBreakpointsResponse".
Definition no_breakpoints : value := VStruct [("breakpoints", VArray [])].
Definition accept (v : value) : ResponseOrError := {| roe_response := no_breakpoints; roe_error := EmptyString |}.
Definition refuse (v : value) : ResponseOrError := {| roe_response := no_breakpoints; roe_error := "no such file" |}.

Definition connected_endpoint : endpoint :=
  Session.connect StringBuffer.create StringBuffer.create (Session.put_error tt Session.create).

Definition serving (F : value -> ResponseOrError) : endpoint :=
  Session.put_request protocol_schema set_breakpoints (request_handler set_breakpoints_response F)
    (Session.put_event protocol_schema (TStruct "TerminatedEvent") 5%nat connected_endpoint).

Definition encoded (v : value) (u : ty) : jtree := default JNull (json_of protocol_schema v u).

Definition terminated : value := VStruct [("restart", VOptional (Some (VVariant (VAny TBoolean (VBoolean true)))))].

Ltac by_compute := vm_compute; first [reflexivity | lia | split; first [reflexivity | discriminate] | discriminate].

Lemma sample_sendable : sendable (L := no_limits) protocol_schema protocol_depth 30 set_breakpoints sample_request
  (encoded sample_request set_breakpoints).
Proof. split; by_compute. Qed.

Lemma response_sendable : sendable (L := no_limits) protocol_schema protocol_depth 30 set_breakpoints_response no_breakpoints
  (encoded no_breakpoints set_breakpoints_response).
Proof. split; by_compute. Qed.

Lemma terminated_sendable : sendable (L := no_limits) protocol_schema protocol_depth 30 (TStruct "TerminatedEvent") terminated
  (encoded terminated (TStruct "TerminatedEvent")).
Proof. split; by_compute. Qed.

Lemma buffer_writes_to (s : endpoint) :
  s.(Session.writer) = ContentWriter.create StringBuffer.create -> writes_to s StringBuffer.create.
Proof. intros Hw. split; [done|]. split; [done|]. intros n _. split; [done|]. by repeat constructor. Qed.

Lemma client_writes : writes_to connected_endpoint StringBuffer.create.
Proof. apply buffer_writes_to. reflexivity. Qed.

Lemma server_writes F : writes_to (serving F) StringBuffer.create.
Proof. apply buffer_writes_to. reflexivity. Qed.

Lemma session_rpc_witness : exists client1 client2 server1 request response,
  Session.send_request (D := lib_des) (Ser := lib_ser) (FS := lib_fs) protocol_schema 30 set_breakpoints
    set_breakpoints_response sample_request 7%nat connected_endpoint = Ret (true, client1) /\
  Session.processMessage (D := lib_des) (Ser := lib_ser) (FS := lib_fs) protocol_schema 30 request
    (serving accept) = Ret (Some (Session.RequestPayload
      (request_handler set_breakpoints_response accept) sample_request 1 "setBreakpoints"), serving accept) /\
  Session.run_payload (D := lib_des) (Ser := lib_ser) (FS := lib_fs) protocol_schema 30
    (Session.RequestPayload (request_handler set_breakpoints_response accept) sample_request 1
      "setBreakpoints") (serving accept) = Ret server1 /\
  Session.processMessage (D := lib_des) (Ser := lib_ser) (FS := lib_fs) protocol_schema 30 response client1
    = Ret (None, client2) /\
  client2.(Session.log) = [Session.ResponseHandled 7%nat (inl no_breakpoints)].
Proof.
  destruct (session_rpc (D := lib_des) (Ser := lib_ser) (FS := lib_fs) protocol_schema protocol_depth 30
    connected_endpoint (serving accept) StringBuffer.create StringBuffer.create set_breakpoints
    set_breakpoints_response sample_request _ accept _ 7%nat
    protocol_schema_ok client_writes (server_writes accept)
    ltac:(by_compute) ltac:(by_compute) sample_sendable response_sendable eq_refl
    ltac:(by_compute) ltac:(by_compute))
    as (c1 & c2 & s1 & wc1 & ws1 & rq & rs & Hs & _ & _ & Hp & Hr & _ & _ & Hp' & Hl & _).
  exists c1, c2, s1, rq, rs. split_and!; assumption.
Defined.

Lemma session_rpc_error_witness : exists client1 client2 response,
  Session.send_request (D := lib_des) (Ser := lib_ser) (FS := lib_fs) protocol_schema 30 set_breakpoints
    set_breakpoints_response sample_request 7%nat connected_endpoint = Ret (true, client1) /\
  Session.processMessage (D := lib_des) (Ser := lib_ser) (FS := lib_fs) protocol_schema 30 response client1
    = Ret (None, client2) /\
  client2.(Session.log) = [Session.ResponseHandled 7%nat (inr (error_text ["no such file"]))].
Proof.
  destruct (session_rpc_error (D := lib_des) (Ser := lib_ser) (FS := lib_fs) protocol_schema protocol_depth 30
    connected_endpoint (serving refuse) StringBuffer.create StringBuffer.create set_breakpoints
    set_breakpoints_response sample_request _ refuse 7%nat
    protocol_schema_ok client_writes (server_writes refuse)
    ltac:(by_compute) ltac:(by_compute) sample_sendable ltac:(by_compute) ltac:(by_compute)
    ltac:(by_compute) ltac:(by_compute))
    as (c1 & c2 & s1 & p & rq & rs & wc1 & ws1 & Hs & _ & _ & _ & _ & _ & _ & Hp' & Hl & _).
  exists c1, c2, rs. split_and!; assumption.
Defined.

Lemma session_event_witness : exists sender1 text p receiver1,
  Session.send_event (D := lib_des) (Ser := lib_ser) (FS := lib_fs) protocol_schema 30
    (TStruct "TerminatedEvent") terminated connected_endpoint = Ret (true, sender1) /\
  Session.processMessage (D := lib_des) (Ser := lib_ser) (FS := lib_fs) protocol_schema 30 text
    (serving accept) = Ret (Some p, serving accept) /\
  Session.run_payload (D := lib_des) (Ser := lib_ser) (FS := lib_fs) protocol_schema 30 p (serving accept)
    = Ret receiver1 /\
  receiver1.(Session.log) = [Session.EventHandled 5%nat terminated].
Proof.
  destruct (session_event (D := lib_des) (Ser := lib_ser) (FS := lib_fs) protocol_schema protocol_depth 30
    connected_endpoint (serving accept) StringBuffer.create (TStruct "TerminatedEvent") terminated _ 5%nat
    protocol_schema_ok client_writes ltac:(by_compute) ltac:(by_compute) terminated_sendable
    ltac:(by_compute)) as (s1 & ws1 & text & p & r1 & Hs & _ & _ & Hp & Hr & Hl).
  exists s1, text, p, r1. split_and!; assumption.
Defined.

(** A client that waits for the response to request 1, and the text of some messages
    in the notation of the reference library. *)
Definition waiting_client : endpoint :=
  Session.put_response 1 set_breakpoints_response 7%nat connected_endpoint.

Definition text_of (kvs : list (string * jtree)) : string := string_of (print (doc kvs)).

Definition answer : list (string * jtree) :=
  [("seq", JInt 9); ("type", JString "response"); ("request_seq", JInt 1); ("success", JBool true);
   ("command", JString "setBreakpoints"); ("body", JObject [("breakpoints", JArray [])])].

Definition answer_without_success : list (string * jtree) :=
  [("seq", JInt 9); ("type", JString "response"); ("request_seq", JInt 1)].

Definition terminated_without_body : list (string * jtree) :=
  [("seq", JInt 9); ("type", JString "event"); ("event", JString "terminated")].

Ltac message_by_compute :=
  eexists; split; [reflexivity|];
  split; [vm_compute; reflexivity | apply (bool_decide_unpack _); vm_compute; exact I].

Lemma answer_without_success_message :
  parsed (D := lib_des) (text_of answer_without_success) answer_without_success.
Proof. message_by_compute. Qed.

Lemma terminated_without_body_message :
  parsed (D := lib_des) (text_of terminated_without_body) terminated_without_body.
Proof. message_by_compute. Qed.

Definition answered_client : endpoint :=
  Session.add_log (Session.ResponseHandled 7%nat (inl no_breakpoints)) (taken 1 waiting_client).

Lemma session_response_at_most_once_witness :
  answered_client.(Session.hs).(Session.responseMap) = delete 1 waiting_client.(Session.hs).(Session.responseMap) /\
  exists called, responses_handled answered_client.(Session.log) = [] ++ called /\
    (called = [] \/ called = [7%nat]).
Proof.
  apply (session_response_at_most_once (D := lib_des) (Ser := lib_ser) (FS := lib_fs)
    protocol_schema 30 waiting_client answered_client (NlohmannDeserializer.create (text_of answer)) 1);
    vm_compute; reflexivity.
Defined.

Lemma session_seq_fresh_witness :
  s32 (Session.next_seq (after_seqs 3 connected_endpoint)).1 <>
    s32 (Session.next_seq (after_seqs 8 connected_endpoint)).1.
Proof. apply (session_seq_fresh connected_endpoint 3 8); [by_compute|lia|lia]. Defined.

Lemma session_rejects_untyped_witness :
  Session.processMessage (D := lib_des) (Ser := lib_ser) (FS := lib_fs) protocol_schema 30 "not json"
    connected_endpoint =
    Ret (None, Session.add_log (Session.ErrorReported tt "Message missing string 'type' field") connected_endpoint).
Proof.
  apply (session_rejects_untyped (D := lib_des) (Ser := lib_ser) (FS := lib_fs) protocol_schema 30
    connected_endpoint "not json" (NlohmannDeserializer.create "not json")); [reflexivity|].
  left. vm_compute. reflexivity.
Defined.

Lemma session_response_without_success_lost_witness : exists s',
  Session.processMessage (D := lib_des) (Ser := lib_ser) (FS := lib_fs) protocol_schema 30
    (text_of answer_without_success) waiting_client = Ret (None, s') /\
  s'.(Session.hs).(Session.responseMap) !! 1 = None /\ responses_handled s'.(Session.log) = [].
Proof.
  apply (session_response_without_success_lost (D := lib_des) (Ser := lib_ser) (FS := lib_fs) protocol_schema
    30 waiting_client (text_of answer_without_success) answer_without_success 9 1 set_breakpoints_response 7%nat);
    [exact answer_without_success_message|by_compute..].
Defined.

Lemma session_event_without_body_rejected_witness :
  Session.processMessage (D := lib_des) (Ser := lib_ser) (FS := lib_fs) protocol_schema 30
    (text_of terminated_without_body) (serving accept) =
    Ret (None, Session.error ["Failed to deserialize event '"; "terminated"; "' body"] (serving accept)).
Proof.
  eapply (session_event_without_body_rejected (D := lib_des) (Ser := lib_ser) (FS := lib_fs) protocol_schema
    protocol_depth 30 (serving accept) (text_of terminated_without_body) terminated_without_body 9 "terminated"
    "TerminatedEvent" TerminatedEvent_info _ 5%nat protocol_schema_ok);
    [by_compute|exact terminated_without_body_message|by_compute..|].
  by_compute.
Defined.

(** A session whose transport holds one frame, in chunks of five bytes and the rest. *)
Definition receiving (bs : bytes) : endpoint :=
  Session.connect (ContentStreamProps.two_chunks 5 bs) StringBuffer.create Session.create.

Lemma session_get_payload_witness : exists r,
  Refinement.stream r = bytes_of "next" /\
  Session.getPayload (D := lib_des) (Ser := lib_ser) (FS := lib_fs) protocol_schema 200
    (receiving (encode (text_of answer) ++ bytes_of "next")) =
  Session.processMessage (D := lib_des) (Ser := lib_ser) (FS := lib_fs) protocol_schema 200 (text_of answer)
    (Session.set_reader r (receiving (encode (text_of answer) ++ bytes_of "next"))).
Proof.
  destruct (session_get_payload (D := lib_des) (Ser := lib_ser) (FS := lib_fs) protocol_schema 200
    (receiving (encode (text_of answer) ++ bytes_of "next")) (text_of answer) (bytes_of "next"))
    as (r & Hr & _ & Hp).
  - eexists. split; [reflexivity|]. split; [vm_compute; reflexivity|]. repeat constructor; by_compute.
  - vm_compute. lia.
  - by_compute.
  - vm_compute. reflexivity.
  - exists r. split; [exact Hr|exact Hp].
Defined.

Lemma session_first_handler_wins_witness :
  (Session.put_request protocol_schema set_breakpoints (request_handler set_breakpoints_response refuse)
    (Session.put_request protocol_schema set_breakpoints (request_handler set_breakpoints_response accept)
      connected_endpoint)).(Session.hs).(Session.requestMap) !! "setBreakpoints" =
  Some (set_breakpoints, request_handler set_breakpoints_response accept).
Proof.
  apply (session_first_handler_wins protocol_schema connected_endpoint set_breakpoints set_breakpoints
    (request_handler set_breakpoints_response accept) (request_handler set_breakpoints_response refuse)
    1%nat 2%nat); vm_compute; reflexivity.
Defined.

Lemma session_failed_send_keeps_handler_witness : exists s' c,
  Session.send_future (D := lib_des) (Ser := lib_ser) (FS := lib_fs) protocol_schema 30 set_breakpoints
    set_breakpoints_response sample_request 7%nat (Session.shutdown connected_endpoint) =
    Ret (Some {| roe_response := c; roe_error := "Failed to send request" |}, s') /\
  s'.(Session.hs).(Session.responseMap) !! 1 = Some (set_breakpoints_response, 7%nat).
Proof.
  destruct (session_failed_send_keeps_handler (D := lib_des) (Ser := lib_ser) (FS := lib_fs) protocol_schema
    protocol_depth 30 (Session.shutdown connected_endpoint) set_breakpoints set_breakpoints_response
    sample_request (encoded sample_request set_breakpoints) 7%nat protocol_schema_ok sample_sendable)
    as (s' & c & Hs & Hm & _); [by_compute..|].
  exists s', c. split; [exact Hs|exact Hm].
Defined.

Lemma session_connects_once_witness :
  (Session.bind StringBuffer.create StringBuffer.create
    (Session.setOnInvalidData kClose
      (Session.bind (ContentStreamProps.two_chunks 1 (bytes_of "ab")) StringBuffer.create
        (Session.put_error tt Session.create : endpoint)).2)).2.(Session.reader) =
  ContentReader.create (ContentStreamProps.two_chunks 1 (bytes_of "ab")) kIgnore.
Proof.
  apply (session_connects_once (Session.put_error tt Session.create : endpoint)
    (ContentStreamProps.two_chunks 1 (bytes_of "ab")) StringBuffer.create StringBuffer.create StringBuffer.create kClose);
    reflexivity.
Defined.

Definition terminated_message : string :=
  text_of (event_doc 9 "terminated" (encoded terminated (TStruct "TerminatedEvent"))).

Definition two_frames : bytes := encode_all [terminated_message; terminated_message].

Definition listening (bs : bytes) : endpoint :=
  Session.connect (ContentStreamProps.two_chunks 5 bs) StringBuffer.create
    (Session.put_event protocol_schema (TStruct "TerminatedEvent") 5%nat Session.create).

Lemma terminated_message_ok :
  parsed (D := lib_des) terminated_message
    (event_doc 9 "terminated" (encoded terminated (TStruct "TerminatedEvent"))).
Proof. message_by_compute. Qed.

Lemma session_inbox_order_witness : exists s',
  recv_turns (D := lib_des) (Ser := lib_ser) (FS := lib_fs) protocol_schema 300 2 (listening two_frames) = Ret s' /\
  s'.(Session.inbox).(Chan.queue) =
    [Session.EventPayload 5%nat terminated; Session.EventPayload 5%nat terminated].
Proof.
  assert (Hp : forall s' : endpoint, s'.(Session.hs) = (listening two_frames).(Session.hs) ->
    Session.processMessage (D := lib_des) (Ser := lib_ser) (FS := lib_fs) protocol_schema 300
      terminated_message s' = Ret (Some (Session.EventPayload 5%nat terminated), s')).
  { intros s' Hs. apply (process_event (L := no_limits) protocol_schema protocol_depth 300 protocol_schema_ok s'
      terminated_message 9 "terminated" (TStruct "TerminatedEvent") terminated _ 5%nat terminated_message_ok
      eq_refl eq_refl); [split; by_compute|]. rewrite Hs. vm_compute. reflexivity. }
  destruct (session_inbox_order (D := lib_des) (Ser := lib_ser) (FS := lib_fs) protocol_schema 300
    (listening two_frames) [terminated_message; terminated_message]
    [Session.EventPayload 5%nat terminated; Session.EventPayload 5%nat terminated] [])
    as (s' & Hr & Hq & _).
  - eexists. split; [reflexivity|]. split; [vm_compute; reflexivity|]. repeat constructor; by_compute.
  - vm_compute. lia.
  - vm_compute. reflexivity.
  - repeat constructor; by_compute.
  - vm_compute. reflexivity.
  - repeat (constructor; [exact Hp|]). constructor.
  - exists s'. split; [exact Hr|exact Hq].
Defined.

End SessionProps.
