(* ===== verification/SessionMemory.v ===== *)
(** * The objects of a session in memory

    [processRequest], [processEvent] and [processResponse] of [src/session.cpp] put the
    value they deserialize in storage of its own, [new uint8_t[typeinfo->size()]], through
    the virtual functions of [TypeInfo] ([BasicTypeInfo] of [include/dap/typeof.h]); the
    payload destructs and deletes it. [Session.v] has the values only. Here the same
    functions work on addresses, every use of an object that is not there is undefined,
    and the refinement between the two models is the memory safety of the session.

    An address is the number of a block. The storage that members of an object own is
    that of the object; the layout [sizeof] is a parameter. *)
From Stdlib Require Import ZArith Lia.
From stdpp Require Import base list strings gmap.
From S2P Require Import Prelude IO ContentStream Monitor Chan SMap Types Serialization Json Backend.
From S2P Require Import Nlohmann ReferenceJson Protocol Session SessionProps.
Import NlohmannDeserializerFacts NlohmannSerializerFacts.

Module Memory.

(** A block: storage without an object, with an object of a type, or deleted. *)
Inductive block := Raw (size : Z) | Object (size : Z) (t : ty) (v : value) | Freed.

(** [lost]: the objects whose storage was deleted before their destructor ran. *)
Record mem := Mem { blocks : list block; lost : nat }.

Definition empty : mem := Mem [] 0.

Definition set_block (a : nat) (b : block) (m : mem) : mem := Mem (<[a := b]> m.(blocks)) m.(lost).

(** [new uint8_t[size]] *)
Definition new_array (size : Z) (m : mem) : nat * mem := (length m.(blocks), Mem (m.(blocks) ++ [Raw size]) m.(lost)).

(** [delete[] data] *)
Definition delete_array (a : nat) (m : mem) : outcome mem :=
  match m.(blocks) !! a with
  | Some (Raw _) => Ret (set_block a Freed m)
  | Some (Object _ _ _) => Ret (Mem (<[a := Freed]> m.(blocks)) (S m.(lost)))
  | _ => Undefined
  end.

(** ** [BasicTypeInfo<T>] *)
Section TypeInfo.
Context (sizeof : ty -> Z) (env : schema) (fuel : nat).

Definition size (t : ty) : Z := sizeof t.

(** [new (ptr) T(v)]: the storage is large enough and holds no object. *)
Definition construct_with (t : ty) (a : nat) (v : value) (m : mem) : outcome mem :=
  match m.(blocks) !! a with
  | Some (Raw n) => if sizeof t <=? n then Ret (set_block a (Object n t v) m) else Undefined
  | _ => Undefined
  end.

Definition construct (t : ty) (a : nat) (m : mem) : outcome mem :=
  v ← Types.construct env fuel t; construct_with t a v m.

(** [*reinterpret_cast<const T*>(ptr)] *)
Definition read (t : ty) (a : nat) (m : mem) : outcome value :=
  match m.(blocks) !! a with
  | Some (Object _ u v) => if bool_decide (u = t) then Ret v else Undefined
  | _ => Undefined
  end.

Definition copyConstruct (t : ty) (dst src : nat) (m : mem) : outcome mem :=
  v ← read t src m; construct_with t dst v m.

Definition destruct (t : ty) (a : nat) (m : mem) : outcome mem :=
  match m.(blocks) !! a with
  | Some (Object n u _) => if bool_decide (u = t) then Ret (set_block a (Raw n) m) else Undefined
  | _ => Undefined
  end.

Definition deserialize {D} `{Deserializer D} (t : ty) (d : D) (a : nat) (m : mem) : outcome (bool * mem) :=
  match m.(blocks) !! a with
  | Some (Object n u v) =>
    if bool_decide (u = t) then
      '(ok, v) ← Serialization.deserialize env fuel t d v; Ret (ok, set_block a (Object n t v) m)
    else Undefined
  | _ => Undefined
  end.

Definition serialize {Ser FS} `{Serializer Ser FS} (t : ty) (s : Ser) (a : nat) (m : mem) : outcome (bool * Ser) :=
  v ← read t a m; Serialization.serialize env fuel t v s.
End TypeInfo.

(** ** The last block *)
Definition push (b : block) (m : mem) : mem := Mem (m.(blocks) ++ [b]) m.(lost).

Section Push.
Context (sizeof : ty -> Z) (env : schema) (fuel : nat) (m : mem).
Abbreviation top := (length m.(blocks)).

Lemma lookup_push b : (push b m).(blocks) !! top = Some b.
Proof. cbn. by rewrite lookup_app_r, Nat.sub_diag by done. Qed.

Lemma set_push b b' : set_block top b' (push b m) = push b' m.
Proof. unfold set_block, push. cbn. by rewrite insert_app_r_alt, Nat.sub_diag by done. Qed.

Lemma construct_push t v :
  Types.construct env fuel t = Ret v ->
  construct sizeof env fuel t top (push (Raw (size sizeof t)) m) = Ret (push (Object (size sizeof t) t v) m).
Proof.
  intros Hv. unfold construct, construct_with. rewrite Hv, outcome_bind_ret_l, lookup_push. unfold size.
  by rewrite Z.leb_refl, set_push.
Qed.

Lemma deserialize_push {D} `{Deserializer D} n t (d : D) v ok v' :
  Serialization.deserialize env fuel t d v = Ret (ok, v') ->
  deserialize env fuel t d top (push (Object n t v) m) = Ret (ok, push (Object n t v') m).
Proof.
  intros Hd. unfold deserialize. rewrite lookup_push, bool_decide_eq_true_2, Hd by done. cbn. by rewrite set_push.
Qed.

Lemma destruct_push n t v : destruct t top (push (Object n t v) m) = Ret (push (Raw n) m).
Proof. unfold destruct. by rewrite lookup_push, bool_decide_eq_true_2, set_push by done. Qed.

Lemma delete_push n : delete_array top (push (Raw n) m) = Ret (push Freed m).
Proof. unfold delete_array. by rewrite lookup_push, set_push. Qed.

Lemma read_push n t v : read t top (push (Object n t v) m) = Ret v.
Proof. unfold read. by rewrite lookup_push, bool_decide_eq_true_2 by done. Qed.
End Push.
End Memory.

Module SessionMemory.
Section Objects.
Context {D Ser FS R W : Type} `{JsonBackend D Ser FS} `{!Reader R} `{!Writer W}.
Context {ErrorHandler ResponseHandler EventHandler SentHandler : Type}.
Context (sizeof : ty -> Z) (env : schema) (fuel : nat).
Import Memory.
Abbreviation session := (Session.t R W ErrorHandler ResponseHandler EventHandler SentHandler).

(** A [Payload] captures the type, the handler and the address of the data. *)
Inductive payload :=
| RequestPayload (typeinfo : ty) (handler : GenericRequestHandler) (data : nat) (sequence : Z) (command : string)
| EventPayload (typeinfo : ty) (handler : EventHandler) (data : nat).

(** [typeinfo->destruct(data); delete[] data;] *)
Definition release (typeinfo : ty) (data : nat) (m : mem) : outcome mem :=
  m ← destruct typeinfo data m; delete_array data m.

(** [auto data = new uint8_t[typeinfo->size()]; typeinfo->construct(data);] *)
Definition make (typeinfo : ty) (m : mem) : outcome (nat * mem) :=
  let '(data, m) := new_array (size sizeof typeinfo) m in
  m ← construct sizeof env fuel typeinfo data m;
  Ret (data, m).

Definition processRequest (d : D) (sequence : Z) (s : session) (m : mem)
    : outcome (option payload * session * mem) :=
  match Session.get_string d "command" with
  | None => Ret (None, Session.error ["Request missing string 'command' field"] s, m)
  | Some command =>
    match s.(Session.hs).(Session.requestMap) !! command with
    | None => Ret (None, Session.error ["No request handler registered for command '"; command; "'"] s, m)
    | Some (typeinfo, handler) =>
      '(data, m) ← make typeinfo m;
      '(ok, m) ← match des_field d "arguments" with
                 | None => Ret (false, m)
                 | Some d => deserialize env fuel typeinfo d data m
                 end;
      if negb ok then
        m ← release typeinfo data m;
        Ret (None, Session.error ["Failed to deserialize request"] s, m)
      else Ret (Some (RequestPayload typeinfo handler data sequence command), s, m)
    end
  end.

Definition processEvent (d : D) (s : session) (m : mem) : outcome (option payload * session * mem) :=
  match Session.get_string d "event" with
  | None => Ret (None, Session.error ["Event missing string 'event' field"] s, m)
  | Some event =>
    match s.(Session.hs).(Session.eventMap) !! event with
    | None => Ret (None, Session.error ["No event handler registered for event '"; event; "'"] s, m)
    | Some (typeinfo, handler) =>
      '(data, m) ← make typeinfo m;
      '(body_ok, m) ← match des_field d "body" with
                      | None => Ret (true, m)
                      | Some d => deserialize env fuel typeinfo d data m
                      end;
      if negb body_ok then
        m ← release typeinfo data m;
        Ret (None, Session.error ["Failed to deserialize event '"; event; "' body"] s, m)
      else Ret (Some (EventPayload typeinfo handler data), s, m)
    end
  end.

(** The [unique_ptr] deletes the storage at the end of its block. *)
Definition processResponse (d : D) (s : session) (m : mem) : outcome (session * mem) :=
  match Session.get_integer d "request_seq" with
  | None => Ret (Session.error ["Response missing int 'request_seq' field"] s, m)
  | Some requestSeq =>
    let '(entry, s) := Session.response requestSeq s in
    match entry with
    | None => Ret (Session.error ["Unknown response with sequence "; int_text (s32 requestSeq)] s, m)
    | Some (typeinfo, handler) =>
      match Session.get_boolean d "success" with
      | None => Ret (Session.error ["Response missing int 'success' field"] s, m)
      | Some true =>
        '(data, m) ← make typeinfo m;
        '(_, m) ← match des_field d "body" with
                  | None => Ret (false, m)
                  | Some d => deserialize env fuel typeinfo d data m
                  end;
        v ← read typeinfo data m;
        let s := Session.add_log (Session.ResponseHandled handler (inl v)) s in
        m ← release typeinfo data m;
        Ret (s, m)
      | Some false =>
        match Session.get_string d "message" with
        | None => Ret (Session.error ["Failed to deserialize message"] s, m)
        | Some message => Ret (Session.add_log (Session.ResponseHandled handler (inr (error_text [message]))) s, m)
        end
      end
    end
  end.

Definition processMessage (str : string) (s : session) (m : mem) : outcome (option payload * session * mem) :=
  d ← json_parse str;
  match Session.get_string d "type" with
  | None => Ret (None, Session.error ["Message missing string 'type' field"] s, m)
  | Some type =>
    match Session.get_integer d "seq" with
    | None => Ret (None, Session.error ["Message missing number 'seq' field"] s, m)
    | Some sequence =>
      if bool_decide (type = "request") then processRequest d sequence s m
      else if bool_decide (type = "event") then processEvent d s m
      else if bool_decide (type = "response") then
        '(s, m) ← processResponse d s m; Ret (None, s, m)
      else Ret (None, Session.error ["Unknown message type '"; type; "'"] s, m)
    end
  end.

(** Calling a payload. *)
Definition call (p : payload) (s : session) (m : mem) : outcome (session * mem) :=
  match p with
  | RequestPayload typeinfo handler data sequence command =>
    v ← read typeinfo data m;
    s ← Session.replies env fuel sequence command (handler v) s;
    m ← release typeinfo data m;
    Ret (s, m)
  | EventPayload typeinfo handler data =>
    v ← read typeinfo data m;
    let s := Session.add_log (Session.EventHandled handler v) s in
    m ← release typeinfo data m;
    Ret (s, m)
  end.

(** ** The receiving and the dispatching thread, in the order of a schedule

    [Receive text]: a message is processed and its payload put in the inbox;
    [Dispatch]: the first payload of the inbox is called. *)
Inductive turn := Receive (text : string) | Dispatch.

Fixpoint run (ts : list turn) (q : list payload) (s : session) (m : mem) : outcome (list payload * session * mem) :=
  match ts with
  | [] => Ret (q, s, m)
  | Receive text :: ts =>
    '(p, s, m) ← processMessage text s m;
    run ts (q ++ option_list p) s m
  | Dispatch :: ts =>
    match q with
    | [] => run ts q s m
    | p :: q => '(s, m) ← call p s m; run ts q s m
    end
  end.

(** The same schedule on values ([Session.v]). *)
Fixpoint run_values (ts : list turn) (q : list (Session.payload EventHandler)) (s : session)
    : outcome (list (Session.payload EventHandler) * session) :=
  match ts with
  | [] => Ret (q, s)
  | Receive text :: ts =>
    '(p, s) ← Session.processMessage env fuel text s;
    run_values ts (q ++ option_list p) s
  | Dispatch :: ts =>
    match q with
    | [] => run_values ts q s
    | p :: q => s ← Session.run_payload env fuel p s; run_values ts q s
    end
  end.

(** ** The relation between the two *)
Definition data_of (p : payload) : nat :=
  match p with RequestPayload _ _ a _ _ | EventPayload _ _ a => a end.

(** The payload of addresses that stands for a payload of values, in a block. *)
Definition holds (b : block) (p : Session.payload EventHandler) (pm : payload) : Prop :=
  match p, pm with
  | Session.RequestPayload h v seq cmd, RequestPayload t h' _ seq' cmd' =>
    h = h' /\ seq = seq' /\ cmd = cmd' /\ exists n, b = Object n t v
  | Session.EventPayload h v, EventPayload t h' _ => h = h' /\ exists n, b = Object n t v
  | _, _ => False
  end.

Definition live (b : block) : Prop := b <> Freed.

(** Every block that is not deleted is the data of exactly one payload of the inbox. *)
Record sim (q : list (Session.payload EventHandler)) (qm : list payload) (m : mem) : Prop := {
  sim_lost : m.(lost) = 0%nat;
  sim_data : Forall2 (fun p pm => exists b, m.(blocks) !! data_of pm = Some b /\ holds b p pm) q qm;
  sim_nodup : NoDup (data_of <$> qm);
  sim_live a b : m.(blocks) !! a = Some b -> live b -> a ∈ data_of <$> qm
}.

(** What a message leaves behind. *)
Definition grown (p : option (Session.payload EventHandler)) (pm : option payload) (m m' : mem) : Prop :=
  match p, pm with
  | None, None => m' = m \/ m' = push Freed m
  | Some p, Some pm => data_of pm = length m.(blocks) /\ exists b, m' = push b m /\ holds b p pm
  | _, _ => False
  end.

Lemma make_push t v m :
  Types.construct env fuel t = Ret v ->
  make t m = Ret (length m.(blocks), push (Object (size sizeof t) t v) m).
Proof.
  intros Hv. unfold make, new_array. change (Mem (blocks m ++ [Raw (size sizeof t)]) (lost m)) with (push (Raw (size sizeof t)) m).
  by rewrite (construct_push sizeof env fuel m t v Hv).
Qed.

Lemma release_push n t v m : release t (length m.(blocks)) (push (Object n t v) m) = Ret (push Freed m).
Proof. unfold release. rewrite destruct_push, outcome_bind_ret_l. apply delete_push. Qed.

(** A member that may be missing, read into the object of the last block. *)
Lemma member_push (od : option D) failed t n v ok v' m :
  match od with None => Ret (failed, v) | Some d => Serialization.deserialize env fuel t d v end = Ret (ok, v') ->
  match od with
  | None => Ret (failed, push (Object n t v) m)
  | Some d => deserialize env fuel t d (length m.(blocks)) (push (Object n t v) m)
  end = Ret (ok, push (Object n t v') m).
Proof. destruct od as [d|]; [apply deserialize_push|by intros [= -> ->]]. Qed.

Lemma processRequest_sim d seq (s : session) p s' m :
  Session.processRequest env fuel d seq s = Ret (p, s') ->
  exists pm m', processRequest d seq s m = Ret (pm, s', m') /\ grown p pm m m'.
Proof.
  unfold Session.processRequest, processRequest. intros Hp.
  destruct (Session.get_string d "command") as [command|]; [|simplify_eq; exists None, m; split; [done|by left]].
  destruct (Session.requestMap _ !! command) as [[t h]|]; [|simplify_eq; exists None, m; split; [done|by left]].
  apply outcome_bind_inv in Hp as (v & Hv & Hp). apply outcome_bind_inv in Hp as ([ok v'] & Hd & Hp).
  rewrite (make_push t v m Hv), outcome_bind_ret_l, (member_push _ _ _ _ _ _ _ _ Hd), outcome_bind_ret_l.
  destruct ok; cbn [negb] in *; simplify_eq.
  - eexists (Some _), _. split; [done|]. split; [done|]. eexists. split; [done|]. cbn. by eauto.
  - rewrite release_push, outcome_bind_ret_l. eexists None, _. split; [done|]. by right.
Qed.

Lemma processEvent_sim d (s : session) p s' m :
  Session.processEvent env fuel d s = Ret (p, s') ->
  exists pm m', processEvent d s m = Ret (pm, s', m') /\ grown p pm m m'.
Proof.
  unfold Session.processEvent, processEvent. intros Hp.
  destruct (Session.get_string d "event") as [event|]; [|simplify_eq; exists None, m; split; [done|by left]].
  destruct (Session.eventMap _ !! event) as [[t h]|]; [|simplify_eq; exists None, m; split; [done|by left]].
  apply outcome_bind_inv in Hp as (v & Hv & Hp). apply outcome_bind_inv in Hp as ([ok v'] & Hd & Hp).
  rewrite (make_push t v m Hv), outcome_bind_ret_l, (member_push _ _ _ _ _ _ _ _ Hd), outcome_bind_ret_l.
  destruct ok; cbn [negb] in *; simplify_eq.
  - eexists (Some _), _. split; [done|]. split; [done|]. eexists. split; [done|]. cbn. by eauto.
  - rewrite release_push, outcome_bind_ret_l. eexists None, _. split; [done|]. by right.
Qed.

Lemma processResponse_sim d (s s' : session) m :
  Session.processResponse env fuel d s = Ret s' ->
  exists m', processResponse d s m = Ret (s', m') /\ (m' = m \/ m' = push Freed m).
Proof.
  unfold Session.processResponse, processResponse. intros Hp.
  destruct (Session.get_integer d "request_seq") as [seq|]; [|simplify_eq; by eauto].
  destruct (Session.response seq s) as [[[t h]|] s1]; [|simplify_eq; by eauto].
  destruct (Session.get_boolean d "success") as [[]|]; [| |simplify_eq; by eauto].
  - apply outcome_bind_inv in Hp as (v & Hv & Hp). apply outcome_bind_inv in Hp as ([ok v'] & Hd & Hp). simplify_eq.
    rewrite (make_push t v m Hv), outcome_bind_ret_l, (member_push _ _ _ _ _ _ _ _ Hd), outcome_bind_ret_l.
    rewrite read_push, outcome_bind_ret_l, release_push, outcome_bind_ret_l. by eauto.
  - destruct (Session.get_string d "message"); simplify_eq; by eauto.
Qed.

Lemma processMessage_sim text (s : session) p s' m :
  Session.processMessage env fuel text s = Ret (p, s') ->
  exists pm m', processMessage text s m = Ret (pm, s', m') /\ grown p pm m m'.
Proof.
  unfold Session.processMessage, processMessage. intros (d & Hd & Hp)%outcome_bind_inv. rewrite Hd, outcome_bind_ret_l.
  destruct (Session.get_string d "type") as [type|]; [|simplify_eq; exists None, m; split; [done|by left]].
  destruct (Session.get_integer d "seq") as [seq|]; [|simplify_eq; exists None, m; split; [done|by left]].
  case_bool_decide; [by apply processRequest_sim|]. case_bool_decide; [by apply processEvent_sim|].
  case_bool_decide; [|simplify_eq; exists None, m; split; [done|by left]].
  apply outcome_bind_inv in Hp as (s1 & Hs & Hp). simplify_eq.
  destruct (processResponse_sim d s s' m Hs) as (m' & -> & Hm). by eexists None, m'.
Qed.

(** ** The simulation *)
Lemma lookup_push_lt b m a : (a < length m.(blocks))%nat -> (push b m).(blocks) !! a = m.(blocks) !! a.
Proof. intros. by apply lookup_app_l. Qed.

Lemma sim_bound q qm m a : sim q qm m -> a ∈ data_of <$> qm -> (a < length m.(blocks))%nat.
Proof.
  intros [_ HF _ _] (pm & -> & (i & Hi)%list_elem_of_lookup_1)%list_elem_of_fmap.
  destruct (Forall2_lookup_r _ _ _ _ _ HF Hi) as (p & _ & b & Hb & _). by eapply lookup_lt_Some.
Qed.

Lemma sim_receive q qm m p pm m' : sim q qm m -> grown p pm m m' -> sim (q ++ option_list p) (qm ++ option_list pm) m'.
Proof.
  intros Hsim Hg. pose proof (fun a => sim_bound q qm m a Hsim) as Hbound. pose proof Hsim as [Hl HF Hn Hlive].
  assert (Hkeep : forall b, Forall2 (fun p pm => exists b0, (push b m).(blocks) !! data_of pm = Some b0 /\ holds b0 p pm) q qm).
  { intros b. eapply Forall2_impl; [exact HF|]. cbn. intros x y (b0 & Hb0 & Hh). exists b0. split; [|done].
    rewrite lookup_app_l; [done|]. by eapply lookup_lt_Some. }
  destruct p as [p|], pm as [pm|]; cbn in Hg; try done; cbn [option_list]; rewrite ?app_nil_r.
  - destruct Hg as (Ha & b & -> & Hh). split; [done| | |].
    + apply Forall2_app; [done|]. constructor; [|done]. exists b. by rewrite Ha, lookup_push.
    + rewrite fmap_app. cbn. apply NoDup_app. split; [done|]. split; [|apply NoDup_singleton].
      intros x Hx ->%list_elem_of_singleton. specialize (Hbound _ Hx). lia.
    + intros a b' Hb Hb'. rewrite fmap_app, elem_of_app. cbn in Hb. apply lookup_app_Some in Hb as [Hb|[Hle Hb]].
      * left. by eapply Hlive.
      * right. destruct (a - length (blocks m))%nat eqn:Ed; [|done]. cbn. rewrite Ha. apply list_elem_of_singleton. lia.
  - destruct Hg as [-> | ->]; [done|]. split; [done|by apply Hkeep|done|].
    intros a b Hb Hb'. cbn in Hb. apply lookup_app_Some in Hb as [Hb|[_ Hb]]; [by eapply Hlive|].
    destruct (a - length (blocks m))%nat; [|done]. cbn in Hb. simplify_eq. by destruct Hb'.
Qed.

(** The data of a payload is released. *)
Definition freed (a : nat) (m : mem) : mem := set_block a Freed m.

Lemma release_object t a n v m : m.(blocks) !! a = Some (Object n t v) -> release t a m = Ret (freed a m).
Proof.
  intros Ha. unfold release, destruct. rewrite Ha, bool_decide_eq_true_2, outcome_bind_ret_l by done.
  unfold delete_array. cbn. rewrite list_lookup_insert_eq by by eapply lookup_lt_Some.
  unfold freed, set_block. cbn. by rewrite list_insert_insert_eq.
Qed.

Lemma call_sim p pm b (s s' : session) m :
  m.(blocks) !! data_of pm = Some b -> holds b p pm -> Session.run_payload env fuel p s = Ret s' ->
  call pm s m = Ret (s', freed (data_of pm) m).
Proof.
  intros Hb Hh Hr. destruct p as [h v seq cmd|h v], pm as [t h' a seq' cmd'|t h' a]; cbn in Hb, Hh; try done.
  - destruct Hh as (<- & <- & <- & n & ->). cbn in Hr. unfold call, read. cbn [data_of]. rewrite Hb.
    rewrite bool_decide_eq_true_2, outcome_bind_ret_l, Hr, outcome_bind_ret_l by done.
    by rewrite (release_object _ _ _ _ _ Hb).
  - destruct Hh as (<- & n & ->). cbn in Hr. simplify_eq. unfold call, read. cbn [data_of]. rewrite Hb.
    rewrite bool_decide_eq_true_2, outcome_bind_ret_l by done. by rewrite (release_object _ _ _ _ _ Hb).
Qed.

Lemma sim_dispatch p q pm qm m : sim (p :: q) (pm :: qm) m -> sim q qm (freed (data_of pm) m).
Proof.
  intros [Hl HF Hn Hlive]. apply Forall2_cons in HF as [_ HF]. cbn in Hn. apply NoDup_cons in Hn as [Hni Hn].
  split; [done| |done|].
  - clear Hlive Hn. induction HF as [|x y q qm (b & Hb & Hh) _ IH]; [constructor|]. cbn in Hni.
    apply not_elem_of_cons in Hni as [Hne Hni]. constructor; [|by apply IH]. exists b. split; [|done].
    cbn. by rewrite list_lookup_insert_ne.
  - intros a b Hb Hlv. cbn in Hb. destruct (decide (a = data_of pm)) as [->|Hne].
    + rewrite list_lookup_insert_eq in Hb; [by simplify_eq|].
      apply lookup_lt_Some in Hb. by rewrite length_insert in Hb.
    + rewrite list_lookup_insert_ne in Hb by done. specialize (Hlive a b Hb Hlv). cbn in Hlive.
      by apply elem_of_cons in Hlive as [?|?].
Qed.

Lemma run_sim ts q qm (s : session) m q' s' :
  sim q qm m -> run_values ts q s = Ret (q', s') ->
  exists qm' m', run ts qm s m = Ret (qm', s', m') /\ sim q' qm' m'.
Proof.
  revert q qm s m. induction ts as [|[text|] ts IH]; intros q qm s m Hsim Hr; cbn [run run_values] in *.
  - simplify_eq. by exists qm, m.
  - apply outcome_bind_inv in Hr as ([p s1] & Hp & Hr).
    destruct (processMessage_sim text s p s1 m Hp) as (pm & m1 & -> & Hg). cbn.
    eapply IH; [by eapply sim_receive|done].
  - destruct q as [|p q], qm as [|pm qm]; [by eapply IH|by destruct Hsim as [_ HF _ _]; inversion HF..|].
    apply outcome_bind_inv in Hr as (s1 & Hp & Hr). pose proof Hsim as [_ HF _ _].
    apply Forall2_cons in HF as [(b & Hb & Hh) _]. rewrite (call_sim p pm b s s1 m Hb Hh Hp). cbn.
    eapply IH; [by eapply sim_dispatch|done].
Qed.

Lemma sim_empty : sim [] [] empty.
Proof. split; [done|constructor|constructor|]. by intros [|a] b. Qed.
End Objects.
Arguments payload : clear implicits.
End SessionMemory.

Module SessionMemoryProps.
Import SessionMemory.
Section Props.
Context {D Ser FS R W : Type} {HB : JsonBackend D Ser FS} {HR : Reader R} {HW : Writer W}.
Context {EH RH VH SH : Type}.

(** C9. The session is memory safe: every schedule of received messages and dispatched
    payloads that runs on values runs on memory, with the same session, no use of an
    object that is not there, no double destruction or deletion; no object is deleted
    without its destructor; and the blocks that are not deleted are exactly the data of
    the payloads left in the inbox, one block each, so that none is left when all
    payloads have been called. *)
Theorem session_memory_safe sizeof env fuel ts (s s' : Session.t R W EH RH VH SH) q :
  run_values env fuel ts [] s = Ret (q, s') ->
  exists qm m, run sizeof env fuel ts [] s Memory.empty = Ret (qm, s', m) /\
    m.(Memory.lost) = 0%nat /\ length qm = length q /\ NoDup (data_of <$> qm) /\
    (forall a b, m.(Memory.blocks) !! a = Some b -> b <> Memory.Freed <-> a ∈ data_of <$> qm).
Proof.
  intros Hr. destruct (run_sim sizeof env fuel ts [] [] s Memory.empty q s' sim_empty Hr) as (qm & m & Hm & Hsim).
  exists qm, m. destruct Hsim as [Hl HF Hn Hlive]. split_and!; [done..|by rewrite (Forall2_length _ _ _ HF)|done|].
  intros a b Hb. split; [by eapply Hlive|]. intros (pm & -> & (i & Hi)%list_elem_of_lookup_1)%list_elem_of_fmap.
  destruct (Forall2_lookup_r _ _ _ _ _ HF Hi) as (p & _ & b' & Hb' & Hh). rewrite Hb in Hb'. simplify_eq.
  destruct p, pm; cbn in Hh; naive_solver.
Qed.

(** A payload may be called once only: a second call reads an object that is gone. *)
Theorem session_payload_twice_undefined env fuel (p : payload VH) (s s1 s2 : Session.t R W EH RH VH SH) m m1 :
  call env fuel p s m = Ret (s1, m1) -> call env fuel p s2 m1 = Undefined.
Proof.
  assert (Hrel : forall t a m1 m2 : _, release t a m1 = Ret m2 -> Memory.read t a m2 = Undefined).
  { intros t a m2 m3 (m4 & Hd & Hf)%outcome_bind_inv. unfold Memory.destruct in Hd.
    destruct (Memory.blocks m2 !! a) as [[|n u v|]|] eqn:E; try done. case_bool_decide; simplify_eq.
    unfold Memory.delete_array in Hf. cbn in Hf. apply lookup_lt_Some in E as Hlt.
    rewrite list_lookup_insert_eq in Hf by done. simplify_eq. unfold Memory.read. cbn.
    by rewrite list_lookup_insert_eq by by rewrite length_insert. }
  intros Hc. destruct p as [t h a seq cmd|t h a]; cbn [call] in *.
  - apply outcome_bind_inv in Hc as (v & _ & Hc). apply outcome_bind_inv in Hc as (s3 & _ & Hc).
    apply outcome_bind_inv in Hc as (m3 & Hm & Hc). simplify_eq. by rewrite (Hrel _ _ _ _ Hm).
  - apply outcome_bind_inv in Hc as (v & _ & Hc). apply outcome_bind_inv in Hc as (m3 & Hm & Hc). simplify_eq.
    by rewrite (Hrel _ _ _ _ Hm).
Qed.
End Props.

(** An endpoint that receives a terminated event. *)
Import SessionProps.SessionProps.

Definition terminated_text : string :=
  text_of (event_doc 9 "terminated" (encoded terminated (TStruct "TerminatedEvent"))).

Lemma terminated_parsed : parsed (D := lib_des) (Ser := lib_ser) (FS := lib_fs) terminated_text
  (event_doc 9 "terminated" (encoded terminated (TStruct "TerminatedEvent"))).
Proof. eexists. split; [vm_compute; reflexivity|]. split; [vm_compute; reflexivity|]. apply (bool_decide_unpack _). vm_compute. exact I. Qed.

Lemma terminated_run : run_values (D := lib_des) (Ser := lib_ser) (FS := lib_fs) protocol_schema 30
    [Receive terminated_text; Dispatch] [] (serving accept) =
  Ret ([], Session.add_log (Session.EventHandled 5%nat terminated) (serving accept)).
Proof.
  cbn [run_values].
  rewrite (process_event protocol_schema protocol_depth 30 protocol_schema_ok (serving accept) terminated_text 9 "terminated"
    (TStruct "TerminatedEvent") terminated _ 5%nat terminated_parsed);
    [reflexivity|by_compute|by_compute|exact terminated_sendable|by_compute].
Qed.

Lemma session_memory_safe_witness : exists m,
  run (D := lib_des) (Ser := lib_ser) (FS := lib_fs) (fun _ => 8) protocol_schema 30 [Receive terminated_text; Dispatch] []
    (serving accept) Memory.empty =
    Ret ([], Session.add_log (Session.EventHandled 5%nat terminated) (serving accept), m) /\
  (forall a b, m.(Memory.blocks) !! a = Some b -> b = Memory.Freed).
Proof.
  destruct (session_memory_safe (D := lib_des) (Ser := lib_ser) (FS := lib_fs) (fun _ => 8) protocol_schema 30 _ _ _ _
    terminated_run) as (qm & m & Hr & _ & Hl & _ & Hb).
  destruct qm; [|discriminate Hl]. exists m. split; [exact Hr|]. intros a b Ha.
  destruct b; try reflexivity; exfalso; apply (not_elem_of_nil a), (Hb a _ Ha); discriminate.
Defined.
End SessionMemoryProps.
