(* ===== verification/Wire.v ===== *)
(** * A client and a server over two pipes

    Everything a message passes through, put together: [Session::send]
    ([src/session.cpp]), the serializer, the frame of [src/content_stream.cpp], a pipe
    ([src/io.cpp]) that is the writer of one session and the reader of the other, the
    receiving thread, the inbox, the dispatching thread, the handler, and the way back.
    The client may call [send] at any time; its two threads and the two threads of the
    server run in any interleaving. [wire_calls_in_order] and [wire_calls_answered] are
    the contract of the whole: remote calls behave like local ones. *)
From Stdlib Require Import ZArith Lia.
From stdpp Require Import base list strings gmap relations.
From S2P Require Import Prelude IO ContentStream Monitor Chan Pipe SMap Types Serialization Json Backend.
From S2P Require Import Nlohmann ReferenceJson Protocol SerializationProps Session SessionProps.
Import NlohmannDeserializerFacts NlohmannSerializerFacts.

Module Wire.

(** The session at the other end of both pipes, after [a] moved: its reader is the pipe
    [a] writes to, its writer the pipe [a] reads from. *)
Definition attach {E1 R1 V1 S1 E2 R2 V2 S2 : Type} (a : Session.t Pipe.t Pipe.t E1 R1 V1 S1)
    (b : Session.t Pipe.t Pipe.t E2 R2 V2 S2) : Session.t Pipe.t Pipe.t E2 R2 V2 S2 :=
  Session.set_writer (ContentWriter.mk a.(Session.reader).(ContentReader.reader))
    (Session.set_reader (ContentReader.mk a.(Session.writer).(ContentWriter.writer)
       b.(Session.reader).(ContentReader.buf) b.(Session.reader).(ContentReader.on_invalid_data)) b).

Section Wire.
Context {D Ser FS : Type} {HB : JsonBackend D Ser FS}.
Context {EH RH VH SH EH' RH' VH' SH' : Type}.
Context (env : schema) (fuel : nat).

Abbreviation client_t := (Session.t Pipe.t Pipe.t EH RH VH SH).
Abbreviation server_t := (Session.t Pipe.t Pipe.t EH' RH' VH' SH').

(** A call of [send]: the types, the request and the handler of its response. *)
Record call := Call { request : ty; response : ty; argument : value; handler : RH }.

(** [sent]: the calls made so far. *)
Record world := World { client : client_t; server : server_t; sent : list call }.

(** The calls the client makes. *)
Context (allowed : call -> Prop).

(** A turn of one of the four threads. *)
Inductive turn (w : world) : world -> Prop :=
| client_recv c : Session.recv_turn env fuel w.(client) = Ret (Some c) ->
    turn w (World c (attach c w.(server)) w.(sent))
| client_dispatch c : Session.dispatch_turn env fuel w.(client) = Ret (Some c) ->
    turn w (World c (attach c w.(server)) w.(sent))
| server_recv s : Session.recv_turn env fuel w.(server) = Ret (Some s) ->
    turn w (World (attach s w.(client)) s w.(sent))
| server_dispatch s : Session.dispatch_turn env fuel w.(server) = Ret (Some s) ->
    turn w (World (attach s w.(client)) s w.(sent)).

Inductive step (w : world) : world -> Prop :=
| step_send x b c : allowed x ->
    Session.send_request env fuel x.(request) x.(response) x.(argument) x.(handler) w.(client) = Ret (b, c) ->
    step w (World c (attach c w.(server)) (w.(sent) ++ [x]))
| step_turn w' : turn w w' -> step w w'.

(** The bytes in flight fit the memory (and the fuel), the calls the sequence numbers. *)
Definition within (w : world) : Prop :=
  let fits (bs : bytes) := (length bs < fuel)%nat /\ size_of bs < 2 ^ 64 in
  fits (Refinement.stream w.(client).(Session.reader)) /\ fits (Refinement.stream w.(server).(Session.reader)) /\
  Z.of_nat (length w.(sent)) <= 2 ^ 32.

Definition runs : world -> world -> Prop := rtc (fun w w' => step w w' /\ within w').

(** Turns only. *)
Definition settles : world -> world -> Prop := rtc (fun w w' => turn w w' /\ within w').
End Wire.
Arguments call : clear implicits.
Arguments world : clear implicits.

(** ** Pipes between sessions *)
Section Pipes.
Context {EH RH VH SH : Type}.
Abbreviation session := (Session.t Pipe.t Pipe.t EH RH VH SH).

(** An end of a pipe that is open, and what is in the pipe. *)
Definition open_end (x : option Pipe.t) : Prop := exists d, x = Some (Pipe.mk d false).
Definition contents (x : option Pipe.t) : bytes := match x with Some p => p.(Pipe.data) | None => [] end.

Lemma stream_contents (x : ContentReader.t Pipe.t) :
  open_end x.(ContentReader.reader) ->
  Refinement.stream x = x.(ContentReader.buf) ++ contents x.(ContentReader.reader).
Proof. intros [d Hd]. unfold Refinement.stream. by rewrite Hd. Qed.

Lemma open_connected (x : ContentReader.t Pipe.t) :
  open_end x.(ContentReader.reader) -> Refinement.connected x /\ ContentReader.isOpen x = true /\ Refinement.at_eof x = false.
Proof.
  intros [d Hd]. unfold Refinement.connected, ContentReader.isOpen, Refinement.at_eof. rewrite Hd.
  split_and!; [by eexists|done..].
Qed.

Lemma keeps_open (x y : ContentReader.t Pipe.t) :
  open_end x.(ContentReader.reader) -> Refinement.keeps x y -> open_end y.(ContentReader.reader).
Proof.
  intros Hx (Hc & _ & He & _). apply open_connected in Hx as (_ & _ & Hx). rewrite Hx in He.
  destruct Hc as ([d b] & Hr & _). unfold Refinement.at_eof in He. rewrite Hr in He. cbn in He. subst b. by exists d.
Qed.

Lemma open_writes (s : session) : open_end s.(Session.writer).(ContentWriter.writer) ->
  exists d, s.(Session.writer) = ContentWriter.create (Pipe.mk d false) /\ writes_to s (Pipe.mk d false).
Proof.
  intros [d Hd]. exists d. assert (Hw : s.(Session.writer) = ContentWriter.create (Pipe.mk d false)).
  { destruct (Session.writer s) as [w]. cbn in Hd. by subst w. }
  split; [done|]. by split_and!.
Qed.

Lemma wrote_pipe d w text : wrote (Pipe.mk d false) w text -> w = Pipe.mk (d ++ encode text) false /\ text <> EmptyString.
Proof.
  intros (Hs & Hn & Ho & _). destruct w as [d' b]. cbn in Hs, Ho. unfold Pipe.isOpen in Ho. cbn in Ho.
  destruct b; [done|]. by subst d'.
Qed.

(** Nothing to read: the receiving thread waits. *)
Lemma recv_waits {D Ser FS : Type} {HB : JsonBackend D Ser FS} env fuel (s : session) :
  open_end s.(Session.reader).(ContentReader.reader) -> Refinement.stream s.(Session.reader) = [] -> (0 < fuel)%nat ->
  Session.recv_turn (D := D) (Ser := Ser) (FS := FS) env fuel s = Blocks.
Proof.
  intros Ho Hs Hf. destruct (open_connected _ Ho) as (Hc & Hi & He). unfold Session.recv_turn, Session.getPayload.
  rewrite Hi. cbn [negb]. pose proof (Refinement.read_refines_frame fuel _ Hc) as Hr. rewrite Hs, He in Hr.
  specialize (Hr Hf). unfold Frames.frame in Hr. by destruct (ContentReader.on_invalid_data _); cbn in Hr; rewrite Hr.
Qed.

(** One message read and processed. *)
Lemma recv_message {D Ser FS : Type} {HB : JsonBackend D Ser FS} env fuel (s : session) text rest :
  open_end s.(Session.reader).(ContentReader.reader) -> (length (Refinement.stream s.(Session.reader)) < fuel)%nat ->
  size_of (Refinement.stream s.(Session.reader)) < 2 ^ 64 -> text <> EmptyString ->
  Refinement.stream s.(Session.reader) = encode text ++ rest ->
  exists r, Refinement.stream r = rest /\ open_end r.(ContentReader.reader) /\
    Session.recv_turn (D := D) (Ser := Ser) (FS := FS) env fuel s =
      ('(p, s) ← Session.processMessage env fuel text (Session.set_reader r s);
       Ret (Some match p with Some p => Session.set_inbox (Chan.put s.(Session.inbox) p).2 s | None => s end)).
Proof.
  intros Ho Hf Hz Hne Hs. destruct (open_connected _ Ho) as (Hc & Hi & He).
  assert (Hcar : carried text).
  { rewrite Hs in Hz. unfold encode in Hz. rewrite !size_of_app in Hz. pose proof (MessageFacts.encode_nonempty text).
    pose proof (size_of_nonneg rest). split; [|lia]. destruct text as [|a text]; [done|].
    change (bytes_of (String a text)) with (a :: bytes_of text). rewrite size_of_cons.
    pose proof (size_of_nonneg (bytes_of text)). lia. }
  destruct (MessageFacts.read_frame fuel s.(Session.reader) text rest Hc Hf) as (r & Hr & Hst & Hk).
  { rewrite Hs. by apply FrameFacts.frame_encode. }
  exists r. split; [done|]. split; [by eapply keeps_open|]. unfold Session.recv_turn, Session.getPayload.
  rewrite Hi. cbn [negb]. rewrite Hr, outcome_bind_ret_l. destruct Hcar as [Hpos _].
  by destruct (Z.gtb_spec (size_of (bytes_of text)) 0); [|lia].
Qed.
End Pipes.

(** What the pipes of a session become when the other end moved. *)
Lemma attach_reads {E1 R1 V1 S1 E2 R2 V2 S2 : Type} (a : Session.t Pipe.t Pipe.t E1 R1 V1 S1)
    (b : Session.t Pipe.t Pipe.t E2 R2 V2 S2) bs :
  open_end a.(Session.writer).(ContentWriter.writer) -> open_end b.(Session.reader).(ContentReader.reader) ->
  contents a.(Session.writer).(ContentWriter.writer) = contents b.(Session.reader).(ContentReader.reader) ++ bs ->
  Refinement.stream (attach a b).(Session.reader) = Refinement.stream b.(Session.reader) ++ bs.
Proof.
  intros Ha Hb Hc. rewrite (stream_contents b.(Session.reader) Hb), <-app_assoc, <-Hc. by apply stream_contents.
Qed.

(** ** The calls and their answers *)
Section Calls.
Context {D Ser FS : Type} {HB : JsonBackend D Ser FS} {HD : DeserializerView D} {HV : SerializerView Ser FS}.
Context {L : limits} {HC : JsonBackendContract D Ser FS L}.
Context {EH RH VH SH EH' RH' VH' SH' : Type}.
Context (env : schema) (k fuel : nat) (Hok : schema_ok env k).
(** What the server's handler of a request computes. *)
Context (serve : ty -> value -> ResponseOrError) (rm : gmap string (ty * GenericRequestHandler)).

Abbreviation client_t := (Session.t Pipe.t Pipe.t EH RH VH SH).
Abbreviation server_t := (Session.t Pipe.t Pipe.t EH' RH' VH' SH').
Abbreviation call := (call RH).

Definition command (x : call) : string := Session.name_of env x.(request).

Definition result (x : call) : ResponseOrError := serve x.(request) x.(argument).

(** What the handler of a call must be given. *)
Definition answer (x : call) : value + string :=
  if is_error (result x) then inr (error_text [(result x).(roe_error)]) else inl (result x).(roe_response).

(** A call whose request the server handles, and whose request and response can be sent. *)
Record callable (x : call) : Prop := {
  ca_name : text_ok (L := L) (command x) = true;
  ca_request : exists j, sendable (L := L) env k fuel x.(request) x.(argument) j;
  ca_handler : rm !! command x = Some (x.(request), request_handler x.(response) (serve x.(request)));
  ca_result : if is_error (result x) then text_ok (L := L) (result x).(roe_error) = true
              else exists j, sendable (L := L) env k fuel x.(response) (result x).(roe_response) j
}.

(** A call with its sequence number, and what stands for it on its way. *)
Abbreviation numbered_call := (Z * call)%type.

Definition payload_of (q : numbered_call) : Session.payload VH' :=
  Session.RequestPayload (request_handler q.2.(response) (serve q.2.(request))) q.2.(argument) q.1 (command q.2).

Definition request_text (q : numbered_call) (text : string) : Prop :=
  text <> EmptyString /\ forall s : server_t, s.(Session.hs).(Session.requestMap) = rm ->
    Session.processMessage env fuel text s = Ret (Some (payload_of q), s).

Definition response_text (q : numbered_call) (text : string) : Prop :=
  text <> EmptyString /\ forall c : client_t,
    c.(Session.hs).(Session.responseMap) !! q.1 = Some (q.2.(response), q.2.(handler)) ->
    Session.processMessage env fuel text c =
      Ret (None, Session.add_log (Session.ResponseHandled q.2.(handler) (answer q.2)) (taken q.1 c)).

Lemma send_call (c : client_t) x : callable x -> open_end c.(Session.writer).(ContentWriter.writer) ->
  c.(Session.hs).(Session.responseMap) !! s32 c.(Session.nextSeq) = None ->
  let q := (s32 c.(Session.nextSeq), x) in
  exists text, request_text q text /\
    Session.send_request env fuel x.(request) x.(response) x.(argument) x.(handler) c =
      Ret (true, requested q.1 x.(response) x.(handler)
        (Pipe.mk (contents c.(Session.writer).(ContentWriter.writer) ++ encode text) false) c).
Proof using HC Hok.
  intros [Hn [j Hj] Hh _] Ho Hfree. cbn zeta. destruct (open_writes c Ho) as (d & Hd & Hw).
  destruct (send_request_writes env k fuel Hok c _ x.(request) x.(response) x.(argument) j x.(handler) Hw Hj Hn Hfree)
    as (text & w & Hs & [-> Hne]%wrote_pipe & Hp).
  exists text. split; [|by rewrite Hd]. split; [done|]. intros s Hs'.
  apply (process_request env k fuel Hok s text _ _ x.(request) x.(argument) j _ Hp (in_int64_s32 _) (proj2 (text_ok_inv _ Hn)) Hj).
  by rewrite Hs'.
Qed.

Lemma reply_call (s : server_t) q : callable q.2 -> open_end s.(Session.writer).(ContentWriter.writer) ->
  0 <= s.(Session.nextSeq) < 2 ^ 32 -> in_int64 q.1 = true ->
  exists text r, response_text q text /\
    Session.run_payload env fuel (payload_of q) s = Ret (replied q.2.(response) r
      (Pipe.mk (contents s.(Session.writer).(ContentWriter.writer) ++ encode text) false) s).
Proof using HC Hok.
  destruct q as [seq x]. intros [Hn _ _ Hr] Ho Hseq Hq. cbn [fst snd] in *. destruct (open_writes s Ho) as (d & Hd & Hw).
  unfold Session.run_payload, payload_of, request_handler, reply_of. cbn [fst snd]. fold (result x).
  destruct (is_error (result x)) eqn:He.
  - destruct (reply_error env fuel s _ seq (command x) x.(response) _ Hw Hseq Hq Hn Hr)
      as (text & w & Hs & [-> Hne]%wrote_pipe & Hp).
    exists text, (inr (result x).(roe_error)). split; [|cbn [Session.replies]; by rewrite Hs, Hd].
    split; [done|]. intros c Hc. unfold answer. cbn. rewrite He.
    by apply (process_error env fuel c text _ seq (command x) _ x.(response) x.(handler) Hp (in_int64_u32 _ Hseq) Hq (proj2 (text_ok_inv _ Hr))).
  - destruct Hr as [j Hj]. destruct (reply_success env k fuel Hok s _ seq (command x) x.(response) _ j Hw Hj Hseq Hq Hn)
      as (text & w & Hs & [-> Hne]%wrote_pipe & Hp).
    exists text, (inl (result x).(roe_response)). split; [|cbn [Session.replies]; by rewrite Hs, Hd].
    split; [done|]. intros c Hc. unfold answer. cbn. rewrite He.
    by apply (process_success env k fuel Hok c text _ seq (command x) x.(response) _ j x.(handler) Hp (in_int64_u32 _ Hseq) Hq Hj).
Qed.

(** ** Sequence numbers *)
Section Invariant.
Context (n0 : Z) (log0 : list (Session.action EH RH VH SH)).
Abbreviation world := (world EH RH VH SH EH' RH' VH' SH').

Definition number (i : nat) (x : call) : numbered_call := (s32 (u32 (n0 + Z.of_nat i)), x).
Definition numbered (l : list call) : list numbered_call := imap number l.

Lemma numbered_snoc l x : numbered (l ++ [x]) = numbered l ++ [number (length l) x].
Proof. unfold numbered. rewrite imap_app. cbn. by rewrite Nat.add_0_r. Qed.

Lemma numbered_calls l : (numbered l).*2 = l.
Proof.
  unfold numbered. rewrite fmap_imap. apply list_eq. intros i. rewrite list_lookup_imap. by destruct (l !! i).
Qed.

Lemma numbered_NoDup l : Z.of_nat (length l) <= 2 ^ 32 -> NoDup (numbered l).*1.
Proof.
  intros Hl. apply NoDup_alt. intros i j z. unfold numbered. rewrite !list_lookup_fmap, !list_lookup_imap.
  destruct (l !! i) as [x|] eqn:Hi; [|done]. destruct (l !! j) as [y|] eqn:Hj; [|done]. cbn. intros [= <-] [= He].
  apply lookup_lt_Some in Hi, Hj. apply s32_inj in He; [|apply u32_range..]. unfold u32 in He.
  pose proof (Z.div_mod (n0 + Z.of_nat i) (2 ^ 32)). pose proof (Z.div_mod (n0 + Z.of_nat j) (2 ^ 32)). nia.
Qed.

Lemma numbered_int64 l q : q ∈ numbered l -> in_int64 q.1 = true.
Proof.
  intros (i & Hi)%list_elem_of_lookup_1. unfold numbered in Hi. rewrite list_lookup_imap in Hi.
  destruct (l !! i); [|done]. injection Hi as <-. apply in_int64_s32.
Qed.

(** ** The invariant

    The calls in the order they were made: [dn] were answered; the responses to [rs] are
    in the pipe to the client, the payloads of [ib] in the inbox of the server, the
    requests of [rq] in the pipe to the server. *)
Definition entry (q : numbered_call) : Z * (ty * RH) := (q.1, (q.2.(response), q.2.(handler))).
Definition handled (q : numbered_call) : Session.action EH RH VH SH :=
  Session.ResponseHandled q.2.(handler) (answer q.2).

Record inv (dn rs ib rq : list numbered_call) (reqs resps : list string) (w : world) : Prop := {
  i_sent : numbered w.(sent) = dn ++ rs ++ ib ++ rq;
  i_callable : Forall callable w.(sent);
  i_log : w.(client).(Session.log) = log0 ++ (handled <$> dn);
  i_up : open_end w.(client).(Session.writer).(ContentWriter.writer) /\
         w.(server).(Session.reader).(ContentReader.reader) = w.(client).(Session.writer).(ContentWriter.writer);
  i_down : open_end w.(server).(Session.writer).(ContentWriter.writer) /\
           w.(client).(Session.reader).(ContentReader.reader) = w.(server).(Session.writer).(ContentWriter.writer);
  i_reqs : Refinement.stream w.(server).(Session.reader) = encode_all reqs;
  i_resps : Refinement.stream w.(client).(Session.reader) = encode_all resps;
  i_rq : Forall2 request_text rq reqs;
  i_rs : Forall2 response_text rs resps;
  i_inbox : w.(server).(Session.inbox) = Chan.mk false (payload_of <$> ib);
  i_client_inbox : w.(client).(Session.inbox) = Chan.create;
  i_handlers : w.(server).(Session.hs).(Session.requestMap) = rm;
  i_server_seq : 0 <= w.(server).(Session.nextSeq) < 2 ^ 32;
  i_client_seq : w.(client).(Session.nextSeq) = u32 (n0 + Z.of_nat (length w.(sent)));
  i_pending : w.(client).(Session.hs).(Session.responseMap) = list_to_map (entry <$> rs ++ ib ++ rq)
}.

(** How many turns the calls in flight still need. *)
Definition work (rs ib rq : list numbered_call) : nat := (length rs + 2 * length ib + 3 * length rq)%nat.

(** The pipe a session reads from does not change when the other end only reads. *)
Lemma attach_same {E1 R1 V1 S1 E2 R2 V2 S2 : Type} (a : Session.t Pipe.t Pipe.t E1 R1 V1 S1)
    (b : Session.t Pipe.t Pipe.t E2 R2 V2 S2) :
  open_end b.(Session.reader).(ContentReader.reader) ->
  b.(Session.reader).(ContentReader.reader) = a.(Session.writer).(ContentWriter.writer) ->
  Refinement.stream (attach a b).(Session.reader) = Refinement.stream b.(Session.reader).
Proof.
  intros Hb He. rewrite (attach_reads a b []); rewrite ?app_nil_r; rewrite <-?He; done.
Qed.

(** *** The server takes a request from the pipe *)
Lemma server_recv_inv dn rs ib q rq text reqs resps w :
  inv dn rs ib (q :: rq) (text :: reqs) resps w -> within fuel w ->
  exists s, Session.recv_turn env fuel w.(server) = Ret (Some s) /\
    inv dn rs (ib ++ [q]) rq reqs resps (World (attach s w.(client)) s w.(sent)).
Proof.
  intros [] (_ & (Hf & Hz) & _). destruct i_up0 as [Hup Hup']. destruct i_down0 as [Hdn Hdn'].
  apply Forall2_cons in i_rq0 as [[Hne Ht] Hrq].
  destruct (recv_message env fuel w.(server) text (encode_all reqs)) as (r & Hst & Hro & Hrecv);
    [by rewrite Hup'|done|done|done|done|].
  rewrite Ht in Hrecv by done. eexists. split; [exact Hrecv|].
  split; cbn [client server sent]; try done.
  - by rewrite i_sent0, <-!app_assoc.
  - rewrite attach_same; [done|by rewrite Hdn'|done].
  - cbn [Session.inbox Session.set_inbox Session.set_reader]. rewrite i_inbox0. cbn. by rewrite fmap_app.
  - by rewrite <-!app_assoc.
Qed.

(** *** The server runs a handler and writes the response *)
Lemma server_dispatch_inv dn rs q ib rq reqs resps w :
  inv dn rs (q :: ib) rq reqs resps w ->
  exists s text, Session.dispatch_turn env fuel w.(server) = Ret (Some s) /\
    inv dn (rs ++ [q]) ib rq reqs (resps ++ [text]) (World (attach s w.(client)) s w.(sent)).
Proof using HC Hok.
  intros []. destruct i_up0 as [Hup Hup']. destruct i_down0 as [Hdn Hdn'].
  assert (Hin : q ∈ numbered w.(sent)) by (rewrite i_sent0; set_solver).
  assert (Hq : callable q.2).
  { eapply Forall_forall; [exact i_callable0|]. rewrite <-(numbered_calls w.(sent)). by apply list_elem_of_fmap_2. }
  set (s1 := Session.set_inbox (Chan.mk false (payload_of <$> ib)) w.(server)).
  destruct (reply_call s1 q Hq Hdn i_server_seq0 (numbered_int64 _ _ Hin)) as (text & r & Ht & Hrun).
  eexists _, text. split.
  { unfold Session.dispatch_turn. rewrite i_inbox0. cbn [Chan.take_ready]. rewrite Chan.take_ready_spec. cbn [Chan.queue negb fmap list_fmap].
    unfold Chan.take. cbn [Chan.queue Chan.closed]. fold s1. by rewrite Hrun. }
  assert (Hrep : forall w', let s' := replied q.2.(response) r w' s1 in
    s'.(Session.reader) = w.(server).(Session.reader) /\ s'.(Session.writer) = ContentWriter.create w' /\
    s'.(Session.hs) = w.(server).(Session.hs) /\ s'.(Session.inbox) = s1.(Session.inbox) /\ 0 <= s'.(Session.nextSeq) < 2 ^ 32).
  { intros w'. cbn zeta. unfold replied. by destruct (Session.sent_lookup _ _); cbn; auto with dap. }
  match goal with |- context [replied _ _ ?p s1] => destruct (Hrep p) as (Hr & Hw & Hh & Hi & Hn) end.
  split; cbn [client server sent]; try done.
  - by rewrite i_sent0, <-!app_assoc.
  - split; [|done]. cbn [attach Session.writer Session.set_writer ContentWriter.writer]. by rewrite Hr, Hup'.
  - split; [by rewrite Hw; eexists|done].
  - by rewrite Hr.
  - rewrite (attach_reads _ _ (encode text)); [|by rewrite Hw; eexists|by rewrite Hdn'|by rewrite Hw, Hdn'].
    rewrite i_resps0. unfold encode_all. rewrite fmap_app, join_app. cbn. by rewrite app_nil_r.
  - apply Forall2_app; [done|]. by constructor.
  - by rewrite Hh.
  - by rewrite <-!app_assoc.
Qed.

(** *** The client takes a response from the pipe *)
Lemma client_recv_inv dn q rs ib rq reqs text resps w :
  inv dn (q :: rs) ib rq reqs (text :: resps) w -> within fuel w ->
  exists c, Session.recv_turn env fuel w.(client) = Ret (Some c) /\
    inv (dn ++ [q]) rs ib rq reqs resps (World c (attach c w.(server)) w.(sent)).
Proof.
  intros [] ((Hf & Hz) & _ & Hl). destruct i_up0 as [Hup Hup']. destruct i_down0 as [Hdn Hdn'].
  apply Forall2_cons in i_rs0 as [[Hne Ht] Hrs].
  destruct (recv_message env fuel w.(client) text (encode_all resps)) as (r & Hst & Hro & Hrecv);
    [by rewrite Hdn'|done|done|done|done|].
  assert (Hnd : NoDup (entry <$> (q :: rs) ++ ib ++ rq).*1).
  { pose proof (numbered_NoDup w.(sent) Hl) as Hnd. rewrite i_sent0, fmap_app in Hnd. apply NoDup_app in Hnd as (_ & _ & Hnd).
    rewrite <-list_fmap_compose. exact Hnd. }
  rewrite Ht in Hrecv; cbn [Session.hs Session.set_reader]; [|rewrite i_pending0; cbn; by rewrite lookup_insert_eq].
  eexists. split; [exact Hrecv|].
  split; cbn [client server sent]; try done.
  - by rewrite i_sent0, <-!app_assoc.
  - cbn [Session.log Session.add_log taken Session.set_hs Session.set_reader]. rewrite i_log0, fmap_app. cbn. by rewrite <-app_assoc.
  - rewrite attach_same; [done|by rewrite Hup'|done].
  - cbn [Session.hs Session.add_log taken Session.set_hs Session.set_reader Session.set_responseMap Session.responseMap].
    rewrite i_pending0. cbn in Hnd |- *. apply NoDup_cons in Hnd as [Hq _]. rewrite delete_insert_id; [done|].
    by apply not_elem_of_list_to_map_1.
Qed.

(** *** Threads that wait *)
Lemma server_recv_waits dn rs ib resps w : inv dn rs ib [] [] resps w -> within fuel w ->
  Session.recv_turn env fuel w.(server) = Blocks.
Proof.
  intros [] (_ & [Hf _] & _). destruct i_up0 as [Hup Hup'].
  apply recv_waits; [by rewrite Hup'|by rewrite i_reqs0|lia].
Qed.

Lemma client_recv_waits dn ib rq reqs w : inv dn [] ib rq reqs [] w -> within fuel w ->
  Session.recv_turn env fuel w.(client) = Blocks.
Proof.
  intros [] ([Hf _] & _). destruct i_down0 as [Hdn Hdn'].
  apply recv_waits; [by rewrite Hdn'|by rewrite i_resps0|lia].
Qed.

Lemma dispatch_waits {E R V S} (s : Session.t Pipe.t Pipe.t E R V S) : s.(Session.inbox) = Chan.mk false [] ->
  Session.dispatch_turn env fuel s = Blocks.
Proof. intros Hi. unfold Session.dispatch_turn. by rewrite Hi. Qed.

(** *** The client calls [send] *)
Lemma send_inv dn rs ib rq reqs resps w x :
  inv dn rs ib rq reqs resps w -> callable x -> Z.of_nat (S (length w.(sent))) <= 2 ^ 32 ->
  exists c text, Session.send_request env fuel x.(request) x.(response) x.(argument) x.(handler) w.(client) = Ret (true, c) /\
    inv dn rs ib (rq ++ [number (length w.(sent)) x]) (reqs ++ [text]) resps (World c (attach c w.(server)) (w.(sent) ++ [x])).
Proof using HC Hok.
  intros [] Hx Hl. destruct i_up0 as [Hup Hup']. destruct i_down0 as [Hdn Hdn'].
  set (q := number (length w.(sent)) x). assert (Hq : q = (s32 w.(client).(Session.nextSeq), x)) by (by rewrite i_client_seq0).
  assert (Hnd : NoDup (numbered (w.(sent) ++ [x])).*1) by (apply numbered_NoDup; rewrite length_app; cbn; lia).
  rewrite numbered_snoc, i_sent0, !fmap_app in Hnd. cbn in Hnd.
  assert (Hfresh : q.1 ∉ (entry <$> rs ++ ib ++ rq).*1).
  { rewrite <-list_fmap_compose. intros Hin. apply NoDup_app in Hnd as (_ & Hdisj & _).
    apply (Hdisj q.1); [|by apply list_elem_of_singleton]. rewrite elem_of_app. right. rewrite <-!fmap_app. exact Hin. }
  destruct (send_call w.(client) x Hx Hup) as (text & Ht & Hsend).
  { rewrite i_pending0. apply not_elem_of_list_to_map_1. rewrite Hq in Hfresh. exact Hfresh. }
  rewrite <-Hq in *. cbn zeta in *. eexists _, text. split; [exact Hsend|].
  split; cbn [client server sent]; try done.
  - by rewrite numbered_snoc, i_sent0, <-!app_assoc.
  - apply Forall_app. split; [done|]. by constructor.
  - split; [by eexists|done].
  - split; [|done]. change (open_end w.(client).(Session.reader).(ContentReader.reader)). by rewrite Hdn'.
  - rewrite (attach_reads _ _ (encode text)); [|by eexists|by rewrite Hup'|by rewrite Hup'].
    rewrite i_reqs0. unfold encode_all. rewrite fmap_app, join_app. cbn. by rewrite app_nil_r.
  - apply Forall2_app; [done|]. by constructor.
  - cbn [Session.nextSeq requested Session.set_writer Session.set_hs Session.set_nextSeq]. rewrite i_client_seq0, length_app. cbn.
    unfold u32. rewrite Zplus_mod_idemp_l. f_equal. lia.
  - cbn [Session.hs requested Session.set_writer Session.set_hs Session.set_responseMap Session.responseMap]. rewrite i_pending0.
    replace (rs ++ ib ++ rq ++ [q]) with ((rs ++ ib ++ rq) ++ [q]) by (by rewrite <-!app_assoc).
    rewrite (fmap_app entry _ [q]). change (entry <$> [q]) with [(q.1, (x.(response), x.(handler)))].
    by rewrite list_to_map_snoc.
Qed.

(** ** The world as the invariant sees it *)
Definition tracked (m : nat) (w : world) : Prop :=
  exists dn rs ib rq reqs resps, inv dn rs ib rq reqs resps w /\ m = work rs ib rq.

Lemma tracked_intro dn rs ib rq reqs resps w : inv dn rs ib rq reqs resps w -> tracked (work rs ib rq) w.
Proof. intros Hi. by exists dn, rs, ib, rq, reqs, resps. Qed.

Lemma turn_tracked m w w' : tracked m w -> within fuel w -> turn env fuel w w' ->
  w'.(sent) = w.(sent) /\ exists m', tracked m' w' /\ m = S m'.
Proof using HC Hok.
  intros (dn & rs & ib & rq & reqs & resps & Hi & ->) Hw Ht. split; [by destruct Ht|].
  destruct Ht as [c Hc|c Hc|s Hs|s Hs].
  - destruct rs as [|q rs].
    { pose proof (i_rs _ _ _ _ _ _ _ Hi) as Hrs. apply Forall2_nil_inv_l in Hrs as ->.
      by rewrite (client_recv_waits _ _ _ _ _ Hi Hw) in Hc. }
    pose proof (i_rs _ _ _ _ _ _ _ Hi) as Hrs. apply Forall2_cons_inv_l in Hrs as (text & resps' & _ & _ & ->).
    destruct (client_recv_inv _ _ _ _ _ _ _ _ _ Hi Hw) as (c' & Hc' & Hi'). rewrite Hc in Hc'. injection Hc' as <-.
    eexists. split; [exact (tracked_intro _ _ _ _ _ _ _ Hi')|]. unfold work. cbn. lia.
  - by rewrite (dispatch_waits _ (i_client_inbox _ _ _ _ _ _ _ Hi)) in Hc.
  - destruct rq as [|q rq].
    { pose proof (i_rq _ _ _ _ _ _ _ Hi) as Hrq. apply Forall2_nil_inv_l in Hrq as ->.
      by rewrite (server_recv_waits _ _ _ _ _ Hi Hw) in Hs. }
    pose proof (i_rq _ _ _ _ _ _ _ Hi) as Hrq. apply Forall2_cons_inv_l in Hrq as (text & reqs' & _ & _ & ->).
    destruct (server_recv_inv _ _ _ _ _ _ _ _ _ Hi Hw) as (s' & Hs' & Hi'). rewrite Hs in Hs'. injection Hs' as <-.
    eexists. split; [exact (tracked_intro _ _ _ _ _ _ _ Hi')|]. unfold work. rewrite length_app. cbn. lia.
  - destruct ib as [|q ib]; [by rewrite (dispatch_waits _ (i_inbox _ _ _ _ _ _ _ Hi)) in Hs|].
    destruct (server_dispatch_inv _ _ _ _ _ _ _ _ Hi) as (s' & text & Hs' & Hi'). rewrite Hs in Hs'. injection Hs' as <-.
    eexists. split; [exact (tracked_intro _ _ _ _ _ _ _ Hi')|]. unfold work. rewrite length_app. cbn. lia.
Qed.

Lemma tracked_progress m w : tracked m w -> within fuel w -> m <> 0%nat -> exists w', turn env fuel w w'.
Proof using HC Hok.
  intros (dn & rs & ib & rq & reqs & resps & Hi & ->) Hw Hm. destruct rs as [|q rs].
  2: { pose proof (i_rs _ _ _ _ _ _ _ Hi) as Hrs. apply Forall2_cons_inv_l in Hrs as (text & resps' & _ & _ & ->).
    destruct (client_recv_inv _ _ _ _ _ _ _ _ _ Hi Hw) as (c' & Hc' & _). eexists. by apply client_recv. }
  destruct ib as [|q ib].
  2: { destruct (server_dispatch_inv _ _ _ _ _ _ _ _ Hi) as (s' & text & Hs' & _). eexists. by apply server_dispatch. }
  destruct rq as [|q rq]; [done|].
  pose proof (i_rq _ _ _ _ _ _ _ Hi) as Hrq. apply Forall2_cons_inv_l in Hrq as (text & reqs' & _ & _ & ->).
  destruct (server_recv_inv _ _ _ _ _ _ _ _ _ Hi Hw) as (s' & Hs' & _). eexists. by apply server_recv.
Qed.

Lemma step_tracked (allowed : call -> Prop) m w w' : (forall x, allowed x -> callable x) ->
  tracked m w -> within fuel w -> step env fuel allowed w w' -> within fuel w' -> exists m', tracked m' w'.
Proof using HC Hok.
  intros Hall Ht Hw Hs Hw'. destruct Hs as [x b c Hx Hc|w' Hs].
  - destruct Ht as (dn & rs & ib & rq & reqs & resps & Hi & ->).
    destruct (send_inv _ _ _ _ _ _ _ x Hi (Hall x Hx)) as (c' & text & Hc' & Hi').
    { destruct Hw' as (_ & _ & Hl). cbn in Hl. rewrite length_app in Hl. cbn in Hl. lia. }
    rewrite Hc in Hc'. injection Hc' as -> <-. eexists. exact (tracked_intro _ _ _ _ _ _ _ Hi').
  - destruct (turn_tracked m w w' Ht Hw Hs) as (_ & m' & Hm & _). by exists m'.
Qed.

Lemma runs_tracked (allowed : call -> Prop) m w w' : (forall x, allowed x -> callable x) ->
  tracked m w -> within fuel w -> runs env fuel allowed w w' -> within fuel w' /\ exists m', tracked m' w'.
Proof using HC Hok.
  intros Hall Ht Hw Hr. revert m Ht Hw. induction Hr as [w|w w1 w2 [Hs Hw1] _ IH]; intros m Ht Hw; [by eauto|].
  destruct (step_tracked allowed m w w1 Hall Ht Hw Hs Hw1) as [m' Ht']. by eapply IH.
Qed.

Lemma settles_tracked m w w' n : tracked m w -> within fuel w ->
  nsteps (fun w w' => turn env fuel w w' /\ within fuel w') n w w' ->
  w'.(sent) = w.(sent) /\ within fuel w' /\ exists m', tracked m' w' /\ m = (n + m')%nat.
Proof using HC Hok.
  intros Ht Hw Hr. revert m Ht Hw. induction Hr as [w|n w w1 w2 [Hs Hw1] _ IH]; intros m Ht Hw; [by eauto|].
  destruct (turn_tracked m w w1 Ht Hw Hs) as (He & m' & Ht' & ->).
  destruct (IH m' Ht' Hw1) as (He' & Hw2 & m2 & Ht2 & ->). split_and!; [congruence|done|]. by exists m2.
Qed.

(** What the handlers were given, and how much work is left. *)
Definition delivered (x : call) : Session.action EH RH VH SH := Session.ResponseHandled x.(handler) (answer x).

Lemma tracked_log m w : tracked m w -> (m <= 3 * length w.(sent))%nat /\
  exists n, (n <= length w.(sent))%nat /\ w.(client).(Session.log) = log0 ++ (delivered <$> take n w.(sent)) /\
    (m = 0%nat -> n = length w.(sent) /\ w.(client).(Session.hs).(Session.responseMap) = ∅).
Proof.
  intros (dn & rs & ib & rq & reqs & resps & [] & ->).
  assert (Hs : w.(sent) = dn.*2 ++ rs.*2 ++ ib.*2 ++ rq.*2) by (rewrite <-(numbered_calls w.(sent)), i_sent0, !fmap_app; done).
  assert (Hl : length w.(sent) = (length dn + (length rs + (length ib + length rq)))%nat)
    by (rewrite Hs, !length_app, !length_fmap; done).
  unfold work. split; [lia|]. exists (length dn). split; [lia|]. split.
  - rewrite i_log0, Hs, take_app_le, take_ge by (rewrite length_fmap; lia). by rewrite <-list_fmap_compose.
  - intros Hm. split; [lia|]. destruct rs, ib, rq; try (cbn in Hm; lia). by rewrite i_pending0.
Qed.
End Invariant.
End Calls.
End Wire.

Module WireProps.
Import Wire.
Section Props.
Context {D Ser FS : Type} {HB : JsonBackend D Ser FS} {HD : DeserializerView D} {HV : SerializerView Ser FS}.
Context {L : limits} {HC : JsonBackendContract D Ser FS L}.
Context {EH RH VH SH EH' RH' VH' SH' : Type}.
Context (env : schema) (k fuel : nat) (Hok : schema_ok env k).
Context (serve : ty -> value -> ResponseOrError).

Abbreviation client_t := (Session.t Pipe.t Pipe.t EH RH VH SH).
Abbreviation server_t := (Session.t Pipe.t Pipe.t EH' RH' VH' SH').
Abbreviation world := (world EH RH VH SH EH' RH' VH' SH').

(** Two sessions joined by two open, empty pipes, with nothing in flight. *)
Record joined (c : client_t) (s : server_t) : Prop := {
  j_up : open_end c.(Session.writer).(ContentWriter.writer);
  j_up_same : s.(Session.reader).(ContentReader.reader) = c.(Session.writer).(ContentWriter.writer);
  j_down : open_end s.(Session.writer).(ContentWriter.writer);
  j_down_same : c.(Session.reader).(ContentReader.reader) = s.(Session.writer).(ContentWriter.writer);
  j_empty : Refinement.stream s.(Session.reader) = [] /\ Refinement.stream c.(Session.reader) = [];
  j_inbox : c.(Session.inbox) = Chan.create /\ s.(Session.inbox) = Chan.create;
  j_pending : c.(Session.hs).(Session.responseMap) = ∅;
  j_seq : 0 <= c.(Session.nextSeq) < 2 ^ 32 /\ 0 <= s.(Session.nextSeq) < 2 ^ 32
}.

(** The calls the client may make. *)
Context (c : client_t) (s : server_t) (allowed : call RH -> Prop).
Context (Hjoined : joined c s) (Hfuel : (0 < fuel)%nat).
Context (Hcall : forall x, allowed x -> callable (L := L) env k fuel serve s.(Session.hs).(Session.requestMap) x).

Lemma joined_within : within fuel (World c s []).
Proof using Hjoined Hfuel.
  destruct Hjoined. destruct j_empty0 as [Hs Hc]. unfold within. cbn [client server sent]. rewrite Hs, Hc. change (@size_of Ascii.ascii []) with 0. cbn [length]. lia.
Qed.

Lemma joined_tracked : tracked (D := D) (Ser := Ser) (FS := FS) (L := L) env k fuel serve s.(Session.hs).(Session.requestMap)
  c.(Session.nextSeq) c.(Session.log) 0 (World c s []).
Proof using Hjoined.
  destruct Hjoined. destruct j_empty0, j_inbox0, j_seq0. exists [], [], [], [], [], []. split; [|done].
  split; cbn [client server sent]; try done.
  - by rewrite app_nil_r.
  - cbn. by rewrite Z.add_0_r, u32_small.
Qed.

(** Remote calls are answered in order: in every interleaving of the client's calls
    of [send] with the receiving and dispatching threads of both sessions, the handlers
    of the client have been called for the first [n] calls it made, for some [n], each
    once and in the order of the calls, with exactly the response (or the text of the
    error) that the server's handler computes for that call's request. *)
Theorem wire_calls_in_order (w : world) : runs (D := D) (Ser := Ser) (FS := FS) env fuel allowed (World c s []) w ->
  exists n, (n <= length w.(sent))%nat /\
    w.(client).(Session.log) = c.(Session.log) ++ (delivered serve <$> take n w.(sent)).
Proof using HC Hok Hjoined Hfuel Hcall.
  intros Hr. destruct (runs_tracked env k fuel Hok serve _ _ _ allowed 0 _ w Hcall joined_tracked joined_within Hr) as (_ & m & Ht).
  destruct (tracked_log env k fuel serve _ _ _ m w Ht) as (_ & n & Hn & Hl & _). by exists n.
Qed.

(** C3. Every call is answered: from every state such a run reaches, however the threads
    of the two sessions go on, they stop after at most three turns per call; and when
    none of them can move, the handler of every call has been called, with the answers
    of [wire_calls_in_order], and no request is pending. *)
Theorem wire_calls_answered (w : world) : runs (D := D) (Ser := Ser) (FS := FS) env fuel allowed (World c s []) w ->
  forall m w', nsteps (fun w w' => turn (D := D) (Ser := Ser) (FS := FS) env fuel w w' /\ within fuel w') m w w' ->
    (m <= 3 * length w.(sent))%nat /\
    ((forall w'', ~ turn (D := D) (Ser := Ser) (FS := FS) env fuel w' w'') ->
     w'.(client).(Session.log) = c.(Session.log) ++ (delivered serve <$> w.(sent)) /\
     w'.(client).(Session.hs).(Session.responseMap) = ∅).
Proof using HC Hok Hjoined Hfuel Hcall.
  intros Hr m w' Hm.
  destruct (runs_tracked env k fuel Hok serve _ _ _ allowed 0 _ w Hcall joined_tracked joined_within Hr) as (Hw & m1 & Ht).
  destruct (settles_tracked env k fuel Hok serve _ _ _ m1 w w' m Ht Hw Hm) as (He & Hw' & m2 & Ht' & ->).
  destruct (tracked_log env k fuel serve _ _ _ _ w Ht) as (Hb & _).
  destruct (tracked_log env k fuel serve _ _ _ m2 w' Ht') as (_ & n & Hn & Hl & Hz). split; [lia|]. intros Hstuck.
  assert (m2 = 0%nat) as ->.
  { destruct (decide (m2 = 0%nat)) as [|Hne]; [done|].
    destruct (tracked_progress env k fuel Hok serve _ _ _ m2 w' Ht' Hw' Hne) as [w'' Ht'']. by destruct (Hstuck w''). }
  destruct (Hz eq_refl) as [-> Hp]. split; [|done]. by rewrite Hl, firstn_all, He.
Qed.
End Props.

(** ** Witnesses: a client that sets breakpoints, over the reference library *)
Import SessionProps.
Abbreviation pipe_endpoint := (Session.t Pipe.t Pipe.t unit nat nat nat).

Definition wired_client : pipe_endpoint := Session.connect Pipe.create Pipe.create (Session.put_error tt Session.create).
Definition wired_server : pipe_endpoint :=
  Session.put_request protocol_schema set_breakpoints (request_handler set_breakpoints_response accept) wired_client.
Definition breakpoints_call : call nat := Call set_breakpoints set_breakpoints_response sample_request 7%nat.

Lemma wired_joined : joined wired_client wired_server.
Proof. split; first [by eexists|by split|reflexivity]. Qed.

Lemma breakpoints_callable (x : call nat) : x = breakpoints_call ->
  callable (L := no_limits) protocol_schema protocol_depth 1000 (fun _ => accept)
    wired_server.(Session.hs).(Session.requestMap) x.
Proof.
  intros ->. split; [reflexivity| |reflexivity|].
  - exists (encoded sample_request set_breakpoints). split; by_compute.
  - exists (encoded no_breakpoints set_breakpoints_response). split; by_compute.
Qed.

Abbreviation wired_runs := (runs (D := lib_des) (Ser := lib_ser) (FS := lib_fs) protocol_schema 1000 (fun x => x = breakpoints_call)
  (World wired_client wired_server [])).

Definition first_send : outcome (bool * pipe_endpoint) :=
  Session.send_request (D := lib_des) (Ser := lib_ser) (FS := lib_fs) protocol_schema 1000 set_breakpoints
    set_breakpoints_response sample_request 7%nat wired_client.

Lemma first_send_fits : match first_send with
  | Ret (true, c) => (length (Refinement.stream (attach c wired_server).(Session.reader)) <? 1000)%nat &&
      (length (Refinement.stream c.(Session.reader)) =? 0)%nat
  | _ => false end = true.
Proof. vm_compute. reflexivity. Qed.

Lemma one_call : exists w, wired_runs w /\ w.(sent) = [breakpoints_call].
Proof.
  pose proof first_send_fits as Hb. destruct first_send as [[[] c]| | |] eqn:E; try discriminate Hb.
  apply andb_true_iff in Hb as [Hu%Nat.ltb_lt Hd%Nat.eqb_eq]. unfold first_send in E.
  exists (World c (attach c wired_server) ([] ++ [breakpoints_call])). split; [|reflexivity].
  eapply rtc_l; [|apply rtc_refl].
  split; [exact (step_send _ _ _ (World wired_client wired_server []) breakpoints_call true c eq_refl E)|].
  unfold within. cbn [client server sent length app]. unfold size_of. lia.
Qed.

Lemma wire_calls_in_order_witness : exists w n, wired_runs w /\ w.(sent) = [breakpoints_call] /\
  w.(client).(Session.log) = [] ++ (delivered (fun _ => accept) <$> take n w.(sent)).
Proof.
  destruct one_call as (w & Hr & Hs).
  destruct (wire_calls_in_order (D := lib_des) (Ser := lib_ser) (FS := lib_fs) (L := no_limits) protocol_schema protocol_depth 1000
    protocol_schema_ok (fun _ => accept) wired_client wired_server (fun x => x = breakpoints_call) wired_joined ltac:(lia)
    breakpoints_callable w Hr) as (n & _ & Hl).
  exists w, n. split_and!; [exact Hr|exact Hs|exact Hl].
Defined.

Lemma wire_calls_answered_witness : exists w, wired_runs w /\ forall m w',
  nsteps (fun w w' => turn (D := lib_des) (Ser := lib_ser) (FS := lib_fs) protocol_schema 1000 w w' /\ within 1000 w') m w w' ->
  (forall w'', ~ turn (D := lib_des) (Ser := lib_ser) (FS := lib_fs) protocol_schema 1000 w' w'') ->
  w'.(client).(Session.log) = [Session.ResponseHandled 7%nat (inl no_breakpoints)].
Proof.
  destruct one_call as (w & Hr & Hs). exists w. split; [exact Hr|]. intros m w' Hm Hstuck.
  destruct (wire_calls_answered (D := lib_des) (Ser := lib_ser) (FS := lib_fs) (L := no_limits) protocol_schema protocol_depth 1000
    protocol_schema_ok (fun _ => accept) wired_client wired_server (fun x => x = breakpoints_call) wired_joined ltac:(lia)
    breakpoints_callable w Hr m w' Hm) as [_ Ha].
  destruct (Ha Hstuck) as [Hl _]. rewrite Hs in Hl. exact Hl.
Defined.
End WireProps.
