(* ===== verification/Duplex.v ===== *)
(** * Two sessions that both send

    [Wire.v] joins a client that makes calls to a server that answers them. Here both
    ends of the two pipes are peers, as in the protocol: each may send requests and
    events at any time (an adapter sends events and reverse requests), each answers the
    requests of the other, and requests, events and responses share a pipe. The same
    functions of [Session.v] run on both sides; the lemmas are proved for one side and
    hold for the other by symmetry.

    The specification of a direction, [duplex_in_order] and [duplex_delivers]: the events
    one side sends are heard by the other in order, and its requests answered in order. *)
From Stdlib Require Import ZArith Lia.
From stdpp Require Import base list strings gmap relations.
From S2P Require Import Prelude IO ContentStream Monitor Chan Pipe SMap Types Serialization Json Backend.
From S2P Require Import Nlohmann ReferenceJson Protocol SerializationProps Session SessionProps Wire.
Import NlohmannDeserializerFacts NlohmannSerializerFacts.

Module Duplex.
Section Machine.
Context {D Ser FS : Type} {HB : JsonBackend D Ser FS}.
Context {EH RH VH SH : Type}.
Context (env : schema) (fuel : nat).
Abbreviation session := (Session.t Pipe.t Pipe.t EH RH VH SH).
Abbreviation call := (Wire.call RH).

(** What a side sends: a request with the handler of its response, or an event. *)
Inductive msg := Request (x : call) | Event (u : ty) (v : value).

Definition send (m : msg) (s : session) : outcome (bool * session) :=
  match m with
  | Request x => Session.send_request env fuel x.(Wire.request) x.(Wire.response) x.(Wire.argument) x.(Wire.handler) s
  | Event u v => Session.send_event env fuel u v s
  end.

(** A turn of the receiving or of the dispatching thread of a side. *)
Inductive turn (s : session) : session -> Prop :=
| turn_recv s' : Session.recv_turn env fuel s = Ret (Some s') -> turn s s'
| turn_dispatch s' : Session.dispatch_turn env fuel s = Ret (Some s') -> turn s s'.

(** [lsent], [rsent]: what each side has sent. *)
Record world := World { left : session; right : session; lsent : list msg; rsent : list msg }.

Definition swap (w : world) : world := World w.(right) w.(left) w.(rsent) w.(lsent).

(** Both ends of a pipe are the same object ([Wire.attach]). *)
Inductive quiet (w : world) : world -> Prop :=
| quiet_left s : turn w.(left) s -> quiet w (World s (Wire.attach s w.(right)) w.(lsent) w.(rsent))
| quiet_right s : turn w.(right) s -> quiet w (World (Wire.attach s w.(left)) s w.(lsent) w.(rsent)).

Context (lmay rmay : msg -> Prop).

Inductive step (w : world) : world -> Prop :=
| step_left m b s : lmay m -> send m w.(left) = Ret (b, s) ->
    step w (World s (Wire.attach s w.(right)) (w.(lsent) ++ [m]) w.(rsent))
| step_right m b s : rmay m -> send m w.(right) = Ret (b, s) ->
    step w (World (Wire.attach s w.(left)) s w.(lsent) (w.(rsent) ++ [m]))
| step_quiet w' : quiet w w' -> step w w'.

(** The bytes in flight fit the memory (and the fuel), the messages the sequence
    numbers: a side takes one for each message it sends and each request it answers. *)
Definition within (w : world) : Prop :=
  let fits (bs : bytes) := (length bs < fuel)%nat /\ size_of bs < 2 ^ 64 in
  fits (Refinement.stream w.(left).(Session.reader)) /\ fits (Refinement.stream w.(right).(Session.reader)) /\
  Z.of_nat (length w.(lsent) + length w.(rsent)) <= 2 ^ 32.

Definition runs : world -> world -> Prop := rtc (fun w w' => step w w' /\ within w').
Definition settles : nat -> world -> world -> Prop := nsteps (fun w w' => quiet w w' /\ within w').

Lemma within_swap w : within w -> within (swap w).
Proof. intros (Hl & Hr & Hs). split; [exact Hr|]. split; [exact Hl|]. cbn in Hs |- *. lia. Qed.
End Machine.
Arguments msg : clear implicits.
Arguments world : clear implicits.

(** ** What is on its way *)
Section Flow.
Context {RH VH : Type}.
Abbreviation call := (Wire.call RH).
Abbreviation msg := (msg RH).

(** An item of a pipe: a message of the side that writes it, or its response to a
    request of the other side. The number says which sequence number it has. *)
Inductive item := Msg (q : nat * msg) | Resp (q : nat * call).

Definition msgs (l : list item) : list (nat * msg) := omap (fun i => match i with Msg q => Some q | Resp _ => None end) l.
Definition resps (l : list item) : list (nat * call) := omap (fun i => match i with Resp q => Some q | Msg _ => None end) l.
Definition reqs (l : list (nat * msg)) : list (nat * call) :=
  omap (fun q => match q.2 with Request x => Some (q.1, x) | Event _ _ => None end) l.
Definition events (l : list msg) : list (ty * value) :=
  omap (fun m => match m with Event u v => Some (u, v) | Request _ => None end) l.
Definition requests (l : list msg) : list call :=
  omap (fun m => match m with Request x => Some x | Event _ _ => None end) l.

Lemma msgs_app l k : msgs (l ++ k) = msgs l ++ msgs k. Proof. apply omap_app. Qed.
Lemma resps_app l k : resps (l ++ k) = resps l ++ resps k. Proof. apply omap_app. Qed.
Lemma reqs_app l k : reqs (l ++ k) = reqs l ++ reqs k. Proof. apply omap_app. Qed.
Lemma events_app l k : events (l ++ k) = events l ++ events k. Proof. apply omap_app. Qed.

Lemma reqs_requests l : (reqs l).*2 = requests l.*2.
Proof. induction l as [|[i [x|u v]] l IH]; cbn; [done|by f_equal|done]. Qed.

Lemma reqs_numbers l : (reqs l).*1 `sublist_of` l.*1.
Proof. induction l as [|[i [x|u v]] l IH]; cbn; by constructor. Qed.

Lemma sublist_Forall {A} (P : A -> Prop) l m : l `sublist_of` m -> Forall P m -> Forall P l.
Proof. induction 1; intros HF; [done|..]; apply Forall_cons in HF as [? ?]; auto. Qed.

(** One direction: how many numbers its sender has taken, what it sent, which of that
    the other side has handled and has in its inbox, the requests that were answered,
    and the pipe with its texts. *)
Record flow := Flow {
  f_count : nat;
  f_all : list (nat * msg);
  f_handled : list (nat * msg);
  f_inbox : list (nat * msg);
  f_answered : list (nat * call);
  f_items : list item;
  f_texts : list string
}.

(** How many turns the messages of a direction still need. *)
Definition msg_work (q : nat * msg) : nat := match q.2 with Request _ => 2%nat | Event _ _ => 1%nat end.
Definition item_work (i : item) : nat := match i with Msg q => S (msg_work q) | Resp _ => 1%nat end.
Definition work (f : flow) : nat := (sum_list (item_work <$> f.(f_items)) + sum_list (msg_work <$> f.(f_inbox)))%nat.
End Flow.
Arguments item : clear implicits.
Arguments flow : clear implicits.

(** ** The invariant of a direction *)
Section Half.
Context {D Ser FS : Type} {HB : JsonBackend D Ser FS} {HD : DeserializerView D} {HV : SerializerView Ser FS}.
Context {L : limits} {HC : JsonBackendContract D Ser FS L}.
Context {EH RH VH SH : Type}.
Context (env : schema) (k fuel : nat) (Hok : schema_ok env k).

Abbreviation session := (Session.t Pipe.t Pipe.t EH RH VH SH).
Abbreviation call := (Wire.call RH).
Abbreviation msg := (msg RH).
Abbreviation item := (item RH).
Abbreviation flow := (flow RH).

(** A side as the other sees it: what its request handlers compute, its event handlers,
    and the maps they are registered in. *)
Record party := Party {
  p_serve : ty -> value -> ResponseOrError;
  p_hear : ty -> VH;
  p_requests : gmap string (ty * GenericRequestHandler);
  p_events : gmap string (ty * VH)
}.

(** A message the side [P] handles. *)
Definition deliverable (P : party) (m : msg) : Prop :=
  match m with
  | Request x => Wire.callable (L := L) env k fuel P.(p_serve) P.(p_requests) x
  | Event u v => text_ok (L := L) (Session.name_of env u) = true /\
      (exists j, sendable (L := L) env k fuel u v j) /\ P.(p_events) !! Session.name_of env u = Some (u, P.(p_hear) u)
  end.

(** What was observed at a side: the events it heard and the responses it was given. *)
Definition heard (l : list (Session.action EH RH VH SH)) : list (VH * value) :=
  omap (fun a => match a with Session.EventHandled h v => Some (h, v) | _ => None end) l.
Definition responded (l : list (Session.action EH RH VH SH)) : list (RH * (value + string)) :=
  omap (fun a => match a with Session.ResponseHandled h r => Some (h, r) | _ => None end) l.

Lemma heard_snoc l a : heard (l ++ [a]) = heard l ++ heard [a]. Proof. apply omap_app. Qed.
Lemma responded_snoc l a : responded (l ++ [a]) = responded l ++ responded [a]. Proof. apply omap_app. Qed.

(** The sequence number of the [i]-th message of a side whose counter started at [n]. *)
Definition seq (n : Z) (i : nat) : Z := s32 (u32 (n + Z.of_nat i)).

Lemma seq_inj n i j m : (i < m)%nat -> (j < m)%nat -> Z.of_nat m <= 2 ^ 32 -> seq n i = seq n j -> i = j.
Proof.
  unfold seq. intros Hi Hj Hm He. apply s32_inj in He; [|apply u32_range..]. unfold u32 in He.
  pose proof (Z.div_mod (n + Z.of_nat i) (2 ^ 32)). pose proof (Z.div_mod (n + Z.of_nat j) (2 ^ 32)). nia.
Qed.

Definition payload_of (P : party) (n : Z) (q : nat * msg) : Session.payload VH :=
  match q.2 with
  | Request x => Wire.payload_of env P.(p_serve) (seq n q.1, x)
  | Event u v => Session.EventPayload (P.(p_hear) u) v
  end.

(** The text of an item the side [P] reads; the other side is [Q]. [n]: where the
    counter of the writer started, [n']: that of the reader. *)
Definition item_text (P Q : party) (n n' : Z) (i : item) (text : string) : Prop :=
  match i with
  | Msg q => text <> EmptyString /\ forall s : session,
      s.(Session.hs).(Session.requestMap) = P.(p_requests) -> s.(Session.hs).(Session.eventMap) = P.(p_events) ->
      Session.processMessage env fuel text s = Ret (Some (payload_of P n q), s)
  | Resp q => Wire.response_text (EH := EH) (VH := VH) (SH := SH) (D := D) (Ser := Ser) (FS := FS)
      env fuel Q.(p_serve) (seq n' q.1, q.2) text
  end.

Definition entry (n : Z) (q : nat * call) : Z * (ty * RH) := (seq n q.1, (q.2.(Wire.response), q.2.(Wire.handler))).
Definition answered (P : party) (x : call) : RH * (value + string) := (x.(Wire.handler), Wire.answer P.(p_serve) x).
Definition delivered (P : party) (e : ty * value) : VH * value := (P.(p_hear) e.1, e.2).

(** The direction from [x] to [y]; [P] is the side [y], [Q] the side [x]; [back] is the
    pipe the other way; [l] is what [x] sent. *)
Record half (P Q : party) (n n' : Z) (ev : list (VH * value)) (rs : list (RH * (value + string)))
    (f : flow) (back : list item) (l : list msg) (x y : session) : Prop := {
  h_sent : f.(f_all).*2 = l;
  h_deliverable : Forall (deliverable P) l;
  h_split : f.(f_all) = f.(f_handled) ++ f.(f_inbox) ++ msgs f.(f_items);
  h_requests : reqs f.(f_all) = f.(f_answered) ++ resps back ++ reqs f.(f_inbox) ++ reqs (msgs f.(f_items));
  h_fresh : NoDup f.(f_all).*1 /\ Forall (fun i => (i < f.(f_count))%nat) f.(f_all).*1;
  h_seq : x.(Session.nextSeq) = u32 (n + Z.of_nat f.(f_count));
  h_link : Wire.open_end x.(Session.writer).(ContentWriter.writer) /\
           y.(Session.reader).(ContentReader.reader) = x.(Session.writer).(ContentWriter.writer);
  h_stream : Refinement.stream y.(Session.reader) = encode_all f.(f_texts);
  h_texts : Forall2 (item_text P Q n n') f.(f_items) f.(f_texts);
  h_inbox : y.(Session.inbox) = Chan.mk false (payload_of P n <$> f.(f_inbox));
  h_heard : heard y.(Session.log) = ev ++ (delivered P <$> events f.(f_handled).*2);
  h_responded : responded x.(Session.log) = rs ++ (answered P ∘ snd <$> f.(f_answered));
  h_pending : x.(Session.hs).(Session.responseMap) =
    list_to_map (entry n <$> resps back ++ reqs f.(f_inbox) ++ reqs (msgs f.(f_items)));
  h_handlers : y.(Session.hs).(Session.requestMap) = P.(p_requests) /\ y.(Session.hs).(Session.eventMap) = P.(p_events)
}.

Arguments h_sent {P Q n n' ev rs f back l x y} _.
Arguments h_deliverable {P Q n n' ev rs f back l x y} _.
Arguments h_split {P Q n n' ev rs f back l x y} _.
Arguments h_requests {P Q n n' ev rs f back l x y} _.
Arguments h_fresh {P Q n n' ev rs f back l x y} _.
Arguments h_seq {P Q n n' ev rs f back l x y} _.
Arguments h_link {P Q n n' ev rs f back l x y} _.
Arguments h_stream {P Q n n' ev rs f back l x y} _.
Arguments h_texts {P Q n n' ev rs f back l x y} _.
Arguments h_inbox {P Q n n' ev rs f back l x y} _.
Arguments h_heard {P Q n n' ev rs f back l x y} _.
Arguments h_responded {P Q n n' ev rs f back l x y} _.
Arguments h_pending {P Q n n' ev rs f back l x y} _.
Arguments h_handlers {P Q n n' ev rs f back l x y} _.

(** A direction does not notice a step that leaves what it speaks of as it was. *)
Lemma half_frame P Q n n' ev rs f back back' l x y x' y' :
  half P Q n n' ev rs f back l x y -> resps back' = resps back ->
  x'.(Session.nextSeq) = x.(Session.nextSeq) ->
  Wire.open_end x'.(Session.writer).(ContentWriter.writer) ->
  y'.(Session.reader).(ContentReader.reader) = x'.(Session.writer).(ContentWriter.writer) ->
  Refinement.stream y'.(Session.reader) = Refinement.stream y.(Session.reader) ->
  y'.(Session.inbox) = y.(Session.inbox) -> heard y'.(Session.log) = heard y.(Session.log) ->
  responded x'.(Session.log) = responded x.(Session.log) ->
  x'.(Session.hs).(Session.responseMap) = x.(Session.hs).(Session.responseMap) ->
  y'.(Session.hs).(Session.requestMap) = y.(Session.hs).(Session.requestMap) ->
  y'.(Session.hs).(Session.eventMap) = y.(Session.hs).(Session.eventMap) ->
  half P Q n n' ev rs f back' l x' y'.
Proof. intros [] Hb ? ? ? ? ? ? ? ? ? ?. split; rewrite ?Hb; try done; congruence. Qed.

(** The numbers of the pending requests are distinct. *)
Lemma pending_NoDup {P Q n n' ev rs f back l x y} : half P Q n n' ev rs f back l x y ->
  Z.of_nat f.(f_count) <= 2 ^ 32 ->
  NoDup (entry n <$> resps back ++ reqs f.(f_inbox) ++ reqs (msgs f.(f_items))).*1 /\
  forall i, (f.(f_count) <= i)%nat -> Z.of_nat (S i) <= 2 ^ 32 ->
    seq n i ∉ (entry n <$> resps back ++ reqs f.(f_inbox) ++ reqs (msgs f.(f_items))).*1.
Proof.
  intros [] Hc. destruct h_fresh0 as [Hnd Hlt]. set (l' := resps back ++ reqs (f_inbox f) ++ reqs (msgs (f_items f))) in *.
  assert (Hsub : l'.*1 `sublist_of` f.(f_all).*1).
  { etrans; [|apply reqs_numbers]. rewrite h_requests0, fmap_app. by apply sublist_inserts_l. }
  assert (Hlt' : Forall (fun i => (i < f.(f_count))%nat) l'.*1) by (by eapply sublist_Forall).
  assert (Hmap : (entry n <$> l').*1 = seq n <$> l'.*1) by (rewrite <-!list_fmap_compose; done). rewrite Hmap. split.
  - assert (Hn : NoDup l'.*1) by (by eapply sublist_NoDup). clear Hmap. revert Hn Hlt'. generalize l'.*1 as ns.
    induction ns as [|i ns IH]; intros Hn Hlt'; [constructor|]. apply NoDup_cons in Hn as [Hi Hn].
    apply Forall_cons in Hlt' as [Hi' Hlt']. cbn. constructor; [|by apply IH].
    intros (j & He & Hj)%list_elem_of_fmap. rewrite Forall_forall in Hlt'. specialize (Hlt' j Hj).
    apply (seq_inj n i j f.(f_count)) in He; [by subst|lia..].
  - intros i Hi Hm (j & He & Hj)%list_elem_of_fmap. rewrite Forall_forall in Hlt'. specialize (Hlt' j Hj).
    apply (seq_inj n i j (S i)) in He; lia.
Qed.

(** *** What [x] writes *)

(** A message of its own. *)
Definition pushed (m : msg) (text : string) (f : flow) : flow :=
  Flow (S f.(f_count)) (f.(f_all) ++ [(f.(f_count), m)]) f.(f_handled) f.(f_inbox) f.(f_answered)
    (f.(f_items) ++ [Msg (f.(f_count), m)]) (f.(f_texts) ++ [text]).

(** Its response to a request of [y]. *)
Definition replying (q : nat * call) (text : string) (f : flow) : flow :=
  Flow (S f.(f_count)) f.(f_all) f.(f_handled) f.(f_inbox) f.(f_answered) (f.(f_items) ++ [Resp q]) (f.(f_texts) ++ [text]).

Lemma encode_all_snoc l text : encode_all (l ++ [text]) = encode_all l ++ encode text.
Proof. unfold encode_all. rewrite fmap_app, join_app. cbn. by rewrite app_nil_r. Qed.

Lemma count_next n c : u32 (u32 (n + Z.of_nat c) + 1) = u32 (n + Z.of_nat (S c)).
Proof. unfold u32. rewrite Zplus_mod_idemp_l. f_equal. lia. Qed.

(** [x] wrote [text] to its pipe and took a number. *)
Definition wrote_one (text : string) (x x' : session) : Prop :=
  x'.(Session.nextSeq) = u32 (x.(Session.nextSeq) + 1) /\
  x'.(Session.writer) = ContentWriter.create (Pipe.mk (Wire.contents x.(Session.writer).(ContentWriter.writer) ++ encode text) false) /\
  x'.(Session.reader) = x.(Session.reader) /\ x'.(Session.hs).(Session.requestMap) = x.(Session.hs).(Session.requestMap) /\
  x'.(Session.hs).(Session.eventMap) = x.(Session.hs).(Session.eventMap) /\
  heard x'.(Session.log) = heard x.(Session.log) /\ responded x'.(Session.log) = responded x.(Session.log).

Lemma half_write {P Q n n' ev rs f back l x y x' i text} :
  half P Q n n' ev rs f back l x y -> wrote_one text x x' -> item_text P Q n n' i text ->
  let y' := Wire.attach x' y in
  x'.(Session.nextSeq) = u32 (n + Z.of_nat (S f.(f_count))) /\
  (Wire.open_end x'.(Session.writer).(ContentWriter.writer) /\
    y'.(Session.reader).(ContentReader.reader) = x'.(Session.writer).(ContentWriter.writer)) /\
  Refinement.stream y'.(Session.reader) = encode_all (f.(f_texts) ++ [text]) /\
  Forall2 (item_text P Q n n') (f.(f_items) ++ [i]) (f.(f_texts) ++ [text]).
Proof.
  intros [] (Hn & Hw & _) Hi. destruct h_link0 as [Ho Hl]. cbn zeta. split_and!.
  - by rewrite Hn, h_seq0, count_next.
  - rewrite Hw. by eexists.
  - done.
  - rewrite (Wire.attach_reads x' y (encode text)), h_stream0, encode_all_snoc; [done|..]; rewrite ?Hw, ?Hl; [by eexists|done|done].
  - apply Forall2_app; [done|]. by constructor.
Qed.

Lemma half_pushed P Q n n' ev rs f back l x y x' m text :
  half P Q n n' ev rs f back l x y -> wrote_one text x x' -> deliverable P m ->
  item_text P Q n n' (Msg (f.(f_count), m)) text ->
  x'.(Session.hs).(Session.responseMap) = list_to_map (entry n <$>
    resps back ++ reqs f.(f_inbox) ++ reqs (msgs f.(f_items)) ++ reqs [(f.(f_count), m)]) ->
  half P Q n n' ev rs (pushed m text f) back (l ++ [m]) x' (Wire.attach x' y).
Proof.
  intros Hh Hw Hm Hi Hp. destruct (half_write Hh Hw Hi) as (Hn & Hl & Hs & Ht).
  destruct Hh. destruct Hw as (_ & _ & _ & _ & _ & _ & Hr). split; cbn [pushed f_count f_all f_handled f_inbox f_answered f_items f_texts]; try done.
  - by rewrite fmap_app, h_sent0.
  - apply Forall_app. split; [done|]. by constructor.
  - by rewrite h_split0, msgs_app, <-!app_assoc.
  - by rewrite msgs_app, !reqs_app, h_requests0, <-!app_assoc.
  - destruct h_fresh0 as [Hnd Hlt]. rewrite fmap_app. split.
    + apply NoDup_app. split; [done|]. split; [|apply NoDup_singleton].
      intros i Hi' ->%list_elem_of_singleton. rewrite Forall_forall in Hlt. specialize (Hlt _ Hi'). cbn in Hlt. lia.
    + apply Forall_app. split; [eapply Forall_impl; [done|]; cbn; lia|]. constructor; [cbn; lia|constructor].
  - by rewrite Hr.
  - by rewrite msgs_app, reqs_app, Hp.
Qed.

Lemma half_replying P Q n n' ev rs f back l x y x' q text :
  half P Q n n' ev rs f back l x y -> wrote_one text x x' ->
  item_text P Q n n' (Resp q) text ->
  x'.(Session.hs).(Session.responseMap) = x.(Session.hs).(Session.responseMap) ->
  half P Q n n' ev rs (replying q text f) back l x' (Wire.attach x' y).
Proof.
  intros Hh Hw Hi Hp. destruct (half_write Hh Hw Hi) as (Hn & Hl & Hs & Ht).
  destruct Hh. destruct Hw as (_ & _ & _ & _ & _ & _ & Hr).
  assert (Hms : msgs (f.(f_items) ++ [Resp q]) = msgs f.(f_items)) by (rewrite msgs_app; apply app_nil_r).
  split; cbn [replying f_count f_all f_handled f_inbox f_answered f_items f_texts]; rewrite ?Hms; try done.
  - destruct h_fresh0 as [Hnd Hlt]. split; [done|]. eapply Forall_impl; [done|]. cbn. lia.
  - by rewrite Hr.
  - by rewrite Hp.
Qed.

(** *** What [y] reads and runs *)

(** A message read from the pipe goes to the inbox. *)
Definition received (q : nat * msg) (items : list item) (texts : list string) (f : flow) : flow :=
  Flow f.(f_count) f.(f_all) f.(f_handled) (f.(f_inbox) ++ [q]) f.(f_answered) items texts.

(** A message taken from the inbox is handled. *)
Definition dispatched (q : nat * msg) (inbox : list (nat * msg)) (f : flow) : flow :=
  Flow f.(f_count) f.(f_all) (f.(f_handled) ++ [q]) inbox f.(f_answered) f.(f_items) f.(f_texts).

(** A response was read from the pipe the other way. *)
Definition given (q : nat * call) (f : flow) : flow :=
  Flow f.(f_count) f.(f_all) f.(f_handled) f.(f_inbox) (f.(f_answered) ++ [q]) f.(f_items) f.(f_texts).

(** A response was taken from this pipe. *)
Definition read_off (items : list item) (texts : list string) (f : flow) : flow :=
  Flow f.(f_count) f.(f_all) f.(f_handled) f.(f_inbox) f.(f_answered) items texts.

(** *** Both directions *)
Definition inv (P Q : party) (n m : Z) (evx evy : list (VH * value)) (rsx rsy : list (RH * (value + string)))
    (f g : flow) (lx ly : list msg) (x y : session) : Prop :=
  half P Q n m evy rsx f g.(f_items) lx x y /\ half Q P m n evx rsy g f.(f_items) ly y x /\
  (f.(f_count) <= length f.(f_all) + length g.(f_handled))%nat /\
  (g.(f_count) <= length g.(f_all) + length f.(f_handled))%nat.

Lemma inv_swap {P Q n m evx evy rsx rsy f g lx ly x y} :
  inv P Q n m evx evy rsx rsy f g lx ly x y -> inv Q P m n evy evx rsy rsx g f ly lx y x.
Proof. intros (H1 & H2 & H3 & H4). by split_and!. Qed.

Lemma half_lengths {P Q n n' ev rs f back l x y} : half P Q n n' ev rs f back l x y ->
  length f.(f_all) = length l /\ (length f.(f_handled) + length f.(f_inbox) <= length l)%nat.
Proof.
  intros []. assert (Hl : length f.(f_all) = length l) by (by rewrite <-h_sent0, length_fmap).
  split; [done|]. rewrite <-Hl, h_split0, !length_app. lia.
Qed.

Lemma inv_count {P Q n m evx evy rsx rsy f g lx ly x y} : inv P Q n m evx evy rsx rsy f g lx ly x y ->
  (f.(f_count) <= length lx + length ly)%nat.
Proof. intros (Hf%half_lengths & Hg%half_lengths & Hc & _). lia. Qed.

(** The reader of [x] is the pipe [y] writes to. *)
Lemma inv_reader {P Q n m evx evy rsx rsy f g lx ly x y} : inv P Q n m evx evy rsx rsy f g lx ly x y ->
  Wire.open_end x.(Session.reader).(ContentReader.reader).
Proof. intros (_ & [] & _). destruct h_link0 as [Ho ->]. done. Qed.

(** *** [x] sends *)
Lemma peer_sends {P Q n m evx evy rsx rsy f g lx ly x y} a :
  inv P Q n m evx evy rsx rsy f g lx ly x y -> deliverable P a -> Z.of_nat (S (length lx + length ly)) <= 2 ^ 32 ->
  exists b x' text, send env fuel a x = Ret (b, x') /\
    inv P Q n m evx evy rsx rsy (pushed a text f) g (lx ++ [a]) ly x' (Wire.attach x' y).
Proof using HC Hok.
  intros Hi Ha Hl. pose proof (inv_count Hi) as Hc. pose proof (inv_reader Hi) as Hr.
  destruct Hi as (Hf & Hg & Hcf & Hcg).
  destruct (pending_NoDup Hf ltac:(lia)) as [_ Hfresh]. specialize (Hfresh f.(f_count) ltac:(lia) ltac:(lia)).
  assert (Hpush : forall x' text, wrote_one text x x' -> x'.(Session.inbox) = x.(Session.inbox) ->
    item_text P Q n m (Msg (f.(f_count), a)) text ->
    x'.(Session.hs).(Session.responseMap) = list_to_map (entry n <$>
      resps g.(f_items) ++ reqs f.(f_inbox) ++ reqs (msgs f.(f_items)) ++ reqs [(f.(f_count), a)]) ->
    inv P Q n m evx evy rsx rsy (pushed a text f) g (lx ++ [a]) ly x' (Wire.attach x' y)).
  { intros x' text Hw Hib Ht Hp. split; [eapply half_pushed; done|]. destruct Hw as (Hn & Hw & Hrd & Hrm & Hem & Hh & Hrs).
    split_and!; [|cbn; rewrite length_app; cbn; lia|cbn; lia].
    eapply half_frame; [exact Hg|..]; cbn [pushed f_items]; rewrite ?Hrd; try done.
    - rewrite resps_app. apply app_nil_r.
    - cbn. by rewrite Hrd.
    - cbn. by rewrite Hrd. }
  pose proof (h_link Hf) as [Ho _]. pose proof (h_seq Hf) as Hseq.
  destruct a as [c|u v]; cbn [send].
  - destruct (Wire.send_call (VH' := VH) (SH' := SH) (EH' := EH) (RH' := RH) env k fuel Hok P.(p_serve) P.(p_requests) x c Ha Ho) as (text & Ht & Hs).
    { rewrite (h_pending Hf), Hseq. by apply not_elem_of_list_to_map_1. }
    exists true. eexists _, text. split; [exact Hs|]. apply Hpush.
    + split_and!; [done..|]. done.
    + done.
    + destruct Ht as [Hne Ht]. split; [done|]. intros s Hs1 Hs2. rewrite (Ht s Hs1). unfold payload_of. cbn. unfold seq. by rewrite Hseq.
    + cbn [Session.hs requested Session.set_writer Session.set_hs Session.set_responseMap Session.responseMap fst].
      rewrite (h_pending Hf), Hseq, !app_assoc. cbn [reqs omap list_omap snd fst].
      rewrite (fmap_app _ _ [_]), <-app_assoc. change (entry n <$> [(f.(f_count), c)]) with [(seq n f.(f_count), (c.(Wire.response), c.(Wire.handler)))].
      by rewrite list_to_map_snoc.
  - destruct Ha as (Hu & [j Hj] & He). destruct (Wire.open_writes x Ho) as (d & Hd & Hw).
    destruct (send_event_writes env k fuel Hok x _ u v j Hw Hj Hu) as (text & w & Hs & [-> Hne]%Wire.wrote_pipe & Hp).
    { rewrite Hseq. apply u32_range. }
    exists true. eexists _, text. split; [exact Hs|]. apply Hpush.
    + split_and!; try done. cbn. by rewrite Hd.
    + done.
    + split; [done|]. intros s Hs1 Hs2. unfold payload_of. cbn.
      apply (process_event env k fuel Hok s text _ _ u v j _ Hp); [|exact (proj2 (text_ok_inv _ Hu))|done|by rewrite Hs2].
      apply in_int64_u32. rewrite Hseq. apply u32_range.
    + cbn. rewrite app_nil_r. exact (h_pending Hf).
Qed.
(** *** [x] reads *)

(** The direction from [x] to [y] when [x] only read: its pipe and its counter stay. *)
Lemma half_reads P Q n n' ev rs f back back' l x y x' :
  half P Q n n' ev rs f back l x y -> resps back' = resps back ->
  x'.(Session.nextSeq) = x.(Session.nextSeq) -> x'.(Session.writer) = x.(Session.writer) ->
  responded x'.(Session.log) = responded x.(Session.log) ->
  x'.(Session.hs).(Session.responseMap) = x.(Session.hs).(Session.responseMap) ->
  half P Q n n' ev rs f back' l x' (Wire.attach x' y).
Proof.
  intros Hh Hb Hn Hw Hr Hm. pose proof (h_link Hh) as [Ho Hl].
  eapply half_frame; [exact Hh|..]; try done; rewrite ?Hw; try done.
  apply Wire.attach_same; by rewrite ?Hw, Hl.
Qed.

Lemma peer_reads_message {P Q n m evx evy rsx rsy f g lx ly x y q its text ts} :
  inv P Q n m evx evy rsx rsy f g lx ly x y -> g.(f_items) = Msg q :: its -> g.(f_texts) = text :: ts ->
  (length (Refinement.stream x.(Session.reader)) < fuel)%nat -> size_of (Refinement.stream x.(Session.reader)) < 2 ^ 64 ->
  exists x', Session.recv_turn env fuel x = Ret (Some x') /\
    inv P Q n m evx evy rsx rsy f (received q its ts g) lx ly x' (Wire.attach x' y).
Proof.
  intros Hi Hit Hte Hl Hz. pose proof (inv_reader Hi) as Ho. destruct Hi as (Hf & Hg & Hcf & Hcg).
  pose proof (h_texts Hg) as Ht. rewrite Hit, Hte in Ht. apply Forall2_cons in Ht as [[Hne Ht] Hts].
  destruct (h_handlers Hg) as [Hrq Hev].
  destruct (Wire.recv_message env fuel x text (encode_all ts) Ho Hl Hz Hne) as (r & Hst & Hro & Hrecv).
  { by rewrite (h_stream Hg), Hte. }
  rewrite Ht in Hrecv by done. eexists. split; [exact Hrecv|].
  split; [eapply half_reads; [exact Hf|..]; by rewrite ?Hit|]. split_and!; [|done..].
  destruct Hg. rewrite Hit in *. split; cbn [received f_count f_all f_handled f_inbox f_answered f_items f_texts]; try done.
  - by rewrite h_split0, <-app_assoc.
  - rewrite h_requests0, reqs_app, <-!app_assoc. f_equal. f_equal. f_equal. by apply (reqs_app [q]).
  - cbn. rewrite h_inbox0. cbn. by rewrite fmap_app.
  - cbn [Wire.attach Session.hs Session.set_writer Session.set_reader]. rewrite h_pending0, reqs_app, <-!app_assoc. do 4 f_equal. by apply (reqs_app [q]).
Qed.

Lemma peer_reads_response {P Q n m evx evy rsx rsy f g lx ly x y q its text ts} :
  inv P Q n m evx evy rsx rsy f g lx ly x y -> g.(f_items) = Resp q :: its -> g.(f_texts) = text :: ts ->
  (length (Refinement.stream x.(Session.reader)) < fuel)%nat -> size_of (Refinement.stream x.(Session.reader)) < 2 ^ 64 ->
  Z.of_nat (length lx + length ly) <= 2 ^ 32 ->
  exists x', Session.recv_turn env fuel x = Ret (Some x') /\
    inv P Q n m evx evy rsx rsy (given q f) (read_off its ts g) lx ly x' (Wire.attach x' y).
Proof.
  intros Hi Hit Hte Hl Hz Hc. pose proof (inv_reader Hi) as Ho.
  pose proof (inv_count Hi) as Hcount. destruct Hi as (Hf & Hg & Hcf & Hcg).
  pose proof (h_texts Hg) as Ht. rewrite Hit, Hte in Ht. apply Forall2_cons in Ht as [[Hne Ht] Hts].
  destruct (pending_NoDup Hf ltac:(lia)) as [Hnd _]. rewrite Hit in Hnd, Hf. cbn in Hnd.
  pose proof (h_pending Hf) as Hp. cbn in Hp.
  destruct (Wire.recv_message env fuel x text (encode_all ts) Ho Hl Hz Hne) as (r & Hst & Hro & Hrecv).
  { by rewrite (h_stream Hg), Hte. }
  rewrite Ht in Hrecv; cbn [Session.hs Session.set_reader]; [|by rewrite Hp; cbn; rewrite lookup_insert_eq].
  eexists. split; [exact Hrecv|]. cbn [fst snd]. split; [|split_and!; [|done..]].
  - destruct Hf, h_link0 as [Hw Hlk]. split; cbn [given f_count f_all f_handled f_inbox f_answered f_items f_texts]; try done.
    + by rewrite h_requests0, <-app_assoc.
    + rewrite Wire.attach_same; [done|by rewrite Hlk|done].
    + etrans; [exact (responded_snoc x.(Session.log) _)|]. by rewrite h_responded0, fmap_app, <-app_assoc.
    + cbn [Session.hs Session.add_log taken Session.set_hs Session.set_reader Session.set_responseMap Session.responseMap].
      rewrite Hp. cbn. apply NoDup_cons in Hnd as [Hq _]. rewrite delete_insert_id; [done|]. by apply not_elem_of_list_to_map_1.
  - destruct Hg. rewrite Hit in *. split; cbn [read_off f_count f_all f_handled f_inbox f_answered f_items f_texts]; try done.
    etrans; [exact (heard_snoc x.(Session.log) _)|]. by rewrite app_nil_r.
Qed.

(** *** [x] handles a message of its inbox *)
Lemma take_head (s : session) p ps : s.(Session.inbox) = Chan.mk false (p :: ps) ->
  Session.dispatch_turn env fuel s =
    (s ← Session.run_payload env fuel p (Session.set_inbox (Chan.mk false ps) s); Ret (Some s)).
Proof.
  intros Hi. unfold Session.dispatch_turn. rewrite Hi, Chan.take_ready_spec. cbn [Chan.queue negb]. done.
Qed.

Lemma peer_hears {P Q n m evx evy rsx rsy f g lx ly x y i u v ib} :
  inv P Q n m evx evy rsx rsy f g lx ly x y -> g.(f_inbox) = (i, Event u v) :: ib ->
  exists x', Session.dispatch_turn env fuel x = Ret (Some x') /\
    inv P Q n m evx evy rsx rsy f (dispatched (i, Event u v) ib g) lx ly x' (Wire.attach x' y).
Proof.
  intros (Hf & Hg & Hcf & Hcg) Hib. pose proof (h_inbox Hg) as Hx. rewrite Hib in Hx.
  rewrite (take_head x _ _ Hx). eexists. split; [reflexivity|].
  split; [eapply half_reads; [exact Hf|..]; try done; etrans; [exact (responded_snoc x.(Session.log) _)|apply app_nil_r]|].
  split_and!; [|cbn; rewrite length_app; lia|done].
  destruct Hg. rewrite Hib in *. split; cbn [dispatched f_count f_all f_handled f_inbox f_answered f_items f_texts]; try done.
  - by rewrite h_split0, <-app_assoc.
  - destruct h_link0 as [Hw Hlk]. split; [cbn; by rewrite Hlk|done].
  - etrans; [exact (heard_snoc x.(Session.log) _)|]. by rewrite h_heard0, fmap_app, events_app, fmap_app, <-app_assoc.
Qed.

Lemma peer_replies {P Q n m evx evy rsx rsy f g lx ly x y i c ib} :
  inv P Q n m evx evy rsx rsy f g lx ly x y -> g.(f_inbox) = (i, Request c) :: ib ->
  exists x' text, Session.dispatch_turn env fuel x = Ret (Some x') /\
    inv P Q n m evx evy rsx rsy (replying (i, c) text f) (dispatched (i, Request c) ib g) lx ly x' (Wire.attach x' y).
Proof using HC Hok.
  intros Hi Hib. pose proof (inv_reader Hi) as Hro. destruct Hi as (Hf & Hg & Hcf & Hcg).
  pose proof (h_inbox Hg) as Hx. rewrite Hib in Hx.
  rewrite (take_head x _ _ Hx). set (x1 := Session.set_inbox _ x).
  assert (Hc : deliverable Q (Request c)).
  { eapply Forall_forall; [exact (h_deliverable Hg)|].
    rewrite <-(h_sent Hg), (h_split Hg), Hib. apply list_elem_of_fmap.
    exists (i, Request c). split; [done|]. rewrite elem_of_app, elem_of_app. right. left. by left. }
  pose proof (h_link Hf) as [Ho _]. pose proof (h_seq Hf) as Hseq.
  destruct (Wire.reply_call (EH := EH) (VH := VH) (SH := SH) (EH' := EH) (RH' := RH) (VH' := VH) (SH' := SH) env k fuel Hok Q.(p_serve) Q.(p_requests) x1 (seq m i, c) Hc Ho) as (text & r & Ht & Hrun).
  { change (0 <= x.(Session.nextSeq) < 2 ^ 32). rewrite Hseq. apply u32_range. }
  { apply in_int64_s32. }
  change (payload_of Q m (i, Request c)) with (Wire.payload_of (VH' := VH) env Q.(p_serve) (seq m i, c)). rewrite Hrun.
  eexists _, text. split; [reflexivity|]. cbn [fst snd]. set (w := Pipe.mk _ false).
  assert (Hrep : let s' := replied c.(Wire.response) r w x1 in
    wrote_one text x s' /\ s'.(Session.inbox) = x1.(Session.inbox) /\ s'.(Session.hs) = x.(Session.hs)).
  { unfold wrote_one, replied. destruct (Session.sent_lookup _ _); cbn; unfold heard, responded; by rewrite ?omap_app, ?app_nil_r. }
  destruct Hrep as (Hw & Hin & Hhs). set (x' := replied _ _ _ x1) in *.
  split; [by eapply half_replying; [..|rewrite Hhs]|].
  split_and!; [|cbn; rewrite length_app; cbn; lia|cbn; lia].
  destruct Hw as (_ & _ & Hrd & _ & _ & Hh & _). destruct Hg. rewrite Hib in *.
  split; cbn [dispatched replying f_count f_all f_handled f_inbox f_answered f_items f_texts]; try done.
  - by rewrite h_split0, <-app_assoc.
  - by rewrite h_requests0, resps_app, <-!app_assoc.
  - cbn. rewrite Hrd. split; [done|]. by destruct h_link0 as [_ ->].
  - by rewrite Hrd.
  - by rewrite Hh, h_heard0, fmap_app, events_app, app_nil_r.
  - cbn [Wire.attach Session.hs Session.set_writer Session.set_reader]. by rewrite h_pending0, resps_app, <-!app_assoc.
  - by rewrite Hhs.
Qed.
(** *** A turn of [x] *)
Lemma items_texts {P Q n n' ev rs f back l x y i its} : half P Q n n' ev rs f back l x y ->
  f.(f_items) = i :: its -> exists text ts, f.(f_texts) = text :: ts.
Proof. intros [] Hi. rewrite Hi in h_texts0. apply Forall2_cons_inv_l in h_texts0 as (text & ts & _ & _ & ->). by eauto. Qed.

Abbreviation fits bs := ((length bs < fuel)%nat /\ size_of bs < 2 ^ 64).

(** The receiving thread of [x] waits, or does one unit of the work. *)
Lemma peer_recv {P Q n m evx evy rsx rsy f g lx ly x y} :
  inv P Q n m evx evy rsx rsy f g lx ly x y -> fits (Refinement.stream x.(Session.reader)) ->
  Z.of_nat (length lx + length ly) <= 2 ^ 32 ->
  if g.(f_items) is [] then Session.recv_turn env fuel x = Blocks
  else exists x' f' g', Session.recv_turn env fuel x = Ret (Some x') /\
    inv P Q n m evx evy rsx rsy f' g' lx ly x' (Wire.attach x' y) /\ (work f + work g = S (work f' + work g'))%nat.
Proof.
  intros Hi [Hl Hz] Hc. destruct g.(f_items) as [|i its] eqn:Hit.
  - pose proof (inv_reader Hi) as Ho. destruct Hi as (_ & [] & _).
    rewrite Hit in h_texts0. apply Forall2_nil_inv_l in h_texts0 as Hte. apply Wire.recv_waits; [done| |lia]. by rewrite h_stream0, Hte.
  - destruct (items_texts (proj1 (proj2 Hi)) Hit) as (text & ts & Hte). destruct i as [q|q].
    + destruct (peer_reads_message Hi Hit Hte Hl Hz) as (x' & Hx & Hi').
      exists x', f, (received q its ts g). split_and!; [done..|]. unfold work. rewrite Hit. cbn. rewrite fmap_app, sum_list_with_app. cbn. lia.
    + destruct (peer_reads_response Hi Hit Hte Hl Hz Hc) as (x' & Hx & Hi').
      exists x', (given q f), (read_off its ts g). split_and!; [done..|]. unfold work. rewrite Hit. cbn. lia.
Qed.

(** So does its dispatching thread. *)
Lemma peer_dispatch {P Q n m evx evy rsx rsy f g lx ly x y} :
  inv P Q n m evx evy rsx rsy f g lx ly x y ->
  if g.(f_inbox) is [] then Session.dispatch_turn env fuel x = Blocks
  else exists x' f' g', Session.dispatch_turn env fuel x = Ret (Some x') /\
    inv P Q n m evx evy rsx rsy f' g' lx ly x' (Wire.attach x' y) /\ (work f + work g = S (work f' + work g'))%nat.
Proof using HC Hok.
  intros Hi. destruct g.(f_inbox) as [|[i [c|u v]] ib] eqn:Hib.
  - destruct Hi as (_ & [] & _). apply Wire.dispatch_waits. by rewrite h_inbox0, Hib.
  - destruct (peer_replies Hi Hib) as (x' & text & Hx & Hi').
    exists x', (replying (i, c) text f), (dispatched (i, Request c) ib g). split_and!; [done..|].
    unfold work. rewrite Hib. cbn. rewrite fmap_app, sum_list_with_app. cbn. lia.
  - destruct (peer_hears Hi Hib) as (x' & Hx & Hi').
    exists x', f, (dispatched (i, Event u v) ib g). split_and!; [done..|]. unfold work. rewrite Hib. cbn. lia.
Qed.

Lemma peer_turn {P Q n m evx evy rsx rsy f g lx ly x y x'} :
  inv P Q n m evx evy rsx rsy f g lx ly x y -> fits (Refinement.stream x.(Session.reader)) ->
  Z.of_nat (length lx + length ly) <= 2 ^ 32 -> turn env fuel x x' ->
  exists f' g', inv P Q n m evx evy rsx rsy f' g' lx ly x' (Wire.attach x' y) /\ (work f + work g = S (work f' + work g'))%nat.
Proof using HC Hok.
  intros Hi Hs Hc [s Ht|s Ht].
  - pose proof (peer_recv Hi Hs Hc) as Hr. destruct g.(f_items); [by rewrite Ht in Hr|].
    destruct Hr as (x2 & f' & g' & Hx & Hi' & Hw). rewrite Ht in Hx. injection Hx as <-. by eauto.
  - pose proof (peer_dispatch Hi) as Hr. destruct g.(f_inbox); [by rewrite Ht in Hr|].
    destruct Hr as (x2 & f' & g' & Hx & Hi' & Hw). rewrite Ht in Hx. injection Hx as <-. by eauto.
Qed.

(** [x] can move unless nothing is left for it. *)
Lemma peer_moves {P Q n m evx evy rsx rsy f g lx ly x y} :
  inv P Q n m evx evy rsx rsy f g lx ly x y -> fits (Refinement.stream x.(Session.reader)) ->
  Z.of_nat (length lx + length ly) <= 2 ^ 32 -> (forall x', ~ turn env fuel x x') -> g.(f_items) = [] /\ g.(f_inbox) = [].
Proof using HC Hok.
  intros Hi Hs Hc Hno. pose proof (peer_recv Hi Hs Hc) as Hr.
  pose proof (peer_dispatch Hi) as Hd. split.
  - destruct g.(f_items); [done|]. destruct Hr as (x' & _ & _ & Hx & _). destruct (Hno x'). by apply turn_recv.
  - destruct g.(f_inbox); [done|]. destruct Hd as (x' & _ & _ & Hx & _). destruct (Hno x'). by apply turn_dispatch.
Qed.

(** *** What a direction has delivered *)
Definition progressed (P : party) (l : list msg) (ev : list (VH * value)) (rs : list (RH * (value + string)))
    (x y : session) : Prop :=
  exists i j, heard y.(Session.log) = ev ++ (delivered P <$> events (take i l)) /\
    responded x.(Session.log) = rs ++ (answered P <$> take j (requests (take i l))).

Definition completed (P : party) (l : list msg) (ev : list (VH * value)) (rs : list (RH * (value + string)))
    (x y : session) : Prop :=
  heard y.(Session.log) = ev ++ (delivered P <$> events l) /\
  responded x.(Session.log) = rs ++ (answered P <$> requests l) /\
  x.(Session.hs).(Session.responseMap) = ∅.

Lemma handled_requests {P Q n n' ev rs f back l x y} : half P Q n n' ev rs f back l x y ->
  reqs f.(f_handled) = f.(f_answered) ++ resps back.
Proof. intros []. rewrite h_split0, !reqs_app, (app_assoc f.(f_answered)) in h_requests0. by apply app_inv_tail in h_requests0. Qed.

Lemma half_progressed P Q n n' ev rs f back l x y : half P Q n n' ev rs f back l x y -> progressed P l ev rs x y.
Proof.
  intros Hh. pose proof (handled_requests Hh) as Hreq. destruct Hh.
  exists (length f.(f_handled)), (length f.(f_answered)).
  assert (Ht : take (length f.(f_handled)) l = f.(f_handled).*2).
  { by rewrite <-h_sent0, h_split0, fmap_app, take_app_length' by (by rewrite length_fmap). }
  rewrite Ht, h_heard0, h_responded0. split; [done|].
  rewrite <-reqs_requests, Hreq, fmap_app, take_app_length' by (by rewrite length_fmap). by rewrite list_fmap_compose.
Qed.

Lemma half_completed P Q n n' ev rs f back l x y : half P Q n n' ev rs f back l x y ->
  f.(f_items) = [] -> f.(f_inbox) = [] -> resps back = [] -> completed P l ev rs x y.
Proof.
  intros Hh Hit Hib Hb. pose proof (handled_requests Hh) as Hreq. destruct Hh.
  assert (Hl : l = f.(f_handled).*2) by (by rewrite <-h_sent0, h_split0, Hit, Hib, app_nil_r).
  rewrite Hb, app_nil_r in Hreq. split_and!.
  - by rewrite h_heard0, Hl.
  - by rewrite h_responded0, Hl, <-reqs_requests, Hreq, <-list_fmap_compose.
  - by rewrite h_pending0, Hb, Hit, Hib.
Qed.

(** The turns left are at most three for each message. *)
Lemma sum_items (l : list item) : (sum_list (item_work <$> l) <= 3 * length (msgs l) + length (resps l))%nat.
Proof. induction l as [|[[i [c|u v]]|q] l IH]; cbn in *; [lia|unfold msgs, resps in *; lia..]. Qed.

Lemma sum_inbox (l : list (nat * msg)) : (sum_list (msg_work <$> l) <= 2 * length l)%nat.
Proof. induction l as [|[i [c|u v]] l IH]; cbn in *; lia. Qed.

Lemma reqs_length (l : list (nat * msg)) : (length (reqs l) <= length l)%nat.
Proof. unfold reqs. induction l as [|[i [c|u v]] l IH]; cbn in *; lia. Qed.

Lemma half_work {P Q n n' ev rs f back l x y} : half P Q n n' ev rs f back l x y ->
  (3 * length (msgs f.(f_items)) + 2 * length f.(f_inbox) + length (resps back) <= 3 * length l)%nat.
Proof.
  intros Hh. pose proof (handled_requests Hh) as Hreq. destruct Hh.
  pose proof (reqs_length f.(f_handled)) as Hr. rewrite Hreq, length_app in Hr.
  rewrite <-h_sent0, length_fmap, h_split0, !length_app. lia.
Qed.

Lemma inv_work {P Q n m evx evy rsx rsy f g lx ly x y} : inv P Q n m evx evy rsx rsy f g lx ly x y ->
  (work f + work g <= 3 * (length lx + length ly))%nat.
Proof.
  intros (Hf%half_work & Hg%half_work & _). unfold work.
  pose proof (sum_items f.(f_items)). pose proof (sum_items g.(f_items)).
  pose proof (sum_inbox f.(f_inbox)). pose proof (sum_inbox g.(f_inbox)). lia.
Qed.
(** *** The world as the invariant sees it *)
Section Worlds.
Context (P Q : party) (n m : Z) (evx evy : list (VH * value)) (rsx rsy : list (RH * (value + string))).
Abbreviation world := (world EH RH VH SH).

Definition tracked (c : nat) (w : world) : Prop :=
  exists f g, inv P Q n m evx evy rsx rsy f g w.(lsent) w.(rsent) w.(left) w.(right) /\ c = (work f + work g)%nat.

Lemma quiet_tracked c w w' : tracked c w -> within fuel w -> quiet env fuel w w' ->
  w'.(lsent) = w.(lsent) /\ w'.(rsent) = w.(rsent) /\ exists c', tracked c' w' /\ c = S c'.
Proof using HC Hok.
  intros (f & g & Hi & ->) (Hl & Hr & Hc) Hq. destruct Hq as [s Hs|s Hs]; split_and!; try done.
  - destruct (peer_turn Hi Hl Hc Hs) as (f' & g' & Hi' & Hw). eexists. by split; [exists f', g'|].
  - destruct (peer_turn (inv_swap Hi) Hr ltac:(lia) Hs) as (g' & f' & Hi'%inv_swap & Hw).
    eexists. split; [by exists f', g'|]. lia.
Qed.

Lemma quiet_stuck c w : tracked c w -> within fuel w -> (forall w', ~ quiet env fuel w w') ->
  completed P w.(lsent) evy rsx w.(left) w.(right) /\ completed Q w.(rsent) evx rsy w.(right) w.(left).
Proof using HC Hok.
  intros (f & g & Hi & ->) (Hl & Hr & Hc) Hno.
  destruct (peer_moves Hi Hl Hc) as [Hgi Hgb].
  { intros s Hs. exact (Hno _ (quiet_left _ _ _ _ Hs)). }
  destruct (peer_moves (inv_swap Hi) Hr ltac:(lia)) as [Hfi Hfb].
  { intros s Hs. exact (Hno _ (quiet_right _ _ _ _ Hs)). }
  destruct Hi as (Hf & Hg & _). split; eapply half_completed; try done; by rewrite ?Hgi, ?Hfi.
Qed.

Lemma step_tracks (lmay rmay : msg -> Prop) c w w' :
  (forall a, lmay a -> deliverable P a) -> (forall a, rmay a -> deliverable Q a) ->
  tracked c w -> within fuel w -> step env fuel lmay rmay w w' -> within fuel w' -> exists c', tracked c' w'.
Proof using HC Hok.
  intros HP HQ Ht Hw Hs (_ & _ & Hc). destruct Hs as [a b s Ha Hs|a b s Ha Hs|w' Hs]; cbn [lsent rsent] in Hc; rewrite ?length_app in Hc; cbn [length] in Hc.
  - destruct Ht as (f & g & Hi & ->). destruct (peer_sends a Hi (HP a Ha) ltac:(lia)) as (b' & s' & text & Hs' & Hi').
    rewrite Hs in Hs'. injection Hs' as -> <-. eexists. by exists (pushed a text f), g.
  - destruct Ht as (f & g & Hi & ->).
    destruct (peer_sends a (inv_swap Hi) (HQ a Ha) ltac:(lia)) as (b' & s' & text & Hs' & Hi'%inv_swap).
    rewrite Hs in Hs'. injection Hs' as -> <-. eexists. by exists f, (pushed a text g).
  - destruct (quiet_tracked c w w' Ht Hw Hs) as (_ & _ & c' & Hc' & _). by exists c'.
Qed.

Lemma runs_tracks (lmay rmay : msg -> Prop) c w w' :
  (forall a, lmay a -> deliverable P a) -> (forall a, rmay a -> deliverable Q a) ->
  tracked c w -> within fuel w -> runs env fuel lmay rmay w w' -> within fuel w' /\ exists c', tracked c' w'.
Proof using HC Hok.
  intros HP HQ Ht Hw Hr. revert c Ht Hw. induction Hr as [w|w w1 w2 [Hs Hw1] _ IH]; intros c Ht Hw; [by eauto|].
  destruct (step_tracks lmay rmay c w w1 HP HQ Ht Hw Hs Hw1) as [c' Ht']. by eapply IH.
Qed.

Lemma settles_tracks c w w' i : tracked c w -> within fuel w -> settles env fuel i w w' ->
  w'.(lsent) = w.(lsent) /\ w'.(rsent) = w.(rsent) /\ within fuel w' /\ exists c', tracked c' w' /\ c = (i + c')%nat.
Proof using HC Hok.
  intros Ht Hw Hr. revert c Ht Hw. induction Hr as [w|i w w1 w2 [Hs Hw1] _ IH]; intros c Ht Hw; [by split_and!; eauto|].
  destruct (quiet_tracked c w w1 Ht Hw Hs) as (El & Er & c' & Ht' & ->).
  destruct (IH c' Ht' Hw1) as (El' & Er' & Hw2 & c2 & Ht2 & ->). split_and!; [congruence|congruence|done|]. by exists c2.
Qed.
End Worlds.
End Half.
End Duplex.

Module DuplexProps.
Import Duplex.
Section Props.
Context {D Ser FS : Type} {HB : JsonBackend D Ser FS} {HD : DeserializerView D} {HV : SerializerView Ser FS}.
Context {L : limits} {HC : JsonBackendContract D Ser FS L}.
Context {EH RH VH SH : Type}.
Context (env : schema) (k fuel : nat) (Hok : schema_ok env k).
Abbreviation session := (Session.t Pipe.t Pipe.t EH RH VH SH).
Abbreviation world := (world EH RH VH SH).

(** A side at the start: [serve] is what its request handlers compute, [hear] its event
    handlers. *)
Definition party_of (serve : ty -> value -> ResponseOrError) (hear : ty -> VH) (s : session) : party :=
  Party serve hear s.(Session.hs).(Session.requestMap) s.(Session.hs).(Session.eventMap).

(** The pipe from [x] to [y] is open and empty, nothing is in the inbox of [y], and [x]
    waits for no response. *)
Record linked (x y : session) : Prop := {
  li_pipe : Wire.open_end x.(Session.writer).(ContentWriter.writer) /\
            y.(Session.reader).(ContentReader.reader) = x.(Session.writer).(ContentWriter.writer);
  li_empty : Refinement.stream y.(Session.reader) = [];
  li_inbox : y.(Session.inbox) = Chan.create;
  li_pending : x.(Session.hs).(Session.responseMap) = ∅;
  li_seq : 0 <= x.(Session.nextSeq) < 2 ^ 32
}.

Context (servel server : ty -> value -> ResponseOrError) (hearl hearr : ty -> VH).
Context (l r : session) (lmay rmay : msg RH -> Prop).
Context (Hlr : linked l r) (Hrl : linked r l) (Hfuel : (0 < fuel)%nat).
Let lparty := party_of servel hearl l.
Let rparty := party_of server hearr r.
Context (Hlmay : forall a, lmay a -> deliverable (L := L) env k fuel rparty a).
Context (Hrmay : forall a, rmay a -> deliverable (L := L) env k fuel lparty a).

Lemma linked_half P Q (x y : session) : linked x y -> (y.(Session.hs).(Session.requestMap) = P.(p_requests) /\ y.(Session.hs).(Session.eventMap) = P.(p_events)) ->
  half (D := D) (Ser := Ser) (FS := FS) (L := L) env k fuel P Q x.(Session.nextSeq) y.(Session.nextSeq)
    (heard y.(Session.log)) (responded x.(Session.log)) (Flow 0 [] [] [] [] [] []) [] [] x y.
Proof.
  intros [] HP. split; cbn; try done; rewrite ?app_nil_r; try done.
  - split; constructor.
  - by rewrite Z.add_0_r, u32_small.
Qed.

Lemma linked_within : within fuel (World l r [] []).
Proof using Hlr Hrl Hfuel.
  destruct Hlr, Hrl. unfold within. cbn [left right lsent rsent].
  rewrite li_empty0, li_empty1. change (@size_of Ascii.ascii []) with 0. cbn [length]. lia.
Qed.

Abbreviation tracked_lr := (tracked (D := D) (Ser := Ser) (FS := FS) (L := L) env k fuel rparty lparty
  l.(Session.nextSeq) r.(Session.nextSeq) (heard l.(Session.log)) (heard r.(Session.log))
  (responded l.(Session.log)) (responded r.(Session.log))).

Lemma linked_tracked : tracked_lr 0 (World l r [] []).
Proof using Hlr Hrl.
  exists (Flow 0 [] [] [] [] [] []), (Flow 0 [] [] [] [] [] []). split; [|done]. split; [by apply linked_half|].
  split; [by apply linked_half|]. by split.
Qed.

Lemma runs_from_linked w : runs (D := D) (Ser := Ser) (FS := FS) env fuel lmay rmay (World l r [] []) w ->
  within fuel w /\ exists c, tracked_lr c w.
Proof using HC Hok Hlr Hrl Hfuel Hlmay Hrmay.
  exact (runs_tracks env k fuel Hok rparty lparty _ _ _ _ _ _ lmay rmay 0 _ w Hlmay Hrmay linked_tracked linked_within).
Qed.

(** C1. Two peers that both send: in every interleaving of the sends of both sides with
    their four threads, and for each direction, the events heard are those among the
    first [i] messages of the sender, in the order they were sent, each once, given to
    the handler of its type with its value; and the handlers of the sender's requests
    were called for the first [j] of the requests among those [i] messages, in order,
    each with exactly what the other side's request handler computes. *)
Theorem duplex_in_order (w : world) : runs (D := D) (Ser := Ser) (FS := FS) env fuel lmay rmay (World l r [] []) w ->
  progressed rparty w.(lsent) (heard r.(Session.log)) (responded l.(Session.log)) w.(left) w.(right) /\
  progressed lparty w.(rsent) (heard l.(Session.log)) (responded r.(Session.log)) w.(right) w.(left).
Proof using HC Hok Hlr Hrl Hfuel Hlmay Hrmay.
  intros (_ & c & f & g & (Hf & Hg & _) & _)%runs_from_linked. split; by eapply half_progressed.
Qed.

(** C2. Between two peers everything arrives: from every state such a run reaches, the
    four threads stop after at most three turns per message, however they are scheduled;
    and when none can move, each side has heard all events of the other in order, has
    the answers to all its requests in order, and waits for no response. *)
Theorem duplex_delivers (w : world) : runs (D := D) (Ser := Ser) (FS := FS) env fuel lmay rmay (World l r [] []) w ->
  forall i w', settles (D := D) (Ser := Ser) (FS := FS) env fuel i w w' ->
    (i <= 3 * (length w.(lsent) + length w.(rsent)))%nat /\
    ((forall w'', ~ quiet (D := D) (Ser := Ser) (FS := FS) env fuel w' w'') ->
     completed rparty w.(lsent) (heard r.(Session.log)) (responded l.(Session.log)) w'.(left) w'.(right) /\
     completed lparty w.(rsent) (heard l.(Session.log)) (responded r.(Session.log)) w'.(right) w'.(left)).
Proof using HC Hok Hlr Hrl Hfuel Hlmay Hrmay.
  intros (Hw & c & Ht)%runs_from_linked i w' Hs.
  destruct (settles_tracks env k fuel Hok _ _ _ _ _ _ _ _ c w w' i Ht Hw Hs) as (El & Er & Hw' & c' & Ht' & ->). split.
  - destruct Ht as (f & g & Hi & Hc). pose proof (inv_work _ _ _ Hi). lia.
  - rewrite <-El, <-Er. by apply (quiet_stuck env k fuel Hok _ _ _ _ _ _ _ _ c' w' Ht' Hw').
Qed.
End Props.
(** Closing drops what was not read: once one side has closed its streams, the receiving
    thread of the other ends at its next turn, whatever the pipe still holds. *)
Theorem duplex_close_drops {D Ser FS EH RH VH SH : Type} {HB : JsonBackend D Ser FS} env fuel (w : world EH RH VH SH) :
  Wire.open_end w.(right).(Session.writer).(ContentWriter.writer) ->
  Session.recv_turn (D := D) (Ser := Ser) (FS := FS) env fuel (Wire.attach (Session.shutdown w.(right)) w.(left)) = Ret None.
Proof.
  intros [d Hd]. unfold Session.recv_turn, ContentReader.isOpen, Wire.attach, Session.shutdown, ContentWriter.close. cbn.
  by rewrite Hd.
Qed.

(** ** Witnesses: a debugger that sets breakpoints and an adapter that sends an event *)
Import SessionProps WireProps.

Definition debugger : pipe_endpoint := Session.put_event protocol_schema (TStruct "TerminatedEvent") 5%nat wired_client.
Definition adapter : pipe_endpoint := wired_server.
Definition set_them : msg nat := Request breakpoints_call.
Definition tell : msg nat := Event (TStruct "TerminatedEvent") terminated.

Lemma debugger_linked : linked debugger adapter /\ linked adapter debugger.
Proof. split; split; first [by (split; [by eexists|])|reflexivity|by split]. Qed.

Lemma set_them_deliverable (a : msg nat) : a = set_them ->
  deliverable (L := no_limits) protocol_schema protocol_depth 1000 (party_of (fun _ => accept) (fun _ => 5%nat) adapter) a.
Proof. intros ->. exact (breakpoints_callable _ eq_refl). Qed.

Lemma tell_deliverable (a : msg nat) : a = tell ->
  deliverable (L := no_limits) protocol_schema protocol_depth 1000 (party_of (fun _ => accept) (fun _ => 5%nat) debugger) a.
Proof.
  intros ->. split; [reflexivity|]. split; [|reflexivity].
  exists (encoded terminated (TStruct "TerminatedEvent")). split; by_compute.
Qed.

Abbreviation duplex_runs := (runs (D := lib_des) (Ser := lib_ser) (FS := lib_fs) protocol_schema 1000
  (fun a => a = set_them) (fun a => a = tell) (World debugger adapter [] [])).

Definition asked : outcome (bool * pipe_endpoint) :=
  send (D := lib_des) (Ser := lib_ser) (FS := lib_fs) protocol_schema 1000 set_them debugger.
Definition told (l : pipe_endpoint) : outcome (bool * pipe_endpoint) :=
  send (D := lib_des) (Ser := lib_ser) (FS := lib_fs) protocol_schema 1000 tell (Wire.attach l adapter).

Definition few (s : pipe_endpoint) : bool := (length (Refinement.stream s.(Session.reader)) <? 1000)%nat.

Lemma both_fit : match asked with
  | Ret (_, l) => match told l with
    | Ret (_, r) => few l && few (Wire.attach l adapter) && few r && few (Wire.attach r l)
    | _ => false end
  | _ => false end = true.
Proof. vm_compute. reflexivity. Qed.

Lemma few_within l r a b : few l = true -> few r = true -> (length a + length b < 10)%nat -> within 1000 (World l r a b).
Proof. unfold few. intros Hl%Nat.ltb_lt Hr%Nat.ltb_lt Hn. unfold within. cbn [left right lsent rsent]. unfold size_of. lia. Qed.

Lemma both_sent : exists w, duplex_runs w /\ w.(lsent) = [set_them] /\ w.(rsent) = [tell].
Proof.
  pose proof both_fit as Hb. destruct asked as [[b l]| | |] eqn:El; try discriminate Hb.
  destruct (told l) as [[b' r]| | |] eqn:Er; try discriminate Hb. rewrite !andb_true_iff in Hb. destruct Hb as (((H1 & H2) & H3) & H4).
  exists (World (Wire.attach r l) r ([] ++ [set_them]) ([] ++ [tell])). split; [|by split].
  eapply rtc_l; [split; [exact (step_left _ _ _ _ (World debugger adapter [] []) set_them b l eq_refl El)|by apply few_within; [..|cbn; lia]]|].
  eapply rtc_l; [split; [exact (step_right _ _ _ _ (World l _ _ _) tell b' r eq_refl Er)|by apply few_within; [..|cbn; lia]]|apply rtc_refl].
Qed.

Lemma duplex_in_order_witness : exists w i, duplex_runs w /\ w.(rsent) = [tell] /\
  heard w.(left).(Session.log) = omap (fun a => if a is Event _ v then Some (5%nat, v) else None) (take i w.(rsent)).
Proof.
  destruct both_sent as (w & Hr & _ & Hs).
  destruct (duplex_in_order (D := lib_des) (Ser := lib_ser) (FS := lib_fs) (L := no_limits) protocol_schema protocol_depth 1000
    protocol_schema_ok (fun _ => accept) (fun _ => accept) (fun _ => 5%nat) (fun _ => 5%nat) debugger adapter
    (fun a => a = set_them) (fun a => a = tell) (proj1 debugger_linked) (proj2 debugger_linked) ltac:(lia)
    set_them_deliverable tell_deliverable w Hr) as (_ & i & j & Hh & _).
  exists w, i. split; [exact Hr|]. split; [exact Hs|]. rewrite Hh, Hs. destruct i as [|[|i]]; reflexivity.
Defined.

Lemma duplex_delivers_witness : exists w, duplex_runs w /\ forall i w',
  settles (D := lib_des) (Ser := lib_ser) (FS := lib_fs) protocol_schema 1000 i w w' ->
  (forall w'', ~ quiet (D := lib_des) (Ser := lib_ser) (FS := lib_fs) protocol_schema 1000 w' w'') ->
  heard w'.(left).(Session.log) = [(5%nat, terminated)] /\ responded w'.(left).(Session.log) = [(7%nat, inl no_breakpoints)].
Proof.
  destruct both_sent as (w & Hr & Hl & Hs). exists w. split; [exact Hr|]. intros i w' Hm Hstuck.
  destruct (duplex_delivers (D := lib_des) (Ser := lib_ser) (FS := lib_fs) (L := no_limits) protocol_schema protocol_depth 1000
    protocol_schema_ok (fun _ => accept) (fun _ => accept) (fun _ => 5%nat) (fun _ => 5%nat) debugger adapter
    (fun a => a = set_them) (fun a => a = tell) (proj1 debugger_linked) (proj2 debugger_linked) ltac:(lia)
    set_them_deliverable tell_deliverable w Hr i w' Hm) as [_ Ha].
  destruct (Ha Hstuck) as [(_ & Hres & _) (Hh & _)]. rewrite Hl in Hres. rewrite Hs in Hh. split; [exact Hh|exact Hres].
Defined.
(** The event was sent and is never heard. *)
Lemma duplex_close_drops_witness : exists w, duplex_runs w /\ w.(rsent) = [tell] /\
  Session.recv_turn (D := lib_des) (Ser := lib_ser) (FS := lib_fs) protocol_schema 1000
    (Wire.attach (Session.shutdown w.(right)) w.(left)) = Ret None.
Proof.
  destruct both_sent as (w & Hr & _ & Hs). exists w. split; [exact Hr|]. split; [exact Hs|]. apply duplex_close_drops.
  destruct (runs_from_linked (L := no_limits) protocol_schema protocol_depth 1000
    protocol_schema_ok (fun _ => accept) (fun _ => accept) (fun _ => 5%nat) (fun _ => 5%nat) debugger adapter
    (fun a => a = set_them) (fun a => a = tell) (proj1 debugger_linked) (proj2 debugger_linked) ltac:(lia)
    set_them_deliverable tell_deliverable w Hr) as (_ & c & f & g & (_ & Hg & _) & _). by destruct Hg as [_ _ _ _ _ _ [Ho _] _ _ _ _ _ _ _].
Defined.
End DuplexProps.
