(* ===== verification/Debugger.v ===== *)
(** * The example debugger ([examples/hello_debugger.cpp])

    The classes [Debugger], which steps through a synthetic file of seven lines, and
    [Event], a latch. Their methods run on the threads of a session and of [main], so
    both are monitors ([Monitor.v]); the handler of the debugger's events is called
    after the mutex is released, and what it is called with is part of the result. *)
From Stdlib Require Import ZArith Lia.
From stdpp Require Import base list gmap.
From S2P Require Import Prelude Monitor.

Definition numSourceLines : Z := 7.

Module Debugger.
Inductive event := BreakpointHit | Stepped | Paused.

(** [breakpoints] is an [unordered_set]: its elements, each once. *)
Record t := mk { line : Z; breakpoints : list Z }.

Definition create : t := mk 1 [].

Definition set_line (l : Z) (d : t) : t := mk l d.(breakpoints).

(** The loop of [run], with [n] turns left. *)
Fixpoint run_loop (n : nat) (i : Z) (d : t) : option event * t :=
  match n with
  | O => (None, d)
  | S n =>
    let l := Z.rem (d.(line) + i) numSourceLines + 1 in
    if bool_decide (l ∈ d.(breakpoints)) then (Some BreakpointHit, set_line l d)
    else run_loop n (i + 1) d
  end.

Definition run (d : t) : option event * t := run_loop (Z.to_nat numSourceLines) 0 d.

(** [pause] takes no lock and changes nothing. *)
Definition pause (d : t) : option event * t := (Some Paused, d).

Definition currentLine (d : t) : Z := d.(line).

Definition stepForward (d : t) : option event * t :=
  (Some Stepped, set_line (Z.rem d.(line) numSourceLines + 1) d).

Definition clearBreakpoints (d : t) : t := mk d.(line) [].

Definition addBreakpoint (l : Z) (d : t) : t :=
  if bool_decide (l ∈ d.(breakpoints)) then d else mk d.(line) (l :: d.(breakpoints)).

Inductive op := Run | Pause | CurrentLine | StepForward | ClearBreakpoints | AddBreakpoint (l : Z).

Inductive res := Fires (e : option event) | Line (l : Z) | Done.

#[global] Instance Debugger_Monitor : Monitor t op res := {
  mon_ready _ _ := true;
  mon_run o d :=
    match o with
    | Run => let '(e, d) := run d in (d, false, inl (Fires e))
    | Pause => let '(e, d) := pause d in (d, false, inl (Fires e))
    | CurrentLine => (d, false, inl (Line (currentLine d)))
    | StepForward => let '(e, d) := stepForward d in (d, false, inl (Fires e))
    | ClearBreakpoints => (clearBreakpoints d, false, inl Done)
    | AddBreakpoint l => (addBreakpoint l d, false, inl Done)
    end;
  mon_timeout _ _ := None
}.

(** ** Lines in cyclic order *)

(** The line [n] steps after [l]. *)
Definition line_after (l n : Z) : Z := (l - 1 + n) mod numSourceLines + 1.

Definition line_ok (d : t) : Prop := 1 <= d.(line) <= numSourceLines.

Lemma line_after_range l n : 1 <= line_after l n <= numSourceLines.
Proof. unfold line_after, numSourceLines. pose proof (Z.mod_pos_bound (l - 1 + n) 7). lia. Qed.

Lemma rem_line_after l i : 1 <= l -> 0 <= i -> Z.rem (l + i) numSourceLines + 1 = line_after l (i + 1).
Proof.
  intros Hl Hi. unfold line_after, numSourceLines. rewrite Z.rem_mod_nonneg by lia. do 2 f_equal. lia.
Qed.

(** What the loop has left to look at: the lines [i + 1 .. i + n] steps on. *)
Lemma run_loop_spec n i d :
  line_ok d -> 0 <= i ->
  (exists k, i < k <= i + Z.of_nat n /\ line_after d.(line) k ∈ d.(breakpoints) /\
    (forall m, i < m < k -> line_after d.(line) m ∉ d.(breakpoints)) /\
    run_loop n i d = (Some BreakpointHit, set_line (line_after d.(line) k) d)) \/
  (forall m, i < m <= i + Z.of_nat n -> line_after d.(line) m ∉ d.(breakpoints)) /\ run_loop n i d = (None, d).
Proof.
  intros Hd. revert i. induction n as [|n IH]; intros i Hi; cbn [run_loop].
  { right. split; [lia|done]. }
  destruct Hd as [Hl Hu]. rewrite rem_line_after by lia. case_bool_decide as Hb.
  { left. exists (i + 1). split_and!; [lia..|done| |done]. lia. }
  destruct (IH (i + 1)) as [(k & Hk & Hin & Hbefore & ->)|[Hnone ->]]; [lia|left|right].
  - exists k. split_and!; [lia..|done| |done]. intros m Hm. destruct (decide (m = i + 1)) as [->|]; [done|].
    apply Hbefore. lia.
  - split; [|done]. intros m Hm. destruct (decide (m = i + 1)) as [->|]; [done|]. apply Hnone. lia.
Qed.

Lemma run_ok d e d' : line_ok d -> run d = (e, d') -> line_ok d'.
Proof.
  intros Hd. unfold run. destruct (run_loop_spec (Z.to_nat numSourceLines) 0 d Hd) as [(k & _ & _ & _ & ->)|[_ ->]];
    [done|intros [= <- <-]..]; [|done]. apply line_after_range.
Qed.

Lemma stepForward_line d : line_ok d -> (stepForward d).2 = set_line (line_after d.(line) 1) d.
Proof.
  intros [Hl Hu]. unfold stepForward. cbn. f_equal. rewrite <-(rem_line_after _ 0) by lia. by rewrite Z.add_0_r.
Qed.

Lemma stepForward_ok d : line_ok d -> line_ok (stepForward d).2.
Proof. intros Hd. rewrite stepForward_line by done. apply line_after_range. Qed.

Lemma addBreakpoint_line l d : (addBreakpoint l d).(line) = d.(line).
Proof. unfold addBreakpoint. by case_bool_decide. Qed.

Lemma addBreakpoint_in l d k : k ∈ (addBreakpoint l d).(breakpoints) <-> k = l \/ k ∈ d.(breakpoints).
Proof.
  unfold addBreakpoint. case_bool_decide; cbn; [|by rewrite elem_of_cons].
  split; [by right|]. by intros [->|?].
Qed.

Lemma atomic_line (d : t) tr d' : atomic d tr d' -> line_ok d -> line_ok d'.
Proof.
  induction 1 as [d|d d2 d3 tr t o n r _ IH _ Hrun]; intros Hd; [done|]. specialize (IH Hd).
  destruct o; cbn -[run stepForward] in Hrun; simplify_eq; try done.
  - destruct (run d2) eqn:E. simplify_eq. exact (run_ok _ _ _ IH E).
  - destruct (stepForward d2) as [e d0] eqn:E. simplify_eq. pose proof (stepForward_ok d2 IH) as H. by rewrite E in H.
  - unfold line_ok. rewrite addBreakpoint_line. exact IH.
Qed.
End Debugger.

Module Event.
(** [fired]. *)
Definition t : Type := bool.

Definition create : t := false.

Definition fire (e : t) : t := true.

Inductive op := Wait | Fire.

#[global] Instance Event_Monitor : Monitor t op () := {
  mon_ready o e := match o with Wait => e | Fire => true end;
  mon_run o e := match o with Wait => (e, false, inl ()) | Fire => (fire e, true, inl ()) end;
  mon_timeout _ _ := None
}.

#[global] Instance Event_Notifies : Notifies Event_Monitor.
Proof. intros [] [] e e' n r Hf Hr Ht; cbn in *; simplify_eq; try done; congruence. Qed.

Definition has_fired (tr : list (@Monitor.event op ())) : bool :=
  existsb (fun e => match e with (_, Fire, _) => true | _ => false end) tr.

Lemma atomic_fired tr e : atomic (create : t) tr e -> e = has_fired tr.
Proof.
  remember (create : t) as e0 eqn:E0. induction 1 as [e|e e2 e3 tr t o n r _ IH _ Hrun]; subst; [done|].
  specialize (IH eq_refl). unfold has_fired in *. rewrite existsb_app. cbn.
  destruct o; cbn in Hrun; simplify_eq/=; [by rewrite !orb_false_r|by rewrite orb_true_r].
Qed.
End Event.

Module DebuggerProps.
Import Debugger.

(** Running the debugger stops at the next breakpoint: in every interleaving of the
    threads the current line is one of the seven of the file; from there [run] goes to the
    nearest line in cyclic order that has a breakpoint, the current one last, and fires
    [BreakpointHit]; without a breakpoint in the file it changes nothing and fires
    nothing; a step goes to the next line, and to the first after the last. *)
Theorem debugger_stops_at_next tr (c : Monitor.config Debugger.t op res) :
  Monitor.run (Config create ∅) tr c ->
  let d := c.(shared) in
  1 <= d.(line) <= numSourceLines /\
  ((exists k, 0 < k <= numSourceLines /\ line_after d.(line) k ∈ d.(breakpoints) /\
     (forall m, 0 < m < k -> line_after d.(line) m ∉ d.(breakpoints)) /\
     run d = (Some BreakpointHit, set_line (line_after d.(line) k) d)) \/
   (forall l, 1 <= l <= numSourceLines -> l ∉ d.(breakpoints)) /\ run d = (None, d)) /\
  stepForward d = (Some Stepped, set_line (if d.(line) =? numSourceLines then 1 else d.(line) + 1) d).
Proof.
  intros Hr%run_atomic d. assert (Hd : line_ok d) by by apply (atomic_line _ _ _ Hr).
  clearbody d. clear Hr. split; [done|]. split.
  - destruct (run_loop_spec (Z.to_nat numSourceLines) 0 d Hd) as [(k & Hk & ?)|[Hn ?]]; [done|left|right].
    + exists k. split; [lia|done].
    + split; [|done]. intros l Hl. unfold line_ok, numSourceLines in *.
      assert (El : l = line_after (line d) ((l - line d - 1) mod 7 + 1)).
      { unfold line_after, numSourceLines. replace (line d - 1 + ((l - line d - 1) mod 7 + 1))
          with (line d + (l - line d - 1) mod 7) by lia.
        rewrite Zplus_mod_idemp_r. replace (line d + (l - line d - 1)) with (l - 1) by lia.
        rewrite Z.mod_small by lia. lia. }
      rewrite El. apply Hn. pose proof (Z.mod_pos_bound (l - line d - 1) 7). lia.
  - pose proof (stepForward_line d Hd) as Hs. rewrite (surjective_pairing (stepForward d)), Hs. do 2 f_equal.
    unfold line_after, line_ok, numSourceLines in *. destruct (Z.eqb_spec (line d) 7) as [->|]; [done|].
    rewrite Z.mod_small by lia. lia.
Qed.

(** Breakpoints on lines 2 and 6; the debugger is at line 2. *)
Definition at_two : Monitor.config Debugger.t op res :=
  Config (mk 2 [6; 2]) (<[1%nat := Returned (Fires (Some BreakpointHit))]> (<[1%nat := Running Run]>
    (<[1%nat := Returned Done]> (<[1%nat := Running (AddBreakpoint 6)]>
      (<[1%nat := Returned Done]> (<[1%nat := Running (AddBreakpoint 2)]> ∅)))))).

Definition at_two_trace : list (@Monitor.event op res) :=
  [(1%nat, AddBreakpoint 2, inl Done); (1%nat, AddBreakpoint 6, inl Done); (1%nat, Run, inl (Fires (Some BreakpointHit)))].

(** One thread calls an operation that does not wait. *)
Lemma call_run (c : Monitor.config Debugger.t op res) tr s ts o s' r :
  Monitor.run c tr (Config s ts) ->
  match ts !! 1%nat with None | Some (Returned _) => True | _ => False end -> mon_run o s = (s', false, inl r) ->
  Monitor.run c (tr ++ [(1%nat, o, inl r)]) (Config s' (<[1%nat := Returned r]> (<[1%nat := Running o]> ts))).
Proof.
  intros Hr Hts Ho. eapply run_step.
  - rewrite <-(app_nil_r tr). eapply run_step; [exact Hr|]. by apply step_call.
  - eapply (step_run s _ 1%nat o s' false (inl r)); [by rewrite lookup_insert_eq|done|done].
Qed.

Lemma at_two_run : Monitor.run (Config create ∅) at_two_trace at_two.
Proof.
  apply (call_run (Config create ∅) [(1%nat, AddBreakpoint 2, inl Done); (1%nat, AddBreakpoint 6, inl Done)]
    (mk 1 [6; 2])); [|by rewrite lookup_insert_eq|reflexivity].
  apply (call_run (Config create ∅) [(1%nat, AddBreakpoint 2, inl Done)] (mk 1 [2]));
    [|by rewrite lookup_insert_eq|reflexivity].
  apply (call_run (Config create ∅) [] create); [constructor|done|reflexivity].
Qed.

Lemma debugger_stops_at_next_witness : 1 <= at_two.(shared).(line) <= numSourceLines /\
  run at_two.(shared) = (Some BreakpointHit, mk 6 [6; 2]).
Proof.
  destruct (debugger_stops_at_next at_two_trace at_two at_two_run) as (Hl & _ & _).
  split; [exact Hl|vm_compute; reflexivity].
Defined.

(** A latch loses no waiter: a [wait] returns only after a [fire], and after a [fire]
    no thread sleeps in [wait]. *)
Theorem event_wakes_waiters t tr (c : Monitor.config Event.t Event.op ()) o :
  Monitor.run (Config Event.create ∅) tr c ->
  c.(shared) = Event.has_fired tr /\
  (Event.has_fired tr = true -> c.(threads) !! t <> Some (Asleep o)).
Proof.
  intros Hr. pose proof (Event.atomic_fired _ _ (run_atomic _ _ _ Hr)) as Hf. split; [done|].
  intros Hh Ha. pose proof (reachable_settled _ _ _ Hr t o Ha) as Hs. rewrite Hf, Hh in Hs. by destruct o.
Qed.
End DebuggerProps.
