(* ===== verification/HelloDebugger.v ===== *)
(** * The example debug adapter ([examples/hello_debugger.cpp])

    [main] of the example: a [Session] with its handlers, a [Debugger] and two latches
    ([Debugger.v]). A handler is a function in a state monad over these objects; a value
    of a protocol struct is built as in the code, by default construction and assignment
    of members. [step] interleaves the thread of [main] with the dispatching thread, one
    handler, reply or statement of [main] at a time. The log file is not compiled in
    ([LOG_TO_FILE] is not defined). *)
From Stdlib Require Import Ascii ZArith Lia.
From stdpp Require Import base list strings relations.
From S2P Require Import Prelude IO ContentStream Monitor Chan SMap Types Serialization Json Backend.
From S2P Require Import ProtocolRequests ProtocolResponses ProtocolEvents Protocol Session Debugger.

Definition threadId : Z := 100.
Definition frameId : Z := 200.
Definition variablesReferenceId : Z := 300.
Definition sourceReferenceId : Z := 400.

(** [sourceContent]. *)
Definition newline : string := String (ascii_of_nat 10) EmptyString.

Definition sourceContent : string :=
  "// Hello Debugger!" +:+ newline +:+ newline +:+
  "This is a synthetic source file provided by the DAP debugger." +:+ newline +:+ newline +:+
  "You can set breakpoints, and single line step." +:+ newline +:+ newline +:+
  "You may also notice that the locals contains a single variable for the currently executing line number.".

(** ** Members of protocol structs *)

(** [x.name = v] and [x.name]; a name the struct does not have does not compile. *)
Definition assign (name : string) (v x : value) : outcome value :=
  match x with
  | VStruct fs => if get_member fs name then Ret (VStruct (set_member fs name v)) else Undefined
  | _ => Undefined
  end.

Definition get (name : string) (x : value) : outcome value :=
  match x with
  | VStruct fs => match get_member fs name with Some v => Ret v | None => Undefined end
  | _ => Undefined
  end.

Definition get_integer (name : string) (x : value) : outcome Z :=
  v ← get name x; match v with VInteger z => Ret z | _ => Undefined end.

(** [x.name.value(def)] of an optional member. *)
Definition get_or (name : string) (def x : value) : outcome value :=
  v ← get name x; match v with VOptional (Some w) => Ret w | VOptional None => Ret def | _ => Undefined end.

Definition some (v : value) : value := VOptional (Some v).

Fixpoint assigns (l : list (string * value)) (x : value) : outcome value :=
  match l with
  | [] => Ret x
  | (n, v) :: l => x ← assign n v x; assigns l x
  end.

Module HelloDebugger.
Section Adapter.
Context {D Ser FS R W : Type} `{JsonBackend D Ser FS} `{!Reader R} `{!Writer W}.
Context (fuel : nat).

(** The callbacks [main] gives the session: [onError], none for responses and events, and
    the one for sent initialize responses. *)
Abbreviation session_t := (Session.t R W unit Empty_set Empty_set unit).

(** [reported]: the texts [onError] was called with. *)
Record t := mk {
  session : session_t;
  debugger : Debugger.t;
  configured : Event.t;
  terminate : Event.t;
  reported : list string
}.

Definition M (A : Type) : Type := t -> outcome (A * t).
#[global] Instance M_ret : MRet M := fun A a st => Ret (a, st).
#[global] Instance M_bind : MBind M := fun A B f m st => '(a, st) ← m st; f a st.

Definition lift {A} (r : outcome A) : M A := fun st => a ← r; Ret (a, st).

(** [dap::X x; x.a = ...; x.b = ...]. *)
Definition make (struct : string) (l : list (string * value)) : outcome value :=
  x ← construct protocol_schema fuel (TStruct struct); assigns l x.

(** ** Calls of the session and the callbacks they make *)
Definition error_texts (l : list (Session.action unit Empty_set Empty_set unit)) : list string :=
  omap (fun a => match a with Session.ErrorReported _ m => Some m | _ => None end) l.

(** The lambda of [onError]: [terminate.fire()]. *)
Definition on_error (msgs : list string) (terminate : Event.t) : Event.t :=
  match msgs with [] => terminate | _ => Event.fire terminate end.

(** A call of the session, with the errors it reports. *)
Definition with_session (f : session_t -> outcome session_t) : M unit := fun st =>
  s ← f st.(session);
  let new := skipn (length st.(session).(Session.log)) s.(Session.log) in
  Ret (tt,
       mk s st.(debugger) st.(configured) (on_error (error_texts new) st.(terminate))
         (st.(reported) ++ error_texts new)).

(** [session->send(event)]; the result of the send is dropped. *)
Definition session_send (struct : string) (l : list (string * value)) (s : session_t) : outcome session_t :=
  event ← make struct l;
  '(_, s) ← Session.send_event protocol_schema fuel (TStruct struct) event s;
  Ret s.

Definition send (struct : string) (l : list (string * value)) : M unit := with_session (session_send struct l).

(** [onDebuggerEvent]. *)
Definition reason (e : Debugger.event) : string :=
  match e with
  | Debugger.Stepped => "step"
  | Debugger.BreakpointHit => "breakpoint"
  | Debugger.Paused => "pause"
  end.

Definition onDebuggerEvent (e : Debugger.event) : M unit :=
  send "StoppedEvent" [("reason", VString (reason e)); ("threadId", some (VInteger threadId))].

(** A method of the debugger, and the event it fires. *)
Definition with_debugger (f : Debugger.t -> option Debugger.event * Debugger.t) : M unit := fun st =>
  let '(e, d) := f st.(debugger) in
  let st := mk st.(session) d st.(configured) st.(terminate) st.(reported) in
  match e with Some e => onDebuggerEvent e st | None => Ret (tt, st) end.

Definition currentLine : M Z := fun st => Ret (Debugger.currentLine st.(debugger), st).

Definition update_debugger (f : Debugger.t -> Debugger.t) : M unit := fun st =>
  Ret (tt, mk st.(session) (f st.(debugger)) st.(configured) st.(terminate) st.(reported)).

Definition fire_configured : M unit := fun st =>
  Ret (tt, mk st.(session) st.(debugger) (Event.fire st.(configured)) st.(terminate) st.(reported)).

Definition fire_terminate : M unit := fun st =>
  Ret (tt, mk st.(session) st.(debugger) st.(configured) (Event.fire st.(terminate)) st.(reported)).

(** ** The request handlers *)
Definition handler : Type := value -> M ResponseOrError.

Definition respond (struct : string) (l : list (string * value)) : M ResponseOrError :=
  response ← lift (make struct l); mret {| roe_response := response; roe_error := EmptyString |}.

(** [return dap::Error(...)]. *)
Definition fail (struct : string) (message : list string) : M ResponseOrError :=
  response ← lift (make struct []); mret {| roe_response := response; roe_error := error_text message |}.

Definition on_initialize : handler := fun _ =>
  respond "InitializeResponse" [("supportsConfigurationDoneRequest", some (VBoolean true))].

Definition on_threads : handler := fun _ =>
  thread ← lift (make "Thread" [("id", VInteger threadId); ("name", VString "TheThread")]);
  respond "ThreadsResponse" [("threads", VArray [thread])].

Definition on_stackTrace : handler := fun request =>
  id ← lift (get_integer "threadId" request);
  if negb (id =? threadId) then fail "StackTraceResponse" ["Unknown threadId '"; int_text (s32 id); "'"]
  else
    source ← lift (make "Source" [("sourceReference", some (VInteger sourceReferenceId));
                                   ("name", some (VString "HelloDebuggerSource"))]);
    line ← currentLine;
    frame ← lift (make "StackFrame" [("line", VInteger line); ("column", VInteger 1);
      ("name", VString "HelloDebugger"); ("id", VInteger frameId); ("source", some source)]);
    respond "StackTraceResponse" [("stackFrames", VArray [frame])].

Definition on_scopes : handler := fun request =>
  id ← lift (get_integer "frameId" request);
  if negb (id =? frameId) then fail "ScopesResponse" ["Unknown frameId '"; int_text (s32 id); "'"]
  else
    scope ← lift (make "Scope" [("name", VString "Locals"); ("presentationHint", some (VString "locals"));
      ("variablesReference", VInteger variablesReferenceId)]);
    respond "ScopesResponse" [("scopes", VArray [scope])].

Definition on_variables : handler := fun request =>
  id ← lift (get_integer "variablesReference" request);
  if negb (id =? variablesReferenceId) then
    fail "VariablesResponse" ["Unknown variablesReference '"; int_text (s32 id); "'"]
  else
    line ← currentLine;
    var ← lift (make "Variable" [("name", VString "currentLine"); ("value", VString (int_text line));
      ("type", some (VString "int"))]);
    respond "VariablesResponse" [("variables", VArray [var])].

Definition on_pause : handler := fun _ => with_debugger Debugger.pause;; respond "PauseResponse" [].

Definition on_continue : handler := fun _ => with_debugger Debugger.run;; respond "ContinueResponse" [].

Definition on_next : handler := fun _ => with_debugger Debugger.stepForward;; respond "NextResponse" [].

Definition on_stepIn : handler := fun _ => with_debugger Debugger.stepForward;; respond "StepInResponse" [].

Definition on_stepOut : handler := fun _ => respond "StepOutResponse" [].

(** The loop over the requested breakpoints: the responses, with [verified] set. *)
Fixpoint set_breakpoints (bps : list value) (response : value) : M (list value) :=
  match bps with
  | [] => mret []
  | bp :: bps =>
    line ← lift (get_integer "line" bp);
    update_debugger (Debugger.addBreakpoint line);;
    r ← lift (assign "verified" (VBoolean (line <? numSourceLines)) response);
    rs ← set_breakpoints bps response;
    mret (r :: rs)
  end.

Definition on_setBreakpoints : handler := fun request =>
  bps ← lift (get_or "breakpoints" (VArray []) request);
  bps ← lift match bps with VArray l => Ret l | _ => Undefined end;
  source ← lift (get "source" request);
  reference ← lift (get_or "sourceReference" (VInteger 0) source);
  reference ← lift match reference with VInteger z => Ret z | _ => Undefined end;
  fresh ← lift (make "Breakpoint" []);
  if reference =? sourceReferenceId then
    update_debugger Debugger.clearBreakpoints;;
    rs ← set_breakpoints bps fresh;
    respond "SetBreakpointsResponse" [("breakpoints", VArray rs)]
  else respond "SetBreakpointsResponse" [("breakpoints", VArray (replicate (length bps) fresh))].

Definition on_setExceptionBreakpoints : handler := fun _ => respond "SetExceptionBreakpointsResponse" [].

Definition on_source : handler := fun request =>
  id ← lift (get_integer "sourceReference" request);
  if negb (id =? sourceReferenceId) then
    fail "SourceResponse" ["Unknown source reference '"; int_text (s32 id); "'"]
  else respond "SourceResponse" [("content", VString sourceContent)].

Definition on_launch : handler := fun _ => respond "LaunchResponse" [].

Definition on_disconnect : handler := fun request =>
  b ← lift (get_or "terminateDebuggee" (VBoolean false) request);
  b ← lift match b with VBoolean b => Ret b | _ => Undefined end;
  (if (b : bool) then fire_terminate else mret tt);;
  respond "DisconnectResponse" [].

Definition on_configurationDone : handler := fun _ => fire_configured;; respond "ConfigurationDoneResponse" [].

(** The calls of [registerHandler]: the request, its response, the handler. *)
Definition handlers : list (string * string * handler) :=
  [ ("InitializeRequest", "InitializeResponse", on_initialize);
    ("ThreadsRequest", "ThreadsResponse", on_threads);
    ("StackTraceRequest", "StackTraceResponse", on_stackTrace);
    ("ScopesRequest", "ScopesResponse", on_scopes);
    ("VariablesRequest", "VariablesResponse", on_variables);
    ("PauseRequest", "PauseResponse", on_pause);
    ("ContinueRequest", "ContinueResponse", on_continue);
    ("NextRequest", "NextResponse", on_next);
    ("StepInRequest", "StepInResponse", on_stepIn);
    ("StepOutRequest", "StepOutResponse", on_stepOut);
    ("SetBreakpointsRequest", "SetBreakpointsResponse", on_setBreakpoints);
    ("SetExceptionBreakpointsRequest", "SetExceptionBreakpointsResponse", on_setExceptionBreakpoints);
    ("SourceRequest", "SourceResponse", on_source);
    ("LaunchRequest", "LaunchResponse", on_launch);
    ("DisconnectRequest", "DisconnectResponse", on_disconnect);
    ("ConfigurationDoneRequest", "ConfigurationDoneResponse", on_configurationDone) ].

(** ** The dispatching thread *)

(** What is left to do once a handler has returned. *)
Record answer := Answer { ans_seq : Z; ans_command : string; ans_call : reply_call }.

(** The sent handler: [session->send(dap::InitializedEvent())]. *)
Definition on_response_sent (_ : unit) (_ : value + string) : session_t -> outcome session_t :=
  session_send "InitializedEvent" [].

(** The reply, in which the session calls the sent handler. *)
Definition give (a : answer) : M unit :=
  with_session (Session.reply_with protocol_schema fuel on_response_sent a.(ans_seq) a.(ans_command) a.(ans_call)).

Definition handle (entry : string * string * handler) (seq : Z) (args : value) : M answer :=
  res ← entry.2 args;
  mret (Answer seq (Session.name_of protocol_schema (TStruct entry.1.1)) (reply_of (TStruct entry.1.2) res)).

(** ** [main] *)

(** The session and the objects before the call of [bind]. *)
Definition setup : t :=
  mk (Session.put_sent protocol_schema (TStruct "InitializeResponse") tt (Session.put_error tt Session.create))
    Debugger.create Event.create Event.create [].

Definition bind (r : R) (w : W) (st : t) : t :=
  mk (Session.bind r w st.(session)).2 st.(debugger) st.(configured) st.(terminate) st.(reported).

(** Where [main] is after [bind]. *)
Inductive pc := AwaitConfigured | Started | Announced | AwaitTerminate | Exited.

Inductive input := Request (struct : string) (args : value) | Failure (message : list string).

(** [history]: the requests handled and the messages rejected. *)
Record program := Program { objects : t; main : pc; pending : option answer; history : list input }.

Inductive step : program -> program -> Prop :=
| step_request p entry seq args a st :
    p.(pending) = None -> entry ∈ handlers -> handle entry seq args p.(objects) = Ret (a, st) ->
    step p (Program st p.(main) (Some a) (p.(history) ++ [Request entry.1.1 args]))
| step_answer p a st u :
    p.(pending) = Some a -> give a p.(objects) = Ret (u, st) ->
    step p (Program st p.(main) None p.(history))
| step_failure p message st u :
    with_session (fun s => Ret (Session.error message s)) p.(objects) = Ret (u, st) ->
    step p (Program st p.(main) p.(pending) (p.(history) ++ [Failure message]))
| step_configured p :
    p.(main) = AwaitConfigured -> p.(objects).(configured) = true ->
    step p (Program p.(objects) Started p.(pending) p.(history))
| step_announce p u st :
    p.(main) = Started ->
    send "ThreadEvent" [("reason", VString "started"); ("threadId", VInteger threadId)] p.(objects) = Ret (u, st) ->
    step p (Program st Announced p.(pending) p.(history))
| step_pause p u st :
    p.(main) = Announced -> with_debugger Debugger.pause p.(objects) = Ret (u, st) ->
    step p (Program st AwaitTerminate p.(pending) p.(history))
| step_exit p :
    p.(main) = AwaitTerminate -> p.(objects).(terminate) = true ->
    step p (Program p.(objects) Exited p.(pending) p.(history)).
End Adapter.
End HelloDebugger.
