(* ===== verification/HelloDebuggerProps.v ===== *)
(** * The example debug adapter: properties

    The theorems about [HelloDebugger.v]: an invariant of the whole program in every
    interleaving, what [setBreakpoints] does, and the order of the messages of the
    initialization on the wire, proved against the contracts of the session's parts. *)
From Stdlib Require Import Ascii ZArith Lia.
From stdpp Require Import base list strings relations.
From S2P Require Import Prelude IO ContentStream Monitor Chan SMap Types Serialization Json Backend.
From S2P Require Import Nlohmann ReferenceJson ProtocolRequests ProtocolResponses ProtocolEvents Protocol.
From S2P Require Import Session SessionProps Debugger HelloDebugger.
Import NlohmannDeserializerFacts NlohmannSerializerFacts.
Import HelloDebugger.

Section Invariant.
Context {D Ser FS R W : Type} {HB : JsonBackend D Ser FS} {HR : Reader R} {HW : Writer W}.
Context (fuel : nat).
Abbreviation objects_t := (@HelloDebugger.t R W).

Definition asked_configured (h : list input) : Prop := exists args, Request "ConfigurationDoneRequest" args ∈ h.

Definition asked_terminate (h : list input) : Prop :=
  exists args, Request "DisconnectRequest" args ∈ h /\ get_or "terminateDebuggee" (VBoolean false) args = Ret (VBoolean true).

(** The objects after the inputs [h]; [e]: [main] has exited. *)
Record objects_ok (h : list input) (e : bool) (st : objects_t) : Prop := {
  ob_exited : e = true -> st.(terminate) = true;
  ob_line : Debugger.line_ok st.(debugger);
  ob_configured : st.(configured) = true -> asked_configured h;
  ob_terminate : st.(terminate) = true -> st.(reported) <> [] \/ asked_terminate h
}.

Lemma objects_ok_app h i e st : objects_ok h e st -> objects_ok (h ++ i) e st.
Proof.
  intros [He Hl Hc Ht]. split; [done..| |].
  - intros H. destruct (Hc H) as [args ?]. exists args. apply elem_of_app. by left.
  - intros H. destruct (Ht H) as [?|(args & ? & ?)]; [by left|]. right. exists args. split; [|done].
    apply elem_of_app. by left.
Qed.

(** Calls that keep the invariant. *)
Definition keeps {A} (h : list input) (m : @M R W A) : Prop :=
  forall e st a st', objects_ok h e st -> m st = Ret (a, st') -> objects_ok h e st'.

Lemma keeps_ret {A} h (a : A) : keeps h (mret a).
Proof. intros ex st b st' Hst [= <- <-]. done. Qed.

Lemma keeps_lift {A} h (r : outcome A) : keeps h (lift r).
Proof. intros ex st a st' Hst (b & _ & [= <- <-])%outcome_bind_inv. done. Qed.

Lemma keeps_bind {A B} h (m : @M R W A) (f : A -> @M R W B) :
  keeps h m -> (forall a, keeps h (f a)) -> keeps h (m ≫= f).
Proof.
  intros Hm Hf ex st b st' Hst ([a st1] & H1 & H2)%outcome_bind_inv. eapply Hf; [|exact H2]. by eapply Hm.
Qed.

Lemma keeps_with_session h f : keeps h (with_session f).
Proof.
  intros ex st b st' [He Hl Hc Ht] (s & _ & [= <- <-])%outcome_bind_inv. split; cbn; [|done..|].
  - intros H. specialize (He H). by destruct (error_texts _).
  - destruct (error_texts _) as [|m ms]; cbn; [by rewrite app_nil_r|]. intros _. left. by destruct (reported st).
Qed.

Lemma keeps_debugger h (f : Debugger.t -> option Debugger.event * Debugger.t) :
  (forall d, Debugger.line_ok d -> Debugger.line_ok (f d).2) -> keeps h (with_debugger fuel f).
Proof.
  intros Hf ex st u st' [He Hl Hc Ht] Hr. unfold with_debugger in Hr. pose proof (Hf _ Hl) as Hd.
  destruct (f (debugger st)) as [[e|] d]; [|by simplify_eq].
  revert Hr. unfold onDebuggerEvent, send. apply (keeps_with_session h). by split.
Qed.

Lemma keeps_update h f :
  (forall d, Debugger.line_ok d -> Debugger.line_ok (f d)) -> keeps h (update_debugger f).
Proof. intros Hf ex st u st' [He Hl Hc Ht] [= <- <-]. split; cbn; auto. Qed.

Lemma keeps_send h struct l : keeps h (send fuel struct l).
Proof. apply keeps_with_session. Qed.

Lemma keeps_respond h struct l : keeps h (respond fuel struct l).
Proof. apply keeps_bind; [apply keeps_lift|]. intros v. apply keeps_ret. Qed.

Lemma keeps_fail h struct l : keeps h (fail fuel struct l).
Proof. apply keeps_bind; [apply keeps_lift|]. intros v. apply keeps_ret. Qed.

Lemma keeps_currentLine h : keeps h currentLine.
Proof. intros ex st u st' Hst [= <- <-]. done. Qed.

Lemma run_line d : Debugger.line_ok d -> Debugger.line_ok (Debugger.run d).2.
Proof. intros Hd. eapply Debugger.run_ok; [done|apply surjective_pairing]. Qed.

Lemma keeps_set_breakpoints h bps r : keeps h (set_breakpoints bps r).
Proof.
  induction bps as [|bp bps IH]; cbn [set_breakpoints]; [apply keeps_ret|].
  apply keeps_bind; [apply keeps_lift|]. intros l. apply keeps_bind; [apply keeps_update|].
  { intros d. unfold Debugger.line_ok. by rewrite Debugger.addBreakpoint_line. }
  intros _. apply keeps_bind; [apply keeps_lift|]. intros x. apply keeps_bind; [done|]. intros xs. apply keeps_ret.
Qed.

Lemma pause_line d : Debugger.line_ok d -> Debugger.line_ok (Debugger.pause d).2.
Proof. done. Qed.

Lemma clear_line d : Debugger.line_ok d -> Debugger.line_ok (Debugger.clearBreakpoints d).
Proof. done. Qed.

Create HintDb keeps.
Hint Resolve keeps_ret keeps_lift keeps_send keeps_respond keeps_fail keeps_currentLine keeps_set_breakpoints
  keeps_debugger keeps_update run_line pause_line clear_line Debugger.stepForward_ok : keeps.

Ltac keep := repeat match goal with
  | |- forall _, _ => intro
  | |- keeps _ (if ?b then _ else _) => destruct b
  | |- keeps _ (_ ≫= _) => apply keeps_bind
  | _ => solve [auto with keeps]
  end.

Lemma keeps_fire_configured h : asked_configured h -> keeps h fire_configured.
Proof. intros Ha ex st u st' [He Hl Hc Ht] [= <- <-]. by split. Qed.

Lemma keeps_fire_terminate h : asked_terminate h -> keeps h fire_terminate.
Proof. intros Ha ex st u st' [He Hl Hc Ht] [= <- <-]. split; cbn; auto. Qed.

Lemma keeps_disconnect h args :
  Request "DisconnectRequest" args ∈ h -> keeps h (on_disconnect fuel args).
Proof.
  intros Hin ex st a st' Hst ([v st1] & (v' & Hv & [= <- <-])%outcome_bind_inv & Hr)%outcome_bind_inv.
  apply outcome_bind_inv in Hr as ([b st2] & (b' & Hb & [= <- <-])%outcome_bind_inv & Hr).
  destruct v'; cbn in Hb; simplify_eq. revert Hr.
  apply (keeps_bind h); [|keep|done]. destruct b'; [|apply keeps_ret]. apply keeps_fire_terminate. by exists args.
Qed.

Lemma keeps_handler h entry args :
  entry ∈ handlers fuel -> keeps (h ++ [Request entry.1.1 args]) (entry.2 args).
Proof.
  intros Hin. unfold handlers in Hin.
  repeat (apply elem_of_cons in Hin as [->|Hin]); [cbn [fst snd]..|by apply elem_of_nil in Hin].
  all: try solve [unfold on_initialize, on_threads, on_stackTrace, on_scopes, on_variables, on_pause, on_continue, on_next,
    on_stepIn, on_stepOut, on_setBreakpoints, on_setExceptionBreakpoints, on_source, on_launch; keep].
  - apply keeps_disconnect. apply elem_of_app. right. by left.
  - apply keeps_bind; [|keep]. apply keeps_fire_configured. exists args. apply elem_of_app. right. by left.
Qed.

Lemma keeps_give h a : keeps h (give fuel a).
Proof. apply keeps_with_session. Qed.

Definition exited (c : pc) : bool := match c with Exited => true | _ => false end.

Record program_ok (p : @program R W) : Prop := {
  pr_objects : objects_ok p.(history) (exited p.(main)) p.(objects);
  pr_configured : p.(main) <> AwaitConfigured -> asked_configured p.(history)
}.

Lemma asked_configured_app h i : asked_configured h -> asked_configured (h ++ i).
Proof. intros [args ?]. exists args. apply elem_of_app. by left. Qed.

Lemma step_program_ok p p' : program_ok p -> step fuel p p' -> program_ok p'.
Proof.
  intros [Ho Hc] Hs. destruct Hs as [p entry seq args a st Hp Hin Hr|p a st u Hp Hr|p m st b Hr|p Hm Hf|p u st Hm Hr
    |p u st Hm Hr|p Hm Hf]; split; cbn [objects main pending history]; rewrite ?Hm in *; try done.
  - revert Hr. apply keeps_bind; [by apply keeps_handler| |by apply objects_ok_app]. intros r. apply keeps_ret.
  - intros Hm. by apply asked_configured_app, Hc.
  - by eapply keeps_give.
  - eapply keeps_with_session; [|exact Hr]. by apply objects_ok_app.
  - intros Hm. by apply asked_configured_app, Hc.
  - intros _. by apply (ob_configured _ _ _ Ho).
  - by eapply keeps_send.
  - intros _. by apply Hc.
  - eapply keeps_debugger; [exact pause_line|exact Ho|exact Hr].
  - intros _. by apply Hc.
  - destruct Ho as [? ? ? ?]. by split.
  - intros _. by apply Hc.
Qed.

Lemma start_program_ok st : objects_ok [] false st -> program_ok (Program st AwaitConfigured None []).
Proof. intros Hst. by split. Qed.

Lemma reachable_program_ok st p :
  objects_ok [] false st -> rtc (step fuel) (Program st AwaitConfigured None []) p -> program_ok p.
Proof.
  intros Hst. apply (rtc_ind_r program_ok); [by apply start_program_ok|]. intros. by eapply step_program_ok.
Qed.

Lemma setup_ok r w : objects_ok [] false (HelloDebugger.bind r w setup).
Proof. by split. Qed.
End Invariant.

Section SetBreakpoints.
Context {R W : Type}.
Abbreviation objects_t := (@HelloDebugger.t R W).

(** The lines of source breakpoints, and the answers to them. *)
Definition lines_of (bps : list value) (lines : list Z) : Prop :=
  Forall2 (fun bp l => get_integer "line" bp = Ret l) bps lines.

Definition add_breakpoints (lines : list Z) (d : Debugger.t) : Debugger.t :=
  fold_left (fun d l => Debugger.addBreakpoint l d) lines d.

Definition with_breakpoints (lines : list Z) (st : objects_t) : objects_t :=
  mk st.(session) (add_breakpoints lines st.(debugger)) st.(configured) st.(terminate) st.(reported).

Lemma set_breakpoints_loop bps lines fresh (answer : Z -> value) st :
  lines_of bps lines ->
  (forall l, assign "verified" (VBoolean (l <? numSourceLines)) fresh = Ret (answer l)) ->
  set_breakpoints bps fresh st = Ret (answer <$> lines, with_breakpoints lines st).
Proof.
  intros HF Hv. revert st. induction HF as [|bp l bps lines Hl _ IH]; intros st.
  - by destruct st.
  - cbn [set_breakpoints]. unfold mbind, M_bind, lift. rewrite Hl. cbn. rewrite Hv. cbn. by rewrite IH.
Qed.

Lemma add_breakpoints_in lines d k :
  k ∈ (add_breakpoints lines d).(Debugger.breakpoints) <-> k ∈ lines \/ k ∈ d.(Debugger.breakpoints).
Proof.
  revert d. induction lines as [|l lines IH]; intros d; cbn.
  - split; [by right|]. by intros [[]%elem_of_nil|?].
  - rewrite IH, Debugger.addBreakpoint_in, elem_of_cons. tauto.
Qed.

Lemma add_breakpoints_line lines d : (add_breakpoints lines d).(Debugger.line) = d.(Debugger.line).
Proof. revert d. induction lines as [|l lines IH]; intros d; cbn; [done|]. by rewrite IH, Debugger.addBreakpoint_line. Qed.
End SetBreakpoints.

(** ** Running a call *)
Section Run.
Context {R W : Type}.

Lemma M_bind_run {A B} (m : @M R W A) (f : A -> @M R W B) st a st' : m st = Ret (a, st') -> (m ≫= f) st = f a st'.
Proof. intros Hm. unfold mbind, M_bind. by rewrite Hm. Qed.

Lemma lift_run {A} (r : outcome A) (st : @HelloDebugger.t R W) a : r = Ret a -> lift r st = Ret (a, st).
Proof. by intros ->. Qed.
End Run.

(** ** The wire *)
Section Wire.
Context {D Ser FS : Type} {HB : JsonBackend D Ser FS} {HD : DeserializerView D} {HV : SerializerView Ser FS}.
Context {L : limits} {HC : JsonBackendContract D Ser FS L}.
Context {R W : Type} {HR : Reader R} {HW : Writer W} {HWC : WriterContract W}.
Context (fuel : nat).
Abbreviation objects_t := (@HelloDebugger.t R W).

(** A call of the session that reports no error. *)
Lemma with_session_ret (f : _ -> outcome (Session.t R W unit Empty_set Empty_set unit)) (st : objects_t) s l :
  f st.(session) = Ret s -> s.(Session.log) = st.(session).(Session.log) ++ l -> error_texts l = [] ->
  with_session f st = Ret (tt, mk s st.(debugger) st.(configured) st.(terminate) st.(reported)).
Proof.
  intros Hf Hl He. unfold with_session. rewrite Hf. cbn. rewrite Hl, drop_app_length, He. by rewrite app_nil_r.
Qed.

(** An event of the adapter is one message. *)
Lemma session_send_writes (s : Session.t R W unit Empty_set Empty_set unit) w struct l v j :
  writes_to s w -> make fuel struct l = Ret v ->
  sendable (L := L) protocol_schema protocol_depth fuel (TStruct struct) v j ->
  text_ok (L := L) (Session.name_of protocol_schema (TStruct struct)) = true ->
  0 <= s.(Session.nextSeq) < 2 ^ 32 ->
  exists text w', wrote w w' text /\
    parsed text (event_doc s.(Session.nextSeq) (Session.name_of protocol_schema (TStruct struct)) j) /\
    session_send fuel struct l s = Ret (Session.set_writer (ContentWriter.create w')
      (Session.set_nextSeq (u32 (s.(Session.nextSeq) + 1)) s)).
Proof using HC HWC.
  intros Hw Hm Hs Hu Hn.
  destruct (send_event_writes protocol_schema protocol_depth fuel protocol_schema_ok s w _ v j Hw Hs Hu Hn)
    as (text & w' & Hsend & Hsent & Hp).
  exists text, w'. split_and!; [done..|]. unfold session_send. by rewrite Hm, outcome_bind_ret_l, Hsend.
Qed.
End Wire.

Module HelloDebuggerProps.
Section Props.
Context {D Ser FS : Type} {HB : JsonBackend D Ser FS} {HD : DeserializerView D} {HV : SerializerView Ser FS}.
Context {L : limits} {HC : JsonBackendContract D Ser FS L}.
Context {R W : Type} {HR : Reader R} {HW : Writer W} {HWC : WriterContract W}.

(** The life of the adapter, in every interleaving of [main] with the handling of
    requests: the debugger is always at one of the lines of the file; [main] leaves its
    first wait, and so announces its thread, only after a ConfigurationDone request; and it
    exits only after an error was reported or after a Disconnect request that asked to
    terminate the debuggee. *)
Theorem hello_lifecycle fuel r w (p : @program R W) :
  rtc (step fuel) (Program (HelloDebugger.bind r w setup) AwaitConfigured None []) p ->
  1 <= p.(objects).(debugger).(Debugger.line) <= numSourceLines /\
  (p.(main) <> AwaitConfigured -> exists args, Request "ConfigurationDoneRequest" args ∈ p.(history)) /\
  (p.(main) = Exited -> p.(objects).(reported) <> [] \/
     exists args, Request "DisconnectRequest" args ∈ p.(history) /\
       get_or "terminateDebuggee" (VBoolean false) args = Ret (VBoolean true)).
Proof.
  intros [Ho Hc]%(reachable_program_ok _ _ _ (setup_ok r w)). destruct Ho as [He Hl _ Ht].
  split; [exact Hl|]. split; [exact Hc|]. intros Hm. rewrite Hm in He. by apply Ht, He.
Qed.

(** The value of a freshly constructed struct. *)
Definition default_of (struct : string) : value :=
  match construct protocol_schema protocol_depth (TStruct struct) with Ret v => v | _ => VNull end.

Definition breakpoint_answer (line : Z) : value :=
  match assign "verified" (VBoolean (line <? numSourceLines)) (default_of "Breakpoint") with Ret v => v | _ => VNull end.

Lemma make_breakpoint n : make (S (S n)) "Breakpoint" [] = Ret (default_of "Breakpoint").
Proof. vm_compute. reflexivity. Qed.

Lemma make_breakpoints_response n l :
  make (S (S n)) "SetBreakpointsResponse" [("breakpoints", l)] = Ret (VStruct [("breakpoints", l)]).
Proof. vm_compute. reflexivity. Qed.

Lemma assign_verified l :
  assign "verified" (VBoolean (l <? numSourceLines)) (default_of "Breakpoint") = Ret (breakpoint_answer l).
Proof. unfold breakpoint_answer, default_of. vm_compute construct. reflexivity. Qed.

(** A SetBreakpoints request for the source replaces the breakpoints: afterwards the
    debugger has exactly the lines asked for, is where it was, and the response has one
    breakpoint per requested one, in order, verified if its line is less than 7. *)
Theorem hello_set_breakpoints fuel request source bps lines (st : @HelloDebugger.t R W) :
  (2 <= fuel)%nat ->
  get "breakpoints" request = Ret (VOptional (Some (VArray bps))) -> lines_of bps lines ->
  get "source" request = Ret source ->
  get "sourceReference" source = Ret (VOptional (Some (VInteger sourceReferenceId))) ->
  exists st', on_setBreakpoints fuel request st =
      Ret ({| roe_response := VStruct [("breakpoints", VArray (breakpoint_answer <$> lines))]; roe_error := EmptyString |}, st') /\
    (forall l, l ∈ st'.(debugger).(Debugger.breakpoints) <-> l ∈ lines) /\
    st'.(debugger).(Debugger.line) = st.(debugger).(Debugger.line) /\ st'.(session) = st.(session).
Proof.
  intros Hf Hb Hl Hs Hr. destruct fuel as [|[|fuel]]; [lia|lia|].
  exists (with_breakpoints lines (mk st.(session) (Debugger.clearBreakpoints st.(debugger)) st.(configured)
    st.(terminate) st.(reported))).
  split_and!; [|intros l; cbn; rewrite add_breakpoints_in; cbn; rewrite elem_of_nil; tauto
    |cbn; by rewrite add_breakpoints_line|done].
  unfold on_setBreakpoints.
  erewrite M_bind_run by (apply lift_run; unfold get_or; by rewrite Hb).
  erewrite M_bind_run by by apply lift_run.
  rewrite (M_bind_run _ _ _ _ _ (lift_run _ _ _ Hs)).
  erewrite M_bind_run by (apply lift_run; unfold get_or; by rewrite Hr).
  erewrite M_bind_run by by apply lift_run.
  rewrite (M_bind_run _ _ _ _ _ (lift_run _ _ _ (make_breakpoint fuel))). rewrite Z.eqb_refl.
  erewrite M_bind_run by reflexivity.
  erewrite M_bind_run by (apply (set_breakpoints_loop _ lines _ breakpoint_answer); [done|exact assign_verified]).
  unfold respond. by rewrite (M_bind_run _ _ _ _ _ (lift_run _ _ _ (make_breakpoints_response fuel _))).
Qed.

Definition initialize_response : value :=
  match assign "supportsConfigurationDoneRequest" (some (VBoolean true)) (default_of "InitializeResponse") with
  | Ret v => v | _ => VNull end.

Lemma make_initialize_response n :
  make (S (S n)) "InitializeResponse" [("supportsConfigurationDoneRequest", some (VBoolean true))] = Ret initialize_response.
Proof. vm_compute. reflexivity. Qed.

Lemma make_initialized n : make (S (S n)) "InitializedEvent" [] = Ret (VStruct []).
Proof. vm_compute. reflexivity. Qed.

Lemma name_initialize : Session.name_of protocol_schema (TStruct "InitializeRequest") = "initialize".
Proof. vm_compute. reflexivity. Qed.

Lemma name_initialized : Session.name_of protocol_schema (TStruct "InitializedEvent") = "initialized".
Proof. vm_compute. reflexivity. Qed.

(** C39. The initialization on the wire: the answer to an Initialize request is exactly two
    messages, first the response to that request, which says that ConfigurationDone is
    supported, then the Initialized event, with consecutive sequence numbers; nothing is
    reported to the error handler. *)
Theorem hello_initialize_order fuel (st : @HelloDebugger.t R W) w seq args jr je :
  writes_to st.(session) w -> 0 <= st.(session).(Session.nextSeq) < 2 ^ 32 - 1 -> in_int64 seq = true ->
  Session.sent_lookup st.(session).(Session.hs).(Session.responseSentMap) (TStruct "InitializeResponse") = Some tt ->
  sendable (L := L) protocol_schema protocol_depth fuel (TStruct "InitializeResponse") initialize_response jr ->
  sendable (L := L) protocol_schema protocol_depth fuel (TStruct "InitializedEvent") (VStruct []) je ->
  exists a st' w' response event,
    handle ("InitializeRequest", "InitializeResponse", on_initialize fuel) seq args st = Ret (a, st) /\
    give fuel a st = Ret (tt, st') /\ writes_to st'.(session) w' /\
    wr_sent w' = wr_sent w ++ encode response ++ encode event /\
    parsed response (success_doc st.(session).(Session.nextSeq) seq "initialize" jr) /\
    parsed event (event_doc (st.(session).(Session.nextSeq) + 1) "initialized" je) /\
    st'.(reported) = st.(reported).
Proof using HC HWC.
  intros Hw Hn Hseq Hsent Hsr Hse. pose proof (sd_fuel _ _ _ _ _ _ Hsr) as Hfuel.
  destruct fuel as [|[|fuel]]; [lia|lia|].
  assert (Hu : text_ok (L := L) "initialize" = true) by (apply andb_true_iff; split; [done|by apply plain_string]).
  assert (Hv : text_ok (L := L) "initialized" = true) by (apply andb_true_iff; split; [done|by apply plain_string]).
  destruct (reply_success_with protocol_schema protocol_depth _ protocol_schema_ok _ w seq "initialize" _ _ jr Hw Hsr
    ltac:(lia) Hseq Hu) as (t1 & w1 & Hrep & (Hs1 & Ho1 & Hr1) & Hp1).
  specialize (Hrep (on_response_sent (S (S fuel)))). unfold sent_then, replied in Hrep.
  cbn [Session.hs Session.set_writer Session.set_nextSeq] in Hrep. rewrite Hsent in Hrep. unfold on_response_sent in Hrep.
  match type of Hrep with _ = session_send _ _ _ ?s1 =>
    destruct (session_send_writes (S (S fuel)) s1 w1 _ _ _ je ltac:(done) (make_initialized fuel) Hse)
      as (t2 & w2 & (Hs2 & Ho2 & Hr2) & Hp2 & Hsend); [by rewrite name_initialized|cbn; rewrite u32_small; lia|]
  end.
  rewrite name_initialized in Hp2. cbn in Hp2. rewrite u32_small in Hp2 by lia. rewrite Hsend in Hrep.
  eexists _, _, w2, t1, t2. split_and!; [| | |by rewrite Hs2, Hs1, app_assoc|exact Hp1|exact Hp2|].
  - unfold handle, on_initialize, respond. cbn [fst snd]. erewrite M_bind_run; [reflexivity|].
    by rewrite (M_bind_run _ _ _ _ _ (lift_run _ _ _ (make_initialize_response fuel))).
  - unfold give. rewrite name_initialize.
    eapply (with_session_ret _ st _ [Session.ResponseSent tt (inl initialize_response)]); [exact Hrep|done|done].
  - done.
  - done.
Qed.

(** The verified flag of a breakpoint does not say whether the debugger can stop there:
    a breakpoint on the last line is reported as not verified, and the debugger stops at
    it; one on line 0 is reported as verified, and the debugger never does. *)
Theorem hello_verified_is_wrong d :
  Debugger.line_ok d ->
  get "verified" (breakpoint_answer 7) = Ret (VBoolean false) /\
  Debugger.run (Debugger.addBreakpoint 7 (Debugger.clearBreakpoints d)) =
    (Some Debugger.BreakpointHit, Debugger.mk 7 [7]) /\
  get "verified" (breakpoint_answer 0) = Ret (VBoolean true) /\
  Debugger.run (Debugger.addBreakpoint 0 (Debugger.clearBreakpoints d)) =
    (None, Debugger.mk d.(Debugger.line) [0]).
Proof.
  intros [Hl Hu]. unfold numSourceLines in Hu. split; [vm_compute; reflexivity|].
  assert (Hcases : d.(Debugger.line) ∈ [1; 2; 3; 4; 5; 6; 7]) by (rewrite !elem_of_cons; lia).
  destruct d as [l bps]. cbn [Debugger.line] in *.
  rewrite !elem_of_cons, elem_of_nil in Hcases.
  destruct Hcases as [->|[->|[->|[->|[->|[->|[->|[]]]]]]]]; (split; [|split]; vm_compute; reflexivity).
Qed.
End Props.

(** ** Witnesses *)
Abbreviation lib_des := (NlohmannDeserializer.t ReferenceLibrary.J).
Abbreviation lib_ser := (NlohmannSerializer.t ReferenceLibrary.J).
Abbreviation lib_fs := ReferenceLibrary.J.
Abbreviation adapter := (@HelloDebugger.t StringBuffer.t StringBuffer.t).

Definition hello : adapter := HelloDebugger.bind StringBuffer.create StringBuffer.create setup.

Definition configuring : @program StringBuffer.t StringBuffer.t :=
  Program (mk hello.(session) hello.(debugger) true false []) Started
    (Some (Answer 3 "configurationDone" (OnSuccess (TStruct "ConfigurationDoneResponse") (VStruct []))))
    [Request "ConfigurationDoneRequest" (VStruct [])].

Lemma configuring_reachable :
  rtc (step (D := lib_des) (Ser := lib_ser) (FS := lib_fs) 30) (Program hello AwaitConfigured None []) configuring.
Proof.
  eapply rtc_l; [|eapply rtc_l; [|apply rtc_refl]].
  - eapply (step_request 30 _ ("ConfigurationDoneRequest", "ConfigurationDoneResponse", on_configurationDone 30) 3 (VStruct [])).
    + reflexivity.
    + unfold handlers. repeat (first [by left | right]).
    + reflexivity.
  - by apply step_configured.
Qed.

Lemma hello_lifecycle_witness :
  exists args, Request "ConfigurationDoneRequest" args ∈ configuring.(history).
Proof.
  apply (hello_lifecycle (D := lib_des) (Ser := lib_ser) (FS := lib_fs) 30 StringBuffer.create StringBuffer.create
    configuring configuring_reachable). discriminate.
Defined.

(** A request for breakpoints on lines 3 and 7. *)
Definition source_breakpoint (line : Z) : value :=
  VStruct [("column", VOptional None); ("condition", VOptional None); ("hitCondition", VOptional None);
    ("line", VInteger line); ("logMessage", VOptional None); ("mode", VOptional None)].

Definition hello_source : value :=
  VStruct [("adapterData", VOptional None); ("checksums", VOptional None); ("name", VOptional None);
    ("origin", VOptional None); ("path", VOptional None); ("presentationHint", VOptional None);
    ("sourceReference", some (VInteger sourceReferenceId)); ("sources", VOptional None)].

Definition breakpoints_request : value :=
  VStruct [("breakpoints", some (VArray [source_breakpoint 3; source_breakpoint 7])); ("lines", VOptional None);
    ("source", hello_source); ("sourceModified", VOptional None)].

Lemma hello_set_breakpoints_witness : exists st',
  on_setBreakpoints 30 breakpoints_request hello =
    Ret ({| roe_response := VStruct [("breakpoints", VArray (breakpoint_answer <$> [3; 7]))]; roe_error := EmptyString |}, st') /\
  (forall l, l ∈ st'.(debugger).(Debugger.breakpoints) <-> l ∈ [3; 7]).
Proof.
  destruct (hello_set_breakpoints 30 breakpoints_request hello_source [source_breakpoint 3; source_breakpoint 7] [3; 7] hello)
    as (st' & Hr & Hb & _); [lia|reflexivity|repeat constructor|reflexivity|reflexivity|].
  exists st'. split; assumption.
Defined.

Definition encoded (v : value) (struct : string) : jtree := default JNull (json_of protocol_schema v (TStruct struct)).

Ltac by_compute := vm_compute; first [reflexivity | lia | split; first [reflexivity | discriminate] | discriminate].

Lemma initialize_sendable : sendable (L := no_limits) protocol_schema protocol_depth 30 (TStruct "InitializeResponse")
  initialize_response (encoded initialize_response "InitializeResponse").
Proof. split; by_compute. Qed.

Lemma initialized_sendable : sendable (L := no_limits) protocol_schema protocol_depth 30 (TStruct "InitializedEvent")
  (VStruct []) (encoded (VStruct []) "InitializedEvent").
Proof. split; by_compute. Qed.

Lemma hello_writes : writes_to hello.(session) StringBuffer.create.
Proof. split; [reflexivity|]. split; [reflexivity|]. intros n _. split; [done|]. by repeat constructor. Qed.

Lemma hello_initialize_order_witness : exists a st' response event,
  give (D := lib_des) (Ser := lib_ser) (FS := lib_fs) 30 a hello = Ret (tt, st') /\
  parsed (D := lib_des) (Ser := lib_ser) (FS := lib_fs) response
    (success_doc 1 1 "initialize" (encoded initialize_response "InitializeResponse")) /\
  parsed (D := lib_des) (Ser := lib_ser) (FS := lib_fs) event
    (event_doc 2 "initialized" (encoded (VStruct []) "InitializedEvent")).
Proof.
  destruct (hello_initialize_order (D := lib_des) (Ser := lib_ser) (FS := lib_fs) 30 hello StringBuffer.create 1 (VStruct [])
    _ _ hello_writes ltac:(cbn; lia) eq_refl ltac:(vm_compute; reflexivity) initialize_sendable initialized_sendable)
    as (a & st' & w' & t1 & t2 & _ & Hg & _ & _ & Hp1 & Hp2 & _).
  exists a, st', t1, t2. split; [exact Hg|]. split; [exact Hp1|exact Hp2].
Defined.
End HelloDebuggerProps.
