(* ===== verification/DecodeProps.v ===== *)
(** * What messages from the network can do

    Properties of decoding and of [processMessage] on text that need not come from
    this library, for the three JSON backends: nlohmann/json and JsonCpp decode every
    document ([DeserializerSafe]); JsonCpp aborts on text that is not JSON, and
    RapidJSON asserts on documents of the wrong shape. *)
From Stdlib Require Import ZArith Lia.
From stdpp Require Import base list strings gmap.
From S2P Require Import Prelude IO ContentStream Monitor Chan SMap Types Serialization Json Backend Decode.
From S2P Require Import Nlohmann JsonCpp RapidJson ReferenceJson ProtocolTypes ProtocolRequests ProtocolResponses.
From S2P Require Import ProtocolEvents Protocol SerializationProps Session SessionProps.
Import NlohmannDeserializerFacts NlohmannSerializerFacts.

(** No member of the protocol nests more than two arrays or optionals, and the
    initializers have the types of their members. *)
Definition protocol_rank : nat := 2.

Lemma protocol_decodable : schema_decodable protocol_schema protocol_depth protocol_rank.
Proof.
  split; [exact protocol_schema_ok|]. intros s si Hs%find_struct_elem%list_elem_of_In.
  assert (Hall : forallb (decodable protocol_schema protocol_rank) protocol_structs = true)
    by (vm_compute; reflexivity).
  rewrite forallb_forall in Hall. by apply Hall.
Qed.

(** The structs of the protocol that a [variant] is part of; the other 107 of the 135
    are built from each other and from types with no variant. *)
Definition protocol_with_variants : list string :=
  ["Source"; "Breakpoint"; "DisassembledInstruction"; "Module"; "Scope"; "StackFrame"; "AttachRequest";
   "BreakpointLocationsRequest"; "GotoTargetsRequest"; "LaunchRequest"; "SetBreakpointsRequest"; "SourceRequest";
   "DataBreakpointInfoResponse"; "DisassembleResponse"; "LoadedSourcesResponse"; "ModulesResponse"; "ScopesResponse";
   "SetBreakpointsResponse"; "SetDataBreakpointsResponse"; "SetExceptionBreakpointsResponse";
   "SetFunctionBreakpointsResponse"; "SetInstructionBreakpointsResponse"; "StackTraceResponse"; "BreakpointEvent";
   "LoadedSourceEvent"; "ModuleEvent"; "OutputEvent"; "TerminatedEvent"].

Definition protocol_variant_free (s : string) : bool := negb (bool_decide (s ∈ protocol_with_variants)).

Lemma protocol_variants : variant_free_structs protocol_schema protocol_variant_free.
Proof.
  intros s si m Hg Hs Hm. pose proof (find_struct_name _ _ _ Hs) as Hn. apply find_struct_elem, list_elem_of_In in Hs.
  assert (Hall : forallb (fun si => negb (protocol_variant_free si.(si_struct)) ||
      forallb (fun m => variant_free protocol_variant_free m.(mem_type)) si.(si_members)) protocol_structs = true)
    by (vm_compute; reflexivity).
  rewrite forallb_forall in Hall. specialize (Hall si Hs). rewrite Hn, Hg in Hall. cbn in Hall.
  rewrite forallb_forall in Hall. by apply Hall, list_elem_of_In.
Qed.

Section Facts.
Context {D Ser FS : Type} {HB : JsonBackend D Ser FS} {HS : DeserializerSafe D}.
Context {R W : Type} {HR : Reader R} {HW : Writer W} {EH RH VH SH : Type}.
Context (env : schema) (k rank : nat) (Henv : schema_decodable env k rank).

Abbreviation session := (Session.t R W EH RH VH SH).

(** A type whose objects can be made and read. *)
Definition handled_type (t : ty) : bool :=
  member_type_ok env k t && returns (construct env k t) && (ty_rank t <=? rank)%nat.

(** The types the handlers are registered for. *)
Definition handlers_typed (s : session) : Prop :=
  map_Forall (fun _ e => handled_type e.1 = true) s.(Session.hs).(Session.requestMap) /\
  map_Forall (fun _ e => handled_type e.1 = true) s.(Session.hs).(Session.eventMap) /\
  map_Forall (fun _ e => handled_type e.1 = true) s.(Session.hs).(Session.responseMap).

(** The handler of a payload is one that is registered, with an argument of its
    type; the sequence number of a request is a 64-bit integer. *)
Definition payload_typed (s : session) (p : option (Session.payload VH)) : Prop :=
  match p with
  | None => True
  | Some (Session.RequestPayload h data sequence command) =>
    in_int64 sequence = true /\
    exists t, s.(Session.hs).(Session.requestMap) !! command = Some (t, h) /\ shaped env data t = true
  | Some (Session.EventPayload h data) =>
    exists event t, s.(Session.hs).(Session.eventMap) !! event = Some (t, h) /\ shaped env data t = true
  end.

Lemma error_keeps_hs message (s : session) : (Session.error message s).(Session.hs) = s.(Session.hs).
Proof. unfold Session.error. by destruct (Session.errorHandler _). Qed.

Lemma handlers_typed_hs (s s' : session) : s'.(Session.hs) = s.(Session.hs) -> handlers_typed s -> handlers_typed s'.
Proof. unfold handlers_typed. by intros ->. Qed.

(** For the shape of a type nothing is asked of the type. *)
Lemma all_structs_shaped : variant_free_structs env (fun _ => false).
Proof. done. Qed.

(** A new object of a handled type, filled from a member that may be missing. *)
Lemma decode_member fuel t (od : option D) failed (d : D) :
  handled_type t = true -> (forall d', od = Some d' -> (des_depth d' < des_depth d)%nat) ->
  (2 + k + rank + S rank * des_depth d <= fuel)%nat ->
  exists data, construct env fuel t = Ret data /\
    safe (fun v => shaped env v t = true)
      match od with None => Ret (failed, data) | Some d' => deserialize env fuel t d' data end.
Proof using Henv HS.
  unfold handled_type. rewrite !andb_true_iff, Nat.leb_le. intros [[Ht Hr] Hk] Hod Hf.
  destruct (returns_construct env k fuel t Hr) as [c Hc]; [lia|]. exists c. split; [done|].
  pose proof (construct_typed env k rank Henv false _ all_structs_shaped _ _ _ ltac:(done) Hc) as Hty. destruct od as [d'|]; [|by apply safe_ret].
  apply (deserialize_safe env k rank Henv false _ all_structs_shaped); [done..|]. specialize (Hod d' eq_refl). unfold decode_fuel. nia.
Qed.

Lemma processRequest_total fuel (d : D) seq (s : session) :
  handlers_typed s -> in_int64 seq = true -> (2 + k + rank + S rank * des_depth d <= fuel)%nat ->
  exists p s', Session.processRequest env fuel d seq s = Ret (p, s') /\
    s'.(Session.hs) = s.(Session.hs) /\ payload_typed s p.
Proof using Henv HS.
  intros (Hreq & _ & _) Hseq Hf. unfold Session.processRequest.
  destruct (Session.get_string d "command") as [command|]; [|eexists None, _; by rewrite error_keeps_hs].
  destruct (Session.requestMap _ !! command) as [[t h]|] eqn:Eh; [|eexists None, _; by rewrite error_keeps_hs].
  destruct (decode_member fuel t (des_field d "arguments") false d (Hreq _ _ Eh)) as (c & -> & Hsafe); [|done|].
  { intros d'. apply ds_field. }
  rewrite outcome_bind_ret_l. destruct Hsafe as (ok & v & -> & Hv). cbn.
  destruct ok; cbn; [|eexists None, _; by rewrite error_keeps_hs].
  eexists (Some _), s. split_and!; [done..|]. split; [done|]. by exists t.
Qed.

Lemma processEvent_total fuel (d : D) (s : session) :
  handlers_typed s -> (2 + k + rank + S rank * des_depth d <= fuel)%nat ->
  exists p s', Session.processEvent env fuel d s = Ret (p, s') /\
    s'.(Session.hs) = s.(Session.hs) /\ payload_typed s p.
Proof using Henv HS.
  intros (_ & Hev & _) Hf. unfold Session.processEvent.
  destruct (Session.get_string d "event") as [event|]; [|eexists None, _; by rewrite error_keeps_hs].
  destruct (Session.eventMap _ !! event) as [[t h]|] eqn:Eh; [|eexists None, _; by rewrite error_keeps_hs].
  destruct (decode_member fuel t (des_field d "body") true d (Hev _ _ Eh)) as (c & -> & Hsafe); [|done|].
  { intros d'. apply ds_field. }
  rewrite outcome_bind_ret_l. destruct Hsafe as (ok & v & -> & Hv). cbn.
  destruct ok; cbn; [|eexists None, _; by rewrite error_keeps_hs].
  eexists (Some _), s. split_and!; [done..|]. by exists event, t.
Qed.

Lemma processResponse_total fuel (d : D) (s : session) :
  handlers_typed s -> (2 + k + rank + S rank * des_depth d <= fuel)%nat ->
  exists s', Session.processResponse env fuel d s = Ret s' /\ handlers_typed s'.
Proof using Henv HS.
  intros Hs Hf. unfold Session.processResponse.
  assert (Herr : forall m s', handlers_typed s' -> handlers_typed (Session.error m s'))
    by (intros m s' ?; eapply handlers_typed_hs; [apply error_keeps_hs|done]).
  destruct (Session.get_integer d "request_seq") as [seq|]; [|eexists; by auto].
  unfold Session.response. destruct (Session.responseMap _ !! seq) as [[t h]|] eqn:Eh; cbn; [|eexists; by auto].
  match goal with |- context [Session.set_hs ?h s] => set (s1 := Session.set_hs h s) end.
  destruct Hs as (Hreq & Hev & Hres).
  assert (Hs1 : handlers_typed s1) by (split_and!; [done..|]; by apply map_Forall_delete).
  destruct (Session.get_boolean d "success") as [[]|]; [|..|eexists; by auto].
  - destruct (decode_member fuel t (des_field d "body") false d (Hres _ _ Eh)) as (c & -> & Hsafe); [|done|].
    { intros d'. apply ds_field. }
    rewrite outcome_bind_ret_l. destruct Hsafe as (ok & v & -> & Hv). cbn. by eexists.
  - destruct (Session.get_string d "message"); eexists; by auto.
Qed.

Lemma get_integer_range (d : D) name z : Session.get_integer d name = Some z -> in_int64 z = true.
Proof using HS.
  unfold Session.get_integer. destruct (des_field d name) as [d'|]; [|done]. apply ds_integer.
Qed.

Lemma processMessage_total fuel text (d : D) (s : session) :
  handlers_typed s -> json_parse text = Ret d -> (2 + k + rank + S rank * des_depth d <= fuel)%nat ->
  exists p s', Session.processMessage env fuel text s = Ret (p, s') /\ handlers_typed s' /\ payload_typed s p.
Proof using Henv HS.
  intros Hs Hd Hf. unfold Session.processMessage. rewrite Hd, outcome_bind_ret_l.
  assert (Herr : forall m, exists p s', Ret (None, Session.error m s) = Ret (p, s') /\
    handlers_typed s' /\ payload_typed s p).
  { intros m. eexists None, _. split_and!; [done| |done]. eapply handlers_typed_hs; [apply error_keeps_hs|done]. }
  destruct (Session.get_string d "type") as [type|]; [|apply Herr].
  destruct (Session.get_integer d "seq") as [seq|] eqn:Eseq; [|apply Herr]. apply get_integer_range in Eseq.
  case_bool_decide; [|case_bool_decide; [|case_bool_decide; [|apply Herr]]].
  - destruct (processRequest_total fuel d seq s Hs Eseq Hf) as (p & s' & -> & Hh & Hp).
    exists p, s'. split_and!; [done| |done]. by eapply handlers_typed_hs.
  - destruct (processEvent_total fuel d s Hs Hf) as (p & s' & -> & Hh & Hp).
    exists p, s'. split_and!; [done| |done]. by eapply handlers_typed_hs.
  - destruct (processResponse_total fuel d s Hs Hf) as (s' & -> & Hh).
    exists None, s'. by split_and!.
Qed.

(** Registering a handler for such a type keeps them. *)
Lemma handlers_typed_create : handlers_typed Session.create.
Proof. by split_and!. Qed.

Lemma handlers_typed_put_request t h (s : session) :
  handled_type t = true -> handlers_typed s -> handlers_typed (Session.put_request env t h s).
Proof.
  intros Ht Hs. unfold Session.put_request. case_match; [eapply handlers_typed_hs; [apply error_keeps_hs|done]|].
  destruct Hs as (Hreq & Hev & Hres). split_and!; [|done..]. by apply map_Forall_insert_2.
Qed.

Lemma handlers_typed_put_event t h (s : session) :
  handled_type t = true -> handlers_typed s -> handlers_typed (Session.put_event env t h s).
Proof.
  intros Ht Hs. unfold Session.put_event. case_match; [eapply handlers_typed_hs; [apply error_keeps_hs|done]|].
  destruct Hs as (Hreq & Hev & Hres). split_and!; [done| |done]. by apply map_Forall_insert_2.
Qed.
End Facts.

Module DecodeProps.
Import SerializationProps SessionProps.
(** C10. Decoding keeps types, for every document: with a backend that keeps
    [DeserializerSafe] (nlohmann/json and JsonCpp do, RapidJSON does not) and a fuel
    above the bound, [deserialize] of any document into an object of a type of the
    schema returns, with no undefined behaviour, and whether it succeeds or fails what
    it leaves in the object is shaped like the type. If no [variant] is part of the
    type, an object of the type stays an object of the type; a variant can be left with
    a value of none of its alternatives. *)
Theorem decode_keeps_type {D : Type} {HDes : Deserializer D} {HS : DeserializerSafe D} env k rank good fuel t (d : D) cur :
  schema_decodable env k rank -> variant_free_structs env good -> member_type_ok env k t = true ->
  shaped env cur t = true -> (decode_fuel k rank t (des_depth d) <= fuel)%nat ->
  exists ok v, deserialize env fuel t d cur = Ret (ok, v) /\ shaped env v t = true /\
    (variant_free good t = true -> typed env cur t = true -> typed env v t = true).
Proof.
  intros Henv Hg Ht Hc Hf.
  destruct (deserialize_safe env k rank Henv false good Hg fuel t d cur) as (ok & v & Hd & Hv); [done..|].
  exists ok, v. split_and!; [done..|]. intros Hvf Hty.
  destruct (deserialize_safe env k rank Henv true good Hg fuel t d cur) as (ok' & v' & Hd' & Hv'); [done..|]. congruence.
Qed.


(** With JsonCpp, text that is not JSON ends the process. *)
Theorem jsoncpp_malformed_aborts {J : Type} {HJ : CppJson J} {R W EH RH VH SH : Type} {HR : Reader R}
    {HW : Writer W} env fuel text (s : Session.t R W EH RH VH SH) :
  cj_parse text = None ->
  Session.processMessage (D := JsonCppDeserializer.t J) (Ser := JsonCppSerializer.t J) (FS := J) env fuel text s
    = Undefined.
Proof.
  intros Ht. unfold Session.processMessage. cbn. unfold JsonCppDeserializer.create, JsonCppDeserializer.parse.
  by rewrite Ht.
Qed.

(** With RapidJSON, a document of the wrong shape for an array or an object is
    undefined behaviour, where the other backends report a failure; and an integer of
    more than 32 bits is read as an [integer] and refused as an [any]. *)
Theorem rapid_wrong_shapes {J : Type} {HJ : RapidJson J} {HL : RapidJsonLaws J} env fuel t (j : J) l m cur z :
  ((forall o, rj_tree j <> JArray o) ->
    deserialize env (S fuel) (TArray t) (Some j : RapidDeserializer.t J) (VArray l) = Undefined) /\
  ((forall o, rj_tree j <> JObject o) ->
    deserialize env (S fuel) TObject (Some j : RapidDeserializer.t J) (VObject m) = Undefined) /\
  (rj_tree j = JInt z -> in_int64 z = true -> in_int32 z = false ->
    deserialize env (S fuel) TInteger (Some j : RapidDeserializer.t J) cur = Ret (true, VInteger z) /\
    deserialize env (S (S fuel)) TAny (Some j : RapidDeserializer.t J) cur = Ret (false, cur)).
Proof.
  split_and!.
  - intros Hj. cbn. unfold deserialize_array. cbn. unfold RapidDeserializer.count. rewrite rj_is_array_spec.
    destruct (rj_tree j); try done. by destruct (Hj l0).
  - intros Hj. cbn. unfold RapidDeserializer.object, RapidDeserializer.members. rewrite rj_is_object_spec.
    destruct (rj_tree j); try done. by destruct (Hj o).
  - intros Hj Hz Hn. split.
    + cbn. by rewrite (RapidFacts.rapid_integer j z Hj Hz).
    + cbn. by rewrite rj_is_bool_spec, rj_is_double_spec, rj_is_int_spec, rj_is_string_spec, rj_is_null_spec,
        rj_is_object_spec, rj_is_array_spec, Hj, Hn.
Qed.

(** Documents and text no peer of this library would send. *)
Definition blank_initialize : value :=
  match construct protocol_schema protocol_depth (TStruct "InitializeRequest") with Ret v => v | _ => VNull end.

Lemma decode_keeps_type_witness :
  exists ok v, deserialize protocol_schema 12 (TStruct "InitializeRequest")
      (NlohmannDeserializer.create "a1:i7;" : lib_des) blank_initialize = Ret (ok, v) /\
    shaped protocol_schema v (TStruct "InitializeRequest") = true /\
    (variant_free protocol_variant_free (TStruct "InitializeRequest") = true ->
     typed protocol_schema blank_initialize (TStruct "InitializeRequest") = true ->
     typed protocol_schema v (TStruct "InitializeRequest") = true) /\
    variant_free protocol_variant_free (TStruct "InitializeRequest") = true /\
    typed protocol_schema blank_initialize (TStruct "InitializeRequest") = true.
Proof.
  destruct (decode_keeps_type (D := lib_des) protocol_schema protocol_depth protocol_rank protocol_variant_free 12
    (TStruct "InitializeRequest") (NlohmannDeserializer.create "a1:i7;") blank_initialize protocol_decodable
    protocol_variants) as (ok & v & Hd & Hv & Ht); [by_compute..|].
  exists ok, v. split; [exact Hd|split; [exact Hv|split; [exact Ht|split; by_compute]]].
Defined.

Lemma serving_typed F : handlers_typed protocol_schema protocol_depth protocol_rank (serving F).
Proof.
  apply handlers_typed_put_request; [by_compute|]. apply handlers_typed_put_event; [by_compute|].
  split_and!; apply map_Forall_empty.
Qed.


Lemma jsoncpp_malformed_aborts_witness :
  Session.processMessage (D := JsonCppDeserializer.t jtree) (Ser := JsonCppSerializer.t jtree) (FS := jtree)
    protocol_schema 20 "not json" (serving accept) = Undefined.
Proof. apply (jsoncpp_malformed_aborts (J := jtree)). by_compute. Defined.

Lemma rapid_wrong_shapes_witness :
  deserialize protocol_schema 3 (TArray TInteger) (Some (JInt (2 ^ 40)) : RapidDeserializer.t jtree) (VArray [])
    = Undefined /\
  deserialize protocol_schema 3 TObject (Some (JInt (2 ^ 40)) : RapidDeserializer.t jtree) (VObject []) = Undefined /\
  deserialize protocol_schema 4 TAny (Some (JInt (2 ^ 40)) : RapidDeserializer.t jtree) VAnyEmpty
    = Ret (false, VAnyEmpty).
Proof.
  destruct (rapid_wrong_shapes protocol_schema 2 TInteger (JInt (2 ^ 40)) [] [] VAnyEmpty (2 ^ 40)) as (Ha & Ho & Hi).
  split_and!; [apply Ha; discriminate|apply Ho; discriminate|].
  destruct Hi as [_ Hi]; [reflexivity..|exact Hi].
Defined.
End DecodeProps.
