(* ===== verification/Receive.v ===== *)
(** * Receiving from a transport that may hold anything

    The receiving thread of [src/session.cpp] ([startProcessingMessages], the loop
    around [getPayload]) composed of its parts: the transport ([IO.v]), the frames
    ([ContentStream.v]), the JSON library and the decoder ([Decode.v]) and the
    session ([Session.v]). Whatever bytes the transport delivers, the thread keeps
    the session well typed and neither crashes nor loops inside a turn; at the end of
    the stream it does not stop. *)
From Stdlib Require Import Ascii String ZArith Lia.
From stdpp Require Import base list strings gmap.
From S2P Require Import Prelude IO ContentStream Monitor Chan Pipe SMap Types Serialization Json Backend Decode.
From S2P Require Import Nlohmann JsonCpp RapidJson ReferenceJson ProtocolTypes ProtocolRequests ProtocolResponses.
From S2P Require Import ProtocolEvents Protocol SerializationProps Session SessionProps DecodeProps.
Import NlohmannDeserializerFacts NlohmannSerializerFacts.

(** ** What one frame takes from the stream *)
Module FrameBounds.
Section Bounds.
Context (eof : bool).

Lemma need_ret s n b : Frames.need eof s n = Ret b -> b = true -> n <= size_of s.
Proof. unfold Frames.need. destruct (n <=? size_of s) eqn:E; [lia|]. by destruct eof; intros [= <-]. Qed.

Lemma expect_length s lit b s' : Frames.expect eof s lit = Ret (b, s') -> (length s' <= length s)%nat.
Proof.
  unfold Frames.expect. destruct (Frames.need _ _ _) as [[]| | |]; cbn; [|by intros [= <- <-]|done..].
  case_bool_decide; intros [= <- <-]; len_solve.
Qed.

Lemma find_length s lit b s' : Frames.find eof s lit = Ret (b, s') -> (length s' <= length s)%nat.
Proof.
  induction s as [|c s IH]; cbn [Frames.find]; (destruct (Frames.need _ _ _) as [[]| | |]; cbn;
    [|by intros [= <- <-]|done..]); (case_bool_decide; [intros [= <- <-]; len_solve|]); [done|].
  intros Hr. specialize (IH Hr). cbn. lia.
Qed.

Lemma blanks_length s u s' : Frames.blanks eof s = Ret (u, s') -> (length s' <= length s)%nat.
Proof.
  induction s as [|c s IH]; cbn; [by destruct eof; intros [= <- <-]|].
  destruct (strchr _ _); [|by intros [= <- <-]]. case_bool_decide; [intros [= <- <-]; cbn; lia|].
  intros Hr. specialize (IH Hr). cbn. lia.
Qed.

Lemma number_length s len n s' : Frames.number eof s len = Ret (n, s') -> (length s' <= length s)%nat.
Proof.
  revert len. induction s as [|c s IH]; intros len; cbn [Frames.number]; [by destruct eof; intros [= <- <-]|].
  destruct (strchr _ _); [|by intros [= <- <-]]. case_bool_decide; [intros [= <- <-]; cbn; lia|].
  intros Hr. specialize (IH _ Hr). cbn. lia.
Qed.

Lemma body_length s msg bad s' :
  Frames.body eof s = Ret (msg, bad, s') -> (String.length msg + length s' <= length s)%nat.
Proof.
  unfold Frames.body. destruct (Frames.blanks eof s) as [[u s1]| | |] eqn:E1; [|done..]. cbn.
  apply blanks_length in E1. destruct (Frames.number eof s1 0) as [[len s2]| | |] eqn:E2; [|done..]. cbn.
  apply number_length in E2. destruct (len =? 0); [intros [= <- <- <-]; cbn; lia|].
  destruct (Frames.expect eof s2 crlfcrlf) as [[m s3]| | |] eqn:E3; [|done..]. cbn. apply expect_length in E3.
  destruct m; cbn; [|intros [= <- <- <-]; cbn; lia].
  destruct (Frames.need eof s3 len) as [[]| | |]; cbn; [|intros [= <- <- <-]; cbn; lia|done..].
  intros [= <- <- <-]. rewrite <-length_bytes_of, bytes_of_string_of. len_solve.
Qed.

End Bounds.

(** At the end of the stream nothing waits. *)
Lemma need_eof s n : Frames.need true s n <> Blocks.
Proof. unfold Frames.need. by case_match. Qed.

Lemma expect_eof s lit : Frames.expect true s lit <> Blocks.
Proof.
  unfold Frames.expect. pose proof (need_eof s (size_of lit)).
  destruct (Frames.need _ _ _) as [[]| | |]; cbn; [case_bool_decide|..]; done.
Qed.

Lemma find_eof s lit : Frames.find true s lit <> Blocks.
Proof.
  induction s as [|c s IH]; cbn [Frames.find].
  - pose proof (need_eof [] (size_of lit)).
    destruct (Frames.need _ _ _) as [[]| | |]; cbn; [case_bool_decide|..]; done.
  - pose proof (need_eof (c :: s) (size_of lit)).
    destruct (Frames.need _ _ _) as [[]| | |]; cbn; [case_bool_decide|..]; done.
Qed.

Lemma blanks_eof s : Frames.blanks true s <> Blocks.
Proof. induction s as [|c s IH]; cbn; [done|]. destruct (strchr _ _); [|done]. by case_bool_decide. Qed.

Lemma number_eof s len : Frames.number true s len <> Blocks.
Proof.
  revert len. induction s as [|c s IH]; intros len; cbn [Frames.number]; [done|].
  destruct (strchr _ _); [|done]. case_bool_decide; [done|apply IH].
Qed.

Lemma body_eof s : Frames.body true s <> Blocks.
Proof.
  unfold Frames.body. pose proof (blanks_eof s). destruct (Frames.blanks true s) as [[u s1]| | |]; [|done..]. cbn.
  pose proof (number_eof s1 0). destruct (Frames.number true s1 0) as [[len s2]| | |]; [|done..]. cbn.
  destruct (len =? 0); [done|]. pose proof (expect_eof s2 crlfcrlf).
  destruct (Frames.expect true s2 crlfcrlf) as [[m s3]| | |]; [|done..]. cbn. destruct m; cbn; [|done].
  pose proof (need_eof s3 len). by destruct (Frames.need true s3 len) as [[]| | |].
Qed.

Lemma frame_eof mode s : Frames.frame true mode s <> Blocks.
Proof.
  unfold Frames.frame. case_bool_decide.
  - pose proof (expect_eof s content_length_colon).
    destruct (Frames.expect _ _ _) as [[[] s1]| | |]; cbn; [apply body_eof|done..].
  - pose proof (find_eof s content_length_colon).
    destruct (Frames.find _ _ _) as [[[] s1]| | |]; cbn; [apply body_eof|done..].
Qed.

(** [find] consumes the literal, or what is left is shorter than it. *)
Lemma find_progress eof s lit b s' : Frames.find eof s lit = Ret (b, s') ->
  if b then (length s' + length lit <= length s)%nat else (length s' < length lit)%nat.
Proof.
  assert (Hfalse : forall s, Frames.need eof s (size_of lit) = Ret false -> (length s < length lit)%nat).
  { intros s0. unfold Frames.need, size_of. by destruct (_ <=? _) eqn:E; [|lia]. }
  assert (Htrue : forall s, Frames.need eof s (size_of lit) = Ret true -> (length lit <= length s)%nat).
  { intros s0 Hn. apply need_ret in Hn; [|done]. unfold size_of in Hn. lia. }
  induction s as [|c s IH]; cbn [Frames.find]; (destruct (Frames.need _ _ _) as [[]| | |] eqn:En; cbn;
    [|intros [= <- <-]; by apply Hfalse|done..]); apply Htrue in En;
    (case_bool_decide; [intros [= <- <-]; rewrite length_drop; cbn [length] in *; lia|]); [done|].
  intros Hr. specialize (IH Hr). destruct b; cbn; lia.
Qed.

Lemma frame_progress eof s msg bad s' : Frames.frame eof kIgnore s = Ret (msg, bad, s') ->
  (length s' + length content_length_colon <= length s)%nat \/
  (length s' < length content_length_colon)%nat /\ msg = EmptyString /\ bad = false.
Proof.
  unfold Frames.frame. rewrite bool_decide_eq_false_2 by done.
  destruct (Frames.find _ _ _) as [[m s1]| | |] eqn:E; [|done..]. rewrite outcome_bind_ret_l. apply find_progress in E.
  destruct m; cbv iota in E; cbn [negb].
  - intros Hb%body_length. left. lia.
  - intros [= <- <- <-]. by right.
Qed.

End FrameBounds.

(** ** The laws the receiving thread relies on *)

(** What receiving needs of a reader, less than [ReaderContract]: a call returns at most
    the bytes asked for and may return none although more come later; [rt_left] bounds
    what is delivered in all, [rt_waits] tells whether a call may wait. A reader that is
    still open after [close()] (a [File] that is not closable) can go on. *)
Class ReaderTotal (R : Type) `{Reader R} := {
  rt_ok : R -> Prop;
  rt_left : R -> nat;
  rt_waits : R -> bool;
  rt_read r n : rt_ok r -> 0 < n ->
    match IO.read r n with
    | Ret (bs, r') => size_of bs <= n /\ rt_ok r' /\ (length bs + rt_left r' <= rt_left r)%nat /\
        (rt_waits r' = true -> rt_waits r = true)
    | Blocks => rt_waits r = true
    | Undefined | OutOfFuel => False
    end;
  rt_close r : rt_ok r -> IO.isOpen (IO.close r) = true ->
    rt_ok (IO.close r) /\ (rt_left (IO.close r) <= rt_left r)%nat /\
    (rt_waits (IO.close r) = true -> rt_waits r = true)
}.

(** The law of [close] for a reader that keeps [ReaderContract]. *)
Class ReaderClose (R : Type) `{ReaderContract R} := {
  close_open r : rd_ok r -> IO.isOpen (IO.close r) = true ->
    rd_ok (IO.close r) /\ rd_pending (IO.close r) = rd_pending r /\ rd_eof (IO.close r) = rd_eof r
}.

#[global] Instance File_ReaderClose : ReaderClose File.t.
Proof. constructor. intros [[fi fo fr op] [] []] Hr; cbn in Hr; subst; done. Qed.

#[global] Instance Pipe_ReaderClose : ReaderClose Pipe.t.
Proof. constructor. done. Qed.

Lemma contract_read {R : Type} `{ReaderContract R} (r : R) n : rd_ok r -> 0 < n ->
  match IO.read r n with
  | Ret (bs, r') => size_of bs <= n /\ rd_ok r' /\ rd_pending r = bs ++ rd_pending r' /\ rd_eof r' = rd_eof r
  | Blocks => rd_eof r = false
  | Undefined | OutOfFuel => False
  end.
Proof.
  intros Hr Hn. assert (Hd : delivers rd_pending rd_eof rd_ok r n -> match IO.read r n with
    | Ret (bs, r') => size_of bs <= n /\ rd_ok r' /\ rd_pending r = bs ++ rd_pending r' /\ rd_eof r' = rd_eof r
    | Blocks => rd_eof r = false
    | Undefined | OutOfFuel => False
    end).
  { intros (bs & r' & -> & Hs & Hp & He & _ & Hok). split_and!; [lia|done..]. }
  destruct (decide (rd_pending r = [])) as [Hp|Hp].
  - rewrite (read_end r n Hr Hn Hp). destruct (rd_eof r) eqn:E; [|done]. rewrite size_of_nil. split_and!; [lia|done..].
  - destruct (rd_eof r) eqn:E; [apply Hd, read_available; auto|].
    destruct (read_short r n Hr Hn Hp E) as [->|Hs]; [done|by apply Hd].
Qed.

#[global] Instance Contract_ReaderTotal {R : Type} `{ReaderClose R} : ReaderTotal R | 10.
Proof.
  refine {| rt_ok := rd_ok; rt_left r := length (rd_pending r); rt_waits r := negb (rd_eof r) |}.
  - intros r n Hr Hn. pose proof (contract_read r n Hr Hn) as Hc.
    destruct (IO.read r n) as [[bs r']| | |]; [|by rewrite Hc|done..]. destruct Hc as (Hs & Hok & -> & ->).
    by rewrite length_app.
  - intros r Hr Ho. destruct (close_open r Hr Ho) as (Hok & -> & ->). done.
Defined.

#[global] Instance RW_ReaderTotal {R W : Type} `{ReaderTotal R} `{!Writer W} : ReaderTotal (RW.t R W) | 5.
Proof.
  refine {| rt_ok x := rt_ok x.(RW.r); rt_left x := rt_left x.(RW.r); rt_waits x := rt_waits x.(RW.r) |}.
  - intros x n Hx Hn. pose proof (rt_read x.(RW.r) n Hx Hn) as Hr. cbn. unfold RW.read.
    by destruct (IO.read (RW.r x) n) as [[bs r']| | |].
  - intros x Hx Ho. cbn in Ho. unfold RW.isOpen in Ho. apply andb_true_iff in Ho as [Ho _]. by apply rt_close.
Defined.

(** A [StringBuffer] may hold empty chunks, whose reads return nothing. *)
#[global] Instance StringBuffer_ReaderTotal : ReaderTotal StringBuffer.t | 5.
Proof.
  refine {| rt_ok := StringBuffer.inv; rt_left b := length b.(StringBuffer.str); rt_waits _ := false |}.
  - intros b n Hb Hn. cbn.
    destruct (b.(StringBuffer.closed)) eqn:Ec.
    { unfold StringBuffer.read. rewrite Ec. cbn. split_and!; [unfold size_of; cbn; lia|done..]. }
    destruct (decide (size_of b.(StringBuffer.str) = 0)) as [Es|Es].
    { unfold StringBuffer.read. rewrite Es, orb_true_r. cbn. split_and!; [unfold size_of; cbn; lia|done..]. }
    destruct b.(StringBuffer.chunk_lengths) as [|c rest] eqn:El.
    { destruct Hb as [Hsum _]. rewrite El in Hsum. cbn in Hsum. lia. }
    destruct (StringBuffer.read_chunk b n c rest Hn Hb Ec Es El) as [Hle ->].
    destruct Hb as [Hsum Hpos]. rewrite El in Hsum, Hpos. apply Forall_cons in Hpos as [Hc Hpos]. cbn in Hsum.
    split_and!; [len_solve| |cbn; rewrite length_take, length_drop; lia|done].
    split; cbn; destruct (n <? c) eqn:E; cbn; [len_solve|len_solve| |done]. constructor; [lia|done].
  - done.
Defined.

(** The JSON library accepts every text, into a document no deeper than the text is
    long. *)
Class ParsesAll (D Ser FS : Type) `{HB : JsonBackend D Ser FS} `{HS : !DeserializerSafe D} := {
  parses_all text : exists d, json_parse text = Ret d /\ (des_depth d <= S (String.length text))%nat
}.

(** With nlohmann/json, called without exceptions, that is the depth of what [parse]
    returns: a level of nesting takes a character. *)
Class NJsonDepth (J : Type) `{NJson J, !NJsonLaws J} := {
  nj_parse_depth text : (jdepth (nj_parse text) <= String.length text)%nat
}.

#[global] Instance Nlohmann_ParsesAll {J : Type} `{NJsonDepth J} :
  ParsesAll (NlohmannDeserializer.t J) (NlohmannSerializer.t J) J.
Proof.
  constructor. intros text. eexists. split; [done|]. cbn. apply le_n_S, nj_parse_depth.
Qed.

(** The library of [ReferenceJson.v]. *)
Lemma parse_nat_rest l : (length (parse_nat l).2 <= length l)%nat.
Proof.
  unfold parse_nat. assert (H : (length (take_digits l).2 <= length l)%nat).
  { induction l as [|c l IH]; cbn; [done|]. destruct (is_digit c); cbn; [|lia].
    destruct (take_digits l) as [ds rest]. cbn in *. lia. }
  by destruct (take_digits l).
Qed.

Lemma parse_text_rest l : (length (ReferenceJson.parse_text l).2 <= length l)%nat.
Proof.
  unfold ReferenceJson.parse_text. pose proof (parse_nat_rest l). destruct (parse_nat l). cbn in *. len_solve.
Qed.

Lemma parse_seq_depth {A} (item : bytes -> option (A * bytes)) (depth : A -> nat) n l xs rest :
  (forall l x rest, item l = Some (x, rest) -> (depth x + length rest <= length l)%nat) ->
  parse_seq item n l = Some (xs, rest) ->
  (foldr (fun x h => depth x `max` h) 0 xs + length rest <= length l)%nat.
Proof.
  intros Hi. revert l xs. induction n as [|n IH]; intros l xs; cbn; [intros [= <- <-]; cbn; lia|].
  destruct (item l) as [[x l1]|] eqn:E; [|done]. cbn. apply Hi in E.
  destruct (parse_seq item n l1) as [[ys l2]|] eqn:E2; [|done]. cbn. intros [= <- <-].
  apply IH in E2. cbn. lia.
Qed.

Lemma parse_depth fuel l j rest : parse fuel l = Some (j, rest) -> (jheight j + length rest <= length l)%nat.
Proof.
  revert l j rest. induction fuel as [|fuel IH]; intros [|c l] j rest; cbn [parse]; try done.
  pose proof (parse_nat_rest l) as Hn. destruct (parse_nat l) as [n l1] eqn:En. cbn in Hn.
  pose proof (parse_text_rest l) as Ht.
  do 8 (case_bool_decide; [intros [= <- <-]; cbn; lia|]).
  case_bool_decide.
  - destruct (parse_seq _ _ _) as [[xs r]|] eqn:E; [|done]. cbn -[jheight]. intros [= <- <-].
    apply (parse_seq_depth _ jheight) in E; [|exact IH]. rewrite jheight_array. unfold jheights. cbn. lia.
  - case_bool_decide; [|done]. destruct (parse_seq _ _ _) as [[xs r]|] eqn:E; [|done]. cbn -[jheight].
    intros [= <- <-]. apply (parse_seq_depth _ (fun kv => jheight kv.2)) in E.
    + rewrite jheight_object. assert (Hx : jheights xs.*2 = foldr (fun x h => jheight x.2 `max` h)%nat 0%nat xs).
      { clear. induction xs; cbn; [done|]. f_equal. done. }
      rewrite Hx. cbn. lia.
    + intros l' [k x] r'. pose proof (parse_text_rest l'). destruct (ReferenceJson.parse_text l') as [k' l2].
      destruct (parse fuel l2) as [[y l3]|] eqn:E2; [|done]. cbn. intros [= <- <- <-].
      apply IH in E2. cbn in *. lia.
Qed.

#[global] Instance Reference_NJsonDepth : NJsonDepth ReferenceLibrary.J.
Proof.
  constructor. intros text. change (jdepth (ReferenceLibrary.parse_text text) <= String.length text)%nat.
  unfold ReferenceLibrary.parse_text, jdepth.
  destruct (parse (S (String.length text)) (bytes_of text)) as [[j [|]]|] eqn:E; cbn -[jheight]; try lia.
  apply parse_depth in E.
  rewrite length_bytes_of in E. cbn in E. lia.
Qed.

(** ** [ContentReader::read] on a reader that keeps [ReaderTotal] *)
Module ReadTotal.
Import ContentReader.
Section ReadTotal.
Context {R : Type} `{ReaderTotal R}.
Implicit Types x : ContentReader.t R.

Definition ok x : Prop := exists r, x.(reader) = Some r /\ rt_ok r.
Definition left x : nat := (length x.(buf) + match x.(reader) with Some r => rt_left r | None => 0 end)%nat.
Definition waits x : bool := match x.(reader) with Some r => rt_waits r | None => false end.

Definition progress x x' : Prop :=
  ok x' /\ (left x' <= left x)%nat /\ (waits x' = true -> waits x = true).

Lemma progress_refl x : ok x -> progress x x.
Proof. by split. Qed.

Lemma progress_trans x y z : progress x y -> progress y z -> progress x z.
Proof. intros (? & ? & ?) (? & ? & ?). split_and!; [done|lia|auto]. Qed.

(** A computation returns with [P] or waits; no other outcome. *)
Definition runs {A} x (m : outcome (A * ContentReader.t R)) (P : A -> ContentReader.t R -> Prop) : Prop :=
  match m with
  | Ret (a, x') => progress x x' /\ P a x'
  | Blocks => waits x = true
  | Undefined | OutOfFuel => False
  end.

Lemma runs_ret {A} x (a : A) x' (P : A -> ContentReader.t R -> Prop) :
  progress x x' -> P a x' -> runs x (Ret (a, x')) P.
Proof. done. Qed.

Lemma runs_weaken {A} x y m (P Q : A -> ContentReader.t R -> Prop) :
  progress x y -> (forall a x', progress y x' -> P a x' -> Q a x') -> runs y m P -> runs x m Q.
Proof.
  intros Hp HPQ. unfold runs. destruct m as [[a x']| | |]; [|apply Hp|done..].
  intros [Hy HP]. split; [by eapply progress_trans|by apply HPQ].
Qed.

Lemma runs_bind {A B} x m (f : A * ContentReader.t R -> outcome (B * ContentReader.t R)) P Q :
  runs x m P -> (forall a x', progress x x' -> P a x' -> runs x' (f (a, x')) Q) -> runs x (m ≫= f) Q.
Proof.
  unfold runs at 1. destruct m as [[a x']| | |]; [|done..]. intros [Hp HP] Hf.
  rewrite outcome_bind_ret_l. eapply runs_weaken; [exact Hp|done|by apply Hf].
Qed.

Lemma progress_set_buf x b : ok x -> (length b <= length x.(buf))%nat -> progress x (set_buf x b).
Proof. intros Hx Hb. split_and!; [done|unfold left; cbn; lia|done]. Qed.

Lemma buffer_loop_runs fuel x k : ok x -> 0 <= k < 2 ^ 64 -> (left x < length x.(buf) + fuel)%nat ->
  runs x (buffer_loop fuel x k) (fun b x' => b = true -> size_of x.(buf) + k <= size_of x'.(buf)).
Proof.
  revert x k. induction fuel as [|fuel IH]; intros x k Hx Hk Hf; [unfold left in Hf; lia|]. destruct Hx as (r & Hr & Hok).
  cbn [buffer_loop]. destruct (k >? 0) eqn:Ek; [|by apply runs_ret; [apply progress_refl; eexists|lia]].
  rewrite Hr. cbn [deref]. rewrite outcome_bind_ret_l. pose proof (rt_read r (Z.min 256 k) Hok ltac:(lia)) as Hread.
  destruct (IO.read r (Z.min 256 k)) as [[bs r']| | |]; [|unfold runs, waits; by rewrite Hr|done..].
  destruct Hread as (Hs & Hok' & Hl & Hw). rewrite outcome_bind_ret_l. pose proof (size_of_nonneg bs) as Hbs.
  assert (Hp : forall b, (length b = length x.(buf) + length bs)%nat -> progress x (set_reader (set_buf x b) r')).
  { intros b Hb. split_and!; [by eexists|unfold left; cbn; rewrite Hr; lia|unfold waits; cbn; by rewrite Hr]. }
  destruct (size_of bs =? 0) eqn:E0.
  - apply runs_ret; [|done]. replace (set_reader x r') with (set_reader (set_buf x x.(buf)) r') by by destruct x.
    apply Hp. unfold size_of in E0. lia.
  - set (y := set_reader (set_buf x (x.(buf) ++ bs)) r'). rewrite u64_small by lia.
    eapply runs_weaken; [apply Hp, length_app| |apply IH].
    + cbn. intros b z _ Hz Hb. specialize (Hz Hb). rewrite size_of_app in Hz. lia.
    + by exists r'.
    + lia.
    + revert Hf. unfold left. cbn. rewrite Hr, length_app. unfold size_of in E0. lia.
Qed.

Lemma buffer_runs fuel x n : ok x -> 0 <= n < 2 ^ 64 -> (left x < fuel)%nat ->
  runs x (buffer fuel x n) (fun b x' => b = true -> n <= size_of x'.(buf)).
Proof.
  intros Hx Hn Hf. unfold buffer. pose proof (size_of_nonneg x.(buf)).
  destruct (n <? size_of x.(buf)) eqn:E; [by apply runs_ret; [apply progress_refl|lia]|].
  rewrite u64_small by lia. eapply runs_weaken; [by apply progress_refl| |apply buffer_loop_runs; [done|lia|lia]].
  cbn. intros b y _ Hy Hb. specialize (Hy Hb). lia.
Qed.

Lemma match_runs fuel x seq : ok x -> size_of seq < 2 ^ 64 -> (left x < fuel)%nat ->
  runs x (match_ fuel x seq) (fun _ _ => True).
Proof.
  intros Hx Hn Hf. pose proof (size_of_nonneg seq). unfold match_.
  eapply runs_bind; [apply buffer_runs; [done|lia|done]|]. intros b y Hp _.
  assert (Hy : ok y) by apply Hp. destruct b; cbn [negb]; [case_bool_decide|]; (apply runs_ret; [|done]).
  - apply progress_set_buf; [done|]. rewrite length_drop. lia.
  - by apply progress_refl.
  - by apply progress_refl.
Qed.

(** A character taken is one byte less. *)
Lemma matchAny_runs fuel x chars : ok x -> (left x < fuel)%nat ->
  runs x (matchAny fuel x chars) (fun c x' => c <> NUL -> (left x' < left x)%nat).
Proof.
  intros Hx Hf. unfold matchAny. eapply runs_bind; [apply buffer_runs; [done|lia|done]|]. intros b y Hp Hb.
  assert (Hy : ok y) by apply Hp. destruct b; cbn [negb]; [|by apply runs_ret; [apply progress_refl|]].
  destruct y.(buf) as [|c rest] eqn:E; [specialize (Hb eq_refl); done|].
  destruct (strchr chars c); (apply runs_ret; [|try done]).
  - apply progress_set_buf; [done|]. rewrite E. cbn. lia.
  - intros _. destruct Hp as (_ & Hl & _). revert Hl. unfold left at 1 3. cbn. rewrite E. cbn. lia.
  - by apply progress_refl.
Qed.

Lemma scan_runs fuel fb x seq : ok x -> 0 < size_of seq < 2 ^ 64 -> (left x < fuel)%nat -> (left x < fb)%nat ->
  runs x (scan fuel fb x seq) (fun _ _ => True).
Proof.
  intros Hx Hn. revert x Hx. induction fuel as [|fuel IH]; intros x Hx Hf Hb; [lia|]. cbn [scan].
  eapply runs_bind; [apply buffer_runs; [done|lia|done]|]. intros b y Hp Hbuf. assert (Hy : ok y) by apply Hp.
  destruct b; cbn [negb]; [|by apply runs_ret; [apply progress_refl|]].
  specialize (Hbuf eq_refl). unfold match_. rewrite (Refinement.buffer_full fb y) by lia.
  rewrite outcome_bind_ret_l. cbn [negb]. case_bool_decide; rewrite outcome_bind_ret_l.
  { apply runs_ret; [|done]. apply progress_set_buf; [done|]. rewrite length_drop. lia. }
  destruct y.(buf) as [|c rest] eqn:E; [rewrite size_of_nil in Hbuf; lia|].
  assert (Hq : progress y (set_buf y rest)) by (apply progress_set_buf; [done|rewrite E; cbn; lia]).
  assert (Hl : (left (set_buf y rest) < left y)%nat) by (unfold left; cbn; rewrite E; cbn; lia).
  destruct Hp as (_ & Hpl & _). eapply runs_weaken; [exact Hq|done|]. apply IH; [apply Hq|lia..].
Qed.

Lemma skip_blanks_runs fuel fb x : ok x -> (left x < fuel)%nat -> (left x < fb)%nat ->
  runs x (skip_blanks fuel fb x) (fun _ _ => True).
Proof.
  revert x. induction fuel as [|fuel IH]; intros x Hx Hf Hb; [lia|]. cbn [skip_blanks].
  eapply runs_bind; [by apply matchAny_runs|]. intros c y Hp Hc. assert (Hy : ok y) by apply Hp.
  case_bool_decide; [by apply runs_ret; [apply progress_refl|]|]. apply IH; [done|..]; specialize (Hc ltac:(done)); lia.
Qed.

Lemma parse_length_runs fuel fb x len : ok x -> 0 <= len < 2 ^ 64 -> (left x < fuel)%nat -> (left x < fb)%nat ->
  runs x (parse_length fuel fb x len) (fun n _ => 0 <= n < 2 ^ 64).
Proof.
  revert x len. induction fuel as [|fuel IH]; intros x len Hx Hlen Hf Hb; [lia|]. cbn [parse_length].
  eapply runs_bind; [by apply matchAny_runs|]. intros c y Hp Hc. assert (Hy : ok y) by apply Hp.
  case_bool_decide; [by apply runs_ret; [apply progress_refl|]|].
  apply IH; [done|apply u64_range|..]; specialize (Hc ltac:(done)); lia.
Qed.

(** A message and the reader after it; the reader may have been closed. *)
Definition ends x (m : outcome (string * ContentReader.t R)) : Prop :=
  match m with
  | Ret (msg, x') => (String.length msg <= left x)%nat /\ (ContentReader.isOpen x' = true -> progress x x')
  | Blocks => waits x = true
  | Undefined | OutOfFuel => False
  end.

Lemma ends_bind {A} x m (f : A * ContentReader.t R -> outcome (string * ContentReader.t R)) P :
  runs x m P -> (forall a x', progress x x' -> P a x' -> ends x' (f (a, x'))) -> ends x (m ≫= f).
Proof.
  unfold runs. destruct m as [[a x']| | |]; [|done..]. intros [Hp HP] Hf. rewrite outcome_bind_ret_l.
  specialize (Hf a x' Hp HP). unfold ends in *. destruct (f (a, x')) as [[msg y]| | |]; [|by apply Hp|done..].
  destruct Hf as [Hm Hy]. destruct Hp as (? & Hl & Hw). split; [lia|]. intros Ho. by eapply progress_trans; [|apply Hy].
Qed.

Lemma ends_empty x : ok x -> ends x (Ret (EmptyString, x)).
Proof. intros Hx. split; [cbn; lia|]. intros _. by apply progress_refl. Qed.

Lemma badHeader_ends x : ok x -> ends x (Ret (badHeader x)).
Proof.
  intros Hx. unfold badHeader. case_bool_decide; [|by apply ends_empty]. split; [cbn; lia|].
  destruct Hx as (r & Hr & Hok). unfold close, ContentReader.isOpen, progress, left, waits, ok. rewrite Hr. cbn.
  intros Ho. destruct (rt_close r Hok Ho) as (Hok' & Hl & Hw). split_and!; [by eexists|lia|done].
Qed.

Lemma read_body_ends fuel x : ok x -> (left x < fuel)%nat -> ends x (read_body fuel x).
Proof.
  assert (Hstep : forall y z, progress y z -> (left y < fuel)%nat -> ok z /\ (left z < fuel)%nat).
  { intros y z (Hz & Hl & _) Hy. split; [done|lia]. }
  intros Hx Hf. unfold read_body. eapply ends_bind; [by apply skip_blanks_runs|]. intros _ y1 Hp1 _.
  destruct (Hstep _ _ Hp1 Hf) as [H1 Hf1]. eapply ends_bind; [apply parse_length_runs; [done|lia|done..]|].
  intros len y2 Hp2 Hlen. destruct (Hstep _ _ Hp2 Hf1) as [H2 Hf2]. destruct (len =? 0); [by apply ends_empty|].
  eapply ends_bind; [by apply match_runs|]. intros m y3 Hp3 _. destruct (Hstep _ _ Hp3 Hf2) as [H3 Hf3].
  destruct m; cbn [negb]; [|by apply badHeader_ends]. eapply ends_bind; [by apply buffer_runs|]. intros b y4 Hp4 _.
  destruct (Hstep _ _ Hp4 Hf3) as [H4 Hf4]. destruct b; cbn [negb]; [|by apply ends_empty]. split.
  - rewrite <-length_bytes_of, bytes_of_string_of, length_take. unfold left. lia.
  - intros _. apply progress_set_buf; [done|]. rewrite length_drop. lia.
Qed.

Lemma read_ends fuel x : ok x -> (left x < fuel)%nat -> ends x (ContentReader.read fuel x).
Proof.
  intros Hx Hf. unfold ContentReader.read. case_bool_decide.
  - eapply ends_bind; [by apply match_runs|]. intros m y Hp _. assert (Hy : ok y) by apply Hp.
    destruct Hp as (_ & Hl & _). destruct m; cbn [negb]; [apply read_body_ends; [done|lia]|by apply badHeader_ends].
  - eapply ends_bind; [by apply scan_runs|]. intros m y Hp _. assert (Hy : ok y) by apply Hp.
    destruct Hp as (_ & Hl & _). destruct m; cbn [negb]; [apply read_body_ends; [done|lia]|by apply ends_empty].
Qed.
End ReadTotal.
End ReadTotal.

(** Every result a computation may return. *)
Definition yields {A} (P : A -> Prop) (m : outcome A) : Prop := forall x, m = Ret x -> P x.

Lemma yields_ret {A} (P : A -> Prop) x : P x -> yields P (Ret x).
Proof. by intros Hx y [= <-]. Qed.

Lemma yields_bind {A B} (P : B -> Prop) (m : outcome A) (f : A -> outcome B) :
  (forall x, m = Ret x -> yields P (f x)) -> yields P (m ≫= f).
Proof. intros Hf. by destruct m as [x| | |]; [apply (Hf x)|..]. Qed.

(** ** The receiving thread *)
Module ReceiveProps.
Import SerializationProps SessionProps DecodeProps.
Section Receive.
Context {D Ser FS : Type} {HB : JsonBackend D Ser FS} {HS : DeserializerSafe D} {HP : ParsesAll D Ser FS}.
Context {R W : Type} {HR : Reader R} {HT : ReaderTotal R} {HW : Writer W} {EH RH VH SH : Type}.

Abbreviation session := (Session.t R W EH RH VH SH).

(** The payloads the dispatching thread will run have arguments of the types their
    handlers are registered for. *)
Definition inbox_typed (env : schema) (s : session) : Prop :=
  Forall (fun p => payload_typed env s (Some p)) s.(Session.inbox).(Chan.queue).

(** A reader that, while it is open, keeps its contract and has at most [n] bytes to
    deliver. *)
Definition reader_ok (n : nat) (x : ContentReader.t R) : Prop :=
  ContentReader.isOpen x = true -> ReadTotal.ok x /\ (ReadTotal.left x <= n)%nat.

(** What the receiving thread keeps. *)
Record receiving (env : schema) (k rank n : nat) (s : session) : Prop := {
  rc_handlers : handlers_typed env k rank s;
  rc_inbox : inbox_typed env s;
  rc_reader : reader_ok n s.(Session.reader)
}.

(** Fuel for the loops of [read] on [n] bytes and for decoding a document in them. *)
Definition receive_fuel (k rank n : nat) : nat := (2 + k + rank + S rank * S (S n))%nat.

(** What processing a message leaves alone: the streams, the inbox, the sequence
    numbers and the handlers, but for those of responses. *)
Definition same_endpoint (s s' : session) : Prop :=
  s'.(Session.reader) = s.(Session.reader) /\ s'.(Session.inbox) = s.(Session.inbox) /\
  s'.(Session.hs).(Session.requestMap) = s.(Session.hs).(Session.requestMap) /\
  s'.(Session.hs).(Session.eventMap) = s.(Session.hs).(Session.eventMap) /\
  s'.(Session.hs).(Session.errorHandler) = s.(Session.hs).(Session.errorHandler) /\
  s'.(Session.writer) = s.(Session.writer) /\ s'.(Session.nextSeq) = s.(Session.nextSeq).

Lemma same_refl s : same_endpoint s s.
Proof. done. Qed.

Lemma same_error m s0 s : same_endpoint s0 s -> same_endpoint s0 (Session.error m s).
Proof. unfold Session.error. by destruct (Session.errorHandler _). Qed.

Lemma same_response seq s : same_endpoint s (Session.response seq s).2.
Proof. unfold Session.response. case_match; [done|]. by apply same_error. Qed.

Lemma processRequest_keeps env fuel d seq s :
  yields (fun r => same_endpoint s r.2) (Session.processRequest env fuel d seq s).
Proof.
  unfold Session.processRequest. destruct (Session.get_string d "command"); [|by apply yields_ret, same_error].
  destruct (Session.requestMap _ !! _) as [[t h]|]; [|by apply yields_ret, same_error].
  apply yields_bind; intros c _. apply yields_bind; intros [[] v] _; apply yields_ret; [done|by apply same_error].
Qed.

Lemma processEvent_keeps env fuel d s :
  yields (fun r => same_endpoint s r.2) (Session.processEvent env fuel d s).
Proof.
  unfold Session.processEvent. destruct (Session.get_string d "event"); [|by apply yields_ret, same_error].
  destruct (Session.eventMap _ !! _) as [[t h]|]; [|by apply yields_ret, same_error].
  apply yields_bind; intros c _. apply yields_bind; intros [[] v] _; apply yields_ret; [done|by apply same_error].
Qed.

Lemma processResponse_keeps env fuel d s :
  yields (same_endpoint s) (Session.processResponse env fuel d s).
Proof.
  unfold Session.processResponse. destruct (Session.get_integer _ _) as [seq|]; [|by apply yields_ret, same_error].
  pose proof (same_response seq s) as Hs. destruct (Session.response seq s) as [[[t h]|] s1]; cbn in Hs;
    [|by apply yields_ret, same_error].
  destruct (Session.get_boolean _ _) as [[]|]; [|destruct (Session.get_string _ _)|]; try (by apply yields_ret, same_error).
  - apply yields_bind; intros c _. apply yields_bind; intros [ok v] _. by apply yields_ret.
  - by apply yields_ret.
Qed.

Lemma processMessage_keeps env fuel text s :
  yields (fun r => same_endpoint s r.2) (Session.processMessage env fuel text s).
Proof.
  unfold Session.processMessage. apply yields_bind; intros d _.
  destruct (Session.get_string d "type"); [|by apply yields_ret, same_error].
  destruct (Session.get_integer d "seq"); [|by apply yields_ret, same_error].
  case_bool_decide; [apply processRequest_keeps|]. case_bool_decide; [apply processEvent_keeps|].
  case_bool_decide; [|by apply yields_ret, same_error].
  apply yields_bind; intros s' Hs'. apply yields_ret. by apply (processResponse_keeps _ _ _ _ _ Hs').
Qed.

Lemma inbox_typed_same env s s' : same_endpoint s s' -> inbox_typed env s -> inbox_typed env s'.
Proof.
  intros (_ & Hi & Hr & He & _) Hs. unfold inbox_typed. rewrite Hi. eapply Forall_impl; [exact Hs|].
  intros [h v seq c|h v]; cbn; [by rewrite Hr|by rewrite He].
Qed.

Lemma payload_typed_same env s s' p : same_endpoint s s' -> payload_typed env s p -> payload_typed env s' p.
Proof. intros (_ & _ & Hr & He & _). destruct p as [[h v seq c|h v]|]; cbn; [by rewrite Hr|by rewrite He|done]. Qed.

(** One turn of the receiving thread. *)
Lemma recv_turn_total env k rank n fuel s :
  schema_decodable env k rank -> receiving env k rank n s -> (receive_fuel k rank n <= fuel)%nat ->
  match Session.recv_turn env fuel s with
  | Ret (Some s') => receiving env k rank n s' /\
      (ContentReader.isOpen s'.(Session.reader) = true ->
        ReadTotal.waits s'.(Session.reader) = true -> ReadTotal.waits s.(Session.reader) = true)
  | Ret None => ContentReader.isOpen s.(Session.reader) = false
  | Blocks => ReadTotal.waits s.(Session.reader) = true
  | Undefined | OutOfFuel => False
  end.
Proof using HP.
  intros Henv [Hh Hi Hr] Hf. unfold receive_fuel in Hf. unfold Session.recv_turn.
  destruct (ContentReader.isOpen (Session.reader s)) eqn:Ho; cbn [negb]; [|done].
  destruct (Hr Ho) as [Hc Hn]. unfold Session.getPayload.
  pose proof (ReadTotal.read_ends fuel (Session.reader s) Hc ltac:(lia)) as Hread.
  destruct (ContentReader.read fuel (Session.reader s)) as [[msg x]| | |]; [|done..].
  destruct Hread as (Hm & Hx). rewrite outcome_bind_ret_l. set (s1 := Session.set_reader x s).
  assert (H1 : receiving env k rank n s1).
  { split; [done..|]. intros Hox. destruct (Hx Hox) as (Hok & Hl & _). split; [done|cbn; lia]. }
  assert (Hw : ContentReader.isOpen x = true -> ReadTotal.waits x = true -> ReadTotal.waits s.(Session.reader) = true)
    by (intros Hox; apply Hx, Hox).
  destruct (size_of (bytes_of msg) >? 0); [|done].
  destruct (parses_all msg) as (d & Hd & Hdd).
  destruct (processMessage_total env k rank Henv fuel msg d s1 (rc_handlers _ _ _ _ _ H1) Hd) as (p & s2 & Hp & Hh2 & Ht).
  { nia. }
  pose proof (processMessage_keeps env fuel msg s1 _ Hp) as Hsame. cbn in Hsame. rewrite Hp, outcome_bind_ret_l.
  pose proof (inbox_typed_same _ _ _ Hsame (rc_inbox _ _ _ _ _ H1)) as Hi2.
  apply (payload_typed_same _ _ s2) in Ht; [|done].
  assert (Hrd : s2.(Session.reader) = x) by apply Hsame. pose proof (rc_reader _ _ _ _ _ H1) as Hr1.
  destruct p as [p|]; (split; [split|cbn; by rewrite Hrd]); cbn; rewrite ?Hrd; try done.
  unfold inbox_typed. cbn. apply Forall_app. split; [done|]. by repeat constructor.
Qed.

(** What a turn leaves alone, but for the reader and the inbox. *)
Lemma recv_turn_keeps env fuel (s s' : session) : Session.recv_turn env fuel s = Ret (Some s') ->
  s'.(Session.hs).(Session.requestMap) = s.(Session.hs).(Session.requestMap) /\
  s'.(Session.hs).(Session.errorHandler) = s.(Session.hs).(Session.errorHandler) /\
  s'.(Session.writer) = s.(Session.writer) /\ s'.(Session.nextSeq) = s.(Session.nextSeq).
Proof.
  unfold Session.recv_turn, Session.getPayload. destruct (negb _); [done|].
  destruct (ContentReader.read _ _) as [[msg x]| | |]; [|done..]. rewrite outcome_bind_ret_l.
  destruct (size_of (bytes_of msg) >? 0); [|by intros [= <-]].
  destruct (Session.processMessage _ _ _ _) as [[p s2]| | |] eqn:E; [|done..]. rewrite outcome_bind_ret_l. intros [= <-].
  destruct (processMessage_keeps _ _ _ _ _ E) as (_ & _ & Hr & _ & He & Hw & Hn). by destruct p.
Qed.


(** ** From [create()] to [bind()] *)

(** A session that is not connected, with handlers of types of the schema. *)
Record registering (env : schema) (k rank : nat) (s : session) : Prop := {
  rg_handlers : handlers_typed env k rank s;
  rg_bound : s.(Session.isBound) = false;
  rg_inbox : s.(Session.inbox).(Chan.queue) = []
}.

Lemma registering_create env k rank : registering env k rank Session.create.
Proof. split; [apply handlers_typed_create|done..]. Qed.

Lemma error_bound m (s : session) : (Session.error m s).(Session.isBound) = s.(Session.isBound).
Proof. unfold Session.error. by case_match. Qed.

Lemma error_inbox m (s : session) : (Session.error m s).(Session.inbox) = s.(Session.inbox).
Proof. unfold Session.error. by case_match. Qed.

Lemma registering_put_error env k rank h s :
  registering env k rank s -> registering env k rank (Session.put_error h s).
Proof. by intros [Hh Hb Hi]. Qed.

Lemma registering_put_request env k rank t h s :
  handled_type env k rank t = true -> registering env k rank s ->
  registering env k rank (Session.put_request env t h s).
Proof.
  intros Ht [Hh Hb Hi]. split; [by apply handlers_typed_put_request|..]; unfold Session.put_request; case_match;
    by rewrite ?error_bound, ?error_inbox.
Qed.

Lemma registering_put_event env k rank t h s :
  handled_type env k rank t = true -> registering env k rank s ->
  registering env k rank (Session.put_event env t h s).
Proof.
  intros Ht [Hh Hb Hi]. split; [by apply handlers_typed_put_event|..]; unfold Session.put_event; case_match;
    by rewrite ?error_bound, ?error_inbox.
Qed.

(** [bind] to any transport gives a session that can receive. *)
Lemma receiving_bind env k rank (r : R) (w : W) s :
  registering env k rank s -> rt_ok r -> receiving env k rank (rt_left r) (Session.bind r w s).2.
Proof.
  intros [Hh Hb Hi] Hr. unfold Session.bind, Session.connect. rewrite Hb. unfold Session.startProcessingMessages.
  assert (H1 : receiving env k rank (rt_left r)
    (Session.set_writer (ContentWriter.create w)
      (Session.set_reader (ContentReader.create r s.(Session.onInvalidData)) (Session.set_isBound true s)))).
  { split; [done|unfold inbox_typed; cbn; by rewrite Hi|]. intros _. split; [by exists r|done]. }
  destruct H1 as [H1 H2 H3]. case_match; cbn [snd]; [|by split]. split.
  - eapply handlers_typed_hs; [apply error_keeps_hs|done].
  - eapply inbox_typed_same; [apply same_error, same_refl|done].
  - unfold Session.error. by case_match.
Qed.
End Receive.

(** ** At the end of the stream *)
Section AtEnd.
Context {D Ser FS : Type} {HB : JsonBackend D Ser FS} {HS : DeserializerSafe D} {HP : ParsesAll D Ser FS}.
Context {R W : Type} {HR : Reader R} {HC : ReaderContract R} {HCl : ReaderClose R} {HW : Writer W}.
Context {EH RH VH SH : Type}.

Abbreviation session := (Session.t R W EH RH VH SH).

(** The bytes the peer has sent and the reader has not consumed. *)
Definition unread (x : ContentReader.t R) : nat := length (Refinement.stream x).


Lemma connected_ok n x : reader_ok n x -> ContentReader.isOpen x = true ->
  Refinement.connected x /\ (unread x <= n)%nat.
Proof.
  intros Hx Ho. destruct (Hx Ho) as [(r & Hr & Hok) Hl]. split; [by exists r|]. revert Hl.
  unfold unread, ReadTotal.left, Refinement.stream. rewrite Hr, length_app. done.
Qed.

Lemma waits_eof x : ReadTotal.waits x = true -> Refinement.at_eof x = false.
Proof. unfold ReadTotal.waits, Refinement.at_eof. destruct (ContentReader.reader x); [|done]. cbn. by rewrite negb_true_iff. Qed.

(** One [read] at the end of the stream with invalid data ignored: the reader stays
    open, and takes a header from the stream or has less than one left. *)
Lemma read_at_end fuel x : Refinement.connected x -> (unread x < fuel)%nat ->
  Refinement.at_eof x = true -> x.(ContentReader.on_invalid_data) = kIgnore ->
  exists msg x', ContentReader.read fuel x = Ret (msg, x') /\ Refinement.keeps x x' /\
    ((unread x' + length content_length_colon <= unread x)%nat \/ (unread x' < length content_length_colon)%nat /\ msg = EmptyString).
Proof.
  intros Hc Hf He Hm. pose proof (Refinement.read_refines_frame fuel x Hc Hf) as Href. unfold Refinement.refines_read in Href.
  rewrite He, Hm in Href. destruct (Frames.frame _ _ _) as [[[msg bad] rest]| | |] eqn:E; [| |done..].
  - destruct Href as (x' & -> & Hs & Hk). apply FrameBounds.frame_progress in E. rewrite <-Hs in E. cbn in E.
    fold (unread x') (unread x) in E.
    assert (Hb : ContentReader.badHeader x' = (EmptyString, x')).
    { unfold ContentReader.badHeader. destruct Hk as (_ & -> & _). by rewrite Hm. }
    unfold Refinement.finish. cbn. rewrite Hb. destruct bad; eexists _, x'; (split_and!; [done..|]);
      (destruct E as [E|(E & -> & Hb')]; [left; lia|]); [done|by right].
  - by apply FrameBounds.frame_eof in E.
Qed.

(** The state of a session whose peer has gone, with a transport that is still open. *)
Record orphaned (env : schema) (k rank n : nat) (s : session) : Prop := {
  or_receiving : receiving env k rank n s;
  or_open : ContentReader.isOpen s.(Session.reader) = true;
  or_eof : Refinement.at_eof s.(Session.reader) = true;
  or_ignore : s.(Session.reader).(ContentReader.on_invalid_data) = kIgnore
}.

Lemma recv_turn_at_end env k rank n fuel s :
  schema_decodable env k rank -> orphaned env k rank n s -> (receive_fuel k rank n <= fuel)%nat ->
  exists s', Session.recv_turn env fuel s = Ret (Some s') /\ orphaned env k rank n s' /\
    ((unread s'.(Session.reader) + length content_length_colon <= unread s.(Session.reader))%nat \/
     (unread s'.(Session.reader) < length content_length_colon)%nat /\
      s' = Session.set_reader s'.(Session.reader) s).
Proof using HP.
  intros Henv [Hr Ho He Hm] Hf. pose proof (recv_turn_total env k rank n fuel s Henv Hr Hf) as Ht.
  destruct (connected_ok _ _ (rc_reader _ _ _ _ _ Hr) Ho) as [Hc Hn].
  destruct (read_at_end fuel (Session.reader s) Hc) as (msg & x & Hx & Hk & Hp); [unfold receive_fuel in Hf; lia|done..|].
  destruct (Session.recv_turn env fuel s) as [[s'|]| | |] eqn:E; [|congruence|apply waits_eof in Ht; congruence|done..].
  assert (Hs' : s'.(Session.reader) = x /\ (msg = EmptyString -> s' = Session.set_reader x s)).
  { revert E. unfold Session.recv_turn, Session.getPayload. rewrite Ho, Hx. cbn [negb]. rewrite outcome_bind_ret_l.
    destruct (size_of (bytes_of msg) >? 0) eqn:Esz; cbn.
    - destruct (Session.processMessage _ _ _ _) as [[p s2]| | |] eqn:Ep; [|done..]. cbn. intros [= <-].
      destruct (processMessage_keeps _ _ _ _ _ Ep) as [Hrd _]. cbn in Hrd. split; [by destruct p|].
      intros ->. done.
    - by intros [= <-]. }
  destruct Hs' as [Hrd Hsame]. exists s'. split; [done|]. destruct Ht as [Hr' He']. rewrite Hrd.
  destruct Hk as (_ & Hmode & Heof & Hopen & _). split.
  - split; rewrite ?Hrd; [done|congruence..].
  - destruct Hp as [Hp|[Hp ->]]; [by left|right]. split; [done|]. by apply Hsame.
Qed.

Lemma recv_turns_at_end env k rank n fuel turns s :
  schema_decodable env k rank -> orphaned env k rank n s -> (receive_fuel k rank n <= fuel)%nat ->
  exists s', recv_turns env fuel turns s = Ret s' /\ orphaned env k rank n s' /\
    ((unread s'.(Session.reader) + turns <= unread s.(Session.reader))%nat \/
     (unread s'.(Session.reader) < length content_length_colon)%nat) /\
    ((unread s.(Session.reader) < length content_length_colon)%nat ->
      s' = Session.set_reader s'.(Session.reader) s).
Proof using HP.
  intros Henv Hs Hf. revert s Hs. induction turns as [|turns IH]; intros s Hs; cbn [recv_turns].
  { exists s. split_and!; [done|done|left; lia|]. by destruct s. }
  destruct (recv_turn_at_end env k rank n fuel s Henv Hs Hf) as (s1 & -> & Hs1 & Hp1). rewrite outcome_bind_ret_l.
  destruct (IH s1 Hs1) as (s' & -> & Hs' & Hp & Hsame). exists s'.
  change (length content_length_colon) with 15%nat in *. split_and!; [done|done|lia|].
  intros Hshort. destruct Hp1 as [Hp1|[Hp1 Heq]]; [lia|]. rewrite (Hsame Hp1), Heq. done.
Qed.

(** The receiving thread does not notice the end of a stream: when the transport
    is at its end but open (a [File] or [StringBuffer] that was read to the end) and
    invalid data is ignored, which is the default, the test of the thread's loop stays
    true for ever; after at most as many turns as there were bytes, a turn changes
    nothing but the reader, so the thread spins and [onClose] is never called. *)
Theorem session_ignores_end_of_stream env k rank n fuel turns more s :
  schema_decodable env k rank -> orphaned env k rank n s -> (receive_fuel k rank n <= fuel)%nat ->
  (n <= turns)%nat ->
  exists s' x, recv_turns env fuel turns s = Ret s' /\ ContentReader.isOpen s'.(Session.reader) = true /\
    recv_turns env fuel more s' = Ret (Session.set_reader x s') /\ ContentReader.isOpen x = true.
Proof using HP.
  intros Henv Hs Hf Hn. destruct (recv_turns_at_end env k rank n fuel turns s Henv Hs Hf) as (s' & -> & Hs' & Hp & _).
  destruct (recv_turns_at_end env k rank n fuel more s' Henv Hs' Hf) as (s2 & Hr & Hs2 & _ & Heq).
  destruct (connected_ok _ _ (rc_reader _ _ _ _ _ (or_receiving _ _ _ _ _ Hs)) (or_open _ _ _ _ _ Hs)) as [_ Hu].
  exists s', s2.(Session.reader). split_and!; [done|apply Hs'| |apply Hs2]. rewrite Hr. f_equal. apply Heq.
  change (length content_length_colon) with 15%nat in *. lia.
Qed.

End AtEnd.


(** ** Witnesses: a session whose peer sends garbage and hangs up *)
Definition wild : bytes :=
  bytes_of "GET / HTTP/1.1" ++ encode "not json" ++ bytes_of "Content-Length: 99999999999999999999999" ++
  encode (text_of terminated_without_body) ++ bytes_of "Content-L".

(** In three chunks, of which one is empty. *)
Definition wild_transport : StringBuffer.t :=
  (StringBuffer.write (StringBuffer.write (StringBuffer.write StringBuffer.create (take 7 wild)).2 []).2 (drop 7 wild)).2.

Definition listener : endpoint :=
  Session.put_request protocol_schema set_breakpoints (request_handler set_breakpoints_response accept)
    (Session.put_event protocol_schema (TStruct "TerminatedEvent") 5%nat (Session.put_error tt Session.create)).

Lemma listener_registering : registering protocol_schema protocol_depth protocol_rank listener.
Proof.
  apply registering_put_request; [by_compute|]. apply registering_put_event; [by_compute|].
  apply registering_put_error, registering_create.
Qed.

Definition wild_session : endpoint := (Session.bind wild_transport StringBuffer.create listener).2.

Lemma wild_receiving :
  receiving protocol_schema protocol_depth protocol_rank (length wild) wild_session.
Proof.
  replace (length wild) with (rt_left wild_transport) by (vm_compute; reflexivity).
  apply (receiving_bind protocol_schema protocol_depth protocol_rank wild_transport StringBuffer.create listener); [apply listener_registering|].
  split; [vm_compute; reflexivity|]. repeat constructor; by_compute.
Qed.


(** A file that was read to its end. *)
Abbreviation file_endpoint := (Session.t File.t StringBuffer.t unit nat nat nat).

Definition ended_file : File.t := File.mk (File.mkFILE (bytes_of "Content-Leng") [] 0 true) false false.

Definition ended_session : file_endpoint := (Session.bind ended_file StringBuffer.create Session.create).2.

Lemma ended_orphaned : orphaned protocol_schema protocol_depth protocol_rank 12 ended_session.
Proof.
  split; [|reflexivity..].
  exact (receiving_bind protocol_schema protocol_depth protocol_rank ended_file StringBuffer.create Session.create
    (registering_create _ _ _) eq_refl).
Qed.

Lemma session_ignores_end_of_stream_witness : exists (s' : file_endpoint) x,
  recv_turns (D := lib_des) (Ser := lib_ser) (FS := lib_fs) protocol_schema 100 12 ended_session = Ret s' /\
  recv_turns (D := lib_des) (Ser := lib_ser) (FS := lib_fs) protocol_schema 100 1000 s' = Ret (Session.set_reader x s') /\
  ContentReader.isOpen x = true.
Proof.
  destruct (session_ignores_end_of_stream (D := lib_des) (Ser := lib_ser) (FS := lib_fs) protocol_schema protocol_depth
    protocol_rank 12 100 12 1000 ended_session protocol_decodable ended_orphaned ltac:(by_compute) ltac:(lia))
    as (s' & x & Hs & _ & Hr & Ho).
  exists s', x. split_and!; [exact Hs|exact Hr|exact Ho].
Defined.
End ReceiveProps.
