(* ===== verification/Streams.v ===== *)
(** * Shared streams ([src/io.cpp])

    Readers and writers are objects behind [shared_ptr]s, and the same object can be
    part of several others: a pipe that is both ends of a [ReaderWriter], a log two
    spies write to, a [FILE] that two [File]s use. Here they live in a heap: a pointer is
    [None] ([nullptr]) or the index of an object, the factories of [io.cpp] allocate, and
    a virtual call goes to the object its pointer names. A [FILE] of the C library is an
    object of the heap too, so that the [File]s made of one [FILE*] share it. The methods
    of the single objects are those of [IO.v] and [Pipe.v].

    [hazard] names what can go wrong in a call: a part of the stream that is [nullptr], a
    [FILE] used after it was closed, and a [FILE] that is closed twice because two
    closable [File]s have it. *)
From Stdlib Require Import Ascii String ZArith Lia.
From stdpp Require Import base list.
From S2P Require Import Prelude IO Pipe Receive.

Definition ptr : Type := option nat.

Inductive object :=
| APipe (p : Pipe.t)
| AFile (f : ptr) (closable closed : bool)
| ABuffer (b : StringBuffer.t)
| ARW (r w : ptr)
| AReaderSpy (r s : ptr) (prefix : bytes)
| AWriterSpy (w s : ptr) (prefix : bytes)
| AFILE (x : File.FILE).

Abbreviation heap := (list object).

Module Streams.

(** ** The factories *)
Definition make_shared (o : object) (h : heap) : ptr * heap := (Some (length h), h ++ [o]).

Definition create (r w : ptr) (h : heap) : ptr * heap := make_shared (ARW r w) h.

Definition pipe (h : heap) : ptr * heap := make_shared (APipe Pipe.create) h.

Definition file (f : ptr) (closable : bool) (h : heap) : ptr * heap := make_shared (AFile f closable false) h.

(** [file(path)]: what [fopen(path, wb)] returned. *)
Definition file_path (fopen : option File.FILE) (h : heap) : ptr * heap :=
  match fopen with
  | Some x => let '(f, h) := make_shared (AFILE x) h in make_shared (AFile f true false) h
  | None => (None, h)
  end.

Definition spy_reader (r s : ptr) (prefix : string) (h : heap) : ptr * heap :=
  make_shared (AReaderSpy r s (bytes_of prefix)) h.

Definition spy_writer (w s : ptr) (prefix : string) (h : heap) : ptr * heap :=
  make_shared (AWriterSpy w s (bytes_of prefix)) h.

(** The default prefixes, as [io.h] declares them. *)
Definition read_prefix : string := String LF "->".
Definition write_prefix : string := String LF "<-".

(** ** Virtual calls *)
Definition object_at (h : heap) (p : ptr) : outcome (nat * object) :=
  l ← deref p;
  match h !! l with Some o => Ret (l, o) | None => Undefined end.

(** A method of one object, which stores the object's new state. *)
Definition update {A X} (l : nat) (wrap : X -> object) (m : outcome (A * X)) (h : heap) : outcome (A * heap) :=
  '(a, x) ← m; Ret (a, <[l := wrap x]> h).

(** The [FILE] a [File] points to. *)
Definition file_at (h : heap) (f : ptr) : outcome (nat * File.FILE) :=
  '(l, o) ← object_at h f;
  match o with AFILE x => Ret (l, x) | _ => Undefined end.

(** The methods of [File]: those of [IO.v] on the shared [FILE]. *)
Definition file_write (f : ptr) (closable closed : bool) (bs : bytes) (h : heap) : outcome (bool * heap) :=
  '(l, x) ← file_at h f;
  update l (fun y => AFILE y.(File.f)) (File.write (File.mk x closable closed) bs) h.

Definition file_read (f : ptr) (closable closed : bool) (n : Z) (h : heap) : outcome (bytes * heap) :=
  if n =? 0 then Ret ([], h)
  else
    '(l, x) ← file_at h f;
    update l (fun y => AFILE y.(File.f)) (File.read (File.mk x closable closed) n) h.

Definition file_close (me : nat) (f : ptr) (closable closed : bool) (h : heap) : outcome heap :=
  if closable then
    if closed then Ret h
    else
      '(l, x) ← file_at h f;
      x ← File.fclose x;
      Ret (<[me := AFile f closable true]> (<[l := AFILE x]> h))
  else Ret h.

Fixpoint isOpen (fuel : nat) (p : ptr) (h : heap) : outcome bool :=
  match fuel with
  | O => OutOfFuel
  | S fuel =>
    '(_, o) ← object_at h p;
    match o with
    | APipe x => Ret (IO.isOpen x)
    | AFile _ _ closed => Ret (negb closed)
    | ABuffer x => Ret (IO.isOpen x)
    | ARW r w => b ← isOpen fuel r h; if b : bool then isOpen fuel w h else Ret false
    | AReaderSpy r _ _ => isOpen fuel r h
    | AWriterSpy w _ _ => isOpen fuel w h
    | AFILE _ => Undefined
    end
  end.

Fixpoint close (fuel : nat) (p : ptr) (h : heap) : outcome heap :=
  match fuel with
  | O => OutOfFuel
  | S fuel =>
    '(l, o) ← object_at h p;
    match o with
    | APipe x => Ret (<[l := APipe (IO.close x)]> h)
    | AFile f closable closed => file_close l f closable closed h
    | ABuffer x => Ret (<[l := ABuffer (IO.close x)]> h)
    | ARW r w => h ← close fuel r h; close fuel w h
    | AReaderSpy r _ _ => close fuel r h
    | AWriterSpy w _ _ => close fuel w h
    | AFILE _ => Undefined
    end
  end.

Fixpoint write (fuel : nat) (p : ptr) (bs : bytes) (h : heap) : outcome (bool * heap) :=
  match fuel with
  | O => OutOfFuel
  | S fuel =>
    '(l, o) ← object_at h p;
    match o with
    | APipe x => update l APipe (IO.write x bs) h
    | AFile f closable closed => file_write f closable closed bs h
    | ABuffer x => update l ABuffer (IO.write x bs) h
    | ARW _ w => write fuel w bs h
    | AReaderSpy _ _ _ | AFILE _ => Undefined
    | AWriterSpy w s prefix =>
      '(ok, h) ← write fuel w bs h;
      if negb ok then Ret (false, h)
      else '(_, h) ← write fuel s (prefix ++ bs) h; Ret (true, h)
    end
  end.

Fixpoint read (fuel : nat) (p : ptr) (n : Z) (h : heap) : outcome (bytes * heap) :=
  match fuel with
  | O => OutOfFuel
  | S fuel =>
    '(l, o) ← object_at h p;
    match o with
    | APipe x => update l APipe (IO.read x n) h
    | AFile f closable closed => file_read f closable closed n h
    | ABuffer x => update l ABuffer (IO.read x n) h
    | ARW r _ => read fuel r n h
    | AReaderSpy r s prefix =>
      '(bs, h) ← read fuel r n h;
      if size_of bs >? 0 then '(_, h) ← write fuel s (prefix ++ bs) h; Ret (bs, h)
      else Ret (bs, h)
    | AWriterSpy _ _ _ | AFILE _ => Undefined
    end
  end.
End Streams.

(** ** The heaps the factories make *)
Module StreamsFacts.
Import Streams.

Definition reads (o : object) : bool := match o with AWriterSpy _ _ _ | AFILE _ => false | _ => true end.
Definition writes (o : object) : bool := match o with AReaderSpy _ _ _ | AFILE _ => false | _ => true end.
Definition stream (o : object) : bool := match o with AFILE _ => false | _ => true end.
Definition is_FILE (o : object) : bool := match o with AFILE _ => true | _ => false end.
Definition leaf (o : object) : bool := match o with APipe _ | AFile _ _ _ | ABuffer _ => true | _ => false end.

(** [nullptr], or a pointer to an object below [i] of the kind wanted. *)
Definition points (h : heap) (i : nat) (p : ptr) (want : object -> bool) : Prop :=
  match p with
  | None => True
  | Some j => (j < i)%nat /\ exists o, h !! j = Some o /\ want o = true
  end.

Definition object_ok (h : heap) (i : nat) (o : object) : Prop :=
  match o with
  | APipe _ | AFILE _ => True
  | AFile f _ _ => points h i f is_FILE
  | ABuffer b => StringBuffer.inv b
  | ARW r w => points h i r reads /\ points h i w writes
  | AReaderSpy r s _ => points h i r reads /\ points h i s writes
  | AWriterSpy w s _ => points h i w writes /\ points h i s writes
  end.

Definition wf (h : heap) : Prop := forall i o, h !! i = Some o -> object_ok h i o.

(** ** What a call uses *)
Inductive method := IsOpen | Close | Read | Write.

(** The calls a method makes on the parts of its object. *)
Definition calls (m : method) (o : object) : list (method * ptr) :=
  match o, m with
  | ARW r w, (IsOpen | Close) => [(m, r); (m, w)]
  | ARW r _, Read => [(Read, r)]
  | ARW _ w, Write => [(Write, w)]
  | AReaderSpy r s _, Read => [(Read, r); (Write, s)]
  | AReaderSpy r _ _, (IsOpen | Close) => [(m, r)]
  | AWriterSpy w s _, Write => [(Write, w); (Write, s)]
  | AWriterSpy w _ _, (IsOpen | Close) => [(m, w)]
  | _, _ => []
  end.

(** A call of [m] on [p] can lead to one of [m'] on [p']. *)
Inductive reaches (h : heap) : method -> ptr -> method -> ptr -> Prop :=
| reaches_self m p : reaches h m p m p
| reaches_part m l o m1 p1 m' p' :
    h !! l = Some o -> (m1, p1) ∈ calls m o -> reaches h m1 p1 m' p' -> reaches h m (Some l) m' p'.

(** Does the method use the [FILE] of a [File]? *)
Definition touches (m : method) (closable closed : bool) : bool :=
  match m with IsOpen => false | Close => closable && negb closed | Read | Write => true end.

(** A [FILE*] that must not be used: null, or closed. *)
Definition dead (h : heap) (f : ptr) : Prop :=
  match f with None => True | Some l => exists x, h !! l = Some (AFILE x) /\ x.(File.f_open) = false end.

(** What a call on a stream can run into: a part that is [nullptr], a [File] it uses
    whose [FILE] is dead, or two [File]s it closes with the same [FILE]. *)
Inductive hazard (h : heap) (m : method) (p : ptr) : Prop :=
| hazard_null m' : reaches h m p m' None -> hazard h m p
| hazard_dead m' l f closable closed :
    reaches h m p m' (Some l) -> h !! l = Some (AFile f closable closed) -> touches m' closable closed = true ->
    dead h f -> hazard h m p
| hazard_twice l1 l2 f :
    m = Close -> l1 <> l2 -> reaches h m p Close (Some l1) -> reaches h m p Close (Some l2) ->
    h !! l1 = Some (AFile f true false) -> h !! l2 = Some (AFile f true false) -> hazard h m p.

Lemma hazard_part h m l o m1 p1 : h !! l = Some o -> (m1, p1) ∈ calls m o -> hazard h m1 p1 -> hazard h m (Some l).
Proof.
  intros Hl Hin Hh. assert (Hr : forall m' p', reaches h m1 p1 m' p' -> reaches h m (Some l) m' p')
    by (intros; by eapply reaches_part).
  destruct Hh as [m' Hn|m' l' f c d Hr' Hl' Ht Hd|l1 l2 f -> Hne H1 H2 Hl1 Hl2].
  - eapply hazard_null. by apply Hr.
  - eapply hazard_dead; [by apply Hr|done..].
  - assert (m = Close) as -> by (destruct o, m; cbn in Hin; set_solver).
    eapply hazard_twice; [done|exact Hne|by apply Hr|by apply Hr|done..].
Qed.

(** ** What calls change

    [skel] forgets the state of an object and keeps its parts; [mark] also keeps what
    a hazard depends on, the flag of a [File] and whether a [FILE] is open. *)
Definition skel (o : object) : object :=
  match o with
  | APipe _ => APipe Pipe.create
  | AFile f closable _ => AFile f closable false
  | ABuffer _ => ABuffer StringBuffer.create
  | AFILE _ => AFILE (File.mkFILE [] [] 0 true)
  | o => o
  end.

Definition mark (o : object) : object :=
  match o with
  | APipe _ => APipe Pipe.create
  | ABuffer _ => ABuffer StringBuffer.create
  | AFILE x => AFILE (File.mkFILE [] [] 0 x.(File.f_open))
  | o => o
  end.

Definition alike (h h' : heap) : Prop := skel <$> h' = skel <$> h.
Definition same (h h' : heap) : Prop := mark <$> h' = mark <$> h.

Lemma same_alike h h' : same h h' -> alike h h'.
Proof.
  unfold same, alike. intros H. assert (E : forall l : heap, skel <$> l = skel <$> (mark <$> l)).
  { intros l. rewrite <-list_fmap_compose. apply list_fmap_ext. intros i x _. by destruct x. }
  by rewrite (E h'), H, <-(E h).
Qed.

Lemma fmap_lookup {B} (f : object -> B) (h h' : heap) i o : f <$> h' = f <$> h -> h !! i = Some o ->
  exists o', h' !! i = Some o' /\ f o' = f o.
Proof.
  intros He Hi. assert (Hf : (f <$> h') !! i = Some (f o)) by (rewrite He, list_lookup_fmap, Hi; done).
  rewrite list_lookup_fmap in Hf. destruct (h' !! i) as [o'|]; [|done]. cbn in Hf. injection Hf as Hf. by exists o'.
Qed.

Lemma fmap_insert {B} (f : object -> B) (h : heap) l o o' : h !! l = Some o -> f o' = f o -> f <$> <[l := o']> h = f <$> h.
Proof. intros Hl Ho. rewrite list_fmap_insert, Ho. apply list_insert_id. by rewrite list_lookup_fmap, Hl. Qed.

Lemma alike_file h h' l f c d : alike h h' -> h !! l = Some (AFile f c d) -> exists d', h' !! l = Some (AFile f c d').
Proof. intros Ha Hl. destruct (fmap_lookup _ _ _ _ _ Ha Hl) as ([] & Hl' & [= -> ->]). by eexists. Qed.

Lemma same_file h h' l f c d : same h h' -> h !! l = Some (AFile f c d) -> h' !! l = Some (AFile f c d).
Proof. intros Ha Hl. by destruct (fmap_lookup _ _ _ _ _ Ha Hl) as ([] & Hl' & [= -> -> ->]). Qed.

Lemma points_alike h h' i p want : alike h h' -> (forall o, want o = want (skel o)) -> points h i p want -> points h' i p want.
Proof.
  intros Ha Hw. destruct p as [j|]; [|done]. intros [Hj (o & Ho & Hwo)]. split; [done|].
  destruct (fmap_lookup _ _ _ _ _ Ha Ho) as (o' & Ho' & He). exists o'. split; [done|]. by rewrite Hw, He, <-Hw.
Qed.

Lemma want_skel o : reads o = reads (skel o) /\ writes o = writes (skel o) /\ is_FILE o = is_FILE (skel o).
Proof. by destruct o. Qed.

Lemma wf_alike h h' : wf h -> alike h h' -> (forall i b, h' !! i = Some (ABuffer b) -> StringBuffer.inv b) -> wf h'.
Proof.
  intros Hw Ha Hb i o' Ho'. destruct (fmap_lookup _ _ _ _ _ (eq_sym Ha) Ho') as (o & Ho & He). specialize (Hw i o Ho).
  assert (Hp : forall p, (points h i p reads -> points h' i p reads) /\ (points h i p writes -> points h' i p writes) /\
    (points h i p is_FILE -> points h' i p is_FILE)).
  { intros p. split_and!; apply points_alike; try done; intros x; apply want_skel. }
  destruct o, o'; try done; cbn in He; simplify_eq; cbn in *; try (by apply (Hb i)); try done; try (by apply Hp);
    destruct Hw; split; by apply Hp.
Qed.

(** One object gets a new state. *)
Lemma wf_insert h l o o' : wf h -> h !! l = Some o -> skel o' = skel o ->
  (forall b, o' = ABuffer b -> StringBuffer.inv b) -> wf (<[l := o']> h).
Proof.
  intros Hw Hl Ho Hb. apply (wf_alike h); [done|by apply (fmap_insert skel h l o)|].
  intros i b Hi. apply list_lookup_insert_Some in Hi as [(<- & -> & _)|[_ Hi]]; [by apply Hb|exact (Hw _ _ Hi)].
Qed.

Lemma calls_skel m o : calls m (skel o) = calls m o.
Proof. by destruct o, m. Qed.

Lemma reaches_alike h h' m p m' p' : alike h h' -> reaches h m p m' p' -> reaches h' m p m' p'.
Proof.
  intros Ha. induction 1 as [|m l o m1 p1 m' p' Hl Hin _ IH]; [constructor|].
  destruct (fmap_lookup _ _ _ _ _ Ha Hl) as (o' & Hl' & He).
  eapply reaches_part; [done| |done]. by rewrite <-calls_skel, He, calls_skel.
Qed.

Lemma dead_same h h' f : same h h' -> dead h f -> dead h' f.
Proof.
  intros Ha. destruct f as [l|]; [|done]. intros (x & Hl & Hx).
  destruct (fmap_lookup _ _ _ _ _ Ha Hl) as ([| | | | | |y] & Hl' & [= He]). exists y. split; [done|congruence].
Qed.

Lemma hazard_same h h' m p : same h h' -> hazard h m p -> hazard h' m p.
Proof.
  intros Hs Hh. pose proof (same_alike _ _ Hs) as Ha.
  destruct Hh as [m' Hr|m' l f c d Hr Hl Ht Hd|l1 l2 f Hm Hne H1 H2 Hl1 Hl2].
  - eapply hazard_null. by eapply reaches_alike.
  - eapply hazard_dead; [by eapply reaches_alike|by eapply same_file|done|by eapply dead_same].
  - eapply hazard_twice; [done|exact Hne|by eapply reaches_alike..|by eapply same_file|by eapply same_file].
Qed.

(** ** Reads and writes *)
Definition safe {A} (h : heap) (m : method) (p : ptr) (r : outcome (A * heap)) : Prop :=
  match r with
  | Ret (_, h') => wf h' /\ same h h'
  | Blocks => True
  | Undefined => hazard h m p
  | OutOfFuel => False
  end.

Lemma safe_part {A} h m l o m1 p1 (r : outcome (A * heap)) :
  h !! l = Some o -> (m1, p1) ∈ calls m o -> safe h m1 p1 r -> safe h m (Some l) r.
Proof. intros Hl Hin. destruct r as [[]| | |]; [done..| |done]. by apply (hazard_part h m l o). Qed.

Lemma stream_safe_bind {A B} h m p (r : outcome (A * heap)) (f : A * heap -> outcome (B * heap)) :
  safe h m p r -> (forall a h', r = Ret (a, h') -> wf h' -> same h h' -> safe h' m p (f (a, h'))) -> safe h m p (r ≫= f).
Proof.
  destruct r as [[a h']| | |]; [|done..]. intros (Hw & Hs) Hf. rewrite outcome_bind_ret_l.
  specialize (Hf a h' eq_refl Hw Hs). destruct (f (a, h')) as [[b h2]| | |]; [|done|by eapply (hazard_same h')|done].
  destruct Hf as (Hw2 & Hs2). split; [done|]. unfold same in *. congruence.
Qed.

(** A method of one object. *)
Lemma safe_update {A X} h m p l (wrap : X -> object) o (r : outcome (A * X)) :
  wf h -> h !! l = Some o ->
  match r with
  | Ret (_, y) => mark (wrap y) = mark o /\ forall b, wrap y = ABuffer b -> StringBuffer.inv b
  | Blocks => True
  | Undefined => hazard h m p
  | OutOfFuel => False
  end -> safe h m p (update l wrap r h).
Proof.
  intros Hw Hl Hm. unfold update. destruct r as [[a y]| | |]; [|done..]. destruct Hm as [Hok Hb]. cbn.
  assert (Hs : same h (<[l := wrap y]> h)) by by apply (fmap_insert mark h l o). split; [|done].
  eapply wf_insert; [done..| |done]. destruct (fmap_lookup skel h (<[l := wrap y]> h) l o (same_alike _ _ Hs) Hl) as (o' & Ho' & He).
  rewrite list_lookup_insert_eq in Ho' by by eapply lookup_lt_Some. by injection Ho' as <-.
Qed.

Lemma pipe_write_ok (p : Pipe.t) bs : exists ok p', IO.write p bs = Ret (ok, p').
Proof. cbn. destruct (Pipe.write p bs) as [[ok b] p']. by eexists _, _. Qed.

(** The [FILE] of a [File]: null, or one of the heap. *)
Lemma file_cases h l f c d : wf h -> h !! l = Some (AFile f c d) ->
  f = None \/ exists j x, f = Some j /\ h !! j = Some (AFILE x) /\ j <> l.
Proof.
  intros Hw Hl. specialize (Hw _ _ Hl). destruct f as [j|]; [right|by left]. destruct Hw as [Hj ([] & Hx & Ho)]; try done.
  exists j, x. split_and!; [done..|lia].
Qed.

(** A [File] and its [FILE]: the use of a live one. *)
Lemma file_use_safe {A} h m l f c d (g : File.FILE -> outcome (A * File.t)) :
  wf h -> h !! l = Some (AFile f c d) -> touches m c d = true ->
  (forall x, match g x with
    | Ret (_, y) => x.(File.f_open) = true /\ y.(File.f).(File.f_open) = true
    | Undefined => x.(File.f_open) = false
    | _ => False
    end) ->
  safe h m (Some l) ('(j, x) ← file_at h f; update j (fun y => AFILE y.(File.f)) (g x) h).
Proof.
  intros Hw Hl Ht Hg. assert (Hd : dead h f -> hazard h m (Some l)) by (intros; eapply hazard_dead; [apply reaches_self|done..]).
  destruct (file_cases _ _ _ _ _ Hw Hl) as [->|(j & x & -> & Hj & _)]; [by apply Hd|].
  unfold file_at, object_at. cbn [deref]. rewrite outcome_bind_ret_l, Hj, !outcome_bind_ret_l.
  eapply safe_update; [done|exact Hj|]. specialize (Hg x). destruct (g x) as [[a y]| | |]; [|done| |done].
  - destruct Hg as [Hx Hy]. split; [|done]. cbn. congruence.
  - apply Hd. by exists x.
Qed.

Lemma file_write_use x c d bs : match File.write (File.mk x c d) bs with
  | Ret (_, y) => x.(File.f_open) = true /\ y.(File.f).(File.f_open) = true
  | Undefined => x.(File.f_open) = false
  | _ => False
  end.
Proof. unfold File.write, File.fwrite. cbn. by destruct (File.f_open x). Qed.

Lemma file_read_use x c d n : 0 < n -> match File.read (File.mk x c d) n with
  | Ret (_, y) => x.(File.f_open) = true /\ y.(File.f).(File.f_open) = true
  | Undefined => x.(File.f_open) = false
  | _ => False
  end.
Proof.
  intros Hn. unfold File.read. cbn. destruct (File.f_open x) eqn:E; [by rewrite File.read_loop_spec|].
  destruct (Z.to_nat n) eqn:En; [lia|]. cbn. unfold File.fgetc. by rewrite E.
Qed.

Lemma leaf_write h l o bs : wf h -> h !! l = Some o -> leaf o = true ->
  safe h Write (Some l) match o with
         | APipe x => update l APipe (IO.write x bs) h
         | AFile f closable closed => file_write f closable closed bs h
         | ABuffer x => update l ABuffer (IO.write x bs) h
         | _ => Undefined
         end.
Proof.
  intros Hw Hl Ho. destruct o as [x|f c d|x| | | |]; try done.
  - eapply safe_update; [done|exact Hl|]. by destruct (pipe_write_ok x bs) as (ok & x' & ->).
  - eapply file_use_safe; [done|exact Hl|done|]. intros x. apply file_write_use.
  - eapply safe_update; [done|exact Hl|]. cbn. pose proof (StringBuffer.write_inv x bs (Hw _ _ Hl)) as Hi.
    destruct (StringBuffer.write x bs). split; [done|]. by intros b' [= <-].
Qed.

Lemma leaf_read h l o n : wf h -> h !! l = Some o -> leaf o = true -> 0 < n ->
  safe h Read (Some l) match o with
         | APipe x => update l APipe (IO.read x n) h
         | AFile f closable closed => file_read f closable closed n h
         | ABuffer x => update l ABuffer (IO.read x n) h
         | _ => Undefined
         end.
Proof.
  intros Hw Hl Ho Hn. destruct o as [x|f c d|x| | | |]; try done.
  - eapply safe_update; [done|exact Hl|]. pose proof (contract_read x n I Hn) as Hr.
    by destruct (IO.read x n) as [[bs x']| | |].
  - unfold file_read. rewrite (proj2 (Z.eqb_neq n 0)) by lia.
    eapply file_use_safe; [done|exact Hl|done|]. intros x. by apply file_read_use.
  - eapply safe_update; [done|exact Hl|]. pose proof (rt_read x n (Hw _ _ Hl : rt_ok x) Hn) as Hr.
    destruct (IO.read x n) as [[bs x']| | |]; [|done..]. destruct Hr as (_ & Hok & _). split; [done|]. by intros b [= <-].
Qed.

Lemma null_safe {A} h m : safe (A := A) h m None Undefined.
Proof. eapply hazard_null, reaches_self. Qed.

(** A pointer that is not null stays one of its kind. *)
Lemma points_same h h' i p want : same h h' -> (forall o, want o = want (skel o)) -> points h i p want -> points h' i p want.
Proof. intros Hs. by apply points_alike, same_alike. Qed.

Lemma write_safe fuel h i p bs : wf h -> points h i p writes -> (i < fuel)%nat -> safe h Write p (write fuel p bs h).
Proof.
  revert h i p bs. induction fuel as [|fuel IH]; intros h i p bs Hw Hp Hf; [lia|]. destruct p as [l|]; [|apply null_safe].
  destruct Hp as [Hl (o & Ho & Hwo)]. cbn. rewrite Ho. cbn. pose proof (Hw l o Ho) as Hok.
  destruct o as [x|f c d|x|r w|r s px|w s px|x]; try done.
  1-3: exact (leaf_write h l _ bs Hw Ho eq_refl).
  - destruct Hok as [_ Hok]. eapply (safe_part h Write l _ Write w); [done|set_solver|]. eapply IH; [done..|lia].
  - destruct Hok as [Hpw Hps]. apply stream_safe_bind.
    + eapply (safe_part h Write l _ Write w); [done|set_solver|]. eapply IH; [done..|lia].
    + intros b h' _ Hw' Hs. destruct b; cbn; [|by split]. apply stream_safe_bind; [|intros; by split].
      destruct (fmap_lookup _ _ _ _ _ Hs Ho) as ([] & Hl' & [= -> -> ->]).
      eapply (safe_part h' Write l _ Write s); [done|set_solver|]. apply (IH h' l); [done| |lia].
      eapply points_same; [done| |done]. intros x. apply want_skel.
Qed.

Lemma read_safe fuel h i p n : wf h -> points h i p reads -> (i < fuel)%nat -> 0 < n -> safe h Read p (read fuel p n h).
Proof.
  revert h i p. induction fuel as [|fuel IH]; intros h i p Hw Hp Hf Hn; [lia|]. destruct p as [l|]; [|apply null_safe].
  destruct Hp as [Hl (o & Ho & Hwo)]. cbn. rewrite Ho. cbn. pose proof (Hw l o Ho) as Hok.
  destruct o as [x|f c d|x|r w|r s px|w s px|x]; try done.
  1-3: exact (leaf_read h l _ n Hw Ho eq_refl Hn).
  - destruct Hok as [Hok _]. eapply (safe_part h Read l _ Read r); [done|set_solver|]. eapply IH; [done..|lia|done].
  - destruct Hok as [Hpr Hps]. apply stream_safe_bind.
    + eapply (safe_part h Read l _ Read r); [done|set_solver|]. eapply IH; [done..|lia|done].
    + intros bs h' _ Hw' Hs. destruct (size_of bs >? 0); [|by split]. apply stream_safe_bind; [|intros; by split].
      destruct (fmap_lookup _ _ _ _ _ Hs Ho) as ([] & Hl' & [= -> -> ->]).
      eapply (safe_part h' Read l _ Write s); [done|set_solver|]. eapply (write_safe fuel h' l); [done| |lia].
      eapply points_same; [done| |done]. intros x. apply want_skel.
Qed.

Lemma points_stream h i p want : points h i p want -> (forall o, want o = true -> stream o = true) -> points h i p stream.
Proof. intros Hp Hw. destruct p as [j|]; [|done]. destruct Hp as (? & o & ? & ?). split; [done|]. exists o. auto. Qed.

Lemma reads_stream o : reads o = true -> stream o = true.
Proof. by destruct o. Qed.
Lemma writes_stream o : writes o = true -> stream o = true.
Proof. by destruct o. Qed.

Lemma isOpen_safe fuel h i p : wf h -> points h i p stream -> (i < fuel)%nat ->
  match isOpen fuel p h with Ret _ => True | Undefined => hazard h IsOpen p | _ => False end.
Proof.
  revert i p. induction fuel as [|fuel IH]; intros i p Hw Hp Hf; [lia|]. destruct p as [l|]; [|eapply hazard_null, reaches_self].
  destruct Hp as [Hl (o & Ho & Hwo)]. cbn. rewrite Ho. cbn. pose proof (Hw l o Ho) as Hok.
  assert (Hpart : forall q, (IsOpen, q) ∈ calls IsOpen o -> points h l q stream ->
    match isOpen fuel q h with Ret _ => True | Undefined => hazard h IsOpen (Some l) | _ => False end).
  { intros q Hq Hs. specialize (IH l q Hw Hs ltac:(lia)). destruct (isOpen fuel q h); [done..| |done].
    by apply (hazard_part h IsOpen l o IsOpen q). }
  destruct o as [x|f c d|x|r w|r s px|w s px|x]; try done.
  - destruct Hok as [Hr Hq]. apply points_stream in Hr, Hq; [|apply writes_stream|apply reads_stream].
    pose proof (Hpart r ltac:(set_solver) Hr) as Hir. destruct (isOpen fuel r h) as [[]| | |]; cbn; [|done..].
    apply Hpart; [set_solver|done].
  - destruct Hok as [Hr _]. apply Hpart; [set_solver|]. eapply points_stream; [done|apply reads_stream].
  - destruct Hok as [Hr _]. apply Hpart; [set_solver|]. eapply points_stream; [done|apply writes_stream].
Qed.

(** ** Closing *)

(** What [close] of [p] leaves: [File]s are only closed, and a [FILE] it closed is that
    of a [File] it closed. *)
Record closed_by (h : heap) (p : ptr) (h' : heap) : Prop := {
  cb_wf : wf h';
  cb_alike : alike h h';
  cb_open l f c : h' !! l = Some (AFile f c false) -> h !! l = Some (AFile f c false);
  cb_dead f : dead h' f -> dead h f \/ exists l, reaches h Close p Close (Some l) /\
    h !! l = Some (AFile f true false) /\ h' !! l = Some (AFile f true true)
}.

Definition close_ok (h : heap) (p : ptr) (r : outcome heap) : Prop :=
  match r with Ret h' => closed_by h p h' | Undefined => hazard h Close p | _ => False end.

Lemma closed_by_same h p h' : wf h' -> same h h' -> closed_by h p h'.
Proof.
  intros Hw Hs. split; [done|by apply same_alike|..].
  - intros l f c Hl. by eapply same_file.
  - intros f Hd. left. by eapply dead_same.
Qed.

Lemma reaches_close h p m q : reaches h Close p m q -> m = Close.
Proof.
  remember Close as m0 eqn:E. intros Hr. revert E. induction Hr as [|m l o m1 p1 m' p' _ Hin _ IH]; [done|].
  intros ->. assert (m1 = Close) as -> by (destruct o; cbn in Hin; set_solver). by apply IH.
Qed.

Lemma close_part h l o q r : h !! l = Some o -> (Close, q) ∈ calls Close o -> close_ok h q r -> close_ok h (Some l) r.
Proof.
  intros Hl Hin. destruct r as [h'| | |]; [|done| |done]; [|by apply (hazard_part h Close l o)].
  intros [Hw Ha Ho Hd]. split; [done..|]. intros f Hf. destruct (Hd f Hf) as [?|(l' & Hr & ? & ?)]; [by left|right].
  exists l'. split; [|done]. by eapply reaches_part.
Qed.

(** A second [close]: what it finds closed, the first one closed. *)
Lemma hazard_after h l h1 r w : h !! l = Some (ARW r w) -> closed_by h r h1 -> hazard h1 Close w -> hazard h Close (Some l).
Proof.
  intros Hl [Hw Ha Ho Hd] Hh. assert (Hback : forall m q, reaches h1 Close w m q -> reaches h Close (Some l) m q).
  { intros m q Hq. eapply reaches_part; [done|right; left|]. by eapply reaches_alike. }
  destruct Hh as [m' Hr|m' l' f c d Hr Hl' Ht Hf|l1 l2 f _ Hne H1 H2 Hl1 Hl2].
  - eapply hazard_null. by apply Hback.
  - pose proof (reaches_close _ _ _ _ Hr) as ->. cbn in Ht. apply andb_true_iff in Ht as [-> Hd'%negb_true_iff]. subst d.
    pose proof (Ho _ _ _ Hl') as Hl0. destruct (Hd f Hf) as [Hf0|(l'' & Hr'' & Hl'' & Hc)].
    + eapply hazard_dead; [by apply Hback|done..].
    + eapply (hazard_twice _ _ _ l'' l' f); [done|intros ->; congruence| |by apply Hback|done..].
      eapply reaches_part; [done|left|done].
  - eapply hazard_twice; [done|exact Hne|by apply Hback|by apply Hback|by apply Ho|by apply Ho].
Qed.

Lemma closed_by_then h l h1 h2 r w :
  h !! l = Some (ARW r w) -> closed_by h r h1 -> closed_by h1 w h2 -> closed_by h (Some l) h2.
Proof.
  intros Hl [Hw1 Ha1 Ho1 Hd1] [Hw2 Ha2 Ho2 Hd2]. split; [done|unfold alike in *; congruence|eauto|].
  intros f Hf. destruct (Hd2 f Hf) as [Hf1|(l' & Hr & Hl1 & Hl2)].
  - destruct (Hd1 f Hf1) as [?|(l' & Hr & Hl0 & Hl1)]; [by left|right]. exists l'. split_and!; [|done|].
    + eapply reaches_part; [done|left|done].
    + destruct (alike_file _ _ _ _ _ _ Ha2 Hl1) as [[] H2]; [done|]. apply Ho2 in H2. congruence.
  - right. exists l'. split_and!; [|by apply Ho1|done]. eapply reaches_part; [done|right; left|]. by eapply reaches_alike.
Qed.

Lemma file_close_ok h l f c d : wf h -> h !! l = Some (AFile f c d) -> close_ok h (Some l) (file_close l f c d h).
Proof.
  intros Hw Hl. assert (Hkeep : closed_by h (Some l) h) by by apply closed_by_same.
  unfold file_close. destruct c; [|done]. destruct d; [done|].
  assert (Hd : dead h f -> hazard h Close (Some l)) by (intros; eapply hazard_dead; [apply reaches_self|done..]).
  destruct (file_cases _ _ _ _ _ Hw Hl) as [->|(j & x & -> & Hj & Hne)]; [by apply Hd|].
  unfold file_at, object_at. cbn [deref]. rewrite outcome_bind_ret_l, Hj, !outcome_bind_ret_l. unfold File.fclose.
  destruct (File.f_open x) eqn:Ex; [|apply Hd; by exists x]. cbn.
  set (x' := File.mkFILE _ _ _ _). set (h' := <[l := _]> _).
  assert (Hl' : h' !! l = Some (AFile (Some j) true true))
    by (apply list_lookup_insert_eq; rewrite length_insert; by eapply lookup_lt_Some).
  assert (Hj' : forall i o, i <> l -> h' !! i = Some o -> i = j /\ o = AFILE x' \/ h !! i = Some o).
  { intros i o Hi Ho. unfold h' in Ho. rewrite list_lookup_insert_ne in Ho by done.
    apply list_lookup_insert_Some in Ho as [(<- & <- & _)|[_ Ho]]; auto. }
  assert (Ha : alike h h').
  { unfold alike, h'. rewrite (fmap_insert skel _ l (AFile (Some j) true false)); [by apply (fmap_insert skel h j (AFILE x))| |done].
    by rewrite list_lookup_insert_ne. }
  split; [|done|..].
  - apply (wf_alike h); [done..|]. intros i b Hi. destruct (decide (i = l)) as [->|Hil]; [congruence|].
    destruct (Hj' i _ Hil Hi) as [[_ ?]|H]; [done|exact (Hw _ _ H)].
  - intros i f c Hi. destruct (decide (i = l)) as [->|Hil]; [congruence|]. by destruct (Hj' i _ Hil Hi) as [[_ ?]|H].
  - intros [k|]; [|by left]. intros (y & Hk & Hy). destruct (decide (k = l)) as [->|Hkl]; [congruence|].
    destruct (Hj' k _ Hkl Hk) as [[-> _]|H]; [right|left; by exists y].
    exists l. split_and!; [apply reaches_self|done|done].
Qed.

Lemma close_safe fuel h i p : wf h -> points h i p stream -> (i < fuel)%nat -> close_ok h p (close fuel p h).
Proof.
  revert h i p. induction fuel as [|fuel IH]; intros h i p Hw Hp Hf; [lia|]. destruct p as [l|]; [|eapply hazard_null, reaches_self].
  destruct Hp as [Hl (o & Ho & Hwo)]. cbn. rewrite Ho. cbn. pose proof (Hw l o Ho) as Hok.
  destruct o as [x|f c d|x|r w|r s px|w s px|x]; try done.
  - apply closed_by_same; [by eapply wf_insert|by apply (fmap_insert mark h l (APipe x))].
  - by apply file_close_ok.
  - apply closed_by_same; [|by apply (fmap_insert mark h l (ABuffer x))]. eapply wf_insert; [done..|]. by intros b [= <-].
  - destruct Hok as [Hr Hq]. apply points_stream in Hr, Hq; [|apply writes_stream|apply reads_stream].
    pose proof (IH h l r Hw Hr ltac:(lia)) as H1. destruct (close fuel r h) as [h1| | |]; cbn; [|done| |done].
    2: { eapply hazard_part; [done|left|done]. }
    assert (Hq1 : points h1 l w stream).
    { eapply points_alike; [by eapply cb_alike| |done]. by intros []. }
    pose proof (IH h1 l w (cb_wf _ _ _ H1) Hq1 ltac:(lia)) as H2. destruct (close fuel w h1) as [h2| | |]; [|done| |done].
    + by eapply closed_by_then.
    + by eapply hazard_after.
  - destruct Hok as [Hr _]. eapply close_part; [done|left|]. apply (IH h l); [done| |lia]. eapply points_stream; [done|apply reads_stream].
  - destruct Hok as [Hr _]. eapply close_part; [done|left|]. apply (IH h l); [done| |lia]. eapply points_stream; [done|apply writes_stream].
Qed.

(** ** Allocation *)
Lemma points_app h i p want o : points h i p want -> points (h ++ [o]) i p want.
Proof. destruct p as [j|]; [|done]. intros [Hj (x & Hx & ?)]. split; [done|]. exists x. split; [by apply lookup_app_l_Some|done]. Qed.

Lemma wf_make_shared o h : wf h -> object_ok h (length h) o -> wf (make_shared o h).2.
Proof.
  intros Hw Ho. assert (Hobj : forall i x, object_ok h i x -> object_ok (h ++ [o]) i x).
  { intros i x Hx. destruct x; cbn in *; try done; try (by apply points_app); destruct Hx; split; by apply points_app. }
  intros i x Hi. cbn in Hi. apply lookup_app_Some in Hi as [Hi|[Hge Hi]]; [by apply Hobj, Hw|].
  destruct (i - length h)%nat eqn:E; [|done]. injection Hi as ->. replace i with (length h) by lia. by apply Hobj.
Qed.
End StreamsFacts.

Module StreamsProps.
Import Streams StreamsFacts.

(** [nullptr], or a pointer to an object of the kind wanted: what a
    [shared_ptr<Reader>], a [shared_ptr<Writer>] or a [FILE*] is. *)
Definition valid (h : heap) (p : ptr) (want : object -> bool) : Prop := points h (length h) p want.

(** The heaps of a program: it opens and closes [FILE]s, calls the factories with
    pointers it has, null ones and the same one several times included, and calls the
    methods of the streams. *)
Inductive reachable : heap -> Prop :=
| reach_start : reachable []
| reach_fopen x h : reachable h -> reachable (make_shared (AFILE x) h).2
| reach_fclose l x x' h : reachable h -> h !! l = Some (AFILE x) -> File.fclose x = Ret x' -> reachable (<[l := AFILE x']> h)
| reach_buffer h : reachable h -> reachable (make_shared (ABuffer StringBuffer.create) h).2
| reach_pipe h : reachable h -> reachable (pipe h).2
| reach_file f closable h : reachable h -> valid h f is_FILE -> reachable (file f closable h).2
| reach_file_path f h : reachable h -> reachable (file_path f h).2
| reach_create r w h : reachable h -> valid h r reads -> valid h w writes -> reachable (create r w h).2
| reach_spy_reader r s prefix h : reachable h -> valid h r reads -> valid h s writes -> reachable (spy_reader r s prefix h).2
| reach_spy_writer w s prefix h : reachable h -> valid h w writes -> valid h s writes -> reachable (spy_writer w s prefix h).2
| reach_close fuel p h h' : reachable h -> valid h p stream -> close fuel p h = Ret h' -> reachable h'
| reach_write fuel p bs b h h' : reachable h -> valid h p writes -> write fuel p bs h = Ret (b, h') -> reachable h'
| reach_read fuel p n bs h h' : reachable h -> valid h p reads -> 0 < n -> read fuel p n h = Ret (bs, h') -> reachable h'.

(** More fuel changes nothing. *)
Definition extends {A} (m m' : outcome A) : Prop := m = OutOfFuel \/ m' = m.

Lemma extends_bind {A B} (m m' : outcome A) (f g : A -> outcome B) :
  extends m m' -> (forall a, extends (f a) (g a)) -> extends (m ≫= f) (m' ≫= g).
Proof. intros [->| ->] Hf; [by left|]. destruct m; [apply Hf|by right..]. Qed.

Lemma write_fuel fuel p bs h : extends (write fuel p bs h) (write (S fuel) p bs h).
Proof.
  revert p bs h. induction fuel as [|fuel IH]; intros p bs h; [by left|]. cbn [write].
  apply extends_bind; [by right|]. intros [l o]. destruct o; try (by right); [apply IH|].
  apply extends_bind; [apply IH|]. intros [ok h']. destruct ok; [|by right].
  apply extends_bind; [apply IH|]. intros [? ?]. by right.
Qed.

Lemma read_fuel fuel p n h : extends (read fuel p n h) (read (S fuel) p n h).
Proof.
  revert p h. induction fuel as [|fuel IH]; intros p h; [by left|]. cbn [read].
  apply extends_bind; [by right|]. intros [l o]. destruct o; try (by right); [apply IH|].
  apply extends_bind; [apply IH|]. intros [bs h']. destruct (size_of bs >? 0); [|by right].
  apply extends_bind; [apply write_fuel|]. intros [? ?]. by right.
Qed.

Lemma close_fuel fuel p h : extends (close fuel p h) (close (S fuel) p h).
Proof.
  revert p h. induction fuel as [|fuel IH]; intros p h; [by left|]. cbn [close].
  apply extends_bind; [by right|]. intros [l o]. destruct o; try (by right); try apply IH.
  apply extends_bind; [apply IH|]. intros h'. apply IH.
Qed.

Lemma extends_ge {A} (m : nat -> outcome A) fuel fuel' x :
  (forall n, extends (m n) (m (S n))) -> m fuel = Ret x -> (fuel <= fuel')%nat -> m fuel' = Ret x.
Proof.
  intros He Hx Hle. induction Hle as [|n _ IH]; [done|]. destruct (He n) as [Ho|Hs]; congruence.
Qed.

Lemma file_path_wf f h : wf h -> wf (file_path f h).2.
Proof.
  intros Hw. destruct f as [x|]; [|done]. cbn. apply (wf_make_shared _ (h ++ [AFILE x])).
  - by apply (wf_make_shared (AFILE x)).
  - cbn. rewrite length_app. cbn. split; [lia|]. exists (AFILE x). split; [|done]. by apply list_lookup_middle.
Qed.

Lemma reachable_wf h : reachable h -> wf h.
Proof.
  induction 1 as [|x h _ IH|l x x' h _ IH Hl Hx|h _ IH|h _ IH|f c h _ IH Hf|f h _ IH|r w h _ IH Hr Hw|r s px h _ IH Hr Hs|w s px h _ IH Hw Hs
    |fuel p h h' _ IH Hp Hc|fuel p bs b h h' _ IH Hp Hc|fuel p n bs h h' _ IH Hp Hn Hc].
  - intros i o Hi. by rewrite lookup_nil in Hi.
  - by apply wf_make_shared.
  - by eapply wf_insert.
  - apply wf_make_shared; [done|]. apply StringBuffer.inv_pos_inv, StringBuffer.create_inv_pos.
  - by apply wf_make_shared.
  - by apply wf_make_shared.
  - by apply file_path_wf.
  - by apply wf_make_shared.
  - by apply wf_make_shared.
  - by apply wf_make_shared.
  - pose proof (close_safe (fuel + S (length h)) h (length h) p IH Hp ltac:(lia)) as Hs.
    apply (extends_ge (fun n => close n p h) fuel (fuel + S (length h))) in Hc; [|intros; apply close_fuel|lia].
    cbn beta in Hc. rewrite Hc in Hs. apply Hs.
  - pose proof (write_safe (fuel + S (length h)) h (length h) p bs IH Hp ltac:(lia)) as Hs.
    apply (extends_ge (fun n => write n p bs h) fuel (fuel + S (length h))) in Hc; [|intros; apply write_fuel|lia].
    cbn beta in Hc. rewrite Hc in Hs. apply Hs.
  - pose proof (read_safe (fuel + S (length h)) h (length h) p n IH Hp ltac:(lia) Hn) as Hs.
    apply (extends_ge (fun n' => read n' p n h) fuel (fuel + S (length h))) in Hc; [|intros; apply read_fuel|lia].
    cbn beta in Hc. rewrite Hc in Hs. apply Hs.
Qed.

(** Every [FILE] is closed by one [File], and by nothing else. *)
Definition owned (h : heap) : Prop :=
  (forall l f, h !! l = Some (AFile f true false) -> ~ dead h f) /\
  (forall l1 l2 f, h !! l1 = Some (AFile f true false) -> h !! l2 = Some (AFile f true false) -> l1 = l2).

(** C28. Streams built from streams are safe, up to the hazards of the pointers they are
    made of: in every heap a program can make with the factories (pipes, files, buffers,
    reader/writer pairs and spies, which may share parts and [FILE]s and have null parts)
    and with calls on them, a call of a method of a stream ends, with no endless chain of
    calls: [isOpen] and [close] return, a [write] or a [read] returns or waits, or the
    behaviour is undefined, and then that very call reaches a part that is [nullptr], or
    a [File] it uses whose [FILE] is null or closed, or two [File]s that both close one
    [FILE]. If every [FILE] has one [File] that closes it, and none of its parts is null,
    [close] returns. *)
Theorem streams_safe h p : reachable h -> valid h p stream ->
  match isOpen (S (length h)) p h with Ret _ => True | Undefined => hazard h IsOpen p | _ => False end /\
  match close (S (length h)) p h with Ret _ => True | Undefined => hazard h Close p | _ => False end /\
  (owned h -> (forall m, ~ reaches h Close p m None) -> exists h', close (S (length h)) p h = Ret h') /\
  (forall bs, valid h p writes -> match write (S (length h)) p bs h with
                                  | Ret _ | Blocks => True | Undefined => hazard h Write p | OutOfFuel => False end) /\
  (forall n, valid h p reads -> 0 < n -> match read (S (length h)) p n h with
                                        | Ret _ | Blocks => True | Undefined => hazard h Read p | OutOfFuel => False end).
Proof.
  intros Hh%reachable_wf Hp. pose proof (close_safe (S (length h)) h (length h) p Hh Hp ltac:(lia)) as Hc. split_and!.
  - by apply (isOpen_safe (S (length h)) h (length h)); [..|lia].
  - by destruct (close (S (length h)) p h).
  - intros [Ho1 Ho2] Hn. destruct (close (S (length h)) p h) as [h'| | |]; [by exists h'|done| |done].
    destruct Hc as [m' Hr|m' l f c d Hr Hl Ht Hd|l1 l2 f _ Hne _ _ Hl1 Hl2]; [by destruct (Hn m')| |by destruct Hne; eapply Ho2].
    pose proof (reaches_close _ _ _ _ Hr) as ->. cbn in Ht. apply andb_true_iff in Ht as [-> Hd'%negb_true_iff]. subst d.
    by destruct (Ho1 l f Hl).
  - intros bs Hv. pose proof (write_safe (S (length h)) h (length h) p bs Hh Hv ltac:(lia)) as Hs.
    by destruct (write (S (length h)) p bs h) as [[]| | |].
  - intros n Hv Hn. pose proof (read_safe (S (length h)) h (length h) p n Hh Hv ltac:(lia) Hn) as Hs.
    by destruct (read (S (length h)) p n h) as [[]| | |].
Qed.

(** Two closable [File]s of one [FILE*]: the second [close] (or destructor) closes the
    [FILE] again, and a read through the one that is still open uses a closed [FILE]. *)
Theorem file_closed_twice x : x.(File.f_open) = true ->
  let h := (file (Some 0%nat) true (file (Some 0%nat) true [AFILE x]).2).2 in
  exists h', close 3 (Some 1%nat) h = Ret h' /\ isOpen 3 (Some 2%nat) h' = Ret true /\
    close 3 (Some 2%nat) h' = Undefined /\ read 3 (Some 2%nat) 1 h' = Undefined.
Proof. destruct x as [fi fo fr op]. cbn. intros ->. eexists. by split_and!. Qed.

Lemma file_closed_twice_witness : exists h',
  close 3 (Some 1%nat) (file (Some 0%nat) true (file (Some 0%nat) true [AFILE (File.mkFILE [] [] 0 true)]).2).2 = Ret h' /\
  close 3 (Some 2%nat) h' = Undefined.
Proof.
  destruct (file_closed_twice (File.mkFILE [] [] 0 true) eq_refl) as (h' & Hc & _ & Hu & _). exists h'. split; [exact Hc|exact Hu].
Defined.

(** ** Two spies on one log *)
Inductive io_call := CallRead (n : Z) | CallWrite (bs : bytes).
Inductive io_result := DidRead (bs : bytes) | DidWrite (bs : bytes) (ok : bool).

Fixpoint run_calls (fuel : nat) (rs ws : ptr) (calls : list io_call) (h : heap) : outcome (list io_result * heap) :=
  match calls with
  | [] => Ret ([], h)
  | CallRead n :: calls =>
    '(bs, h) ← read fuel rs n h; '(l, h) ← run_calls fuel rs ws calls h; Ret (DidRead bs :: l, h)
  | CallWrite bs :: calls =>
    '(ok, h) ← write fuel ws bs h; '(l, h) ← run_calls fuel rs ws calls h; Ret (DidWrite bs ok :: l, h)
  end.

(** What a call leaves in the log. *)
Definition entry (p1 p2 : bytes) (x : io_result) : bytes :=
  match x with
  | DidRead bs => if size_of bs >? 0 then p1 ++ bs else []
  | DidWrite bs ok => if ok then p2 ++ bs else []
  end.

(** A reader spy and a writer spy that share the log [s]. *)
Record spying (h : heap) (rs ws r w s : nat) (p1 p2 log : bytes) : Prop := {
  sp_reader : h !! rs = Some (AReaderSpy (Some r) (Some s) p1);
  sp_writer : h !! ws = Some (AWriterSpy (Some w) (Some s) p2);
  sp_in : exists o, h !! r = Some o /\ leaf o = true;
  sp_out : exists o, h !! w = Some o /\ leaf o = true;
  sp_log : exists b, h !! s = Some (ABuffer b) /\ b.(StringBuffer.closed) = false /\ b.(StringBuffer.str) = log;
  sp_apart : r <> s /\ w <> s
}.

(** A call on a stream that has no parts changes one object, it or the [FILE] it uses. *)
Definition touched (h : heap) (l : nat) (h' : heap) : Prop :=
  exists i x x', h !! i = Some x /\ skel x' = skel x /\ (i = l \/ is_FILE x = true) /\ h' = <[i := x']> h.

Lemma update_touched {A X} h l o (wrap : X -> object) (m : outcome (A * X)) a h' :
  h !! l = Some o -> (forall y, skel (wrap y) = skel o) -> update l wrap m h = Ret (a, h') ->
  exists y, h' = <[l := wrap y]> h /\ skel (wrap y) = skel o.
Proof. intros Hl Hw. unfold update. destruct m as [[a' y]| | |]; [|done..]. cbn. intros [= <- <-]. by exists y. Qed.

Lemma file_touched {A} h l f (g : File.FILE -> outcome (A * File.t)) a h' :
  ('(j, x) ← file_at h f; update j (fun y => AFILE y.(File.f)) (g x) h) = Ret (a, h') -> touched h l h'.
Proof.
  unfold file_at, object_at. destruct f as [j|]; [|done]. cbn -[update]. destruct (h !! j) as [o|] eqn:Hj; [|done].
  cbn -[update]. destruct o as [| | | | | |x]; try done. cbn -[update]. intros Hu.
  eapply update_touched in Hu as (y & -> & Hy); [|exact Hj|done].
  exists j, (AFILE x). eexists. split_and!; [done..|by right|done].
Qed.

Lemma leaf_touched h l o (wrapped : object) : h !! l = Some o -> skel wrapped = skel o -> touched h l (<[l := wrapped]> h).
Proof. intros Hl Hs. exists l, o, wrapped. split_and!; [done..|by left|done]. Qed.

Lemma leaf_read_inv fuel l o n h a h' : h !! l = Some o -> leaf o = true ->
  read (S fuel) (Some l) n h = Ret (a, h') -> touched h l h'.
Proof.
  intros Hl Ho. cbn -[update file_read]. rewrite Hl. cbn -[update file_read]. destruct o as [x|f c d|x| | | |]; try done.
  - intros Hu. eapply update_touched in Hu as (y & -> & Hy); [by eapply leaf_touched|exact Hl|done].
  - unfold file_read. destruct (n =? 0); [|apply file_touched]. intros [= <- <-]. rewrite <-(list_insert_id h l _ Hl) at 2.
    by eapply leaf_touched.
  - intros Hu. eapply update_touched in Hu as (y & -> & Hy); [by eapply leaf_touched|exact Hl|done].
Qed.

Lemma leaf_write_inv fuel l o bs h a h' : h !! l = Some o -> leaf o = true ->
  write (S fuel) (Some l) bs h = Ret (a, h') -> touched h l h'.
Proof.
  intros Hl Ho. cbn -[update file_write]. rewrite Hl. cbn -[update file_write]. destruct o as [x|f c d|x| | | |]; try done.
  - intros Hu. eapply update_touched in Hu as (y & -> & Hy); [by eapply leaf_touched|exact Hl|done].
  - apply file_touched.
  - intros Hu. eapply update_touched in Hu as (y & -> & Hy); [by eapply leaf_touched|exact Hl|done].
Qed.

Lemma spying_leaf h rs ws r w s p1 p2 log l h' : spying h rs ws r w s p1 p2 log -> l = r \/ l = w -> touched h l h' ->
  spying h' rs ws r w s p1 p2 log.
Proof.
  intros [Hr Hw (oi & Hi & Hli) (oo & Hoo & Hlo) (b & Hb & Hc) [H1 H2]] Hl (i & x & x' & Hx & Hs & Hil & ->).
  assert (Ha : alike h (<[i := x']> h)) by by apply (fmap_insert skel h i x).
  assert (Hleaf : forall j y, h !! j = Some y -> leaf y = true -> exists z, <[i := x']> h !! j = Some z /\ leaf z = true).
  { intros j y Hy Hly. destruct (fmap_lookup _ _ _ _ _ Ha Hy) as (z & Hz & He). exists z. split; [done|]. by destruct y, z. }
  split; [..|done].
  - by destruct (fmap_lookup _ _ _ _ _ Ha Hr) as ([] & ? & [= -> -> ->]).
  - by destruct (fmap_lookup _ _ _ _ _ Ha Hw) as ([] & ? & [= -> -> ->]).
  - by eapply Hleaf.
  - by eapply Hleaf.
  - exists b. split; [|done]. rewrite list_lookup_insert_ne; [done|]. intros ->.
    destruct Hil as [->|Hf]; [by destruct Hl|]. rewrite Hb in Hx. by simplify_eq.
Qed.

Lemma spying_log fuel h rs ws r w s p1 p2 log bs : spying h rs ws r w s p1 p2 log ->
  exists h', write (S fuel) (Some s) bs h = Ret (true, h') /\ spying h' rs ws r w s p1 p2 (log ++ bs).
Proof.
  intros [Hr Hw (oi & Hi & Hli) (oo & Hoo & Hlo) (b & Hb & Hc & <-) [H1 H2]].
  cbn. rewrite Hb. cbn. unfold StringBuffer.write. rewrite Hc. cbn. eexists. split; [done|].
  assert (Hne : forall i y, h !! i = Some y -> leaf y = false -> s <> i) by (intros i y Hy Hly ->; rewrite Hb in Hy; by simplify_eq).
  split; [rewrite list_lookup_insert_ne; [done|by eapply Hne]|rewrite list_lookup_insert_ne; [done|by eapply Hne]|..].
  - exists oi. by rewrite list_lookup_insert_ne.
  - exists oo. by rewrite list_lookup_insert_ne.
  - eexists. split; [apply list_lookup_insert_eq; by eapply lookup_lt_Some|done].
  - done.
Qed.

Lemma spy_read_step fuel h rs ws r w s p1 p2 log n bs h1 : spying h rs ws r w s p1 p2 log ->
  read (S (S fuel)) (Some rs) n h = Ret (bs, h1) -> spying h1 rs ws r w s p1 p2 (log ++ entry p1 p2 (DidRead bs)).
Proof.
  intros Hs. destruct (sp_in _ _ _ _ _ _ _ _ _ Hs) as (oi & Hi & Hli).
  pose proof (sp_reader _ _ _ _ _ _ _ _ _ Hs) as Hr. remember (S fuel) as f eqn:Ef. cbn. rewrite Hr. cbn.
  destruct (read f (Some r) n h) as [[bs' h2]| | |] eqn:E; [|done..]. cbn. subst f.
  pose proof (spying_leaf _ _ _ _ _ _ _ _ _ r h2 Hs (or_introl eq_refl) (leaf_read_inv _ _ _ _ _ _ _ Hi Hli E)) as Hs2.
  destruct (size_of bs' >? 0) eqn:Esz.
  - destruct (spying_log fuel _ _ _ _ _ _ _ _ _ (p1 ++ bs') Hs2) as (h3 & -> & Hs3). cbn. intros [= <- <-]. by rewrite Esz.
  - intros [= <- <-]. by rewrite Esz, app_nil_r.
Qed.

Lemma spy_write_step fuel h rs ws r w s p1 p2 log bs ok h1 : spying h rs ws r w s p1 p2 log ->
  write (S (S fuel)) (Some ws) bs h = Ret (ok, h1) -> spying h1 rs ws r w s p1 p2 (log ++ entry p1 p2 (DidWrite bs ok)).
Proof.
  intros Hs. destruct (sp_out _ _ _ _ _ _ _ _ _ Hs) as (oi & Hi & Hli).
  pose proof (sp_writer _ _ _ _ _ _ _ _ _ Hs) as Hr. remember (S fuel) as f eqn:Ef. cbn. rewrite Hr. cbn.
  destruct (write f (Some w) bs h) as [[ok' h2]| | |] eqn:E; [|done..]. cbn. subst f.
  pose proof (spying_leaf _ _ _ _ _ _ _ _ _ w h2 Hs (or_intror eq_refl) (leaf_write_inv _ _ _ _ _ _ _ Hi Hli E)) as Hs2. destruct ok'; cbn [negb].
  - destruct (spying_log fuel _ _ _ _ _ _ _ _ _ (p2 ++ bs) Hs2) as (h3 & -> & Hs3). cbn. by intros [= <- <-].
  - intros [= <- <-]. by rewrite app_nil_r.
Qed.

(** A log shared by a reader spy and a writer spy is a transcript: after any sequence of
    calls that return, it holds, after what was there, for each call in order the prefix
    and the bytes that were read or written, and nothing for a read of no bytes or a
    write that failed. *)
Theorem spies_log_transcript fuel calls h rs ws r w s p1 p2 log results h' :
  spying h rs ws r w s p1 p2 log -> run_calls (S (S fuel)) (Some rs) (Some ws) calls h = Ret (results, h') ->
  spying h' rs ws r w s p1 p2 (log ++ mjoin (entry p1 p2 <$> results)).
Proof.
  revert h log results. induction calls as [|c calls IH]; intros h log results Hs; cbn [run_calls].
  { intros [= <- <-]. by rewrite app_nil_r. }
  intros Hrun. destruct c as [n|bs]; apply outcome_bind_inv in Hrun as ([x h1] & E1 & Hrun);
    apply outcome_bind_inv in Hrun as ([l h2] & E2 & [= <- <-]); cbn [fmap list_fmap mjoin list_join]; rewrite app_assoc;
    (eapply IH; [|exact E2]).
  - by eapply spy_read_step.
  - by eapply spy_write_step.
Qed.

(** Two pipes and a log, as a server that logs its traffic has them. *)
Definition spied_heap : heap :=
  [ ABuffer (StringBuffer.write_string StringBuffer.create "request").2; ABuffer StringBuffer.create;
    ABuffer StringBuffer.create; AReaderSpy (Some 0%nat) (Some 2%nat) (bytes_of read_prefix);
    AWriterSpy (Some 1%nat) (Some 2%nat) (bytes_of write_prefix) ].

Lemma spies_log_transcript_witness : exists h',
  run_calls 2 (Some 3%nat) (Some 4%nat) [CallRead 99; CallWrite (bytes_of "reply")] spied_heap =
    Ret ([DidRead (bytes_of "request"); DidWrite (bytes_of "reply") true], h') /\
  spying h' 3 4 0 1 2 (bytes_of read_prefix) (bytes_of write_prefix)
    ([] ++ bytes_of read_prefix ++ bytes_of "request" ++ bytes_of write_prefix ++ bytes_of "reply").
Proof.
  eexists. split; [vm_compute; reflexivity|].
  exact (spies_log_transcript 0 [CallRead 99; CallWrite (bytes_of "reply")] spied_heap 3 4 0 1 2 (bytes_of read_prefix)
    (bytes_of write_prefix) [] _ _
    ltac:(split; [reflexivity..|by eexists|by eexists|by eexists|done]) eq_refl).
Defined.

(** Reading from a pair whose two sides are one pipe. *)
Definition looped : heap := (create (Some 0%nat) (Some 0%nat) (pipe []).2).2.

Lemma streams_safe_witness :
  (exists h', close 3 (Some 1%nat) looped = Ret h') /\
  match read 3 (Some 1%nat) 5 looped with Ret _ | Blocks => True | Undefined => hazard looped Read (Some 1%nat) | OutOfFuel => False end.
Proof.
  assert (Hr : reachable looped).
  { apply reach_create; [apply reach_pipe, reach_start|..]; (split; [cbn; lia|by eexists]). }
  destruct (streams_safe looped (Some 1%nat) Hr) as (_ & _ & Hc & _ & Hread); [split; [cbn; lia|by eexists]|].
  split; [apply Hc|apply Hread; [split; [cbn; lia|by eexists]|lia]].
  - split; intros [|[|]]; discriminate.
  - assert (Hno : forall m' m q, reaches looped m (Some 0%nat) m' q -> q = Some 0%nat).
    { intros m' m q Hq. inversion Hq as [|? ? o ? ? ? ? Ho Hin]; subst; [done|]. injection Ho as <-. by apply elem_of_nil in Hin. }
    intros m Hm. inversion Hm as [|? ? o m1 p1 ? ? Ho Hin Hrest]; subst. injection Ho as <-. cbn in Hin.
    assert (p1 = Some 0%nat) as -> by set_solver. by apply Hno in Hrest.
Defined.
End StreamsProps.
