(* ===== verification/Fuzz.v ===== *)
(** * The fuzzer ([fuzz/fuzz.cpp], [fuzz/fuzz.h])

    [LLVMFuzzerTestOneInput] feeds arbitrary bytes to a session that has a handler for
    every request of the protocol. The model is the whole function: the control byte,
    the input stream, the session and the interleavings of its two threads. What the
    fuzzer tests on samples is proved here for every input. *)
From Stdlib Require Import Ascii String ZArith Lia.
From stdpp Require Import base list strings gmap relations.
From S2P Require Import Prelude IO ContentStream Monitor Chan SMap Types Serialization Json Backend Decode.
From S2P Require Import Nlohmann ReferenceJson ProtocolTypes ProtocolRequests ProtocolResponses ProtocolEvents Protocol.
From S2P Require Import Session SessionProps DecodeProps Receive.
Import NlohmannDeserializerFacts NlohmannSerializerFacts SessionProps ReceiveProps.

(** ** [class Event] *)
Module FuzzEvent.
Definition t : Type := bool.
Definition create : t := false.
Definition fire (fired : t) : t := true.

(** The predicate of [wait], which also returns when its time is up. *)
Inductive op := Wait | Fire.

#[global] Instance FuzzEvent_Monitor : Monitor t op () := {
  mon_ready o fired := match o with Wait => fired | Fire => true end;
  mon_run o fired := match o with Wait => (fired, false, inl ()) | Fire => (fire fired, true, inl ()) end;
  mon_timeout o _ := match o with Wait => Some () | Fire => None end
}.
End FuzzEvent.

Module Fuzz.

(** ** The input *)
Inductive ControlMode := TestStreamWriter | DontAppendDoneRequest | Count.

Definition mode_code (m : ControlMode) : Z :=
  match m with TestStreamWriter => 0 | DontAppendDoneRequest => 1 | Count => 2 end.

(** The first byte: whether to use the content stream writer, whether to append the
    request, and the data after it. *)
Definition scan_control (data : bytes) : bool * bool * bytes :=
  match data with
  | c :: rest =>
    if code c <? mode_code Count then
      (negb (code c =? mode_code TestStreamWriter), negb (code c =? mode_code DontAppendDoneRequest), rest)
    else (true, true, data)
  | [] => (true, true, data)
  end.

Definition quoted (s : string) : string := String (ascii_of_nat 34) (s ++ String (ascii_of_nat 34) EmptyString).

(** The text of the request that ends a test, as it is in the source. *)
Definition done_request : string :=
  String LF ("  {" ++ String LF ("      " ++ quoted "seq" ++ ": 10," ++ String LF
    ("      " ++ quoted "type" ++ ": " ++ quoted "request" ++ "," ++ String LF
      ("      " ++ quoted "command" ++ ": " ++ quoted "done" ++ "," ++ String LF ("  }" ++ String LF "    "))))).

(** The buffer [in]; the writer shares it. *)
Definition input (data : bytes) : outcome StringBuffer.t :=
  let '(useContentStreamWriter, appendDoneRequest, data) := scan_control data in
  let writer := ContentWriter.create StringBuffer.create in
  writer ← (if useContentStreamWriter : bool then
              '(_, w) ← ContentWriter.write writer (string_of data); Ret w
            else Ret (ContentWriter.create (StringBuffer.write StringBuffer.create data).2));
  writer ← (if appendDoneRequest : bool then
              '(_, w) ← ContentWriter.write writer done_request; Ret w
            else Ret writer);
  deref writer.(ContentWriter.writer).

(** ** The session *)

(** [DAP_REQUEST_LIST]. *)
Definition DAP_REQUEST_LIST : list (string * string) :=
  [("AttachRequest", "AttachResponse"); ("BreakpointLocationsRequest", "BreakpointLocationsResponse");
   ("CancelRequest", "CancelResponse"); ("CompletionsRequest", "CompletionsResponse");
   ("ConfigurationDoneRequest", "ConfigurationDoneResponse"); ("ContinueRequest", "ContinueResponse");
   ("DataBreakpointInfoRequest", "DataBreakpointInfoResponse"); ("DisassembleRequest", "DisassembleResponse");
   ("DisconnectRequest", "DisconnectResponse"); ("EvaluateRequest", "EvaluateResponse");
   ("ExceptionInfoRequest", "ExceptionInfoResponse"); ("GotoRequest", "GotoResponse");
   ("GotoTargetsRequest", "GotoTargetsResponse"); ("InitializeRequest", "InitializeResponse");
   ("LaunchRequest", "LaunchResponse"); ("LoadedSourcesRequest", "LoadedSourcesResponse");
   ("ModulesRequest", "ModulesResponse"); ("NextRequest", "NextResponse");
   ("PauseRequest", "PauseResponse"); ("ReadMemoryRequest", "ReadMemoryResponse");
   ("RestartFrameRequest", "RestartFrameResponse"); ("RestartRequest", "RestartResponse");
   ("ReverseContinueRequest", "ReverseContinueResponse"); ("RunInTerminalRequest", "RunInTerminalResponse");
   ("ScopesRequest", "ScopesResponse"); ("SetBreakpointsRequest", "SetBreakpointsResponse");
   ("SetDataBreakpointsRequest", "SetDataBreakpointsResponse"); ("SetExceptionBreakpointsRequest", "SetExceptionBreakpointsResponse");
   ("SetExpressionRequest", "SetExpressionResponse"); ("SetFunctionBreakpointsRequest", "SetFunctionBreakpointsResponse");
   ("SetInstructionBreakpointsRequest", "SetInstructionBreakpointsResponse"); ("SetVariableRequest", "SetVariableResponse");
   ("SourceRequest", "SourceResponse"); ("StackTraceRequest", "StackTraceResponse");
   ("StartDebuggingRequest", "StartDebuggingResponse"); ("StepBackRequest", "StepBackResponse");
   ("StepInRequest", "StepInResponse"); ("StepInTargetsRequest", "StepInTargetsResponse");
   ("StepOutRequest", "StepOutResponse"); ("TerminateRequest", "TerminateResponse");
   ("TerminateThreadsRequest", "TerminateThreadsResponse"); ("ThreadsRequest", "ThreadsResponse");
   ("VariablesRequest", "VariablesResponse"); ("WriteMemoryRequest", "WriteMemoryResponse")].

(** The handler [DAP_REQUEST] registers; that it fires the event is part of [step]. *)
Definition handler (response : string) : GenericRequestHandler :=
  request_handler (TStruct response) (fun _ => {| roe_response := blank (TStruct response); roe_error := EmptyString |}).

Section Run.
Context {J : Type} {HJ : NJson J} {HL : NJsonLaws J} {HD : NJsonDepth J}.

Abbreviation Des := (NlohmannDeserializer.t J).
Abbreviation Ser := (NlohmannSerializer.t J).
Abbreviation stream := (RW.t StringBuffer.t StringBuffer.t).
Abbreviation session := (Session.t stream stream unit Empty_set Empty_set Empty_set).

Definition DAP_REQUEST (s : session) (rr : string * string) : session :=
  Session.put_request protocol_schema (TStruct rr.1) (handler rr.2) s.

Definition registered : session :=
  Session.put_error tt (foldl DAP_REQUEST Session.create DAP_REQUEST_LIST).

(** The session, bound to [ReaderWriter::create(in, out)], and [requestOrError]. *)
Record state := mk { sess : session; requestOrError : FuzzEvent.t }.

Definition start (data : bytes) : outcome state :=
  inp ← input data;
  let rw := RW.mk inp StringBuffer.create in
  Ret (mk (Session.bind rw rw registered).2 FuzzEvent.create).

(** The errors reported so far. *)
Definition is_report (a : Session.action unit Empty_set Empty_set Empty_set) : bool :=
  match a with Session.ErrorReported _ _ => true | _ => false end.

Definition errors (s : session) : nat := length (List.filter is_report s.(Session.log)).

Definition fire_if (b : bool) (e : FuzzEvent.t) : FuzzEvent.t := if b then FuzzEvent.fire e else e.

Definition is_request (p : Session.payload Empty_set) : bool :=
  match p with Session.RequestPayload _ _ _ _ => true | Session.EventPayload _ _ => false end.

(** A turn of the receiving thread, which may report errors, and one of the dispatching
    thread, which may run a handler. *)
Inductive step (fuel : nat) (st : state) : state -> Prop :=
| step_recv s : Session.recv_turn (D := Des) (Ser := Ser) (FS := J) protocol_schema fuel st.(sess) = Ret (Some s) ->
    step fuel st (mk s (fire_if (errors st.(sess) <? errors s)%nat st.(requestOrError)))
| step_dispatch s : Session.dispatch_turn (D := Des) (Ser := Ser) (FS := J) protocol_schema fuel st.(sess) = Ret (Some s) ->
    step fuel st (mk s (fire_if (default false (is_request <$> head st.(sess).(Session.inbox).(Chan.queue))) st.(requestOrError))).

Definition steps (fuel : nat) : state -> state -> Prop := rtc (step fuel).
End Run.
End Fuzz.

(** ** Every response the fuzzer makes can be sent *)
Module FuzzProps.
Import Fuzz.

Definition answerable (response : string) : bool :=
  let u := TStruct response in
  let v := blank u in
  match json_of protocol_schema v u with
  | Some j => type_ok protocol_schema protocol_depth u && natural no_limits false v && lossless protocol_schema v u && printable j &&
      returns (construct protocol_schema protocol_depth u) && (height v <=? 10)%nat
  | None => false
  end.

Lemma requests_answerable :
  forallb (fun rr => handled_type protocol_schema protocol_depth protocol_rank (TStruct rr.1) && answerable rr.2 &&
    text_ok (L := no_limits) (Session.name_of protocol_schema (TStruct rr.1))) DAP_REQUEST_LIST = true.
Proof. vm_compute. reflexivity. Qed.

Lemma answerable_sendable response fuel : answerable response = true -> (20 <= fuel)%nat ->
  exists j, sendable (L := no_limits) protocol_schema protocol_depth fuel (TStruct response) (blank (TStruct response)) j.
Proof.
  unfold answerable. destruct (json_of protocol_schema (blank (TStruct response)) (TStruct response)) as [j|] eqn:E; [|done].
  rewrite !andb_true_iff, Nat.leb_le. intros [[[[[Ht Hn] Hl] Hp] Hr] Hh] Hf. exists j.
  split; try done. unfold protocol_depth. lia.
Qed.

Section Facts.
Context {J : Type} {HJ : NJson J} {HL : NJsonLaws J} {HD : NJsonDepth J}.

Abbreviation Des := (NlohmannDeserializer.t J).
Abbreviation Ser := (NlohmannSerializer.t J).
Abbreviation stream := (RW.t StringBuffer.t StringBuffer.t).
Abbreviation session := (Session.t stream stream unit Empty_set Empty_set Empty_set).

(** The handlers are those of the list, and errors are reported. *)
Definition fuzz_handlers (s : session) : Prop :=
  map_Forall (fun command e => exists response, e.2 = handler response /\ answerable response = true /\
    text_ok (L := no_limits) command = true) s.(Session.hs).(Session.requestMap).

Lemma error_handlers m (s : session) : fuzz_handlers s -> fuzz_handlers (Session.error m s).
Proof. unfold fuzz_handlers. by rewrite error_keeps_hs. Qed.

Lemma fuzz_registering (l : list (string * string)) (s : session) :
  (forall rr, rr ∈ l -> rr ∈ DAP_REQUEST_LIST) ->
  registering protocol_schema protocol_depth protocol_rank s -> fuzz_handlers s ->
  registering protocol_schema protocol_depth protocol_rank (foldl DAP_REQUEST s l) /\ fuzz_handlers (foldl DAP_REQUEST s l).
Proof.
  pose proof requests_answerable as Hall. rewrite forallb_forall in Hall.
  revert s. induction l as [|rr l IH]; intros s Hl Hs Hh; [done|]. cbn [foldl]. apply IH.
  - intros x Hx. apply Hl. by right.
  - apply registering_put_request; [|done]. specialize (Hall rr (proj1 (list_elem_of_In _ _) (Hl rr ltac:(by left)))).
    by rewrite !andb_true_iff in Hall; destruct Hall as [[? _] _].
  - specialize (Hall rr (proj1 (list_elem_of_In _ _) (Hl rr ltac:(by left)))).
    rewrite !andb_true_iff in Hall. destruct Hall as [[_ Ha] Ht]. unfold DAP_REQUEST, Session.put_request.
    case_match; [by apply error_handlers|]. apply map_Forall_insert_2; [|done]. by exists rr.2.
Qed.

Lemma registered_ok : registering protocol_schema protocol_depth protocol_rank (registered : session) /\ fuzz_handlers registered.
Proof.
  destruct (fuzz_registering DAP_REQUEST_LIST (Session.create : session)) as [Hr Hh];
    [done|apply registering_create|apply map_Forall_empty|].
  split; [by apply registering_put_error|done].
Qed.

Lemma input_write (b : StringBuffer.t) msg : StringBuffer.inv b -> b.(StringBuffer.closed) = false ->
  exists b', ContentWriter.write (ContentWriter.create b) msg = Ret (true, ContentWriter.create b') /\
    StringBuffer.inv b' /\ b'.(StringBuffer.closed) = false.
Proof.
  intros Hb Hc. set (b1 := (StringBuffer.write b (ContentWriter.header msg)).2).
  assert (H1 : StringBuffer.inv b1 /\ b1.(StringBuffer.closed) = false /\
    StringBuffer.write b (ContentWriter.header msg) = (true, b1)).
  { split; [by apply StringBuffer.write_inv|]. unfold b1, StringBuffer.write. by rewrite Hc. }
  destruct H1 as (Hb1 & Hc1 & E1). exists (StringBuffer.write b1 (bytes_of msg)).2.
  assert (E2 : StringBuffer.write b1 (bytes_of msg) = (true, (StringBuffer.write b1 (bytes_of msg)).2)).
  { unfold StringBuffer.write. by rewrite Hc1. }
  split_and!.
  - unfold ContentWriter.write. cbn -[StringBuffer.write]. rewrite E1. cbn -[StringBuffer.write]. by rewrite E2.
  - by apply StringBuffer.write_inv.
  - unfold StringBuffer.write. by rewrite Hc1.
Qed.

Lemma input_ok data : exists b, input data = Ret b /\ StringBuffer.inv b /\ b.(StringBuffer.closed) = false.
Proof.
  pose proof (StringBuffer.inv_pos_inv _ StringBuffer.create_inv_pos) as H0. unfold input.
  destruct (scan_control data) as [[use app] rest].
  assert (H1 : exists b, (if use then '(_, w) ← ContentWriter.write (ContentWriter.create StringBuffer.create) (string_of rest); Ret w
      else Ret (ContentWriter.create (StringBuffer.write StringBuffer.create rest).2)) = Ret (ContentWriter.create b) /\
    StringBuffer.inv b /\ b.(StringBuffer.closed) = false).
  { destruct use.
    - destruct (input_write StringBuffer.create (string_of rest) H0 eq_refl) as (b & -> & Hb). by exists b.
    - eexists. split; [done|]. split; [by apply StringBuffer.write_inv|done]. }
  destruct H1 as (b & -> & Hb & Hc). rewrite outcome_bind_ret_l. destruct app.
  - destruct (input_write b done_request Hb Hc) as (b' & -> & Hb'). by exists b'.
  - by exists b.
Qed.

(** ** The invariant *)
Record inv (n : nat) (s : session) : Prop := {
  iv_receiving : receiving protocol_schema protocol_depth protocol_rank n s;
  iv_handlers : fuzz_handlers s;
  iv_error : s.(Session.hs).(Session.errorHandler) = Some tt;
  iv_writer : exists w, writes_to s w;
  iv_seq : 0 <= s.(Session.nextSeq) < 2 ^ 32
}.

Lemma registered_fields : let s : session := registered in
  s.(Session.isBound) = false /\ s.(Session.isProcessingMessages) = false /\ s.(Session.nextSeq) = 1.
Proof. split_and!; vm_compute; reflexivity. Qed.

Lemma inv_bind b (s : session) :
  registering protocol_schema protocol_depth protocol_rank s -> fuzz_handlers s ->
  s.(Session.hs).(Session.errorHandler) = Some tt -> s.(Session.isProcessingMessages) = false ->
  s.(Session.nextSeq) = 1 -> StringBuffer.inv b -> b.(StringBuffer.closed) = false ->
  let rw := RW.mk b StringBuffer.create in
  inv (length b.(StringBuffer.str)) (Session.bind rw rw s).2.
Proof.
  intros Hreg Hh He Hpm Hseq Hb Hc rw.
  pose proof (receiving_bind protocol_schema protocol_depth protocol_rank rw rw s Hreg Hb) as Hrc.
  pose proof (rg_bound _ _ _ _ Hreg) as Hbd. unfold Session.bind, Session.connect in *. rewrite Hbd in *.
  unfold Session.startProcessingMessages in *.
  cbn [Session.isProcessingMessages Session.set_writer Session.set_reader Session.set_isBound] in *.
  rewrite Hpm in *. split; [exact Hrc|exact Hh|exact He| |].
  - exists rw. split; [done|]. split; [cbn; unfold RW.isOpen, StringBuffer.isOpen; cbn; unfold StringBuffer.isOpen; by rewrite Hc|].
    intros m Hm. split; [cbn; unfold StringBuffer.isOpen; by rewrite Hc|]. split; [done|apply StringBuffer.create_inv_pos].
  - cbn [Session.nextSeq Session.set_isProcessing Session.set_writer Session.set_reader Session.set_isBound snd]. rewrite Hseq. lia.
Qed.

(** The bytes of the input stream. *)
Definition input_size (data : bytes) : nat :=
  match input data with Ret b => length b.(StringBuffer.str) | _ => 0%nat end.

Lemma fuzz_start_ok data : exists st : state, start data = Ret st /\ inv (input_size data) st.(sess).
Proof.
  unfold start, input_size. destruct (input_ok data) as (b & -> & Hb & Hc). rewrite outcome_bind_ret_l.
  eexists. split; [reflexivity|]. destruct registered_ok as [Hreg Hh]. destruct registered_fields as (_ & Hpm & Hseq).
  by apply inv_bind.
Qed.

(** Fuel for the turns on a stream of [n] bytes; a blank response nests at most ten
    deep. *)
Definition fuzz_fuel (n : nat) : nat := (20 + receive_fuel protocol_depth protocol_rank n)%nat.

Lemma inv_recv n fuel (s : session) : inv n s -> (fuzz_fuel n <= fuel)%nat ->
  match Session.recv_turn (D := Des) (Ser := Ser) (FS := J) protocol_schema fuel s with
  | Ret (Some s') => inv n s'
  | Ret None => ContentReader.isOpen s.(Session.reader) = false
  | Blocks | Undefined | OutOfFuel => False
  end.
Proof using HD.
  intros [Hr Hh He [w Hw] Hn] Hf. unfold fuzz_fuel in Hf.
  pose proof (recv_turn_total (D := Des) (Ser := Ser) (FS := J) protocol_schema protocol_depth protocol_rank n fuel s
    protocol_decodable Hr ltac:(lia)) as Ht.
  destruct (Session.recv_turn _ _ _) as [[s'|]| | |] eqn:E; [|done| |done..].
  - destruct Ht as [Hr' _]. destruct (recv_turn_keeps _ _ _ _ E) as (Hreq & Herr & Hwr & Hseq). split; [done|..].
    + unfold fuzz_handlers. by rewrite Hreq.
    + by rewrite Herr.
    + exists w. unfold writes_to. by rewrite Hwr.
    + by rewrite Hseq.
  - revert Ht. unfold ReadTotal.waits. by destruct (ContentReader.reader _).
Qed.

(** Running a handler's payload sends one response. *)
Lemma run_request n fuel (s : session) h data sequence command : inv n s -> (fuzz_fuel n <= fuel)%nat ->
  payload_typed protocol_schema s (Some (Session.RequestPayload h data sequence command)) ->
  exists s', Session.run_payload (D := Des) (Ser := Ser) (FS := J) protocol_schema fuel
      (Session.RequestPayload h data sequence command) s = Ret s' /\ inv n s'.
Proof using HD HL.
  intros [Hr Hh He [w Hw] Hn] Hf (Hseq & t & Ht & _). destruct (Hh _ _ Ht) as (response & Hresp & Ha & Hc).
  cbn in Hresp. subst h. unfold fuzz_fuel in Hf. destruct (answerable_sendable response fuel Ha ltac:(lia)) as [j Hj].
  destruct (reply_success (D := Des) (Ser := Ser) (FS := J) protocol_schema protocol_depth fuel protocol_schema_ok s w
    sequence command (TStruct response) _ j Hw Hj Hn Hseq Hc) as (text & w' & Hrep & Hwrote & _).
  exists (replied (TStruct response) (inl (blank (TStruct response))) w' s). split.
  - cbn [Session.run_payload handler request_handler Session.replies]. unfold reply_of, is_error. cbn [roe_error roe_response].
    rewrite bool_decide_eq_true_2 by done. cbn [negb]. rewrite Hrep. done.
  - unfold replied. destruct (Session.sent_lookup _ _) as [h|]; [destruct h|].
    destruct Hr as [Hr1 Hr2 Hr3]. split; [by split|done|done| |].
    + exists w'. split; [done|]. apply Hwrote.
    + cbn. apply u32_range.
Qed.

Lemma inv_dispatch n fuel (s : session) : inv n s -> (fuzz_fuel n <= fuel)%nat ->
  match Session.dispatch_turn (D := Des) (Ser := Ser) (FS := J) protocol_schema fuel s with
  | Ret (Some s') => inv n s'
  | Ret None => s.(Session.inbox).(Chan.closed) = true
  | Blocks => s.(Session.inbox).(Chan.queue) = []
  | Undefined | OutOfFuel => False
  end.
Proof using HD HL.
  intros Hi Hf. unfold Session.dispatch_turn. rewrite Chan.take_ready_spec.
  destruct (Session.inbox s) as [closed [|p q]] eqn:Eq; cbn [Chan.queue Chan.closed Chan.take].
  { by destruct closed. }
  cbn [negb]. set (s1 := Session.set_inbox _ s).
  assert (H1 : inv n s1 /\ payload_typed protocol_schema s1 (Some p)).
  { destruct Hi as [[Hr1 Hr2 Hr3] Hh He Hw Hn]. unfold inbox_typed in Hr2. rewrite Eq in Hr2.
    apply Forall_cons in Hr2 as [Hp Hq]. by split; [split; [split|..]|]. }
  destruct H1 as [H1 Hp]. destruct p as [h data sequence command|[]].
  destruct (run_request n fuel s1 h data sequence command H1 Hf Hp) as (s' & -> & Hs'). done.
Qed.

Lemma inv_steps n fuel (st st' : state) : inv n st.(sess) -> (fuzz_fuel n <= fuel)%nat -> steps fuel st st' ->
  inv n st'.(sess).
Proof using HD HL.
  intros Hi Hf Hs. revert Hi. induction Hs as [st|st st1 st' Hs _ IH]; [done|]. intros Hi. apply IH.
  destruct Hs as [s Hs|s Hs].
  - pose proof (inv_recv n fuel _ Hi Hf) as Ht. by rewrite Hs in Ht.
  - pose proof (inv_dispatch n fuel _ Hi Hf) as Ht. by rewrite Hs in Ht.
Qed.

(** C8. No input crashes the fuzzer: for every input the session is set up; and in
    every state its two threads can reach, in any interleaving, the next turn of the
    receiving thread returns, and the next turn of the dispatching thread returns, or
    waits because the inbox is empty: no input leads to undefined behaviour or to an
    endless loop within a turn. *)
Theorem fuzz_never_crashes (data : bytes) : exists st : state, start data = Ret st /\
  forall fuel st', (fuzz_fuel (input_size data) <= fuel)%nat -> steps fuel st st' ->
    (exists o, Session.recv_turn (D := Des) (Ser := Ser) (FS := J) protocol_schema fuel st'.(sess) = Ret o) /\
    ((exists o, Session.dispatch_turn (D := Des) (Ser := Ser) (FS := J) protocol_schema fuel st'.(sess) = Ret o) \/
     Session.dispatch_turn (D := Des) (Ser := Ser) (FS := J) protocol_schema fuel st'.(sess) = Blocks /\
     st'.(sess).(Session.inbox).(Chan.queue) = []).
Proof using HD HL.
  destruct (fuzz_start_ok data) as (st & Hst & Hi). exists st. split; [done|]. intros fuel st' Hf Hs.
  pose proof (inv_steps _ fuel st st' Hi Hf Hs) as Hi'. split.
  - pose proof (inv_recv _ fuel _ Hi' Hf) as Ht. destruct (Session.recv_turn _ _ _); [by eexists|done..].
  - pose proof (inv_dispatch _ fuel _ Hi' Hf) as Ht. destruct (Session.dispatch_turn _ _ _); [left; by eexists|by right|done..].
Qed.

(** ** What ends a test *)
Lemma errors_report m (s0 s : session) : s.(Session.hs).(Session.errorHandler) = Some tt -> (errors s0 <= errors s)%nat ->
  (errors s0 < errors (Session.error m s))%nat.
Proof.
  intros He Hs. unfold Session.error. rewrite He. unfold errors in *. cbn. rewrite List.filter_app, length_app. cbn. lia.
Qed.

(** A message that yields no payload is reported. *)
Definition reported (s : session) (r : option (Session.payload Empty_set) * session) : Prop :=
  (exists p, r.1 = Some p) \/ (errors s < errors r.2)%nat.

Lemma processMessage_reports fuel text (s : session) : s.(Session.hs).(Session.errorHandler) = Some tt ->
  yields (reported s) (Session.processMessage (D := Des) (Ser := Ser) (FS := J) protocol_schema fuel text s).
Proof.
  intros He. assert (Hrep : forall m, yields (reported s) (Ret (None, Session.error m s))).
  { intros m. apply yields_ret. right. by apply errors_report. }
  unfold Session.processMessage. apply yields_bind; intros d _.
  destruct (Session.get_string d "type"); [|apply Hrep]. destruct (Session.get_integer d "seq"); [|apply Hrep].
  case_bool_decide; [|case_bool_decide; [|case_bool_decide; [|apply Hrep]]].
  - unfold Session.processRequest. destruct (Session.get_string d "command"); [|apply Hrep].
    destruct (Session.requestMap _ !! _) as [[t h]|]; [|apply Hrep].
    apply yields_bind; intros c _. apply yields_bind; intros [[] v] _; [|apply Hrep].
    apply yields_ret. left. by eexists.
  - unfold Session.processEvent. destruct (Session.get_string d "event"); [|apply Hrep].
    destruct (Session.eventMap _ !! _) as [[t []]|]. apply Hrep.
  - apply yields_bind; intros s' Hs'. apply yields_ret. right. revert Hs'. unfold Session.processResponse.
    destruct (Session.get_integer d "request_seq") as [q|]; [|intros [= <-]; by apply errors_report].
    unfold Session.response. destruct (Session.responseMap _ !! q) as [[t []]|]. intros [= <-].
    apply errors_report; [by rewrite error_keeps_hs|]. apply Nat.lt_le_incl. by apply errors_report.
Qed.

(** Each test is done if a request is received or an error reported: a turn of the
    receiving thread that reads a message fires [requestOrError] or hands on a request,
    and a turn of the dispatching thread fires it. *)
Theorem fuzz_message_fires data fuel (st st1 st2 : state) :
  start data = Ret st -> (fuzz_fuel (input_size data) <= fuel)%nat -> steps fuel st st1 -> step fuel st1 st2 ->
  st2.(requestOrError) = true \/
  (exists x, st2.(sess) = Session.set_reader x st1.(sess)) \/
  (exists p, is_request p = true /\
    st2.(sess).(Session.inbox).(Chan.queue) = st1.(sess).(Session.inbox).(Chan.queue) ++ [p]).
Proof using HD HL.
  intros Hst Hf Hs. destruct (fuzz_start_ok data) as (st' & Hst' & Hi). rewrite Hst in Hst'. injection Hst' as <-.
  pose proof (inv_steps _ fuel st st1 Hi Hf Hs) as Hi1. intros Hstep. destruct Hstep as [s Hs1|s Hs1].
  - revert Hs1. unfold Session.recv_turn, Session.getPayload. destruct (negb _); [done|].
    destruct (ContentReader.read _ _) as [[msg x]| | |]; [|done..]. rewrite outcome_bind_ret_l.
    destruct (size_of (bytes_of msg) >? 0); [|intros [= <-]; right; left; by exists x].
    destruct (Session.processMessage _ _ _ _) as [[p s2]| | |] eqn:E; [|done..]. rewrite outcome_bind_ret_l. intros [= <-].
    destruct (processMessage_keeps _ _ _ _ _ E) as (_ & Hin & _).
    apply processMessage_reports in E; [|exact (iv_error _ _ Hi1)]. destruct E as [[q Hq]|Herr].
    + cbn in Hq. subst p. right. right. exists q. split; [by destruct q as [| []]|]. cbn in Hin. cbn. by rewrite Hin.
    + left. assert (Hlt : (errors st1.(sess) <? errors s2)%nat = true) by (apply Nat.ltb_lt; exact Herr).
      cbn [requestOrError]. by destruct p as [p|]; [change (errors (Session.set_inbox _ s2)) with (errors s2)|]; rewrite Hlt.
  - left. revert Hs1. unfold Session.dispatch_turn. rewrite Chan.take_ready_spec.
    destruct (Session.inbox (sess st1)) as [closed [|p q]] eqn:Eq; cbn [Chan.queue Chan.closed Chan.take].
    { by destruct closed. }
    intros _. cbn. by destruct p as [| []].
Qed.
End Facts.

(** The fuzzer has a handler for every request of the protocol, which answers with the
    response type the request declares. *)
Theorem fuzz_covers_protocol :
  DAP_REQUEST_LIST = request_response /\ DAP_REQUEST_LIST.*1 = si_struct <$> protocol_requests.
Proof. split; vm_compute; reflexivity. Qed.

(** ** Witnesses *)
Lemma fuzz_never_crashes_witness : exists st : state, start (bytes_of "wild input") = Ret st /\
  forall fuel st', (fuzz_fuel (input_size (bytes_of "wild input")) <= fuel)%nat -> steps fuel st st' ->
    exists o, Session.recv_turn (D := NlohmannDeserializer.t ReferenceLibrary.J)
      (Ser := NlohmannSerializer.t ReferenceLibrary.J) (FS := ReferenceLibrary.J) protocol_schema fuel st'.(sess) = Ret o.
Proof.
  destruct (fuzz_never_crashes (J := ReferenceLibrary.J) (bytes_of "wild input")) as (st & Hst & Hrun).
  exists st. split; [exact Hst|]. intros fuel st' Hf Hs. apply (Hrun fuel st' Hf Hs).
Defined.
End FuzzProps.
