(* ===== verification/NetExample.v ===== *)
(** * The network example ([examples/simple_net_client_server.cpp])

    [onClientConnected], the server's side of a connection: it binds a session to the
    socket and registers the handlers afterwards, while the session's threads already
    run. The model interleaves the two; the transport is any reader, here a pipe that
    stays open while the client waits for its response. The client's side, the rest of
    [main], is joined to a server that has registered its handlers as in [Wire.v]. *)
From Stdlib Require Import Ascii String ZArith Lia.
From stdpp Require Import base list strings gmap relations.
From S2P Require Import Prelude IO ContentStream Monitor Chan Pipe SMap Types Serialization Json Backend Decode.
From S2P Require Import Nlohmann ReferenceJson ProtocolTypes ProtocolRequests ProtocolResponses ProtocolEvents Protocol.
From S2P Require Import Session SessionProps Wire Fuzz.
Import NlohmannDeserializerFacts NlohmannSerializerFacts SessionProps.

Module NetExample.
Section Server.
Context {D Ser FS : Type} {HB : JsonBackend D Ser FS}.
Context (fuel : nat).

Abbreviation session := (Session.t Pipe.t Pipe.t Empty_set Empty_set Empty_set Empty_set).

(** How far [onClientConnected] has come. *)
Inductive point := Bound | InitializeRegistered | Waiting.

Record state := mk { sess : session; at_ : point; terminate : bool }.

(** [dap::InitializeResponse response; return response;] and [DisconnectResponse{}]. *)
Definition answer (response : string) : GenericRequestHandler :=
  request_handler (TStruct response) (fun _ => {| roe_response := blank (TStruct response); roe_error := EmptyString |}).

(** Up to [session->bind(socket)]. *)
Definition connected (socket : Pipe.t) : state :=
  mk (Session.bind socket Pipe.create (Session.setOnInvalidData kClose Session.create)).2 Bound false.

(** The disconnect handler sets [terminate]. *)
Definition disconnects (p : option (Session.payload Empty_set)) : bool :=
  match p with Some (Session.RequestPayload _ _ _ command) => bool_decide (command = "disconnect") | _ => false end.

Inductive step (st : state) : state -> Prop :=
| step_initialize : st.(at_) = Bound ->
    step st (mk (Session.put_request protocol_schema (TStruct "InitializeRequest") (answer "InitializeResponse") st.(sess))
                InitializeRegistered st.(terminate))
| step_disconnect : st.(at_) = InitializeRegistered ->
    step st (mk (Session.put_request protocol_schema (TStruct "DisconnectRequest") (answer "DisconnectResponse") st.(sess))
                Waiting st.(terminate))
| step_recv s : Session.recv_turn protocol_schema fuel st.(sess) = Ret (Some s) -> step st (mk s st.(at_) st.(terminate))
| step_dispatch s : Session.dispatch_turn protocol_schema fuel st.(sess) = Ret (Some s) ->
    step st (mk s st.(at_) (st.(terminate) || disconnects (head st.(sess).(Session.inbox).(Chan.queue)))).

Definition steps : state -> state -> Prop := rtc step.

(** ** The client *)

(** The promises of its two calls of [send]. *)
Inductive promise := InitializePromise | DisconnectPromise.

Abbreviation client_session_t := (Session.t Pipe.t Pipe.t Empty_set promise Empty_set Empty_set).

(** [auto session = dap::Session::create(); session->bind(client);] *)
Definition client_session : client_session_t := (Session.bind Pipe.create Pipe.create Session.create).2.

Definition initialize_call : Wire.call promise :=
  Wire.Call (TStruct "InitializeRequest") (TStruct "InitializeResponse") (blank (TStruct "InitializeRequest")) InitializePromise.
Definition disconnect_call : Wire.call promise :=
  Wire.Call (TStruct "DisconnectRequest") (TStruct "DisconnectResponse") (blank (TStruct "DisconnectRequest")) DisconnectPromise.

(** The server when both handlers were registered before a request arrived. *)
Definition registered_server : session :=
  Session.put_request protocol_schema (TStruct "DisconnectRequest") (answer "DisconnectResponse")
    (Session.put_request protocol_schema (TStruct "InitializeRequest") (answer "InitializeResponse")
      (connected Pipe.create).(sess)).

(** How far [main] has come: before the request, in [future.get()], at its end. *)
Inductive client_point := ClientBound | ClientWaiting | ClientDone.

Record main_state := Main {
  net : Wire.world Empty_set promise Empty_set Empty_set Empty_set Empty_set Empty_set Empty_set;
  client_at : client_point
}.

(** The promise has its value. *)
Definition got (c : client_session_t) : bool :=
  existsb (fun a => match a with Session.ResponseHandled InitializePromise _ => true | _ => false end) c.(Session.log).

Definition after_send (c : client_session_t) (x : Wire.call promise) (m : main_state) (p : client_point) : main_state :=
  Main (Wire.World c (Wire.attach c m.(net).(Wire.server)) (m.(net).(Wire.sent) ++ [x])) p.

Definition send (x : Wire.call promise) (c : client_session_t) : outcome (bool * client_session_t) :=
  Session.send_request protocol_schema fuel x.(Wire.request) x.(Wire.response) x.(Wire.argument) x.(Wire.handler) c.

Inductive main_step (m : main_state) : main_state -> Prop :=
| main_send b c : m.(client_at) = ClientBound -> send initialize_call m.(net).(Wire.client) = Ret (b, c) ->
    main_step m (after_send c initialize_call m ClientWaiting)
| main_get b c : m.(client_at) = ClientWaiting -> got m.(net).(Wire.client) = true ->
    send disconnect_call m.(net).(Wire.client) = Ret (b, c) ->
    main_step m (after_send c disconnect_call m ClientDone)
| main_turn w : Wire.turn protocol_schema fuel m.(net) w -> main_step m (Main w m.(client_at)).

Definition main_runs : main_state -> main_state -> Prop := rtc (fun m m' => main_step m m' /\ Wire.within fuel m'.(net)).
Definition main_start : main_state := Main (Wire.World client_session registered_server []) ClientBound.
End Server.
End NetExample.

Module NetExampleProps.
Import NetExample.
Section Props.
Context {D Ser FS : Type} {HB : JsonBackend D Ser FS} {HD : DeserializerView D} {HV : SerializerView Ser FS}.
Context {L : limits} {HC : JsonBackendContract D Ser FS L}.

Abbreviation session := (Session.t Pipe.t Pipe.t Empty_set Empty_set Empty_set Empty_set).

(** A session that has nothing to read and nothing to dispatch does nothing. *)
Lemma idle_waits fuel (s : session) :
  Refinement.connected s.(Session.reader) -> ContentReader.isOpen s.(Session.reader) = true ->
  s.(Session.reader).(ContentReader.on_invalid_data) = kClose -> Refinement.at_eof s.(Session.reader) = false ->
  Refinement.stream s.(Session.reader) = [] -> (0 < fuel)%nat ->
  s.(Session.inbox) = Chan.create ->
  Session.recv_turn (D := D) (Ser := Ser) (FS := FS) protocol_schema fuel s = Blocks /\
  Session.dispatch_turn (D := D) (Ser := Ser) (FS := FS) protocol_schema fuel s = Blocks.
Proof.
  intros Hc Ho Hm He Hs Hf Hi. split.
  - unfold Session.recv_turn, Session.getPayload. rewrite Ho. cbn [negb].
    pose proof (Refinement.read_refines_frame fuel s.(Session.reader) Hc) as Hr. rewrite Hs in Hr.
    specialize (Hr Hf). rewrite Hm, He in Hr. cbn in Hr. by rewrite Hr.
  - unfold Session.dispatch_turn. rewrite Hi. done.
Qed.

Lemma put_request_keeps t h (s : session) :
  let s' := Session.put_request protocol_schema t h s in
  s'.(Session.reader) = s.(Session.reader) /\ s'.(Session.writer) = s.(Session.writer) /\
  s'.(Session.inbox) = s.(Session.inbox) /\
  is_Some (s'.(Session.hs).(Session.requestMap) !! Session.name_of protocol_schema t) /\
  (forall n, is_Some (s.(Session.hs).(Session.requestMap) !! n) -> is_Some (s'.(Session.hs).(Session.requestMap) !! n)).
Proof.
  cbn zeta. unfold Session.put_request. destruct (Session.requestMap _ !! _) as [e|] eqn:E.
  - unfold Session.error. destruct (Session.errorHandler (Session.hs s)) as [[]|]. split_and!; [done..| |done]. by rewrite E.
  - split_and!; [done..| |]; cbn.
    + by rewrite lookup_insert_eq.
    + intros n Hn. destruct (decide (n = Session.name_of protocol_schema t)) as [->|Hne]; [by rewrite lookup_insert_eq|].
      by rewrite lookup_insert_ne.
Qed.

(** The example can lose its first request: when the client's [initialize] request
    arrives between [bind] and [registerHandler], the receiving thread drops it, and the
    server reaches a state with both handlers registered in which it has written nothing
    and neither of its threads can move: the client waits for the response for ever. *)
Theorem net_example_loses_request fuel text seq j :
  parsed text (request_doc seq "initialize" j) -> in_int64 seq = true -> carried text ->
  (length (encode text) < fuel)%nat ->
  exists st, steps (D := D) (Ser := Ser) (FS := FS) fuel (connected (Pipe.mk (encode text) false)) st /\
    st.(at_) = Waiting /\ is_Some (st.(sess).(Session.hs).(Session.requestMap) !! "initialize") /\
    st.(sess).(Session.writer) = ContentWriter.create Pipe.create /\
    forall st', ~ step (D := D) (Ser := Ser) (FS := FS) fuel st st'.
Proof using HC.
  intros Hp Hseq Hcar Hf. set (st0 := connected (Pipe.mk (encode text) false)).
  assert (Hc0 : Refinement.connected st0.(sess).(Session.reader)) by by eexists.
  assert (Hs0 : Refinement.stream st0.(sess).(Session.reader) = encode text ++ []) by by rewrite app_nil_r.
  destruct (MessageFacts.read_frame fuel st0.(sess).(Session.reader) text []) as (x & Hx & Hst & Hk);
    [done|by rewrite Hs0, app_nil_r|rewrite Hs0; by apply FrameFacts.frame_encode|].
  set (s1 := Session.set_reader x st0.(sess)).
  assert (Hrecv : Session.recv_turn (D := D) (Ser := Ser) (FS := FS) protocol_schema fuel st0.(sess) = Ret (Some s1)).
  { unfold Session.recv_turn, Session.getPayload. change (ContentReader.isOpen st0.(sess).(Session.reader)) with true. cbn [negb].
    rewrite Hx, outcome_bind_ret_l. destruct Hcar as [Hpos _].
    destruct (Z.gtb_spec (size_of (bytes_of text)) 0); [|lia]. destruct Hp as (d & Hd & Hm).
    rewrite (dispatch_request protocol_schema fuel text d _ seq _ Hd Hm eq_refl eq_refl Hseq).
    unfold Session.processRequest. rewrite (get_string_is _ _ "command" "initialize" Hm eq_refl eq_refl) by by apply plain_string.
    replace (Session.requestMap (Session.hs (Session.set_reader x (sess st0)))) with (∅ : gmap string (ty * GenericRequestHandler))
      by reflexivity. by rewrite lookup_empty. }
  set (s2 := Session.put_request protocol_schema (TStruct "InitializeRequest") (answer "InitializeResponse") s1).
  set (s3 := Session.put_request protocol_schema (TStruct "DisconnectRequest") (answer "DisconnectResponse") s2).
  destruct (put_request_keeps (TStruct "InitializeRequest") (answer "InitializeResponse") s1) as (Hr2 & Hw2 & Hi2 & Hq2 & _).
  destruct (put_request_keeps (TStruct "DisconnectRequest") (answer "DisconnectResponse") s2) as (Hr3 & Hw3 & Hi3 & _ & Hq3).
  fold s2 in Hr2, Hw2, Hi2, Hq2. fold s3 in Hr3, Hw3, Hi3, Hq3.
  exists (mk s3 Waiting false). split_and!.
  - eapply rtc_l; [by apply (step_recv _ _ s1)|]. eapply rtc_l; [by apply step_initialize|].
    eapply rtc_l; [by apply step_disconnect|]. apply rtc_refl.
  - done.
  - apply Hq3. exact Hq2.
  - cbn. by rewrite Hw3, Hw2.
  - destruct Hk as (Hcx & Hmx & Hex & Hox & _). cbn in Hmx, Hex, Hox.
    destruct (idle_waits fuel s3) as [Hb Hd]; rewrite ?Hr3, ?Hr2; [done..|lia|by rewrite Hi3, Hi2|].
    intros st' Hstep. inversion Hstep as [Hat|Hat|s Hrc|s Hdp]; [done|done|cbn [sess] in Hrc; congruence|cbn [sess] in Hdp; congruence].
Qed.
End Props.

(** An [initialize] request of the reference library. *)
Definition initialize_message : list (string * jtree) :=
  request_doc 1 "initialize" (encoded (blank (TStruct "InitializeRequest")) (TStruct "InitializeRequest")).

Lemma net_example_loses_request_witness : exists st,
  steps (D := lib_des) (Ser := lib_ser) (FS := lib_fs) 500 (connected (Pipe.mk (encode (text_of initialize_message)) false)) st /\
  st.(at_) = Waiting /\ st.(sess).(Session.writer) = ContentWriter.create Pipe.create.
Proof.
  destruct (net_example_loses_request (D := lib_des) (Ser := lib_ser) (FS := lib_fs) 500 (text_of initialize_message) 1
    (encoded (blank (TStruct "InitializeRequest")) (TStruct "InitializeRequest"))) as (st & Hs & Ha & _ & Hw & _).
  - message_by_compute.
  - reflexivity.
  - by_compute.
  - vm_compute. lia.
  - exists st. split_and!; [exact Hs|exact Ha|exact Hw].
Defined.

(** ** The example runs to its end *)
Section Completes.
Context {D Ser FS : Type} {HB : JsonBackend D Ser FS} {HD : DeserializerView D} {HV : SerializerView Ser FS}.
Context {HC : JsonBackendContract D Ser FS no_limits}.
Context (fuel : nat) (Hfuel : (30 <= fuel)%nat).

Definition serve (request : ty) (v : value) : ResponseOrError :=
  {| roe_response := blank (if bool_decide (request = TStruct "InitializeRequest") then TStruct "InitializeResponse"
                            else TStruct "DisconnectResponse"); roe_error := EmptyString |}.

Definition example_call (x : Wire.call promise) : Prop := x = initialize_call \/ x = disconnect_call.

Lemma example_callable x : example_call x ->
  Wire.callable (L := no_limits) protocol_schema protocol_depth fuel serve registered_server.(Session.hs).(Session.requestMap) x.
Proof using Hfuel.
  intros [-> | ->]; (split; [vm_compute; reflexivity|apply FuzzProps.answerable_sendable; [vm_compute; reflexivity|lia]| |]).
  1,3: cbn -[protocol_schema]; unfold Wire.command; by rewrite ?lookup_insert_eq.
  all: apply FuzzProps.answerable_sendable; [vm_compute; reflexivity|lia].
Qed.

Lemma example_joined : WireProps.joined client_session registered_server.
Proof. split; first [by eexists|by split|vm_compute; reflexivity]. Qed.

Abbreviation tracked := (Wire.tracked (D := D) (Ser := Ser) (FS := FS) (L := no_limits) protocol_schema protocol_depth fuel serve
  registered_server.(Session.hs).(Session.requestMap) client_session.(Session.nextSeq) client_session.(Session.log)).

(** The calls made when [main] is at a point. *)
Definition calls_at (p : client_point) : list (Wire.call promise) :=
  match p with ClientBound => [] | ClientWaiting => [initialize_call] | ClientDone => [initialize_call; disconnect_call] end.

Definition good (m : main_state) : Prop :=
  Wire.within fuel m.(net) /\ m.(net).(Wire.sent) = calls_at m.(client_at) /\ exists k, tracked k m.(net).

Lemma good_start : good main_start.
Proof using Hfuel.
  split; [by apply WireProps.joined_within; [apply example_joined|lia]|]. split; [done|].
  exists 0%nat. apply WireProps.joined_tracked, example_joined.
Qed.

Lemma good_step m m' : good m -> main_step (D := D) (Ser := Ser) (FS := FS) fuel m m' -> Wire.within fuel m'.(net) -> good m'.
Proof using HC Hfuel.
  intros (Hw & Hs & k & Ht) Hstep Hw'. split; [done|].
  assert (Hsim : Wire.step (D := D) (Ser := Ser) (FS := FS) protocol_schema fuel example_call m.(net) m'.(net)).
  { destruct Hstep as [b c _ Hc|b c _ _ Hc|w Hc]; cbn [net].
    - by eapply Wire.step_send; [left|].
    - by eapply Wire.step_send; [right|].
    - by apply Wire.step_turn. }
  split; [|exact (Wire.step_tracked protocol_schema protocol_depth fuel protocol_schema_ok serve _ _ _ example_call k
    m.(net) m'.(net) example_callable Ht Hw Hsim Hw')].
  destruct Hstep as [b c Ha Hc|b c Ha Hg Hc|w Hc]; cbn [net client_at after_send Wire.sent].
  - by rewrite Hs, Ha.
  - by rewrite Hs, Ha.
  - rewrite <-Hs. by destruct Hc.
Qed.

(** Sending one of the two calls returns. *)
Lemma good_send m x : good m -> example_call x ->
  exists b c, send (D := D) (Ser := Ser) (FS := FS) fuel x m.(net).(Wire.client) = Ret (b, c).
Proof using HC Hfuel.
  intros (_ & Hs & k & (dn & rs & ib & rq & reqs & resps & Hi & _)) Hx.
  destruct (Wire.send_inv protocol_schema protocol_depth fuel protocol_schema_ok serve _ _ _ dn rs ib rq reqs resps m.(net) x
    Hi (example_callable x Hx)) as (c & text & Hc & _).
  { rewrite Hs. destruct (client_at m); cbn; lia. }
  by exists true, c.
Qed.

(** The example completes once the server has registered its handlers: every run of
    [main] with the threads of the two sessions in which nothing more can happen ends with
    the client past its second [send], and both promises have been given the server's
    responses, in the order of the calls. *)
Theorem net_example_completes m :
  main_runs (D := D) (Ser := Ser) (FS := FS) fuel main_start m -> (forall m', ~ main_step (D := D) (Ser := Ser) (FS := FS) fuel m m') ->
  m.(client_at) = ClientDone /\
  m.(net).(Wire.client).(Session.log) =
    [ Session.ResponseHandled InitializePromise (inl (blank (TStruct "InitializeResponse")));
      Session.ResponseHandled DisconnectPromise (inl (blank (TStruct "DisconnectResponse"))) ].
Proof using HC Hfuel.
  intros Hr Hstuck. assert (Hg : good m).
  { generalize good_start. induction Hr as [m|m m1 m2 [Hs Hw] _ IH]; intros Hg; [done|]. apply IH; [done|]. by eapply good_step. }
  destruct Hg as (Hw & Hs & k & Ht). assert (Hg : good m) by (split_and!; [done|done|by exists k]).
  assert (k = 0%nat) as ->.
  { destruct (decide (k = 0%nat)) as [|Hne]; [done|].
    destruct (Wire.tracked_progress protocol_schema protocol_depth fuel protocol_schema_ok serve _ _ _ k m.(net) Ht Hw Hne) as [w Hturn].
    destruct (Hstuck (Main w m.(client_at))). by apply main_turn. }
  destruct (Wire.tracked_log protocol_schema protocol_depth fuel serve _ _ _ 0 m.(net) Ht) as (_ & n & _ & Hl & Hz).
  destruct (Hz eq_refl) as [-> _]. rewrite firstn_all, Hs in Hl. destruct (client_at m) eqn:Ha.
  - destruct (good_send m initialize_call Hg (or_introl eq_refl)) as (b & c & Hc).
    destruct (Hstuck (after_send c initialize_call m ClientWaiting)). by eapply main_send.
  - destruct (good_send m disconnect_call Hg (or_intror eq_refl)) as (b & c & Hc).
    destruct (Hstuck (after_send c disconnect_call m ClientDone)). eapply main_get; [done| |done]. unfold got. by rewrite Hl.
  - split; [done|]. rewrite Hl. reflexivity.
Qed.
End Completes.
End NetExampleProps.
